(* ===== verification/_CoqProject ===== *)
-Q . S2P
Prelude.v
EventStream.v
Health.v
ServiceEvents.v
Runners.v
HealthLoop.v
ServiceRunner.v
Services.v
Conditions.v
ServiceDefs.v
Logging.v
Drainer.v
NetAddr.v
AddressSpec.v
RouteSpec.v
Resources.v
LinkStatus.v
DHCP4.v
Network.v
LeaseRoutes.v
LeaseApplied.v
ServiceController.v
RuntimeControllers.v
ServiceMirror.v
Boot.v
Tsosctl.v
Registration.v
ResourceTypes.v
ControllerLoop.v
ControllerRuns.v
RouteRuns.v
BootMirror.v
DeepCopy.v
Machined.v
