(* ===== verification/Prelude.v ===== *)
(** * Verification of the Tailscale OS init daemon

    The program is [machined], the PID 1 of an appliance OS
    ([internal/app/machined]).  It mounts the filesystems, supervises services
    ([pkg/system]) and runs controllers ([pkg/controllers]) that bring the
    network to the state described by resources ([pkg/machinery/resources]).
    Services report their states to an event stream ([pkg/runtime]), which a
    controller turns into resources again, so that other controllers can wait
    for them.  This library models the parts below as pure functions, as state
    passing over interfaces, and as step relations where goroutines interleave,
    and proves what each part promises.

    ** Files, in dependency order (paths below [internal/app/machined] unless
    they start with [pkg/machinery])

    - [Prelude]: this file.  Go's integers at their width, errors, the monad of
      stateful fallible code ([M]), buffered channels, slices, the binary
      search of [sort.Search], and the tactics and lemmas that every other file
      uses.
    - [EventStream]: [pkg/runtime/events.go] and
      [pkg/runtime/v1alpha1/v1alpha1_events.go].  [Events] is the circular buffer,
      [consumer] the goroutine of a watch, [estep] their interleaving.
    - [Health]: [pkg/system/health].  [State] with its subscribers, [Run] the
      check loop.
    - [ServiceEvents]: [pkg/system/events/events.go] and
      [pkg/machinery/api/machine/machine.go].  The 64-slot history.
    - [Runners]: [pkg/system/runner] and its [restart], [process] and
      [goroutine] packages, over the record [Runner] with its laws.
    - [HealthLoop]: the check loop of [pkg/system/health/check.go] in the timed
      world of [Runners], with checks that take time: when it returns.
    - [ServiceRunner]: [pkg/system/service_runner.go] and [service.go].  The
      notifications ([cstep]) and the life of one service ([Run]), which waits
      for the health check in progress ([run_select]).
    - [Services]: [pkg/system/system.go] and [service_events.go].  The
      singleton, with [sstep] as the interleaving of its calls and goroutines.
    - [Drainer]: [pkg/runtime/drainer.go], with [dstep].
    - [NetAddr]: [pkg/machinery/resources/network], on the parts of [net/netip]
      and [net] it needs, and [broadcastAddr].
    - [AddressSpec], [RouteSpec]: the controllers of
      [pkg/controllers/network/address_spec.go] and [route_spec.go], against
      interfaces for the store of resources and for the kernel's tables.
    - [Resources]: the interface of the writes of a controller
      ([safe.WriterModify], [Destroy]).
    - [LinkStatus], [DHCP4]: [pkg/controllers/network/link_status.go] and
      [dhcp4.go].  [DHCP4] writes the address specs [AddressSpec] consumes, and
      takes the physical links from [LinkStatus].
    - [ServiceController]: [pkg/controllers/v1alpha1/service.go], which reads the
      messages of [ServiceEvents].
    - [Conditions]: the waits of [pkg/system/service_events.go] in the timed
      world of [Runners], and the conjunction of conditions a service with
      dependencies waits for.
    - [ServiceDefs]: [pkg/system/services].  Udevd, apid and tailscaled as
      instances of the [Service] of [ServiceRunner].
    - [Logging]: [pkg/runtime/logging], [pkg/runtime/logging.go] and
      [pkg/logging/zap.go], over a table of open files.
    - [Network], [LeaseRoutes]: a lease of [DHCP4] followed through the store to
      the kernel, its address by a turn of the controller of [AddressSpec], its
      routes by a pass of the controller of [RouteSpec].
    - [LeaseApplied]: the resources a lease writes, as functions of the numbers
      in its packet.
    - [RuntimeControllers]: [pkg/controllers/runtime], the order of the boot.
      The answers of the services singleton are arguments.
    - [ServiceMirror]: the runners of [ServiceRunner] report, the stream of
      [EventStream] carries, and the controller of [ServiceController] writes
      the resources; [mstep] is the interleaving of all this.
    - [Boot]: the service controllers of [RuntimeControllers] as the callers of
      the singleton of [Services].
    - [Tsosctl]: the client, [cmd/tsosctl].
    - [Registration]: the resource definitions, [NewState] of
      [pkg/runtime/v1alpha1/v1alpha1_state.go], the inputs and outputs of the
      controllers, and their registration in [controller.go].
    - [ResourceTypes]: the constructors of the typed resources and the functions
      [init] that register their encodings.
    - [ControllerLoop]: the shape of a controller's [Run], and what the adapter of
      the controller runtime does with it: [lstep] has the turns, the channel
      for one event, the inputs, the restart with its backoff, the delivery of
      changes and the cancellation.
    - [ControllerRuns]: the [Run] of each controller of [pkg/controllers] as a
      [loop] of [ControllerLoop] over the turns of [AddressSpec], [RouteSpec],
      [LinkStatus], [DHCP4] and [RuntimeControllers].
    - [RouteRuns]: the routes of the kernel when the route controller is at rest,
      while the kernel and other daemons change routes of their own.
    - [BootMirror]: [ServiceMirror] and the boot of [ControllerRuns], which meet
      in the resource of udevd.
    - [DeepCopy]: the generated deep copies, on a heap of arrays.
    - [Machined]: [mount.go], [main.go] and the rest of [controller.go]: the
      setup, the channel of signals, the main loop and the shutdown.  It uses
      [Registration] and [Logging].

    ** What is proved

    - Delivery.  The circular buffer refines the log of all events, and no
      consumer sleeps with events left ([EventStream]); every subscriber of a
      service event is notified under every interleaving ([ServiceRunner]);
      the drain event reaches everybody and [Drain] cannot hang once all have
      left ([Drainer]); each change of health is told once ([Health]); no signal
      is lost while eight or fewer have arrived ([Machined]).
    - Lifecycle.  At most one run per service, none after shutdown
      ([Services]); the order of the states a service goes through and the
      time a stop takes ([ServiceRunner]); a wait for a service ends when it
      should, and dependencies come first ([Conditions]); restart policies, the
      stop sequence of a process and its time bound, panics as errors
      ([Runners]); the health checks of udevd, the stops of the three services,
      with the end of their health checks ([HealthLoop]), and how apid ends
      ([ServiceDefs]); apid only after the devices are ready
      ([RuntimeControllers]), also on the singleton with everything that goes
      on in it ([Boot]), and no stall on the way there ([ControllerRuns]); what PID 1 does until its
      controllers run, and the shutdown sequence, which the wait for the services
      may keep from ever beginning ([Machined]).
    - Reconciliation.  After a pass the kernel's addresses and routes are those
      of the specs, a second pass changes nothing, teardown removes exactly
      what it should ([AddressSpec], [RouteSpec]); the statuses of links and
      services mirror what they describe ([LinkStatus], [ServiceController]);
      what a lease writes ([LeaseApplied]), and which clients are started and
      cancelled ([DHCP4]); the address and the
      routes of a lease are in the kernel after a turn of their controllers
      ([Network], [LeaseRoutes]); the resource of a service is what its runner
      last published, and what it last reported when events are published in
      the order they were made ([ServiceMirror]); a lease applied again changes
      no resource ([DHCP4]).
    - Controllers at rest.  The runtime forgets no change: a controller that has
      no event left has dealt with its inputs as they are.  Thus no address
      spec stays unapplied, and with nothing failing the address controller
      does come to rest; the entries of the DHCP clients are those of the links
      there are (an entry is not a client at work); the boot does not stall; the links are looked at once and never again
      ([ControllerRuns]); no route stays unapplied, those of a lease included
      ([RouteRuns]); a udevd that says it is healthy leads to apid's start
      ([BootMirror]).
    - Wiring.  Every input of a controller is a registered resource that a
      controller writes, no two controllers own the same output, and the
      client finds every definition by each of its names ([Registration],
      [Tsosctl]); every type has its encoding registered ([ResourceTypes]).
    - Data.  The history of service events refines a list ([ServiceEvents]);
      normalization, broadcast addresses and prefix conversions ([NetAddr],
      [DHCP4]); the search domains that reach the resolver ([DHCP4]); what
      writers of logs write and report ([Logging]); the documents the client
      prints ([Tsosctl]); deep copies share nothing with the original
      ([DeepCopy]).
    - Behaviour that is not what the code means to do is stated as it is, for
      instance [DHCP4.dhcp_client_life], [AddressSpec.address_teardown_never_deletes],
      [ServiceDefs.apid_stop_exact], [Services.shutdown_waits_for_never_started],
      [LeaseRoutes.two_routers_refused], [ControllerRuns.links_looked_at_once]
      and [ServiceMirror.MirrorDemo.overtaken_event_stays].

    ** Conventions

    - Numbers are [Z].  The board is a 32-bit ARM, so that Go's [int] has 32
      bits ([goint]); conversions are written out.  Times and durations are
      nanoseconds.
    - Errors are the type [error] with [%w] wrapping; a nil error is [None] or
      [Ok].  A nil dereference or an index out of range is [Panic].
    - Code under [vendor] that decides results (prefix conversions, DHCP options,
      identifiers, flags, the checks of zap and of the registries, the adapter
      of a controller) is modelled from its source; the rest (the store of
      resources, netlink, ethtool, DHCP exchanges, JSON, YAML, plurals, the
      reflection of [protoenc]) is an interface: a class of operations and,
      where a theorem needs it, a class of laws with an instance that satisfies
      them, at which the theorems are instantiated.
    - A turn of a controller is one step: it reads its inputs at its beginning,
      and what others change meanwhile counts as changed after it.  The watch
      of the runtime is the set of the kinds of resources with undelivered
      changes.
    - The kernel may remove or promote the secondary addresses of a primary
      address that is deleted ([AddressLaws]), and clears the host bits of an
      IPv6 destination ([RouteLaws]): the theorems on addresses take live specs
      of different networks, those on routes destinations without host bits.
      [AddressSpec.Demo.secondary_lost] shows what happens otherwise.
    - A condition made by [WaitForAll] is flat, so that no error of a wait is a
      list of errors itself.
    - The calls of loggers in the modelled code are left out; the loggers and
      their writers themselves are in [Logging] and [Machined].

    ** Fuel

    A loop that waits takes fuel, and [None] (in [Runners], [ServiceRunner],
    [Conditions], [ServiceDefs]) or a flag (in [DHCP4], [RuntimeControllers])
    says that it has not returned.  [restart_stops], [process_stops],
    [service_stops] and [system_services_stop] give fuel that is enough, from
    the time of the cancellation; [restart_fuel] of [ServiceDefs] is computed
    from that time, and [restarted_complete] shows, for a runner restarted
    forever, that a run with any fuel that returns is the run with this one.  The polls of [Conditions] and
    [ServiceDefs] get enough for the registration, the cancellation or the
    deadline that ends them; a poll that nothing ends returns with no fuel.
    [loop_fuel] of [HealthLoop] counts the periods until the cancellation, and
    [check_loop_ends] shows that it is enough.
    [sort.Search] gets the length it searches, [GetIPs] the length of the
    option, and the decoder of labels the product that [labels_loop_fuel] proves
    sufficient.  [dhcp_client_life] and [wait_loop] hold for every fuel: these
    loops need not end.

    ** Not modelled

    The goroutines in which the controller runtime runs its adapters and
    watches the store, beyond the steps of [ControllerLoop]; what netlink,
    ethtool and grpc do when dialed (a dial is a call that may fail); the tree
    of commands that cobra builds and parses; the reflection of [protoenc]; the
    interfaces of [pkg/runtime/logging.go] that neither logging manager uses;
    methods that only give out a field; the logger's and the network's [String]
    methods that only logs print; the constants of scheduling policies and of
    the priorities of input and output, which no code uses. *)

From Stdlib Require Export ZArith Lia.
From stdpp Require Export base tactics option list gmap sets strings.

(** ** Go integers *)

Declare Scope go_scope.
Delimit Scope go_scope with go.

(** Conversion of a mathematical integer to a signed [w]-bit Go integer. *)
Definition wrap_s (w z : Z) : Z := (z + 2 ^ (w - 1)) `mod` 2 ^ w - 2 ^ (w - 1).

(** Conversion to an unsigned [w]-bit Go integer. *)
Definition wrap_u (w z : Z) : Z := z `mod` 2 ^ w.

Definition int64 (z : Z) : Z := wrap_s 64 z.
Definition int32 (z : Z) : Z := wrap_s 32 z.
Definition uint8 (z : Z) : Z := wrap_u 8 z.
Definition uint16 (z : Z) : Z := wrap_u 16 z.
Definition uint32 (z : Z) : Z := wrap_u 32 z.

(** Go's [int] on the board the repository builds for (GOARCH=arm) has 32
    bits; this is also the narrower of the two widths Go allows. *)
Definition goint (z : Z) : Z := int32 z.

(** ** Go errors *)

(** [ESentinel] is a value compared by identity ([errors.New] at package
    level, or an error value produced by code outside the repository);
    [EWrap pre e post] is [fmt.Errorf("pre%wpost", e)]; [EMsg] is an error
    built without [%w]. *)
Inductive error : Type :=
| ESentinel (name : string)
| EWrap (pre : string) (e : error) (post : string)
| EMsg (text : string).

#[export] Instance error_eq_dec : EqDecision error.
Proof. solve_decision. Defined.

(** [err.Error()]. *)
Fixpoint Error (e : error) : string :=
  match e with
  | ESentinel s => s
  | EWrap pre e post => pre +:+ Error e +:+ post
  | EMsg t => t
  end.

(** [errors.Is(err, target)] for a sentinel target. *)
Fixpoint errors_Is (e : error) (target : string) : bool :=
  match e with
  | ESentinel s => bool_decide (s = target)
  | EWrap _ e _ => errors_Is e target
  | EMsg _ => false
  end.

Definition context_Canceled : string := "context canceled".
Definition context_DeadlineExceeded : string := "context deadline exceeded".

(** ** Results and the state-error monad *)

(** A Go call that returns [(value, error)], or panics. *)
Inductive result (A : Type) : Type :=
| Ok (a : A)
| Err (e : error)
| Panic (msg : string).
Arguments Ok {A} a.
Arguments Err {A} e.
Arguments Panic {A} msg.

(** Stateful fallible code over a world [W]. *)
Definition M (W A : Type) : Type := W -> W * result A.

#[export] Instance M_ret W : MRet (M W) := fun A a w => (w, Ok a).

#[export] Instance M_bind W : MBind (M W) := fun A B f m w =>
  match m w with
  | (w', Ok a) => f a w'
  | (w', Err e) => (w', Err e)
  | (w', Panic p) => (w', Panic p)
  end.

(** [return err]. *)
Definition fail {W A} (e : error) : M W A := fun w => (w, Err e).

(** A nil dereference, an index out of range or an explicit [panic]. *)
Definition panics {W A} (msg : string) : M W A := fun w => (w, Panic msg).

(** [if err := m; err != nil { return fmt.Errorf("pre%wpost", err) }]. *)
Definition wrap_err {W A} (pre : string) (m : M W A) : M W A := fun w =>
  match m w with
  | (w', Err e) => (w', Err (EWrap pre e ""))
  | r => r
  end.

(** The error as a value, for code that inspects it; a panic is not caught. *)
Definition attempt {W A} (m : M W A) : M W (A + error) := fun w =>
  match m w with
  | (w', Ok a) => (w', Ok (inl a))
  | (w', Err e) => (w', Ok (inr e))
  | (w', Panic p) => (w', Panic p)
  end.

(** [_ = m]: the error is dropped. *)
Definition ignore_err {W} (m : M W unit) : M W unit := fun w =>
  match m w with
  | (w', Err _) => (w', Ok tt)
  | r => r
  end.

(** [for _, x := range l { if err := f(x); err != nil { return err } }]. *)
Fixpoint for_range {W A} (f : A -> M W unit) (l : list A) : M W unit :=
  match l with
  | [] => mret tt
  | x :: l => _ ← f x; for_range f l
  end.

(** Go functions that return several values next to an error keep them as
    a tuple with [option error]; [None] is the nil error. *)

(** ** Buffered channels *)

Record chan (A : Type) : Type := mk_chan { chan_cap : nat; chan_buf : list A }.
Arguments mk_chan {A} _ _.
Arguments chan_cap {A} _.
Arguments chan_buf {A} _.

Definition make_chan (A : Type) (n : nat) : chan A := mk_chan n [].

(** [select { case ch <- v: default: }]. *)
Definition try_send {A} (v : A) (c : chan A) : chan A :=
  if decide (length (chan_buf c) < chan_cap c)%nat
  then mk_chan (chan_cap c) (chan_buf c ++ [v])
  else c.

(** [case v := <-ch] when a value is buffered. *)
Definition try_recv {A} (c : chan A) : option (A * chan A) :=
  match chan_buf c with
  | [] => None
  | v :: b => Some (v, mk_chan (chan_cap c) b)
  end.

(** ** Swap-delete of every occurrence of an element of a slice *)

(** The loop both [Unsubscribe] methods run:
    [for i := 0; i < len(s); { if s[i] == x { s[i] = s[len(s)-1]; s =
    s[:len(s)-1] } else { i++ } }].  Each iteration lowers [len(s) - i] by
    one, so [len(s)] iterations are enough. *)
Fixpoint swap_delete_loop {A} `{EqDecision A} (fuel : nat) (x : A) (i : nat) (s : list A) : list A :=
  match fuel with
  | O => s
  | S fuel =>
    match s !! i with
    | None => s
    | Some y =>
      if decide (y = x)
      then match last s with
           | Some z => swap_delete_loop fuel x i (take (length s - 1) (<[i := z]> s))
           | None => s
           end
      else swap_delete_loop fuel x (S i) s
    end
  end.

Definition swap_delete {A} `{EqDecision A} (x : A) (s : list A) : list A :=
  swap_delete_loop (length s) x 0 s.

(** ** Slices *)

(** [s[i]] and [s[i] = v]; [None] is the out-of-range panic. *)
Definition slice_get {A} (s : list A) (i : Z) : option A :=
  if decide (0 <= i)%Z then s !! Z.to_nat i else None.

Definition slice_set {A} (s : list A) (i : Z) (v : A) : option (list A) :=
  if decide (0 <= i < Z.of_nat (length s))%Z then Some (<[Z.to_nat i := v]> s) else None.

(** The elements of [l] at the positions [a, a+1, ..., b-1]. *)
Definition segment {A} (l : list A) (a b : Z) : list A :=
  take (Z.to_nat (b - a)) (drop (Z.to_nat a) l).

(** ** sort.Search *)

(** [i, j := 0, n; for i < j { h := (i+j)/2; if !f(h) { i = h+1 } else
    { j = h } }; return i]. *)
Fixpoint search_loop (fuel : nat) (f : Z -> bool) (i j : Z) : Z :=
  match fuel with
  | O => i
  | S fuel =>
    if decide (i < j)%Z
    then let h := ((i + j) / 2)%Z in
         if f h then search_loop fuel f i h else search_loop fuel f (h + 1)%Z j
    else i
  end.

Definition sort_Search (n : Z) (f : Z -> bool) : Z := search_loop (Z.to_nat n) f 0 n.

(** ** strings.ToLower, of ASCII text *)

Definition lower_byte (c : Ascii.ascii) : Ascii.ascii :=
  let n := Ascii.nat_of_ascii c in
  if decide (65 <= n <= 90)%nat then Ascii.ascii_of_nat (n + 32) else c.

Fixpoint ToLower (s : string) : string :=
  match s with
  | EmptyString => EmptyString
  | String c s => String (lower_byte c) (ToLower s)
  end.

(** ** Tactics and hints *)

Create HintDb go.

(** Case analysis on the innermost [match] of the goal or a hypothesis. *)
Ltac go_cases :=
  repeat (case_match || case_decide || case_bool_decide); simplify_eq/=.

(** Discharges a hypothesis at a concrete input: by [H], or by evaluation. *)
Ltac by_eval H := first [exact H | vm_compute; done].

(** Splits nested pairs bound by a [let]. *)
Ltac go_pairs :=
  repeat match goal with
  | H : context [let (_, _) := ?p in _] |- _ => destruct p eqn:?
  | |- context [let (_, _) := ?p in _] => destruct p eqn:?
  end; simplify_eq/=.

(** ** Lemmas on integers *)

Open Scope Z_scope.

Lemma wrap_s_small w z : 0 < w -> - 2 ^ (w - 1) <= z < 2 ^ (w - 1) -> wrap_s w z = z.
Proof.
  intros Hw Hz. unfold wrap_s.
  assert (2 ^ w = 2 * 2 ^ (w - 1)) as E by (rewrite <-Z.pow_succ_r by lia; f_equal; lia).
  rewrite Z.mod_small; lia.
Qed.

Lemma wrap_u_small w z : 0 <= z < 2 ^ w -> wrap_u w z = z.
Proof. intros. by apply Z.mod_small. Qed.

Lemma wrap_u_idemp w z : 0 <= w -> wrap_u w (wrap_u w z) = wrap_u w z.
Proof. intros. unfold wrap_u. apply Z.mod_mod. lia. Qed.

Lemma wrap_u_range w z : 0 <= w -> 0 <= wrap_u w z < 2 ^ w.
Proof. intros. apply Z.mod_pos_bound. lia. Qed.

Lemma int64_small z : - 2 ^ 63 <= z < 2 ^ 63 -> int64 z = z.
Proof. apply (wrap_s_small 64); lia. Qed.

Lemma goint_small z : - 2 ^ 31 <= z < 2 ^ 31 -> goint z = z.
Proof. apply (wrap_s_small 32); lia. Qed.

Lemma rem_mod_pos a b : 0 <= a -> 0 < b -> Z.rem a b = a `mod` b.
Proof. intros. apply Z.rem_mod_nonneg; lia. Qed.

Create Rewrite HintDb go_rw.

#[export] Hint Rewrite wrap_u_idemp using lia : go_rw.

(** ** Lemmas on the monad *)

Lemma M_bind_ok {W A B} (m : M W A) (f : A -> M W B) w w' r :
  mbind f m w = (w', Ok r) -> exists w1 a, m w = (w1, Ok a) /\ f a w1 = (w', Ok r).
Proof. unfold mbind, M_bind. intros H. go_cases. eauto. Qed.

Lemma for_range_app {W A} (f : A -> M W unit) l1 l2 w w1 :
  for_range f l1 w = (w1, Ok tt) -> for_range f (l1 ++ l2) w = for_range f l2 w1.
Proof.
  revert w. induction l1 as [|x l1 IH]; intros w H; simpl in *; [by inv H|].
  unfold mbind, M_bind in *. go_cases. by apply IH.
Qed.

Lemma wrap_err_ok {W A} pre (m : M W A) w w' r :
  wrap_err pre m w = (w', r) -> exists r0, m w = (w', r0) /\ (forall a, r = Ok a -> r0 = Ok a).
Proof. unfold wrap_err. destruct (m w) as [w1 [a|e|p]]; intros [= <- <-]; eexists; split; done. Qed.

Lemma attempt_ok {W A} (m : M W A) w w' r :
  attempt m w = (w', Ok r) -> match r with inl a => m w = (w', Ok a) | inr e => m w = (w', Err e) end.
Proof. unfold attempt. destruct (m w) as [w1 [a|e|p]]; intros [= <- <-]; done. Qed.

Lemma for_range_cons_ok {W A} (f : A -> M W unit) x l w w' :
  for_range f (x :: l) w = (w', Ok tt) -> exists w1, f x w = (w1, Ok tt) /\ for_range f l w1 = (w', Ok tt).
Proof. cbn [for_range]. intros (w1 & [] & H1 & H2)%M_bind_ok. eauto. Qed.

(** A loop invariant for [for_range], whatever the result. *)
Lemma for_range_inv {W A} (I : W -> Prop) (f : A -> M W unit) l w w' r :
  (forall x w1 w2 r1, x ∈ l -> I w1 -> f x w1 = (w2, r1) -> I w2) ->
  I w -> for_range f l w = (w', r) -> I w'.
Proof.
  revert w. induction l as [|x l IH]; intros w Hf Hw H; simpl in *; [by inv H|].
  unfold mbind, M_bind in *. destruct (f x w) as [w1 [a|e|p]] eqn:E.
  - eapply IH; [|eapply Hf; eauto; set_solver|done].
    intros; eapply Hf; eauto; set_solver.
  - inv H. eapply Hf; eauto; set_solver.
  - inv H. eapply Hf; eauto; set_solver.
Qed.

(** ** What a computation does to the world, whatever its result *)

Definition leaves {W A} (P : relation W) (m : M W A) : Prop := forall w w' r, m w = (w', r) -> P w w'.

Create HintDb leaves.

Section leaves.
Context {W : Type} (P : relation W) `{!PreOrder P}.

Lemma leaves_ret {A} (a : A) : leaves P (mret a).
Proof. by intros w w' r [= <- _]. Qed.

Lemma leaves_bind {A B} (m : M W A) (k : A -> M W B) : leaves P m -> (forall a, leaves P (k a)) -> leaves P (a ← m; k a).
Proof.
  intros Hm Hk w w' r. unfold mbind, M_bind. destruct (m w) as [w1 [a|e|p]] eqn:E; [|intros [= <- _]; by eapply Hm..].
  intros HR. etrans; [by eapply Hm|by eapply Hk].
Qed.

Lemma leaves_wrap {A} pre (m : M W A) : leaves P m -> leaves P (wrap_err pre m).
Proof. intros Hm w w' r (r0 & HR & _)%wrap_err_ok. by eapply Hm. Qed.

Lemma leaves_attempt {A} (m : M W A) : leaves P m -> leaves P (attempt m).
Proof.
  intros Hm w w' r. unfold attempt. destruct (m w) as [w1 [a|e|p]] eqn:E; intros [= <- _]; by eapply Hm.
Qed.

Lemma leaves_for_range {A} (f : A -> M W unit) l : (forall x, leaves P (f x)) -> leaves P (for_range f l).
Proof.
  intros Hf. induction l as [|x l IH]; cbn [for_range]; [apply leaves_ret|]. by apply leaves_bind; [|intros []].
Qed.

End leaves.

#[export] Hint Resolve leaves_ret leaves_bind leaves_wrap leaves_attempt leaves_for_range : leaves.
#[export] Hint Extern 0 (PreOrder _) => apply _ : leaves.

(** ** Lemmas on channels *)

Lemma try_send_bound {A} (v : A) c :
  (length (chan_buf c) <= chan_cap c)%nat ->
  (length (chan_buf (try_send v c)) <= chan_cap (try_send v c))%nat.
Proof. unfold try_send. case_decide; simpl; [rewrite length_app; simpl; lia|done]. Qed.

Lemma try_send_nonempty {A} (v : A) c :
  (0 < chan_cap c)%nat -> chan_buf (try_send v c) <> [].
Proof.
  unfold try_send. case_decide; simpl; [by destruct (chan_buf c)|].
  intros Hc E. rewrite E in *. simpl in *. lia.
Qed.

(** ** Lemmas on filters *)

Lemma filter_all {A} (P : A -> Prop) `{forall x, Decision (P x)} l : Forall P l -> filter P l = l.
Proof. induction 1; [done|]. rewrite filter_cons_True by done. congruence. Qed.

Lemma filter_none {A} (P : A -> Prop) `{forall x, Decision (P x)} l :
  Forall (fun x => ~ P x) l -> filter P l = [].
Proof. induction 1; [done|]. by rewrite filter_cons_False by done. Qed.

(** Replacing one element changes the count by the difference. *)
Lemma length_filter_insert {A} (P : A -> Prop) `{forall x, Decision (P x)} l k x y :
  l !! k = Some x ->
  (length (filter P (<[k := y]> l)) + (if decide (P x) then 1 else 0) =
   length (filter P l) + (if decide (P y) then 1 else 0))%nat.
Proof.
  revert k. induction l as [|z l IH]; intros k Hk; [done|]. destruct k as [|k]; simpl in *.
  - injection Hk as ->. rewrite !filter_cons. repeat case_decide; simpl; lia.
  - rewrite !filter_cons. specialize (IH k Hk). destruct (decide (P z)); simpl; lia.
Qed.

(** ** Lemmas on swap-delete *)

Section swap_delete.
Context {A : Type} `{EqDecision A}.
Implicit Types (x : A) (s : list A).

Lemma filter_ne_id x s : x ∉ s -> filter (.≠ x) s = s.
Proof.
  induction s as [|y s IH]; [done|]. intros [Hxy Hs]%not_elem_of_cons.
  rewrite filter_cons_True, IH by congruence. done.
Qed.

(** Replacing the element under the cursor by the last one and dropping the
    last removes one occurrence. *)
Lemma swap_delete_step_perm x i s z :
  s !! i = Some x -> last s = Some z ->
  x :: take (length s - 1) (<[i := z]> s) ≡ₚ s.
Proof.
  intros Hi Hl. apply last_Some in Hl as [l' ->].
  rewrite length_app, Nat.add_sub. simpl.
  destruct (decide (i = length l')) as [->|Hne].
  - rewrite lookup_app_r, Nat.sub_diag in Hi by lia. simpl in Hi. simplify_eq/=.
    rewrite insert_app_r_alt, Nat.sub_diag, take_app_length by lia.
    by rewrite Permutation_cons_append.
  - pose proof (lookup_lt_Some _ _ _ Hi) as Hlt. rewrite length_app in Hlt. simpl in Hlt.
    rewrite insert_app_l by lia. rewrite <-(length_insert l' i z), take_app_length.
    rewrite lookup_app_l in Hi by lia.
    rewrite <-(take_drop_middle l' i x Hi) at 2.
    rewrite insert_take_drop by lia.
    rewrite <-app_assoc. simpl. rewrite Permutation_middle.
    apply Permutation_app_head. constructor. by rewrite <-Permutation_cons_append.
Qed.

Lemma swap_delete_loop_perm fuel x i s :
  (length s - i <= fuel)%nat -> x ∉ take i s ->
  swap_delete_loop fuel x i s ≡ₚ filter (.≠ x) s.
Proof.
  revert i s. induction fuel as [|fuel IH]; intros i s Hf Hx; simpl.
  { rewrite take_ge in Hx by lia. by rewrite filter_ne_id. }
  destruct (s !! i) as [y|] eqn:Hi.
  2:{ apply lookup_ge_None in Hi. rewrite take_ge in Hx by lia.
      by rewrite filter_ne_id. }
  pose proof (lookup_lt_Some _ _ _ Hi) as Hlt. case_decide as Hyx.
  - subst y. destruct (last s) as [z|] eqn:Hl; [|by apply last_None in Hl; subst].
    pose proof (swap_delete_step_perm x i s z Hi Hl) as HP.
    etrans; [apply IH|].
    + rewrite length_take, length_insert. lia.
    + rewrite take_take, Nat.min_l by lia. by rewrite take_insert_ge by lia.
    + apply (filter_Permutation (.≠ x)) in HP. rewrite filter_cons_False in HP by (intros Hn; by apply Hn). done.
  - apply IH; [lia|]. rewrite (take_S_r _ _ _ Hi), elem_of_app, list_elem_of_singleton. intros [?|?]; congruence.
Qed.

Lemma swap_delete_perm x s : swap_delete x s ≡ₚ filter (.≠ x) s.
Proof. apply swap_delete_loop_perm; [lia|]. simpl. by apply not_elem_of_nil. Qed.

Lemma elem_of_swap_delete x y s : y ∈ swap_delete x s <-> y ∈ s /\ y <> x.
Proof. rewrite swap_delete_perm, list_elem_of_filter. apply and_comm. Qed.

End swap_delete.

(** ** Lemmas on slices *)

Lemma slice_get_Some {A} (s : list A) i :
  0 <= i < Z.of_nat (length s) -> exists v, slice_get s i = Some v.
Proof.
  intros Hi. unfold slice_get. rewrite decide_True by lia.
  apply lookup_lt_is_Some_2. lia.
Qed.

Lemma segment_empty {A} (l : list A) a : segment l a a = [].
Proof. unfold segment. by rewrite Z.sub_diag. Qed.

(** Extending a segment by the next element. *)
Lemma segment_snoc {A} (l : list A) a b v :
  0 <= a <= b -> l !! Z.to_nat b = Some v -> segment l a (b + 1) = segment l a b ++ [v].
Proof.
  intros Hab Hv. unfold segment.
  replace (Z.to_nat (b + 1 - a)) with (S (Z.to_nat (b - a))) by lia.
  apply take_S_r. rewrite lookup_drop. rewrite <-Hv. f_equal. lia.
Qed.

(** Appending to the list leaves the segments inside it unchanged. *)
Lemma segment_app {A} (l k : list A) a b :
  0 <= a -> b <= Z.of_nat (length l) -> segment (l ++ k) a b = segment l a b.
Proof.
  intros Ha Hb. unfold segment. destruct (decide (a <= b)).
  - destruct (decide (Z.to_nat a <= length l)%nat).
    + rewrite drop_app_le by lia. rewrite take_app_le; [done|]. rewrite length_drop. lia.
    + lia.
  - replace (Z.to_nat (b - a)) with O by lia. done.
Qed.

Lemma segment_lookup {A} (l : list A) a b k :
  0 <= a -> (k < Z.to_nat (b - a))%nat -> segment l a b !! k = l !! (Z.to_nat a + k)%nat.
Proof. intros. unfold segment. rewrite lookup_take_lt by lia. by rewrite lookup_drop. Qed.

Lemma segment_split {A} (l : list A) a b c :
  0 <= a <= b -> b <= c -> segment l a c = segment l a b ++ segment l b c.
Proof.
  intros. unfold segment.
  replace (Z.to_nat (c - a)) with (Z.to_nat (b - a) + Z.to_nat (c - b))%nat by lia.
  rewrite <-take_take_drop, drop_drop.
  by replace (Z.to_nat a + Z.to_nat (b - a))%nat with (Z.to_nat b) by lia.
Qed.

Lemma Forall_segment {A} (P : A -> Prop) (l : list A) a b :
  0 <= a -> (forall k x, a <= k < b -> l !! Z.to_nat k = Some x -> P x) -> Forall P (segment l a b).
Proof.
  intros Ha HP. apply Forall_lookup. intros i x Hi.
  pose proof (lookup_lt_Some _ _ _ Hi) as Hlt. unfold segment in Hlt. rewrite length_take in Hlt.
  rewrite segment_lookup in Hi by lia. apply (HP (a + Z.of_nat i)); [lia|].
  rewrite <-Hi. f_equal. lia.
Qed.

(** ** Lemmas on sort.Search *)

Lemma search_loop_spec fuel f i j n :
  (forall a b, 0 <= a <= b -> b < n -> f a = true -> f b = true) ->
  0 <= i <= j -> j <= n -> (Z.to_nat (j - i) <= fuel)%nat ->
  (forall k, 0 <= k < i -> f k = false) -> (forall k, j <= k < n -> f k = true) ->
  let r := search_loop fuel f i j in
  i <= r <= j /\ (forall k, 0 <= k < r -> f k = false) /\ (forall k, r <= k < n -> f k = true).
Proof.
  intros Hm. revert i j. induction fuel as [|fuel IH]; intros i j Hij Hjn Hf Hl Hr; simpl.
  { assert (i = j) as -> by lia. split; [lia|]. split; auto. }
  case_decide as Hlt.
  2:{ assert (i = j) as -> by lia. split; [lia|]. split; auto. }
  assert (i <= (i + j) / 2 < j) as Hh by (Z.div_mod_to_equations; lia).
  destruct (f ((i + j) / 2)) eqn:E.
  - destruct (IH i ((i + j) / 2)) as (H1 & H2 & H3); [lia..|done| |split; [lia|auto]].
    intros k Hk. apply (Hm ((i + j) / 2)); [lia|lia|done].
  - destruct (IH ((i + j) / 2 + 1) j) as (H1 & H2 & H3); [lia..| |done|split; [lia|auto]].
    intros k Hk. destruct (f k) eqn:Ek; [|done].
    rewrite (Hm k ((i + j) / 2)) in E; [done|lia|lia|done].
Qed.

(** For a monotone predicate, the result splits the range. *)
Lemma sort_Search_spec n f :
  0 <= n -> (forall a b, 0 <= a <= b -> b < n -> f a = true -> f b = true) ->
  0 <= sort_Search n f <= n /\
  (forall k, 0 <= k < sort_Search n f -> f k = false) /\
  (forall k, sort_Search n f <= k < n -> f k = true).
Proof. intros Hn Hm. apply (search_loop_spec (Z.to_nat n) f 0 n n Hm); lia. Qed.

(** Whatever the predicate, the result is in range. *)
Lemma sort_Search_range n f : 0 <= n -> 0 <= sort_Search n f <= n.
Proof.
  intros Hn. unfold sort_Search.
  assert (forall fuel i j, 0 <= i <= j -> i <= search_loop fuel f i j <= j) as H.
  { induction fuel as [|fuel IH]; intros i j Hij; simpl; [lia|]. case_decide; [|lia].
    assert (i <= (i + j) / 2 < j) by (Z.div_mod_to_equations; lia).
    destruct (f ((i + j) / 2)); [specialize (IH i ((i + j) / 2))|specialize (IH ((i + j) / 2 + 1) j)]; lia. }
  apply H. lia.
Qed.

(** ** Lemmas on strings *)

Lemma str_app_nil s : s +:+ "" = s.
Proof. induction s as [|c s IH]; [done|]. exact (f_equal (String c) IH). Qed.

Lemma str_app_assoc s t u : s +:+ (t +:+ u) = (s +:+ t) +:+ u.
Proof. induction s as [|c s IH]; [done|]. exact (f_equal (String c) IH). Qed.

(** The character does not occur. *)
Fixpoint lacks (c : Ascii.ascii) (s : string) : bool :=
  match s with "" => true | String d s => negb (Ascii.eqb d c) && lacks c s end.

Lemma lacks_app c s t : lacks c (s +:+ t) = lacks c s && lacks c t.
Proof. induction s as [|d s IH]; [done|]. change ((String d s) +:+ t) with (String d (s +:+ t)). cbn [lacks]. by rewrite IH, andb_assoc. Qed.

(** What comes before the first separator. *)
Lemma str_cut c p p' s s' :
  lacks c p = true -> lacks c p' = true -> p +:+ String c s = p' +:+ String c s' -> p = p' /\ s = s'.
Proof.
  revert p'. induction p as [|d p IH]; intros [|d' p']; cbn [lacks].
  - intros _ _ HE. change (String c s = String c s') in HE. injection HE as ->. done.
  - intros _ [Hd _]%andb_true_iff HE. change (String c s = String d' (p' +:+ String c s')) in HE. injection HE as <- _.
    by rewrite Ascii.eqb_refl in Hd.
  - intros [Hd _]%andb_true_iff _ HE. change (String d (p +:+ String c s) = String c s') in HE. injection HE as -> _.
    by rewrite Ascii.eqb_refl in Hd.
  - intros [_ H1]%andb_true_iff [_ H2]%andb_true_iff HE. change (String d (p +:+ String c s) = String d' (p' +:+ String c s')) in HE.
    injection HE as <- HE. by destruct (IH p' H1 H2 HE) as [-> ->].
Qed.
