(* ===== verification/EventStream.v ===== *)
(** * The runtime event stream

    Models [internal/app/machined/pkg/runtime/events.go] (events, watch
    options) and [internal/app/machined/pkg/runtime/v1alpha1/
    v1alpha1_events.go] (the circular buffer with one publisher side and any
    number of consumers).  [Publish] and the body of the goroutine [Watch]
    starts are definitions; the interleaving of publishers, consumers and the
    watchers' own goroutines is the step function [estep].  The theorems
    refine the circular buffer to the unbounded log of everything published. *)

From Stdlib Require Import Sorting.Sorted.
From S2P Require Import Prelude.

(** ** Events and watch options (runtime/events.go) *)

(** [xid.ID] is twelve bytes, here the 96-bit number they spell big-endian:
    [bytes.Compare] on them is the order of the numbers, the first four bytes
    are seconds since the epoch, and the nil ID is all zeroes. *)
Definition xid_IsNil (id : Z) : bool := bool_decide (id = 0).
Definition xid_Compare (id other : Z) : comparison := (id ?= other).
Definition xid_Time (id : Z) : Z := Z.shiftr id 64.

(** A payload is a byte slice; [None] is the nil slice. *)
Record Event := mkEvent {
  TypeURL : string;
  ID : Z;
  Payload : option string;
  ActorID : string
}.

#[export] Instance Event_eq_dec : EqDecision Event.
Proof. solve_decision. Defined.

#[export] Instance Event_inhabited : Inhabited Event := populate (mkEvent "" 0 None "").

Record EventInfo := mkEventInfo { info_Event : Event; Backlog : Z }.

Record WatchOptions := mkWatchOptions {
  TailEvents : Z;
  TailID : Z;
  TailDuration : Z;
  OptActorID : string
}.

Definition zeroWatchOptions : WatchOptions := mkWatchOptions 0 0 0 "".

Definition WatchOptionFunc : Type := WatchOptions -> result WatchOptions.

Definition WithTailEvents (number : Z) : WatchOptionFunc := fun opts =>
  if negb (xid_IsNil (TailID opts)) || negb (TailDuration opts =? 0)
  then Err (ESentinel "WithTailEvents can't be specified at the same time with WithTailID or WithTailDuration")
  else Ok (mkWatchOptions number (TailID opts) (TailDuration opts) (OptActorID opts)).

Definition WithTailID (id : Z) : WatchOptionFunc := fun opts =>
  if negb (TailEvents opts =? 0) || negb (TailDuration opts =? 0)
  then Err (ESentinel "WithTailID can't be specified at the same time with WithTailEvents or WithTailDuration")
  else Ok (mkWatchOptions (TailEvents opts) id (TailDuration opts) (OptActorID opts)).

Definition WithTailDuration (dur : Z) : WatchOptionFunc := fun opts =>
  if negb (TailEvents opts =? 0) || negb (xid_IsNil (TailID opts))
  then Err (ESentinel "WithTailDuration can't be specified at the same time with WithTailEvents or WithTailID")
  else Ok (mkWatchOptions (TailEvents opts) (TailID opts) dur (OptActorID opts)).

Definition WithActorID (actorID : string) : WatchOptionFunc := fun opts =>
  Ok (mkWatchOptions (TailEvents opts) (TailID opts) (TailDuration opts) actorID).

(** [NewEvent]; the fresh identifier is [xid.New()], supplied by the caller. *)
Definition NewEvent (id : Z) (payload : option string) (actorID : string) : Event :=
  mkEvent (match payload with Some _ => "tsos/runtime/todo" | None => "" end) id payload actorID.

(** ** The circular buffer (v1alpha1_events.go) *)

Record Events := mkEvents {
  stream : list Event;
  writePos : Z;
  cap : Z;
  gap : Z
}.

(** [make] panics on a negative length, the constructor on [gap >= capacity]. *)
Definition NewEvents (capacity g : Z) : result Events :=
  if capacity <? 0 then Panic "makeslice: len out of range"
  else if capacity <=? g then Panic "NewEvents: gap >= capacity"
  else Ok (mkEvents (replicate (Z.to_nat capacity) inhabitant) 0 capacity g).

(** [e.stream[p%int64(e.cap)]]; [None] is a runtime panic (division by zero or
    index out of range). *)
Definition slot (e : Events) (p : Z) : option Event :=
  if cap e =? 0 then None else slice_get (stream e) (Z.rem p (cap e)).

(** The critical section of [Publish], up to the broadcast. *)
Definition Publish (ev : Event) (e : Events) : option Events :=
  if cap e =? 0 then None
  else s ← slice_set (stream e) (Z.rem (writePos e) (cap e)) ev;
       Some (mkEvents s (int64 (writePos e + 1)) (cap e) (gap e)).

(** The loop over the functional options at the top of [Watch]. *)
Fixpoint apply_options (opts : WatchOptions) (os : list WatchOptionFunc) : result WatchOptions :=
  match os with
  | [] => Ok opts
  | o :: os =>
    match o opts with
    | Ok opts => apply_options opts os
    | r => r
    end
  end.

(** The lowest position a new consumer may start from. *)
Definition minPos (e : Events) : Z := Z.max (writePos e - (cap e - gap e)) 0.

(** The binary searches of [Watch] test the event [i] places above [minPos]. *)
Definition event_test (e : Events) (p : Event -> bool) (i : Z) : bool :=
  match slot e (minPos e + i) with Some ev => p ev | None => false end.

Definition after_id (id : Z) (ev : Event) : bool :=
  match xid_Compare (ID ev) id with Gt => true | _ => false end.

(** [event.ID.Time().After(timestamp)], in nanoseconds. *)
Definition after_time (timestamp : Z) (ev : Event) : bool :=
  timestamp <? xid_Time (ID ev) * 1000000000.

(** The initial position of a consumer; [now] is [time.Now()] in nanoseconds. *)
Definition watch_pos (e : Events) (opts : WatchOptions) (now : Z) : Z :=
  let pos := writePos e in
  if negb (TailEvents opts =? 0) then
    if TailEvents opts <? 0 then minPos e else Z.max (pos - TailEvents opts) (minPos e)
  else if negb (xid_IsNil (TailID opts)) then
    minPos e + sort_Search (goint (pos - minPos e)) (event_test e (after_id (TailID opts)))
  else if negb (TailDuration opts =? 0) then
    minPos e + sort_Search (goint (pos - minPos e)) (event_test e (after_time (now - TailDuration opts)))
  else pos.

(** The goroutine [Watch] starts for one consumer.  [CLoop]: about to lock the
    mutex; [CWaiting]: asleep on the condition variable; [CWoken]: woken by a
    broadcast, holding the mutex again; [CSend]: outside the mutex, offering an
    event to the watch function; [CClosed]: returned, channel closed. *)
Inductive cstatus :=
| CLoop
| CWaiting
| CWoken
| CSend (info : EventInfo)
| CClosed
| CPanicked.

(** [c_ctxdone]: the watch function has returned.  [c_start] and [c_got] are
    history: the initial position and what the watch function received. *)
Record consumer := mkConsumer {
  c_pos : Z;
  c_actor : string;
  c_status : cstatus;
  c_ctxdone : bool;
  c_start : Z;
  c_got : list EventInfo
}.

Definition set_status (st : cstatus) (c : consumer) : consumer :=
  mkConsumer (c_pos c) (c_actor c) st (c_ctxdone c) (c_start c) (c_got c).

Definition set_pos (p : Z) (c : consumer) : consumer :=
  mkConsumer p (c_actor c) (c_status c) (c_ctxdone c) (c_start c) (c_got c).

(** The actor filter: [opts.ActorID != "" && event.ActorID != opts.ActorID]
    skips the event. *)
Definition wanted (actor : string) (ev : Event) : bool :=
  bool_decide (actor = "") || bool_decide (ActorID ev = actor).

(** One pass through the critical section, from the test [pos == e.writePos]. *)
Definition consumer_fetch (e : Events) (c : consumer) : consumer :=
  if c_pos c =? writePos e then set_status CWaiting c
  else if cap e <=? writePos e - c_pos c then set_status CClosed c
  else match slot e (c_pos c) with
       | None => set_status CPanicked c
       | Some ev =>
         let pos := int64 (c_pos c + 1) in
         let backlog := goint (writePos e - pos) in
         let c := set_pos pos c in
         if wanted (c_actor c) ev then set_status (CSend (mkEventInfo ev backlog)) c
         else set_status CLoop c
       end.

(** [e.c.Broadcast()]. *)
Definition wake (c : consumer) : consumer :=
  match c_status c with CWaiting => set_status CWoken c | _ => c end.

(** ** Interleaving *)

(** [w_log] is history: every event ever published, in order. *)
Record world := mkWorld {
  w_events : Events;
  w_log : list Event;
  w_consumers : list consumer
}.

Inductive label :=
| SPublish (ev : Event)
| SWatch (opts : WatchOptions) (now : Z)
| SFetch (i : nat)
| SWake (i : nat)
| SDeliver (i : nat)
| SAbort (i : nat)
| SCancel (i : nat).

Definition new_consumer (e : Events) (opts : WatchOptions) (now : Z) : consumer :=
  let p := watch_pos e opts now in mkConsumer p (OptActorID opts) CLoop false p [].

(** The step a consumer takes on its own; [None] when it is not enabled. *)
Definition consumer_step (e : Events) (l : label) (c : consumer) : option consumer :=
  match l, c_status c with
  | SFetch _, CLoop => Some (consumer_fetch e c)
  | SWake _, CWoken => Some (if c_ctxdone c then set_status CClosed c else consumer_fetch e c)
  | SDeliver _, CSend info =>
    if c_ctxdone c then None
    else Some (mkConsumer (c_pos c) (c_actor c) CLoop false (c_start c) (c_got c ++ [info]))
  | SAbort _, CSend _ => if c_ctxdone c then Some (set_status CClosed c) else None
  | SCancel _, _ => Some (mkConsumer (c_pos c) (c_actor c) (c_status c) true (c_start c) (c_got c))
  | _, _ => None
  end.

(** The consumer a step belongs to. *)
Definition consumer_of (l : label) : option nat :=
  match l with
  | SFetch i | SWake i | SDeliver i | SAbort i | SCancel i => Some i
  | _ => None
  end.

Definition estep (w : world) (l : label) : option world :=
  match l with
  | SPublish ev =>
    e ← Publish ev (w_events w);
    Some (mkWorld e (w_log w ++ [ev]) (wake <$> w_consumers w))
  | SWatch opts now =>
    Some (mkWorld (w_events w) (w_log w) (w_consumers w ++ [new_consumer (w_events w) opts now]))
  | _ =>
    i ← consumer_of l;
    c ← w_consumers w !! i;
    c' ← consumer_step (w_events w) l c;
    Some (mkWorld (w_events w) (w_log w) (<[i := c']> (w_consumers w)))
  end.

(** Reachability from a fresh stream of the given capacity and gap. *)
Inductive reachable (capacity g : Z) : world -> Prop :=
| reach_init e : NewEvents capacity g = Ok e -> reachable capacity g (mkWorld e [] [])
| reach_step w l w' : reachable capacity g w -> estep w l = Some w' -> reachable capacity g w'.

Fixpoint run (w : world) (ls : list label) : option world :=
  match ls with
  | [] => Some w
  | l :: ls => w' ← estep w l; run w' ls
  end.

(** ** Invariants *)

(** The circular buffer holds the last [cap] events of the log. *)
Record ring_ok (e : Events) (log : list Event) : Prop := {
  ring_cap : 0 < cap e < 2 ^ 31;
  ring_gap : 0 <= gap e < cap e;
  ring_len : Z.of_nat (length (stream e)) = cap e;
  ring_pos : writePos e = Z.of_nat (length log);
  ring_slots : forall p, 0 <= p < writePos e -> writePos e - cap e <= p ->
                 slot e p = log !! Z.to_nat p
}.

(** What the consumer has taken out of the buffer and not dropped. *)
Definition taken (c : consumer) : list Event :=
  (info_Event <$> c_got c) ++ match c_status c with CSend i => [info_Event i] | _ => [] end.

(** An event in the hands of an aborting consumer is never delivered. *)
Definition consumer_ok (e : Events) (log : list Event) (c : consumer) : Prop :=
  0 <= c_start c <= c_pos c /\ c_pos c <= writePos e /\
  c_status c <> CPanicked /\
  (c_status c = CWaiting -> c_pos c = writePos e) /\
  (c_status c = CClosed \/
   taken c = filter (fun ev => wanted (c_actor c) ev = true) (segment log (c_start c) (c_pos c))) /\
  (info_Event <$> c_got c) `prefix_of`
    filter (fun ev => wanted (c_actor c) ev = true) (segment log (c_start c) (c_pos c)) /\
  Forall (fun i => 0 <= Backlog i < cap e) (c_got c) /\
  (forall i, c_status c = CSend i -> 0 <= Backlog i < cap e).

Definition world_ok (w : world) : Prop :=
  ring_ok (w_events w) (w_log w) /\
  Forall (consumer_ok (w_events w) (w_log w)) (w_consumers w).

(** ** Lemmas on the circular buffer *)

Lemma NewEvents_ok capacity g e :
  capacity < 2 ^ 31 -> 0 <= g -> NewEvents capacity g = Ok e -> ring_ok e [].
Proof.
  intros Hc Hg H. unfold NewEvents in H. destruct (Z.ltb_spec capacity 0); [done|].
  destruct (Z.leb_spec capacity g); [done|]. injection H as <-.
  split; simpl; try lia. rewrite length_replicate. lia.
Qed.

(** Under the ring invariant, a position of the window reads its slot. *)
Lemma slot_window e log p :
  ring_ok e log -> 0 <= p < writePos e -> writePos e - cap e <= p ->
  exists ev, slot e p = Some ev /\ log !! Z.to_nat p = Some ev.
Proof.
  intros R Hp Hw. pose proof (ring_pos _ _ R).
  destruct (lookup_lt_is_Some_2 log (Z.to_nat p)) as [ev Hev]; [lia|].
  exists ev. by rewrite (ring_slots _ _ R p).
Qed.

Lemma slot_mod e p :
  0 < cap e -> 0 <= p -> slot e p = stream e !! Z.to_nat (p `mod` cap e).
Proof.
  intros Hc Hp. unfold slot, slice_get.
  destruct (Z.eqb_spec (cap e) 0); [lia|]. rewrite rem_mod_pos by lia.
  pose proof (Z.mod_pos_bound p (cap e) Hc). by rewrite decide_True by lia.
Qed.

(** Two positions less than a capacity apart share a slot only if equal. *)
Lemma mod_window a b c : 0 < c -> 0 <= a -> a - c < b < a -> b `mod` c <> a `mod` c.
Proof.
  intros Hc Ha Hb E. assert ((a - b) `mod` c = 0) as H.
  { rewrite Zminus_mod, E, Z.sub_diag, Z.mod_0_l; lia. }
  rewrite Z.mod_small in H; lia.
Qed.

Lemma Publish_ok ev e log :
  ring_ok e log -> Z.of_nat (length log) < 2 ^ 63 - 1 ->
  exists e', Publish ev e = Some e' /\ ring_ok e' (log ++ [ev]) /\
    cap e' = cap e /\ writePos e' = writePos e + 1.
Proof.
  intros R Hlen. destruct R as [Rc Rg Rl Rp Rs].
  pose proof (Z.mod_pos_bound (writePos e) (cap e) ltac:(lia)) as Hm.
  unfold Publish. destruct (Z.eqb_spec (cap e) 0); [lia|].
  rewrite rem_mod_pos by lia. unfold slice_set. rewrite decide_True by lia.
  eexists. split; [done|]. rewrite int64_small by lia.
  split; [|done]. split; simpl; try lia.
  - by rewrite length_insert.
  - rewrite length_app. simpl. lia.
  - intros p Hp Hw. rewrite slot_mod by (simpl; lia). simpl.
    destruct (decide (p = writePos e)) as [->|Hne].
    + rewrite list_lookup_insert_eq by lia. rewrite Rp, Nat2Z.id.
      by rewrite lookup_app_r, Nat.sub_diag by lia.
    + rewrite list_lookup_insert_ne.
      2:{ pose proof (Z.mod_pos_bound p (cap e) ltac:(lia)).
          pose proof (mod_window (writePos e) p (cap e)). lia. }
      rewrite lookup_app_l by lia. rewrite <-Rs by lia. by rewrite slot_mod by lia.
Qed.

Lemma minPos_range e log : ring_ok e log -> 0 <= minPos e <= writePos e.
Proof. intros [? ? ? ? ?]. unfold minPos. lia. Qed.

Lemma goint_avail e log :
  ring_ok e log -> goint (writePos e - minPos e) = writePos e - minPos e.
Proof. intros [? ? ? ? ?]. apply goint_small. unfold minPos. lia. Qed.

(** Whatever the options, a consumer starts inside the window. *)
Lemma watch_pos_range e log opts now :
  ring_ok e log -> minPos e <= watch_pos e opts now <= writePos e.
Proof.
  intros R. pose proof (minPos_range e log R). unfold watch_pos.
  rewrite (goint_avail e log R).
  pose proof (sort_Search_range (writePos e - minPos e) (event_test e (after_id (TailID opts)))).
  pose proof (sort_Search_range (writePos e - minPos e)
    (event_test e (after_time (now - TailDuration opts)))).
  destruct (Z.eqb_spec (TailEvents opts) 0); simpl.
  - destruct (xid_IsNil (TailID opts)); simpl; [|lia].
    destruct (Z.eqb_spec (TailDuration opts) 0); simpl; lia.
  - destruct (Z.ltb_spec (TailEvents opts) 0); lia.
Qed.

(** ** Lemmas on consumers *)

Lemma taken_got c :
  (forall i, c_status c <> CSend i) -> taken c = info_Event <$> c_got c.
Proof. unfold taken. destruct (c_status c) as [| | |i| |]; intros H; rewrite ?app_nil_r; [done..|by destruct (H i)|done|done]. Qed.

Lemma wanted_segment c log ev :
  0 <= c_start c <= c_pos c -> log !! Z.to_nat (c_pos c) = Some ev ->
  filter (fun ev => wanted (c_actor c) ev = true) (segment log (c_start c) (c_pos c + 1)) =
  filter (fun ev => wanted (c_actor c) ev = true) (segment log (c_start c) (c_pos c)) ++
  (if wanted (c_actor c) ev then [ev] else []).
Proof.
  intros Hs Hl. rewrite (segment_snoc _ _ _ ev) by done. rewrite filter_app.
  rewrite filter_cons, filter_nil. case_decide; destruct (wanted _ _); done.
Qed.

(** The critical section preserves the invariant. *)
Lemma consumer_fetch_ok e log c :
  ring_ok e log -> Z.of_nat (length log) < 2 ^ 63 ->
  c_status c = CLoop \/ c_status c = CWoken ->
  consumer_ok e log c -> consumer_ok e log (consumer_fetch e c).
Proof.
  intros R Hlen Hst (Hs & Hp & Hpan & Hwait & Htk & Hpre & Hbl & Hsd).
  assert (taken c = info_Event <$> c_got c) as Hgot by (apply taken_got; intros i E; rewrite E in Hst; by destruct Hst).
  destruct Htk as [E|Htk]; [rewrite E in Hst; by destruct Hst|]. rewrite Hgot in Htk.
  unfold consumer_fetch. destruct (Z.eqb_spec (c_pos c) (writePos e)).
  { repeat split; simpl; rewrite ?taken_got by done; try done; try lia. by right. }
  destruct (Z.leb_spec (cap e) (writePos e - c_pos c)).
  { repeat split; simpl; try done; try lia. by left. }
  destruct (slot_window e log (c_pos c) R) as (ev & -> & Hev); [lia..|].
  pose proof (ring_cap _ _ R). pose proof (ring_pos _ _ R).
  rewrite int64_small by lia. rewrite goint_small by lia.
  pose proof (wanted_segment c log ev Hs Hev) as Hseg.
  assert (0 <= writePos e - (c_pos c + 1) < cap e) by lia.
  simpl. destruct (wanted (c_actor c) ev) eqn:Hw; (split_and!; simpl; try done; try lia).
  - right. unfold taken. simpl. rewrite Htk. by symmetry.
  - rewrite Hseg. by apply prefix_app_r.
  - intros i [= <-]. done.
  - right. rewrite taken_got by done. simpl. rewrite Htk, Hseg. by rewrite app_nil_r.
  - rewrite Hseg. by apply prefix_app_r.
Qed.

(** A publication leaves every consumer consistent with the longer log. *)
Lemma consumer_ok_publish e e' log ev c :
  ring_ok e log -> cap e' = cap e -> writePos e' = writePos e + 1 ->
  consumer_ok e log c -> consumer_ok e' (log ++ [ev]) (wake c).
Proof.
  intros R Hc Hw (Hs & Hp & Hpan & Hwait & Htk & Hpre & Hbl & Hsd).
  pose proof (ring_pos _ _ R). unfold wake.
  destruct (c_status c) eqn:Est; (split_and!; simpl; rewrite ?Hc, ?Hw, ?Est, ?segment_app by lia;
    try done; try lia).
  all: try (destruct Htk as [?|Htk]; [by left|right]; unfold taken in *; rewrite Est in *; done).
  all: intros i [= <-]; by apply Hsd.
Qed.

Lemma consumer_step_ok e log l c c' :
  ring_ok e log -> Z.of_nat (length log) < 2 ^ 63 -> consumer_ok e log c ->
  consumer_step e l c = Some c' -> consumer_ok e log c'.
Proof.
  intros R Hlen Hc Hst. pose proof (consumer_fetch_ok e log c R Hlen) as Hf.
  pose proof Hc as (Hs & Hp & Hpan & Hwait & Htk & Hpre & Hbl & Hsd).
  unfold consumer_step in Hst. destruct l; try done.
  - destruct (c_status c) eqn:Est; simplify_eq. apply Hf; [by left|done].
  - destruct (c_status c) eqn:Est; simplify_eq. destruct (c_ctxdone c); [|apply Hf; [by right|done]].
    split_and!; simpl; try done; try lia. by left.
  - destruct (c_status c) as [| | |info| |] eqn:Est; try done.
    destruct (c_ctxdone c); simplify_eq. destruct Htk as [?|Htk]; [done|].
    unfold taken in Htk. rewrite Est in Htk.
    split_and!; simpl; try done; try lia.
    + right. rewrite taken_got by done. simpl. by rewrite fmap_app.
    + rewrite fmap_app. simpl. by rewrite Htk.
    + apply Forall_app_2; [done|]. apply Forall_singleton, Hsd. done.
  - destruct (c_status c) eqn:Est; try done. destruct (c_ctxdone c); simplify_eq.
    split_and!; simpl; try done; try lia. by left.
  - simplify_eq. split_and!; simpl; try done; try lia.
Qed.

Lemma new_consumer_ok e log opts now :
  ring_ok e log -> consumer_ok e log (new_consumer e opts now).
Proof.
  intros R. pose proof (watch_pos_range e log opts now R). pose proof (minPos_range e log R).
  split_and!; simpl; try done; try lia.
  - right. rewrite taken_got by done. simpl. by rewrite segment_empty.
  - apply prefix_nil.
Qed.

(** The three kinds of steps. *)
Lemma estep_inv w l w' : estep w l = Some w' ->
  (exists ev e', l = SPublish ev /\ Publish ev (w_events w) = Some e' /\
     w' = mkWorld e' (w_log w ++ [ev]) (wake <$> w_consumers w)) \/
  (exists opts now, l = SWatch opts now /\
     w' = mkWorld (w_events w) (w_log w) (w_consumers w ++ [new_consumer (w_events w) opts now])) \/
  (exists i c c', consumer_of l = Some i /\ w_consumers w !! i = Some c /\
     consumer_step (w_events w) l c = Some c' /\
     w' = mkWorld (w_events w) (w_log w) (<[i := c']> (w_consumers w))).
Proof.
  intros H. destruct l as [ev|opts now|i|i|i|i|i].
  3-7: right; right; unfold estep in H; repeat (apply bind_Some in H as (? & ? & H)); naive_solver.
  - left. unfold estep in H. apply bind_Some in H as (e' & H & [= <-]). eauto.
  - right; left. injection H as <-. eauto.
Qed.

Lemma estep_intro w l i c c' :
  consumer_of l = Some i -> w_consumers w !! i = Some c -> consumer_step (w_events w) l c = Some c' ->
  estep w l = Some (mkWorld (w_events w) (w_log w) (<[i := c']> (w_consumers w))).
Proof.
  intros Hl Hi Hc. assert (forall P : option world, P = (i ← consumer_of l; c ← w_consumers w !! i;
    c' ← consumer_step (w_events w) l c;
    Some (mkWorld (w_events w) (w_log w) (<[i := c']> (w_consumers w)))) ->
    P = Some (mkWorld (w_events w) (w_log w) (<[i := c']> (w_consumers w)))) as H.
  { intros P ->. rewrite Hl. apply bind_Some. eexists. split; [done|].
    rewrite Hi. apply bind_Some. eexists. split; [done|]. rewrite Hc. done. }
  apply H. by destruct l.
Qed.

Lemma estep_log w l w' : estep w l = Some w' ->
  (length (w_log w) <= length (w_log w'))%nat.
Proof.
  intros [(ev & e' & -> & _ & ->)|[(opts & now & -> & ->)|(i & c & c' & _ & _ & _ & ->)]]%estep_inv;
    simpl; [rewrite length_app|..]; lia.
Qed.

Lemma estep_ok w l w' :
  world_ok w -> Z.of_nat (length (w_log w')) < 2 ^ 63 -> estep w l = Some w' -> world_ok w'.
Proof.
  intros [R Hcs] Hlen [(ev & e' & -> & HP & ->)|[(opts & now & -> & ->)|
    (i & c & c' & _ & Hi & Hst & ->)]]%estep_inv; simpl in *.
  - rewrite length_app in Hlen. simpl in Hlen.
    destruct (Publish_ok ev _ _ R) as (e2 & HP2 & R2 & Hc & Hw); [lia|].
    rewrite HP in HP2. simplify_eq. split; simpl; [done|].
    rewrite Forall_fmap. eapply Forall_impl; [exact Hcs|]. intros c Hc'.
    eapply consumer_ok_publish; eauto.
  - split; simpl; [done|]. apply Forall_app_2; [done|]. by apply Forall_singleton, new_consumer_ok.
  - split; simpl; [done|]. apply Forall_insert; [done|].
    eapply consumer_step_ok; [done|done|by eapply Forall_lookup_1|exact Hst].
Qed.

(** Every reachable world is consistent, as long as fewer than 2^63 events
    were published. *)
Lemma reachable_ok capacity g w :
  capacity < 2 ^ 31 -> 0 <= g -> reachable capacity g w ->
  Z.of_nat (length (w_log w)) < 2 ^ 63 -> world_ok w.
Proof.
  intros Hc Hg H. induction H as [e He|w l w' H IH Hst]; intros Hlen.
  - split; simpl; [by eapply NewEvents_ok|done].
  - pose proof (estep_log _ _ _ Hst). eapply estep_ok; eauto. apply IH. lia.
Qed.

Lemma reachable_consumer capacity g w i c :
  capacity < 2 ^ 31 -> 0 <= g -> reachable capacity g w ->
  Z.of_nat (length (w_log w)) < 2 ^ 63 -> w_consumers w !! i = Some c ->
  consumer_ok (w_events w) (w_log w) c.
Proof. intros ???? Hi. by eapply Forall_lookup_1; [eapply reachable_ok|]. Qed.

(** The capacity and the gap never change. *)
Lemma Publish_cap_gap ev e e' : Publish ev e = Some e' -> cap e' = cap e /\ gap e' = gap e.
Proof.
  unfold Publish. destruct (cap e =? 0); [done|]. intros H.
  apply bind_Some in H as (s & _ & [= <-]). done.
Qed.

Lemma reachable_cap_gap capacity g w :
  reachable capacity g w -> cap (w_events w) = capacity /\ gap (w_events w) = g.
Proof.
  induction 1 as [e He|w l w' Hr [IHc IHg] Hst].
  - unfold NewEvents in He. destruct (capacity <? 0); [done|].
    destruct (capacity <=? g); [done|]. by injection He as <-.
  - apply estep_inv in Hst as [(ev & e' & -> & HP & ->)|[(opts & now & -> & ->)|
      (i & c & c' & _ & _ & _ & ->)]]; simpl; try done.
    apply Publish_cap_gap in HP as [-> ->]. done.
Qed.

(** A burst of publications moves only the write position. *)
Lemma run_publishes evs w w' c :
  run w (SPublish <$> evs) = Some w' -> world_ok w ->
  Z.of_nat (length (w_log w)) + Z.of_nat (length evs) < 2 ^ 63 -> last (w_consumers w) = Some c ->
  c_status c <> CWaiting ->
  world_ok w' /\ cap (w_events w') = cap (w_events w) /\
  writePos (w_events w') = writePos (w_events w) + Z.of_nat (length evs) /\
  last (w_consumers w') = Some c.
Proof.
  revert w. induction evs as [|ev evs IH]; intros w H Hok Hlen Hl Hw; simpl in *.
  - simplify_eq. rewrite Z.add_0_r. done.
  - apply bind_Some in H as (w1 & Hst & H). destruct Hok as [R Hcs].
    destruct (Publish_ok ev _ _ R) as (e' & HP & R' & Hcap & Hwr); [lia|].
    pose proof (estep_ok w (SPublish ev) w1 (conj R Hcs)) as Hok1.
    unfold estep in Hst, Hok1. rewrite HP in Hst, Hok1. simpl in Hst, Hok1. simplify_eq.
    destruct (IH _ H) as (? & Hc' & Hw' & ?).
    + apply Hok1; [simpl; rewrite length_app; simpl; lia|done].
    + simpl. rewrite length_app. simpl. lia.
    + simpl. rewrite fmap_last, Hl. simpl. f_equal. unfold wake. by destruct (c_status c).
    + done.
    + simpl in *. rewrite Hc', Hw'. split_and!; [done|done|lia|done].
Qed.

(** ** Lemmas on the initial position *)

(** A binary search for a predicate that is monotone along the log starts the
    consumer exactly at the available events that satisfy it. *)
Lemma search_replays e log p :
  ring_ok e log ->
  (forall i j a b, (i < j)%nat -> log !! i = Some a -> log !! j = Some b ->
     p a = true -> p b = true) ->
  segment log (minPos e + sort_Search (goint (writePos e - minPos e)) (event_test e p)) (writePos e) =
  filter (fun ev => p ev = true) (segment log (minPos e) (writePos e)).
Proof.
  intros R Hm. rewrite (goint_avail e log R). pose proof (minPos_range e log R) as Hmin.
  assert (forall i, 0 <= i < writePos e - minPos e ->
    exists ev, log !! Z.to_nat (minPos e + i) = Some ev /\ event_test e p i = p ev) as Hslot.
  { intros i Hi. destruct (slot_window e log (minPos e + i) R) as (ev & Hs & Hl); [lia| |].
    - pose proof (ring_gap _ _ R). unfold minPos in *. lia.
    - exists ev. split; [done|]. unfold event_test. by rewrite Hs. }
  destruct (sort_Search_spec (writePos e - minPos e) (event_test e p)) as (Hr & Hlo & Hhi); [lia| |].
  { intros a b Hab Hb Ha. destruct (decide (a = b)) as [->|]; [done|].
    destruct (Hslot a) as (eva & Hla & Ea); [lia|]. destruct (Hslot b) as (evb & Hlb & Eb); [lia|].
    rewrite Eb. rewrite Ea in Ha.
    apply (Hm (Z.to_nat (minPos e + a)) (Z.to_nat (minPos e + b)) eva evb); [lia|done..]. }
  set (r := sort_Search _ _) in *.
  rewrite (segment_split log (minPos e) (minPos e + r) (writePos e)) by lia.
  rewrite filter_app, filter_none, filter_all; [done|..]; apply Forall_segment; try lia.
  - intros k ev Hk Hl. destruct (Hslot (k - minPos e)) as (ev' & Hl' & E); [lia|].
    replace (minPos e + (k - minPos e)) with k in Hl' by lia. simplify_eq.
    rewrite <-E. apply Hhi. lia.
  - intros k ev Hk Hl. destruct (Hslot (k - minPos e)) as (ev' & Hl' & E); [lia|].
    replace (minPos e + (k - minPos e)) with k in Hl' by lia. simplify_eq.
    rewrite <-E, Hlo by lia. done.
Qed.

Lemma sorted_lookup (log : list Event) i j a b :
  StronglySorted (fun x y => ID x < ID y) log -> (i < j)%nat ->
  log !! i = Some a -> log !! j = Some b -> ID a < ID b.
Proof.
  intros Hs. revert i j. induction Hs as [|x l Hs IH Hx]; intros i j Hij Ha Hb; [done|].
  destruct i as [|i], j as [|j]; simpl in *; try lia; simplify_eq.
  - by eapply Forall_lookup_1 in Hb; [|exact Hx].
  - apply (IH i j); [lia|done..].
Qed.

Lemma after_id_gt id ev : after_id id ev = true <-> id < ID ev.
Proof. unfold after_id, xid_Compare. destruct (Z.compare_spec (ID ev) id); split; intros; try done; lia. Qed.

Lemma after_time_mono ts a b : 0 <= ID a < ID b -> after_time ts a = true -> after_time ts b = true.
Proof.
  unfold after_time, xid_Time. rewrite !Z.ltb_lt, !Z.shiftr_div_pow2 by lia. intros Hab H.
  pose proof (Z.div_le_mono (ID a) (ID b) (2 ^ 64)). lia.
Qed.

(** The options that were applied before, seen from the accumulator. *)
Definition exclusive (o : WatchOptions) : Prop :=
  (TailEvents o = 0 /\ TailID o = 0) \/ (TailEvents o = 0 /\ TailDuration o = 0) \/
  (TailID o = 0 /\ TailDuration o = 0).

Lemma option_exclusive f o o' :
  (exists n, f = WithTailEvents n) \/ (exists i, f = WithTailID i) \/
  (exists d, f = WithTailDuration d) \/ (exists a, f = WithActorID a) ->
  exclusive o -> f o = Ok o' -> exclusive o'.
Proof.
  intros [[n ->]|[[n ->]|[[n ->]|[n ->]]]] He H;
    unfold WithTailEvents, WithTailID, WithTailDuration, WithActorID, xid_IsNil in H;
    repeat case_bool_decide; simpl in H;
    repeat match type of H with context [negb (?a =? ?b)] => destruct (Z.eqb_spec a b); simpl in H end;
    simplify_eq; unfold exclusive in *; simpl in *; lia.
Qed.

Lemma reachable_run capacity g w ls w' :
  reachable capacity g w -> run w ls = Some w' -> reachable capacity g w'.
Proof.
  revert w. induction ls as [|l ls IH]; intros w Hr H; simpl in H; [by simplify_eq|].
  apply bind_Some in H as (w1 & Hst & H). eapply IH; [|done]. by eapply reach_step.
Qed.

(** ** Properties *)

(** C5: refinement of the circular buffer to the log.  Whatever the
    interleaving of publishers, consumers, broadcasts and cancellations, no
    consumer ever indexes outside the buffer, its position stays between its
    starting point and the end of the log, and the sequence of events its watch
    function has received is a prefix of the contiguous part of the published
    log from that starting point filtered by actor: nothing overwritten,
    duplicated, skipped or reordered.  A consumer that has not returned has
    handed over or is offering all of that part. *)
Theorem watch_delivers_log capacity g w i c :
  capacity < 2 ^ 31 -> 0 <= g -> reachable capacity g w ->
  Z.of_nat (length (w_log w)) < 2 ^ 63 -> w_consumers w !! i = Some c ->
  let due := filter (fun ev => wanted (c_actor c) ev = true)
               (segment (w_log w) (c_start c) (c_pos c)) in
  c_status c <> CPanicked /\
  0 <= c_start c <= c_pos c /\ c_pos c <= Z.of_nat (length (w_log w)) /\
  (info_Event <$> c_got c) `prefix_of` due /\
  (c_status c <> CClosed -> taken c = due).
Proof.
  intros Hc Hg Hr Hlen Hi due.
  pose proof (reachable_consumer capacity g w i c Hc Hg Hr Hlen Hi)
    as (Hs & Hp & Hpan & _ & Htk & Hpre & _ & _).
  destruct (reachable_ok capacity g w Hc Hg Hr Hlen) as [R _].
  rewrite <-(ring_pos _ _ R). split_and!; try done; try lia. tauto.
Qed.

(** Backlog bounds.  The backlog reported with each event never loses bits
    in its conversion to the board's 32-bit [int]: it is a number of slots of
    the buffer. *)
Theorem backlog_bounds capacity g w i c :
  capacity < 2 ^ 31 -> 0 <= g -> reachable capacity g w ->
  Z.of_nat (length (w_log w)) < 2 ^ 63 -> w_consumers w !! i = Some c ->
  Forall (fun info => 0 <= Backlog info < capacity) (c_got c).
Proof.
  intros Hc Hg Hr Hlen Hi.
  pose proof (reachable_consumer capacity g w i c Hc Hg Hr Hlen Hi) as (_ & _ & _ & _ & _ & _ & Hbl & _).
  by destruct (reachable_cap_gap capacity g w Hr) as [<- _].
Qed.

(** No lost wake-up.  A consumer that has not returned and has events left
    to read always has a step of its own enabled: it is never left asleep on
    the condition variable. *)
Theorem consumer_progress capacity g w i c :
  capacity < 2 ^ 31 -> 0 <= g -> reachable capacity g w ->
  Z.of_nat (length (w_log w)) < 2 ^ 63 -> w_consumers w !! i = Some c ->
  c_status c <> CClosed -> c_pos c < Z.of_nat (length (w_log w)) ->
  exists l w', l <> SCancel i /\ consumer_of l = Some i /\ estep w l = Some w'.
Proof.
  intros Hc Hg Hr Hlen Hi Hcl Hpos.
  pose proof (reachable_consumer capacity g w i c Hc Hg Hr Hlen Hi)
    as (_ & _ & Hpan & Hwait & _).
  destruct (reachable_ok capacity g w Hc Hg Hr Hlen) as [R _].
  rewrite (ring_pos _ _ R) in Hwait.
  assert (exists l c', l <> SCancel i /\ consumer_of l = Some i /\
    consumer_step (w_events w) l c = Some c') as (l & c' & Hl & Hof & Hst).
  { destruct (c_status c) as [| | |info| |] eqn:E; [|by specialize (Hwait eq_refl); lia| | |done|done].
    - exists (SFetch i). eexists. unfold consumer_step. rewrite E. done.
    - exists (SWake i). eexists. unfold consumer_step. rewrite E. done.
    - destruct (c_ctxdone c) eqn:Ed; [exists (SAbort i)|exists (SDeliver i)];
        eexists; unfold consumer_step; rewrite E, Ed; done. }
  exists l. eexists. split; [done|]. split; [done|]. by apply (estep_intro w l i c c').
Qed.

(** Replay from an event ID or a duration.  When the identifiers of the
    published events ascend, a consumer that asks for the events after an ID
    (or, as its only tail option, for those younger than a duration) starts at
    exactly the available events that qualify: the binary search neither
    repeats an older event nor skips a newer one. *)
Theorem watch_tail_replays capacity g w opts now :
  capacity < 2 ^ 31 -> 0 <= g -> reachable capacity g w ->
  Z.of_nat (length (w_log w)) < 2 ^ 63 ->
  StronglySorted (fun a b => ID a < ID b) (w_log w) -> Forall (fun a => 0 <= ID a) (w_log w) ->
  TailEvents opts = 0 -> TailID opts <> 0 \/ TailDuration opts <> 0 ->
  let e := w_events w in
  let qualifies := if xid_IsNil (TailID opts) then after_time (now - TailDuration opts)
                   else after_id (TailID opts) in
  segment (w_log w) (watch_pos e opts now) (writePos e) =
  filter (fun ev => qualifies ev = true) (segment (w_log w) (minPos e) (writePos e)).
Proof.
  intros Hc Hg Hr Hlen Hs Hpos Hte Htail e q.
  destruct (reachable_ok capacity g w Hc Hg Hr Hlen) as [R _].
  unfold watch_pos. rewrite Hte. simpl. unfold q, xid_IsNil in *.
  case_bool_decide as Hid; simpl.
  - destruct Htail as [?|Hd]; [done|]. apply Z.eqb_neq in Hd. rewrite Hd. simpl.
    apply (search_replays _ _ _ R). intros i j a b Hij Ha Hb. apply after_time_mono.
    split; [by eapply Forall_lookup_1 in Ha; [|exact Hpos]|by eapply sorted_lookup].
  - apply (search_replays _ _ _ R). intros i j a b Hij Ha Hb. rewrite !after_id_gt.
    pose proof (sorted_lookup _ i j a b Hs Hij Ha Hb). lia.
Qed.

(** Replay of a number of events.  A positive [TailEvents] yields that many
    past events, limited by what was published and by the history the gap
    leaves ([cap - gap]); a negative one yields all the available history. *)
Theorem watch_tail_events_count capacity g w opts now :
  capacity < 2 ^ 31 -> 0 <= g -> reachable capacity g w ->
  Z.of_nat (length (w_log w)) < 2 ^ 63 -> TailEvents opts <> 0 ->
  let published := Z.of_nat (length (w_log w)) in
  let available := Z.min (capacity - g) published in
  published - watch_pos (w_events w) opts now =
  if TailEvents opts <? 0 then available else Z.min (TailEvents opts) available.
Proof.
  intros Hc Hg Hr Hlen Hte. destruct (reachable_ok capacity g w Hc Hg Hr Hlen) as [R _].
  destruct (reachable_cap_gap capacity g w Hr) as [<- <-].
  pose proof (ring_pos _ _ R) as Hp. pose proof (ring_gap _ _ R).
  unfold watch_pos, minPos. apply Z.eqb_neq in Hte. rewrite Hte. simpl. rewrite Hp.
  destruct (Z.ltb_spec (TailEvents opts) 0); lia.
Qed.

(** The safety gap.  A consumer that has just subscribed, however far back
    it starts, survives any burst of fewer than [gap] publications before its
    first read: its read position is not overwritten, so it is not dropped. *)
Theorem gap_protects_new_consumer capacity g w w' opts now evs c :
  capacity < 2 ^ 31 -> 0 <= g -> reachable capacity g w ->
  Z.of_nat (length (w_log w)) + Z.of_nat (length evs) < 2 ^ 63 ->
  run w (SWatch opts now :: (SPublish <$> evs)) = Some w' ->
  Z.of_nat (length evs) < g -> last (w_consumers w') = Some c ->
  c_status (consumer_fetch (w_events w') c) <> CClosed.
Proof.
  intros Hc Hg Hr Hlen Hrun Hev Hl. destruct (reachable_ok capacity g w Hc Hg Hr) as [R _]; [lia|].
  pose proof (watch_pos_range _ _ opts now R) as Hwp.
  destruct (reachable_cap_gap capacity g w Hr) as [Ecap Egap].
  destruct (run_publishes evs _ _ (new_consumer (w_events w) opts now) Hrun) as (_ & Hcap & Hwr & Hlast).
  - split; simpl; [done|]. destruct (reachable_ok capacity g w Hc Hg Hr) as [_ Hcs]; [lia|].
    apply Forall_app_2; [done|]. by apply Forall_singleton, new_consumer_ok.
  - simpl. lia.
  - simpl. by rewrite last_snoc.
  - done.
  - simplify_eq. simpl in Hcap, Hwr. unfold consumer_fetch. simpl.
    destruct (Z.eqb_spec (watch_pos (w_events w) opts now) (writePos (w_events w'))); [done|].
    unfold minPos in Hwp. destruct (Z.leb_spec (cap (w_events w'))
      (writePos (w_events w') - watch_pos (w_events w) opts now)); [lia|].
    destruct (slot _ _); [|done]. simpl. by destruct (wanted _ _).
Qed.

(** The watch options exclude each other.  When the option loop of [Watch]
    accepts a list of options, at most one of the three tail options is set. *)
Theorem watch_options_exclusive fs opts :
  Forall (fun f => (exists n, f = WithTailEvents n) \/ (exists i, f = WithTailID i) \/
                   (exists d, f = WithTailDuration d) \/ (exists a, f = WithActorID a)) fs ->
  apply_options zeroWatchOptions fs = Ok opts -> exclusive opts.
Proof.
  intros Hfs. assert (exclusive zeroWatchOptions) as H0 by (left; done). revert H0.
  generalize zeroWatchOptions. induction Hfs as [|f fs Hf Hfs IH]; intros o Ho H; simpl in H.
  - by simplify_eq.
  - destruct (f o) as [o1|e|p] eqn:E; try done. eapply IH; [|done]. by eapply option_exclusive.
Qed.

(** ** Concrete runs *)

(** A buffer of four slots with a gap of one; the first consumer follows actor
    [a] from the start and receives two of its events before the buffer is
    overwritten under it. *)
Definition demo_event (n : Z) (a : string) : Event := mkEvent "tsos/runtime/todo" (n * 2 ^ 64 + n) (Some "p") a.

Definition demo_init : world := mkWorld (mkEvents (replicate 4 inhabitant) 0 4 1) [] [].

Definition demo_labels : list label :=
  [ SWatch (mkWatchOptions 0 0 0 "a") 0; SFetch 0;
    SPublish (demo_event 1 "a"); SPublish (demo_event 2 "b"); SPublish (demo_event 3 "a");
    SWake 0; SDeliver 0; SFetch 0; SFetch 0; SDeliver 0 ].

Definition demo_world : world := default demo_init (run demo_init demo_labels).

Definition demo_consumer : consumer :=
  mkConsumer 3 "a" CLoop false 0
    [mkEventInfo (demo_event 1 "a") 2; mkEventInfo (demo_event 3 "a") 0].

Lemma demo_init_reachable : reachable 4 1 demo_init.
Proof. by apply reach_init. Qed.

Lemma demo_reachable : reachable 4 1 demo_world.
Proof. apply (reachable_run 4 1 demo_init demo_labels); [apply demo_init_reachable|vm_compute; done]. Qed.

Lemma watch_delivers_log_witness :
  w_consumers demo_world !! 0%nat = Some demo_consumer /\
  (c_status demo_consumer <> CClosed -> taken demo_consumer = [demo_event 1 "a"; demo_event 3 "a"]).
Proof.
  split; [vm_compute; done|].
  apply (watch_delivers_log 4 1 demo_world 0 demo_consumer); by_eval demo_reachable.
Defined.

Lemma backlog_bounds_witness :
  Forall (fun info => 0 <= Backlog info < 4) (c_got demo_consumer).
Proof.
  apply (backlog_bounds 4 1 demo_world 0); by_eval demo_reachable.
Defined.

Definition demo_behind : world := default demo_init (run demo_init (take 5 demo_labels)).

Definition demo_behind_consumer : consumer := mkConsumer 0 "a" CWoken false 0 [].

Lemma demo_behind_reachable : reachable 4 1 demo_behind.
Proof. apply (reachable_run 4 1 demo_init (take 5 demo_labels)); [apply demo_init_reachable|vm_compute; done]. Qed.

Lemma consumer_progress_witness :
  exists l w', l <> SCancel 0 /\ consumer_of l = Some 0%nat /\ estep demo_behind l = Some w'.
Proof.
  apply (consumer_progress 4 1 demo_behind 0 demo_behind_consumer);
    by_eval demo_behind_reachable.
Defined.

Lemma watch_tail_replays_witness :
  segment (w_log demo_world) (watch_pos (w_events demo_world) (mkWatchOptions 0 (2 * 2 ^ 64 + 2) 0 "") 0) 3 =
  [demo_event 3 "a"].
Proof.
  apply (watch_tail_replays 4 1 demo_world (mkWatchOptions 0 (2 * 2 ^ 64 + 2) 0 "") 0);
    first [by_eval demo_reachable | by left | vm_compute; repeat first [done | constructor]].
Defined.

Lemma watch_tail_events_count_witness :
  3 - watch_pos (w_events demo_world) (mkWatchOptions 2 0 0 "") 0 = 2.
Proof.
  apply (watch_tail_events_count 4 1 demo_world (mkWatchOptions 2 0 0 "") 0);
    by_eval demo_reachable.
Defined.

(** Seven slots, a gap of three: two publications after a subscription to all
    the history. *)
Definition gap_init : world := mkWorld (mkEvents (replicate 7 inhabitant) 0 7 3) [] [].

Definition gap_full : world :=
  default gap_init (run gap_init (SPublish <$> replicate 9 (demo_event 1 "a"))).

Definition gap_after : world :=
  default gap_init (run gap_full (SWatch (mkWatchOptions (-1) 0 0 "") 0 ::
    (SPublish <$> [demo_event 2 "a"; demo_event 3 "a"]))).

Lemma gap_full_reachable : reachable 7 3 gap_full.
Proof.
  apply (reachable_run 7 3 gap_init (SPublish <$> replicate 9 (demo_event 1 "a")));
    [by apply reach_init|vm_compute; done].
Qed.

Lemma gap_protects_new_consumer_witness :
  c_status (consumer_fetch (w_events gap_after) (mkConsumer 5 "" CLoop false 5 [])) <> CClosed.
Proof.
  apply (gap_protects_new_consumer 7 3 gap_full gap_after (mkWatchOptions (-1) 0 0 "") 0
    [demo_event 2 "a"; demo_event 3 "a"]);
    by_eval gap_full_reachable.
Defined.

(** The bound is tight: the third publication drops such a consumer. *)
Example gap_exhausted :
  let w := default gap_init (run gap_after [SPublish (demo_event 4 "a"); SFetch 0]) in
  c_status <$> w_consumers w !! 0%nat = Some CClosed.
Proof. vm_compute. done. Qed.

Lemma watch_options_exclusive_witness :
  exclusive (mkWatchOptions 5 0 0 "a").
Proof.
  apply (watch_options_exclusive [WithTailEvents 5; WithActorID "a"]); [|done].
  constructor; [left; eauto|]. constructor; [right; right; right; eauto|constructor].
Defined.
