(* ===== verification/Health.v ===== *)
(** * Health of a service

    Models [internal/app/machined/pkg/system/health]: the status record and its
    wire form, the subscribable state (status.go), the settings (settings.go)
    and the check loop (check.go).  [State.Update] and the subscription calls
    are the critical sections; the channels of the subscribers live in a store
    keyed by channel identity, so that a dropped notification is visible. *)

From S2P Require Import Prelude.

(** ** Status (status.go) *)

(** The [Healthy] pointer is nil or points to a value that nothing mutates;
    times are nanoseconds. *)
Record Status := mkStatus {
  Healthy : option bool;
  LastChange : Z;
  LastMessage : string
}.

#[export] Instance Status_eq_dec : EqDecision Status.
Proof. solve_decision. Defined.

Definition zeroStatus : Status := mkStatus None 0 "".

(** [machineapi.ServiceHealth]. *)
Record ServiceHealth := mkServiceHealth { sh_Unknown : bool; sh_Healthy : bool }.

#[export] Instance ServiceHealth_eq_dec : EqDecision ServiceHealth.
Proof. solve_decision. Defined.

Definition Status_AsProto (s : Status) : ServiceHealth :=
  mkServiceHealth (match Healthy s with None => true | Some _ => false end)
                  (match Healthy s with None => false | Some h => h end).

Record StateChange := mkStateChange { Old : Status; New : Status }.

(** Subscribers are channel identities. *)
Record State := mkState { status : Status; subscribers : list nat }.

Definition zeroState : State := mkState zeroStatus [].

(** The critical section of [Update]: the new state, the change and whether to
    notify. *)
Definition Update_locked (healthy : bool) (message : string) (now : Z) (s : State)
    : State * StateChange * bool :=
  let old := status s in
  let notify := match Healthy old with None => true | Some h => negb (Bool.eqb h healthy) end in
  let st := if notify then mkStatus (Some healthy) now (LastMessage old) else old in
  let st := mkStatus (Healthy st) (LastChange st) message in
  (mkState st (subscribers s), mkStateChange old st, notify).

(** The store of channels, and the non-blocking sends after the unlock. *)
Abbreviation chans := (gmap nat (chan StateChange)).

Definition notify_all (subs : list nat) (ch : StateChange) (cs : chans) : chans :=
  foldl (fun cs id => alter (try_send ch) id cs) cs subs.

Definition Update (healthy : bool) (message : string) (now : Z) (s : State) (cs : chans)
    : State * chans :=
  let '(s', ch, notify) := Update_locked healthy message now s in
  (s', if notify then notify_all (subscribers s) ch cs else cs).

Definition Subscribe (ch : nat) (s : State) : State := mkState (status s) (subscribers s ++ [ch]).

Definition Unsubscribe (ch : nat) (s : State) : State :=
  mkState (status s) (swap_delete ch (subscribers s)).

Definition Init (now : Z) (s : State) : State :=
  mkState (mkStatus None now "Unknown") (subscribers s).

Definition Get (s : State) : Status := status s.

(** ** Settings (settings.go), durations in nanoseconds *)

Record Settings := mkSettings { InitialDelay : Z; Period : Z; Timeout : Z }.

Definition DefaultSettings : Settings :=
  mkSettings 1000000000 (5 * 1000000000) (500 * 1000000).

(** ** The check loop (check.go) *)

(** What the environment decides in one iteration: the result of the check, the
    clock at the update, and whether the context is done before the next tick. *)
Record iteration := mkIteration { check_err : option error; clock : Z; ctx_done : bool }.

(** The body of one iteration, up to the final [select]. *)
Definition Run_check (it : iteration) (s : State) (cs : chans) : State * chans :=
  let healthy := match check_err it with None => true | Some _ => false end in
  let message := match check_err it with None => "" | Some e => Error e end in
  Update healthy message (clock it) s cs.

(** [Some err] is the value [Run] returns; [None]: it is still looping when the
    given iterations are over. *)
Fixpoint Run_loop (its : list iteration) (ctxerr : error) (s : State) (cs : chans)
    : State * chans * option error :=
  match its with
  | [] => (s, cs, None)
  | it :: its =>
    let (s, cs) := Run_check it s cs in
    if ctx_done it then (s, cs, Some ctxerr) else Run_loop its ctxerr s cs
  end.

(** [cancelled]: the context is done before the initial delay is over. *)
Definition Run (now : Z) (cancelled : bool) (its : list iteration) (ctxerr : error)
    (s : State) (cs : chans) : State * chans * option error :=
  let s := Init now s in
  if cancelled then (s, cs, Some ctxerr) else Run_loop its ctxerr s cs.

(** ** Specification *)

(** The results of the checks performed before the loop stops. *)
Fixpoint performed (its : list iteration) : list iteration :=
  match its with
  | [] => []
  | it :: its => if ctx_done it then [it] else it :: performed its
  end.

Definition result_of (it : iteration) : bool :=
  match check_err it with None => true | Some _ => false end.

(** The values of a sequence that differ from their predecessor. *)
Fixpoint flips (prev : option bool) (l : list bool) : list bool :=
  match l with
  | [] => []
  | b :: l => if decide (prev = Some b) then flips prev l else b :: flips (Some b) l
  end.

(** ** Lemmas *)

Lemma notify_all_lookup subs ch cs id c :
  cs !! id = Some c -> (count_occ Nat.eq_dec subs id = 1)%nat ->
  notify_all subs ch cs !! id = Some (try_send ch c).
Proof.
  revert cs c. induction subs as [|x subs IH]; intros cs c Hc Hn; simpl in *; [done|].
  destruct (Nat.eq_dec x id) as [->|Hne].
  - assert (id ∉ subs) as Hni.
    { rewrite list_elem_of_In. intros Hin. apply (count_occ_In Nat.eq_dec) in Hin. lia. }
    clear IH Hn. unfold notify_all. simpl.
    assert (alter (try_send ch) id cs !! id = Some (try_send ch c)) as H.
    { by rewrite lookup_alter_eq, Hc. }
    revert H. generalize (alter (try_send ch) id cs). induction subs as [|y subs IH]; intros m Hm; [done|].
    apply not_elem_of_cons in Hni as [Hy Hni]. apply IH; [done|]. by rewrite lookup_alter_ne.
  - apply IH; [|done]. by rewrite lookup_alter_ne.
Qed.

Lemma notify_all_other subs ch cs id :
  id ∉ subs -> notify_all subs ch cs !! id = cs !! id.
Proof.
  unfold notify_all. revert cs. induction subs as [|x subs IH]; intros cs Hn; [done|].
  apply not_elem_of_cons in Hn as [Hx Hn]. simpl. rewrite IH by done. by rewrite lookup_alter_ne.
Qed.

Lemma Update_subscribers h m now s cs :
  subscribers (fst (Update h m now s cs)) = subscribers s.
Proof. done. Qed.

Lemma Update_status h m now s cs :
  status (fst (Update h m now s cs)) =
  mkStatus (Some h) (if decide (Healthy (status s) = Some h) then LastChange (status s) else now) m.
Proof.
  unfold Update, Update_locked. simpl.
  destruct (Healthy (status s)) as [b|] eqn:E; simpl; [|done].
  destruct b, h; simpl; by rewrite ?E.
Qed.

(** A channel with room receives exactly one notification per flip. *)
Lemma Update_channel h m now s cs id c :
  cs !! id = Some c -> (count_occ Nat.eq_dec (subscribers s) id = 1)%nat ->
  snd (Update h m now s cs) !! id =
  Some (if decide (Healthy (status s) = Some h) then c
        else try_send (mkStateChange (status s) (mkStatus (Some h) now m)) c).
Proof.
  intros Hc Hn. unfold Update, Update_locked. simpl.
  destruct (Healthy (status s)) as [b|] eqn:E; simpl.
  - destruct b, h; simpl; try done; by rewrite (notify_all_lookup _ _ _ _ c).
  - by rewrite (notify_all_lookup _ _ _ _ c).
Qed.

Lemma Run_loop_cons it its ctxerr s cs s1 cs1 :
  Run_check it s cs = (s1, cs1) ->
  Run_loop (it :: its) ctxerr s cs =
  if ctx_done it then (s1, cs1, Some ctxerr) else Run_loop its ctxerr s1 cs1.
Proof. intros H. cbn [Run_loop]. by rewrite H. Qed.

(** The loop sends a subscriber with enough room one change per flip of the
    check results, in order. *)
Lemma Run_loop_flips its ctxerr s cs id c :
  cs !! id = Some c -> (count_occ Nat.eq_dec (subscribers s) id = 1)%nat ->
  (length (chan_buf c) + length its <= chan_cap c)%nat ->
  exists c' news,
    snd (fst (Run_loop its ctxerr s cs)) !! id = Some c' /\
    chan_buf c' = chan_buf c ++ news /\
    (fun ch => Healthy (New ch)) <$> news =
      Some <$> flips (Healthy (status s)) (result_of <$> performed its).
Proof.
  revert s cs c. induction its as [|it its IH]; intros s cs c Hc Hn Hcap; simpl in Hcap.
  { exists c, []. by rewrite app_nil_r. }
  destruct (Run_check it s cs) as [s1 cs1] eqn:E.
  rewrite (Run_loop_cons it its ctxerr s cs s1 cs1 E). unfold Run_check in E.
  fold (result_of it) in E.
  match type of E with Update ?h ?m ?n _ _ = _ =>
    pose proof (Update_channel h m n s cs id c Hc Hn) as Hch;
    pose proof (Update_status h m n s cs) as Hst;
    pose proof (Update_subscribers h m n s cs) as Hsu end.
  rewrite E in Hch, Hst, Hsu. simpl in Hch, Hst, Hsu.
  set (c1 := if decide _ then c else try_send _ c) in Hch.
  assert (exists new1, chan_buf c1 = chan_buf c ++ new1 /\ chan_cap c1 = chan_cap c /\
    (length new1 <= 1)%nat /\
    (fun ch => Healthy (New ch)) <$> new1 = Some <$> flips (Healthy (status s)) [result_of it])
    as (new1 & Hb1 & Hcap1 & Hl1 & Hf1).
  { unfold c1. simpl. case_decide.
    - exists []. rewrite app_nil_r. split_and!; [done|done|simpl; lia|done].
    - unfold try_send. rewrite decide_True by lia. eexists. split_and!; [done|done|simpl; lia|done]. }
  assert (flips (Healthy (status s)) (result_of it :: (result_of <$> (if ctx_done it then [] else performed its)))
    = flips (Healthy (status s)) [result_of it] ++
      flips (Some (result_of it)) (result_of <$> (if ctx_done it then [] else performed its))) as Hsplit.
  { simpl. case_decide as Hd; simpl; [by rewrite Hd|done]. }
  assert (result_of <$> performed (it :: its) =
    result_of it :: (result_of <$> (if ctx_done it then [] else performed its))) as ->.
  { simpl. by destruct (ctx_done it). }
  rewrite Hsplit. destruct (ctx_done it); cbn [fst snd].
  - exists c1, new1. split; [done|]. split; [done|]. rewrite fmap_nil. simpl flips at 2.
    by rewrite app_nil_r.
  - destruct (IH s1 cs1 c1 Hch) as (c' & news & Hl & Hb & Hf).
    + by rewrite Hsu.
    + rewrite Hb1, Hcap1, length_app. lia.
    + exists c', (new1 ++ news). split; [done|]. split.
      * by rewrite Hb, Hb1, <-app_assoc.
      * by rewrite !fmap_app, Hf1, Hf, Hst.
Qed.

Lemma Run_loop_ends its ctxerr s cs it :
  last (performed its) = Some it ->
  Healthy (status (fst (fst (Run_loop its ctxerr s cs)))) = Some (result_of it).
Proof.
  revert s cs. induction its as [|x its IH]; intros s cs Hl; [done|]. simpl in Hl.
  destruct (Run_check x s cs) as [s1 cs1] eqn:E.
  rewrite (Run_loop_cons x its ctxerr s cs s1 cs1 E). unfold Run_check in E. fold (result_of x) in E.
  match type of E with Update ?h ?m ?n _ _ = _ => pose proof (Update_status h m n s cs) as Hst end.
  rewrite E in Hst. simpl in Hst.
  destruct (ctx_done x); simpl in *; [simplify_eq; by rewrite Hst|].
  destruct its as [|y its]; simpl in *.
  - simplify_eq. by rewrite Hst.
  - apply IH. destruct (ctx_done y); done.
Qed.

(** ** Properties *)

(** C33: each change of health is notified exactly once.  While [health.Run]
    runs, a subscriber whose channel has room receives, in order, one change
    for every check result that differs from the previous one (the first always
    does, since [Init] makes the health unknown) and nothing for a repeated
    result; the state ends on the result of the last check. *)
Theorem health_run_notifies_flips now its ctxerr s cs id c it :
  cs !! id = Some c -> chan_buf c = [] -> (length its <= chan_cap c)%nat ->
  (count_occ Nat.eq_dec (subscribers s) id = 1)%nat -> last (performed its) = Some it ->
  exists s' cs' r c',
    Run now false its ctxerr s cs = (s', cs', r) /\ cs' !! id = Some c' /\
    (fun ch => Healthy (New ch)) <$> chan_buf c' = Some <$> flips None (result_of <$> performed its) /\
    Healthy (Get s') = Some (result_of it).
Proof.
  intros Hc Hb Hcap Hn Hl. unfold Run. simpl.
  destruct (Run_loop its ctxerr (Init now s) cs) as [[s' cs'] r] eqn:E.
  destruct (Run_loop_flips its ctxerr (Init now s) cs id c Hc) as (c' & news & Hl' & Hbuf & Hf).
  { done. } { rewrite Hb. simpl. lia. }
  pose proof (Run_loop_ends its ctxerr (Init now s) cs it Hl) as Hlast.
  rewrite E in Hl', Hlast. simpl in *. exists s', cs', r, c'. split_and!; [done|done| |done].
  rewrite Hbuf, Hb. simpl. by rewrite Hf.
Qed.

(** Unsubscribing is exact.  After [Unsubscribe], an update sends nothing to
    the removed channel, and every other subscription survives. *)
Theorem unsubscribe_exact ch h m now s cs :
  let s' := Unsubscribe ch s in
  snd (Update h m now s' cs) !! ch = cs !! ch /\
  (forall id, id <> ch -> count_occ Nat.eq_dec (subscribers s') id = count_occ Nat.eq_dec (subscribers s) id).
Proof.
  intros s'. split.
  - unfold Update. destruct (Update_locked h m now s') as [[s1 c1] n]. simpl.
    destruct n; [|done]. apply notify_all_other. simpl. rewrite elem_of_swap_delete. by intros [_ ?].
  - intros id Hne. unfold s'. simpl.
    rewrite (proj1 (Permutation_count_occ Nat.eq_dec _ _) (swap_delete_perm ch (subscribers s)) id).
    induction (subscribers s) as [|x l IH]; [done|]. rewrite filter_cons. case_decide; simpl.
    + by rewrite IH.
    + destruct (Nat.eq_dec x id) as [->|]; [tauto|done].
Qed.

(** ** Concrete runs *)

Definition demo_iterations : list iteration :=
  [ mkIteration (Some (EMsg "refused")) 10 false; mkIteration (Some (EMsg "refused")) 20 false;
    mkIteration None 30 false; mkIteration (Some (EMsg "timeout")) 40 true; mkIteration None 50 false ].

Definition demo_channels : chans := {[ 7%nat := make_chan StateChange 8 ]}.

Lemma health_run_notifies_flips_witness :
  exists s' cs' r c',
    Run 5 false demo_iterations (ESentinel context_Canceled) (Subscribe 7 zeroState) demo_channels = (s', cs', r) /\
    cs' !! 7%nat = Some c' /\
    (fun ch => Healthy (New ch)) <$> chan_buf c' = [Some false; Some true; Some false] /\
    Healthy (Get s') = Some false.
Proof.
  apply (health_run_notifies_flips 5 demo_iterations (ESentinel context_Canceled)
    (Subscribe 7 zeroState) demo_channels 7 (make_chan StateChange 8)
    (mkIteration (Some (EMsg "timeout")) 40 true)); try (vm_compute; done).
  vm_compute. lia.
Defined.
