(* ===== verification/ServiceEvents.v ===== *)
(** * Service states and the history of service events

    Models [internal/app/machined/pkg/system/events/events.go] and the wire
    types of [pkg/machinery/api/machine/machine.go].  The fixed-length history
    [ServiceEvents] (64 slots, allocated by the first [Push]) is refined to the
    list of everything pushed. *)

From S2P Require Import Prelude Health.

(** ** States *)

Inductive ServiceState :=
| StateInitialized
| StatePreparing
| StateWaiting
| StateRunning
| StateStopping
| StateFinished
| StateFailed
| StateSkipped
| StateStarting.

#[export] Instance ServiceState_eq_dec : EqDecision ServiceState.
Proof. solve_decision. Defined.

(** The values [iota] gives the constants. *)
Definition ServiceState_value (s : ServiceState) : Z :=
  match s with
  | StateInitialized => 0 | StatePreparing => 1 | StateWaiting => 2
  | StateRunning => 3 | StateStopping => 4 | StateFinished => 5
  | StateFailed => 6 | StateSkipped => 7 | StateStarting => 8
  end.

(** The [default] branch of the code is for numbers that are none of the
    constants. *)
Definition ServiceState_String (s : ServiceState) : string :=
  match s with
  | StateInitialized => "Initialized"
  | StateStarting => "Starting"
  | StatePreparing => "Preparing"
  | StateWaiting => "Waiting"
  | StateRunning => "Running"
  | StateStopping => "Stopping"
  | StateFinished => "Finished"
  | StateFailed => "Failed"
  | StateSkipped => "Skipped"
  end.

(** ** Wire form (machine.go) *)

Definition ServiceStateEvent_INITIALIZED : Z := 0.
Definition ServiceStateEvent_PREPARING : Z := 1.
Definition ServiceStateEvent_WAITING : Z := 2.
Definition ServiceStateEvent_RUNNING : Z := 3.
Definition ServiceStateEvent_STOPPING : Z := 4.
Definition ServiceStateEvent_FINISHED : Z := 5.
Definition ServiceStateEvent_FAILED : Z := 6.
Definition ServiceStateEvent_SKIPPED : Z := 7.
Definition ServiceStateEvent_STARTING : Z := 8.

(** [Action] is an int32; the [Health] pointer may be nil. *)
Record ServiceStateEvent := mkServiceStateEvent {
  sse_Service : string;
  sse_Action : Z;
  sse_Message : string;
  sse_Health : option ServiceHealth
}.

#[export] Instance ServiceStateEvent_eq_dec : EqDecision ServiceStateEvent.
Proof. solve_decision. Defined.

(** ** Events *)

Record ServiceEvent := mkServiceEvent {
  Message : string;
  EvState : ServiceState;
  EvHealth : Status;
  Timestamp : Z
}.

#[export] Instance ServiceEvent_eq_dec : EqDecision ServiceEvent.
Proof. solve_decision. Defined.

(** The zero value, which fills the slots not yet written. *)
Definition zeroServiceEvent : ServiceEvent := mkServiceEvent "" StateInitialized zeroStatus 0.

Definition ServiceEvent_AsProto (service : string) (ev : ServiceEvent) : ServiceStateEvent :=
  mkServiceStateEvent service (int32 (ServiceState_value (EvState ev))) (Message ev)
    (Some (Status_AsProto (EvHealth ev))).

(** ** The fixed-length history *)

Definition MaxEventsToKeep : Z := 64.

(** [events] is nil until the first push; [discarded] is a [uint], 32 bits on
    the board. *)
Record ServiceEvents := mkServiceEvents {
  events : option (list ServiceEvent);
  pos : Z;
  discarded : Z
}.

Definition zeroServiceEvents : ServiceEvents := mkServiceEvents None 0 0.

(** [None]: an index out of range. *)
Definition Push (event : ServiceEvent) (e : ServiceEvents) : option ServiceEvents :=
  let slots := match events e with
               | None => replicate (Z.to_nat MaxEventsToKeep) zeroServiceEvent
               | Some l => l
               end in
  old ← slice_get slots (pos e);
  let disc := if decide (Message old = "") then discarded e else uint32 (discarded e + 1) in
  slots' ← slice_set slots (pos e) event;
  Some (mkServiceEvents (Some slots') (Z.rem (pos e + 1) (Z.of_nat (length slots'))) disc).

(** The loop of [Get] from index [i], [count] more times. *)
Fixpoint Get_loop (slots : list ServiceEvent) (count : nat) (i : Z) : option (list ServiceEvent) :=
  match count with
  | O => Some []
  | S count =>
    ev ← slice_get slots i;
    rest ← Get_loop slots count (Z.rem (i + 1) (Z.of_nat (length slots)));
    Some (if decide (Message ev = "") then rest else ev :: rest)
  end.

Definition Get (count : Z) (e : ServiceEvents) : option (list ServiceEvent) :=
  match events e with
  | None => Some []
  | Some slots =>
    let count := if MaxEventsToKeep <? count then MaxEventsToKeep else count in
    let n := Z.of_nat (length slots) in
    Get_loop slots (Z.to_nat count) (Z.rem (pos e - count + n) n)
  end.

(** ** Specification *)

(** The history that pushing [l], oldest first, produces. *)
Fixpoint push_all (l : list ServiceEvent) (e : ServiceEvents) : option ServiceEvents :=
  match l with
  | [] => Some e
  | ev :: l => e' ← Push ev e; push_all l e'
  end.

(** The last [k] elements. *)
Definition lastn {A} (k : nat) (l : list A) : list A := drop (length l - k) l.

Definition nonempty (ev : ServiceEvent) : Prop := Message ev <> "".

#[export] Instance nonempty_dec ev : Decision (nonempty ev) := _.

(** All that was ever in the slots: the zero values, then what was pushed. *)
Definition virtual (l : list ServiceEvent) : list ServiceEvent := replicate 64 zeroServiceEvent ++ l.

Record history_ok (e : ServiceEvents) (l : list ServiceEvent) : Prop := {
  h_pos : pos e = Z.of_nat (length l) `mod` 64;
  h_disc : discarded e = uint32 (Z.of_nat (length (filter nonempty (take (length l - 64) l))));
  h_slots : exists slots, (events e = Some slots \/ (events e = None /\ l = [] /\
              slots = replicate 64 zeroServiceEvent)) /\
            length slots = 64%nat /\
            forall p, Z.of_nat (length l) <= p < Z.of_nat (length l) + 64 ->
              slots !! Z.to_nat (p `mod` 64) = virtual l !! Z.to_nat p
}.

(** ** Lemmas *)

Lemma history_ok_init : history_ok zeroServiceEvents [].
Proof.
  split; [done|done|]. exists (replicate 64 zeroServiceEvent). split; [by right|].
  split; [done|]. intros p Hp. simpl in Hp. rewrite Z.mod_small by lia.
  unfold virtual. by rewrite app_nil_r.
Qed.

Lemma virtual_lookup_new l ev p :
  Z.of_nat (length l) + 1 <= p < Z.of_nat (length l) + 65 ->
  virtual (l ++ [ev]) !! Z.to_nat p =
  if decide (p = Z.of_nat (length l) + 64) then Some ev else virtual l !! Z.to_nat p.
Proof.
  intros Hp. unfold virtual. rewrite app_assoc. case_decide as E.
  - subst p. rewrite lookup_app_r; rewrite length_app, length_replicate; [|lia].
    by replace (_ - _)%nat with O by lia.
  - rewrite lookup_app_l; [done|]. rewrite length_app, length_replicate. lia.
Qed.

Lemma slot_virtual_discard l :
  virtual l !! length l = Some (default zeroServiceEvent (if decide (64 <= length l)%nat then l !! (length l - 64)%nat else None)).
Proof.
  unfold virtual. case_decide.
  - rewrite lookup_app_r by (rewrite length_replicate; lia). rewrite length_replicate.
    destruct (lookup_lt_is_Some_2 l (length l - 64)%nat) as [x Hx]; [lia|]. by rewrite Hx.
  - rewrite lookup_app_l by (rewrite length_replicate; lia). by apply lookup_replicate_2; lia.
Qed.

Lemma filter_nonempty_cons x l :
  filter nonempty (x :: l) = if decide (Message x = "") then filter nonempty l else x :: filter nonempty l.
Proof.
  case_decide as E; [by apply filter_cons_False; intros H; apply H|by apply filter_cons_True].
Qed.

(** The slot about to be overwritten counts as discarded when its message is
    not empty. *)
Lemma discarded_next l ev old :
  virtual l !! length l = Some old ->
  length (filter nonempty (take (length (l ++ [ev]) - 64) (l ++ [ev]))) =
  (length (filter nonempty (take (length l - 64) l)) + if decide (Message old = "") then 0 else 1)%nat.
Proof.
  rewrite slot_virtual_discard. intros [= <-]. rewrite length_app. simpl.
  destruct (decide (64 <= length l)%nat).
  - replace (length l + 1 - 64)%nat with (S (length l - 64)) by lia.
    destruct (lookup_lt_is_Some_2 l (length l - 64)%nat) as [x Hx]; [lia|]. rewrite Hx. simpl.
    rewrite take_app_le by lia. rewrite (take_S_r _ _ _ Hx), filter_app, length_app.
    f_equal. by rewrite filter_nonempty_cons; case_decide.
  - simpl. replace (length l + 1 - 64)%nat with O by lia.
    replace (length l - 64)%nat with O by lia. done.
Qed.

Lemma Push_ok ev e l :
  history_ok e l -> exists e', Push ev e = Some e' /\ history_ok e' (l ++ [ev]).
Proof.
  intros [Hp Hd (slots & Hev & Hlen & Hs)].
  pose proof (Z.mod_pos_bound (Z.of_nat (length l)) 64 ltac:(lia)) as Hm.
  assert (match events e with None => replicate (Z.to_nat MaxEventsToKeep) zeroServiceEvent
          | Some l => l end = slots) as Es by (destruct Hev as [->|(-> & _ & ->)]; done).
  pose proof (Hs (Z.of_nat (length l))) as Hold. rewrite Nat2Z.id in Hold.
  destruct (virtual l !! length l) as [old|] eqn:Hv.
  2:{ rewrite slot_virtual_discard in Hv. done. }
  unfold Push. rewrite Es, Hp. unfold slice_get, slice_set.
  rewrite decide_True by lia. rewrite Hold by lia. simpl.
  rewrite decide_True by lia. simpl. eexists. split; [done|].
  rewrite length_insert, Hlen. split; simpl.
  - rewrite rem_mod_pos by lia. rewrite length_app. simpl.
    rewrite Z.add_mod_idemp_l by lia. f_equal. lia.
  - rewrite (discarded_next l ev old Hv), Hd. unfold uint32, wrap_u. case_decide; simpl.
    + f_equal. lia.
    + rewrite Z.add_mod_idemp_l by lia. f_equal. lia.
  - eexists. split; [by left|]. split; [by rewrite length_insert|].
    rewrite length_app. simpl. intros p Hpr. rewrite virtual_lookup_new by lia. case_decide as E.
    + subst p. replace (Z.of_nat (length l) + 64) with (Z.of_nat (length l) + 1 * 64) by lia.
      rewrite Z_mod_plus_full. rewrite list_lookup_insert_eq by lia. done.
    + rewrite list_lookup_insert_ne; [apply Hs; lia|].
      intros Heq. pose proof (Z.mod_pos_bound p 64 ltac:(lia)).
      assert (p `mod` 64 = Z.of_nat (length l) `mod` 64) as Hpm by lia.
      assert ((p - Z.of_nat (length l)) `mod` 64 = 0) as H0.
      { rewrite Zminus_mod, Hpm, Z.sub_diag, Z.mod_0_l; lia. }
      rewrite Z.mod_small in H0; lia.
Qed.

Lemma push_all_ok l e l0 :
  history_ok e l0 -> exists e', push_all l e = Some e' /\ history_ok e' (l0 ++ l).
Proof.
  revert e l0. induction l as [|ev l IH]; intros e l0 H; simpl.
  - exists e. by rewrite app_nil_r.
  - destruct (Push_ok ev e l0 H) as (e1 & -> & H1). simpl.
    destruct (IH e1 (l0 ++ [ev]) H1) as (e2 & -> & H2). exists e2. by rewrite <-app_assoc in H2.
Qed.

Lemma Get_loop_ok slots l count p :
  length slots = 64%nat ->
  (forall p, Z.of_nat (length l) <= p < Z.of_nat (length l) + 64 ->
     slots !! Z.to_nat (p `mod` 64) = virtual l !! Z.to_nat p) ->
  Z.of_nat (length l) <= p -> p + Z.of_nat count = Z.of_nat (length l) + 64 ->
  Get_loop slots count (p `mod` 64) = Some (filter nonempty (drop (Z.to_nat p) (virtual l))).
Proof.
  intros Hlen Hs. revert p. induction count as [|count IH]; intros p Hp Hc; simpl.
  - rewrite drop_ge; [done|]. unfold virtual. rewrite length_app, length_replicate. lia.
  - pose proof (Z.mod_pos_bound p 64 ltac:(lia)) as Hm.
    unfold slice_get. rewrite decide_True by lia. rewrite Hs by lia.
    destruct (lookup_lt_is_Some_2 (virtual l) (Z.to_nat p)) as [ev Hev].
    { unfold virtual. rewrite length_app, length_replicate. lia. }
    rewrite Hev. simpl. rewrite Hlen. simpl. rewrite rem_mod_pos by lia.
    rewrite Z.add_mod_idemp_l by lia. rewrite IH by lia. simpl.
    rewrite (drop_S _ _ _ Hev). rewrite filter_nonempty_cons.
    by replace (Z.to_nat (p + 1)) with (S (Z.to_nat p)) by lia.
Qed.

Lemma filter_lastn_virtual l k :
  (k <= 64)%nat -> filter nonempty (drop (length l + 64 - k) (virtual l)) = filter nonempty (lastn k l).
Proof.
  intros Hk. unfold virtual, lastn. rewrite drop_app, length_replicate, filter_app.
  rewrite drop_replicate, filter_none.
  2:{ apply Forall_replicate. intros H. by apply H. }
  simpl. destruct (decide (k <= length l)%nat).
  - by replace (length l + 64 - k - 64)%nat with (length l - k)%nat by lia.
  - replace (length l + 64 - k - 64)%nat with O by lia. by replace (length l - k)%nat with O by lia.
Qed.

Lemma Get_ok count e l :
  history_ok e l -> count <= 64 ->
  Get_loop (match events e with Some s => s | None => replicate 64 zeroServiceEvent end)
    (Z.to_nat count) (Z.rem (pos e - count + 64) 64) = Some (filter nonempty (lastn (Z.to_nat count) l)).
Proof.
  intros [Hp _ (slots & Hev & Hlen & Hs)] Hc.
  assert (match events e with Some s => s | None => replicate 64 zeroServiceEvent end = slots) as ->.
  { destruct Hev as [->|(-> & _ & ->)]; done. }
  destruct (decide (count <= 0)).
  { replace (Z.to_nat count) with O by lia. simpl. unfold lastn. rewrite Nat.sub_0_r, drop_all. done. }
  pose proof (Z.mod_pos_bound (Z.of_nat (length l)) 64 ltac:(lia)) as Hm.
  rewrite rem_mod_pos, Hp by lia.
  rewrite <-(Z.add_mod_idemp_l (Z.of_nat (length l) `mod` 64 - count)) by lia.
  rewrite <-(Zminus_mod_idemp_l (Z.of_nat (length l) `mod` 64)), Z.mod_mod, Zminus_mod_idemp_l by lia.
  rewrite Z.add_mod_idemp_l by lia.
  rewrite (Get_loop_ok slots l _ (Z.of_nat (length l) - count + 64)) by (done || lia).
  f_equal. rewrite <-filter_lastn_virtual by lia. do 2 f_equal. lia.
Qed.

(** ** Properties *)

(** C23: the fixed-length history refines the list of events.  Pushing any
    sequence of events never indexes out of range, and [Get(count)] then
    returns, oldest first, the last [min(count, 64)] of them that carry a
    message, for every [count], negative ones included. *)
Theorem history_get_last l count :
  exists e, push_all l zeroServiceEvents = Some e /\
    Get count e = Some (filter nonempty (lastn (Z.to_nat (Z.min count 64)) l)).
Proof.
  destruct (push_all_ok l zeroServiceEvents [] history_ok_init) as (e & He & Hok).
  exists e. split; [done|]. simpl in Hok.
  pose proof (Get_ok (Z.min count 64) e l Hok ltac:(lia)) as H.
  unfold Get. destruct (h_slots _ _ Hok) as (slots & Hev & Hlen & _).
  destruct Hev as [Hev|(Hev & -> & _)]; rewrite Hev in *.
  - rewrite Hlen. unfold MaxEventsToKeep. change (Z.of_nat 64) with 64.
    destruct (Z.ltb_spec 64 count).
    + by rewrite Z.min_r in * by lia.
    + by rewrite Z.min_l in * by lia.
  - unfold lastn. by rewrite drop_nil.
Qed.

(** The discard counter.  After any sequence of pushes, [discarded] counts
    (modulo the width of [uint]) exactly the events with a message that are no
    longer in the history. *)
Theorem history_discarded l :
  exists e, push_all l zeroServiceEvents = Some e /\
    discarded e = uint32 (Z.of_nat (length (filter nonempty (take (length l - 64) l)))).
Proof.
  destruct (push_all_ok l zeroServiceEvents [] history_ok_init) as (e & He & Hok).
  exists e. split; [done|]. apply (h_disc _ _ Hok).
Qed.
