(* ===== verification/Runners.v ===== *)
(** * Runners: how a service's work is executed

    Models [internal/app/machined/pkg/system/runner]: the [Runner] interface
    ([runner.go]), the restart wrapper ([restart/restart.go]), the process
    runner ([process/process.go]) and the goroutine runner
    ([goroutine/goroutine.go]).

    A run happens in a timed world: the clock, the instant at which the context
    is cancelled (if ever), what was reported to the event sink and when, and the state
    of the environment.  A [select] on two channels moves the clock to the
    first that becomes ready; when both are, the world's [picks] say which one
    Go takes.  [None] is a call that never returns. *)

From stdpp Require Import pretty.
From S2P Require Import Prelude Health ServiceEvents.

(** ** The timed world *)

Record world (E : Type) := mkWorld {
  now : Z;
  cancel_at : option Z;
  sink : list (Z * (ServiceState * string));
  picks : list bool;
  env : E
}.
Arguments mkWorld {E} _ _ _ _ _.
Arguments now {E} _.
Arguments cancel_at {E} _.
Arguments sink {E} _.
Arguments picks {E} _.
Arguments env {E} _.

Section world.
Context {E : Type}.
Implicit Types w : world E.

Definition at_time (t : Z) w : world E := mkWorld t (cancel_at w) (sink w) (picks w) (env w).
Definition set_env (e : E) w : world E := mkWorld (now w) (cancel_at w) (sink w) (picks w) e.

(** [eventSink(state, message)], the message already formatted. *)
Definition eventSink (s : ServiceState) (msg : string) w : world E :=
  mkWorld (now w) (cancel_at w) (sink w ++ [(now w, (s, msg))]) (picks w) (env w).

(** [ctx.Err()]. *)
Definition ctx_Err w : option error :=
  match cancel_at w with
  | Some t => if decide (t <= now w) then Some (ESentinel context_Canceled) else None
  | None => None
  end.

(** [time.After(d)] becomes ready; a duration that is not positive is over at
    once. *)
Definition time_After (d : Z) w : option Z := Some (now w + Z.max d 0).

(** The choice among two ready channels. *)
Definition pick w : bool * world E :=
  match picks w with
  | [] => (true, w)
  | b :: l => (b, mkWorld (now w) (cancel_at w) (sink w) l (env w))
  end.

(** [select] on a channel ready at [a] and one ready at [b]; the boolean says
    whether the first was taken. *)
Definition select2 (a b : option Z) w : option (bool * world E) :=
  match Z.max (now w) <$> a, Z.max (now w) <$> b with
  | None, None => None
  | Some ta, None => Some (true, at_time ta w)
  | None, Some tb => Some (false, at_time tb w)
  | Some ta, Some tb =>
    if ta <? tb then Some (true, at_time ta w)
    else if tb <? ta then Some (false, at_time tb w)
    else Some (pick (at_time ta w))
  end.

(** [<-ch] alone. *)
Definition recv_at (a : option Z) w : option (world E) :=
  t ← a; Some (at_time (Z.max (now w) t) w).

End world.

(** ** The interface *)

(** [ExitCode] is a Go [int]. *)
Record Status := mkStatus { Started : bool; ExitCode : Z }.

Definition zeroStatus : Status := mkStatus false 0.

#[export] Instance Status_eq_dec : EqDecision Status.
Proof. solve_decision. Defined.

(** [Run]: [None] when the call never returns. *)
Record Runner (E : Type) := mkRunner {
  Open : world E -> world E * option error;
  Run : world E -> option (world E * (Status * option error));
  Close : world E -> world E * option error;
  runner_String : string
}.
Arguments mkRunner {E} _ _ _ _.
Arguments Open {E} _ _.
Arguments Run {E} _ _.
Arguments Close {E} _ _.
Arguments runner_String {E} _.

(** What every runner promises its caller: time goes forward, the context is
    the caller's, and to the sink only events of a service being run are
    added. *)
Definition runner_event (s : ServiceState) : Prop := s ∈ [StateRunning; StateWaiting; StateStopping].

Definition extends {E} (w w' : world E) : Prop :=
  now w <= now w' /\ cancel_at w' = cancel_at w /\
  exists l, sink w' = sink w ++ l /\ Forall (fun ev => runner_event (fst (snd ev))) l.

Class RunnerLaws {E} (r : Runner E) : Prop :=
  run_extends w w' st err : Run r w = Some (w', (st, err)) -> extends w w'.

(** "Canceling ctx asks the process to stop gracefully, and Run returns once it
    has", with the time it may take. *)
Class StopsWithin {E} (r : Runner E) (bound : Z) : Prop :=
  run_stops w t : cancel_at w = Some t ->
    exists w' st err, Run r w = Some (w', (st, err)) /\ now w' <= Z.max (now w) t + bound.

(** ** Options *)

(** [Stdin] and the [LoggingManager] are identified by name. *)
Record Options := mkOptions {
  LoggingManager : string;
  Env : list string;
  GracefulShutdownTimeout : Z;
  Stdin : option string;
  OOMScoreAdj : Z;
  CgroupPath : string;
  LogID : string;
  HostNetworkFiles : bool;
  DroppedCapabilities : list string;
  SelinuxLabel : string;
  StdinFile : string;
  StdoutFile : string;
  StderrFile : string;
  UID : Z;
  Priority : Z
}.

Definition Option : Type := Options -> Options.

Definition Second : Z := 1000000000.

Definition DefaultOptions : Options :=
  mkOptions "null" [] (10 * Second) None 0 "" "" true [] "" "" "" "" 0 0.

Definition WithEnv (o : list string) : Option := fun a =>
  mkOptions (LoggingManager a) o (GracefulShutdownTimeout a) (Stdin a) (OOMScoreAdj a) (CgroupPath a) (LogID a)
    (HostNetworkFiles a) (DroppedCapabilities a) (SelinuxLabel a) (StdinFile a) (StdoutFile a) (StderrFile a) (UID a) (Priority a).
Definition WithLoggingManager (manager : string) : Option := fun a =>
  mkOptions manager (Env a) (GracefulShutdownTimeout a) (Stdin a) (OOMScoreAdj a) (CgroupPath a) (LogID a)
    (HostNetworkFiles a) (DroppedCapabilities a) (SelinuxLabel a) (StdinFile a) (StdoutFile a) (StderrFile a) (UID a) (Priority a).
Definition WithGracefulShutdownTimeout (timeout : Z) : Option := fun a =>
  mkOptions (LoggingManager a) (Env a) timeout (Stdin a) (OOMScoreAdj a) (CgroupPath a) (LogID a)
    (HostNetworkFiles a) (DroppedCapabilities a) (SelinuxLabel a) (StdinFile a) (StdoutFile a) (StderrFile a) (UID a) (Priority a).
Definition WithStdin (stdin : option string) : Option := fun a =>
  mkOptions (LoggingManager a) (Env a) (GracefulShutdownTimeout a) stdin (OOMScoreAdj a) (CgroupPath a) (LogID a)
    (HostNetworkFiles a) (DroppedCapabilities a) (SelinuxLabel a) (StdinFile a) (StdoutFile a) (StderrFile a) (UID a) (Priority a).
Definition WithOOMScoreAdj (score : Z) : Option := fun a =>
  mkOptions (LoggingManager a) (Env a) (GracefulShutdownTimeout a) (Stdin a) score (CgroupPath a) (LogID a)
    (HostNetworkFiles a) (DroppedCapabilities a) (SelinuxLabel a) (StdinFile a) (StdoutFile a) (StderrFile a) (UID a) (Priority a).
Definition WithCgroupPath (path : string) : Option := fun a =>
  mkOptions (LoggingManager a) (Env a) (GracefulShutdownTimeout a) (Stdin a) (OOMScoreAdj a) path (LogID a)
    (HostNetworkFiles a) (DroppedCapabilities a) (SelinuxLabel a) (StdinFile a) (StdoutFile a) (StderrFile a) (UID a) (Priority a).
Definition WithLogID (id : string) : Option := fun a =>
  mkOptions (LoggingManager a) (Env a) (GracefulShutdownTimeout a) (Stdin a) (OOMScoreAdj a) (CgroupPath a) id
    (HostNetworkFiles a) (DroppedCapabilities a) (SelinuxLabel a) (StdinFile a) (StdoutFile a) (StderrFile a) (UID a) (Priority a).
Definition WithHostNetworkFiles (enabled : bool) : Option := fun a =>
  mkOptions (LoggingManager a) (Env a) (GracefulShutdownTimeout a) (Stdin a) (OOMScoreAdj a) (CgroupPath a) (LogID a)
    enabled (DroppedCapabilities a) (SelinuxLabel a) (StdinFile a) (StdoutFile a) (StderrFile a) (UID a) (Priority a).
Definition WithSelinuxLabel (label : string) : Option := fun a =>
  mkOptions (LoggingManager a) (Env a) (GracefulShutdownTimeout a) (Stdin a) (OOMScoreAdj a) (CgroupPath a) (LogID a)
    (HostNetworkFiles a) (DroppedCapabilities a) label (StdinFile a) (StdoutFile a) (StderrFile a) (UID a) (Priority a).
(** [slices.Collect(maps.Keys(caps))]: in the order the map iterates. *)
Definition WithDroppedCapabilities (caps_in_iteration_order : list string) : Option := fun a =>
  mkOptions (LoggingManager a) (Env a) (GracefulShutdownTimeout a) (Stdin a) (OOMScoreAdj a) (CgroupPath a) (LogID a)
    (HostNetworkFiles a) caps_in_iteration_order (SelinuxLabel a) (StdinFile a) (StdoutFile a) (StderrFile a) (UID a) (Priority a).
Definition WithStdinFile (path : string) : Option := fun a =>
  mkOptions (LoggingManager a) (Env a) (GracefulShutdownTimeout a) (Stdin a) (OOMScoreAdj a) (CgroupPath a) (LogID a)
    (HostNetworkFiles a) (DroppedCapabilities a) (SelinuxLabel a) path (StdoutFile a) (StderrFile a) (UID a) (Priority a).
Definition WithStdoutFile (path : string) : Option := fun a =>
  mkOptions (LoggingManager a) (Env a) (GracefulShutdownTimeout a) (Stdin a) (OOMScoreAdj a) (CgroupPath a) (LogID a)
    (HostNetworkFiles a) (DroppedCapabilities a) (SelinuxLabel a) (StdinFile a) path (StderrFile a) (UID a) (Priority a).
Definition WithStderrFile (path : string) : Option := fun a =>
  mkOptions (LoggingManager a) (Env a) (GracefulShutdownTimeout a) (Stdin a) (OOMScoreAdj a) (CgroupPath a) (LogID a)
    (HostNetworkFiles a) (DroppedCapabilities a) (SelinuxLabel a) (StdinFile a) (StdoutFile a) path (UID a) (Priority a).
Definition WithUID (uid : Z) : Option := fun a =>
  mkOptions (LoggingManager a) (Env a) (GracefulShutdownTimeout a) (Stdin a) (OOMScoreAdj a) (CgroupPath a) (LogID a)
    (HostNetworkFiles a) (DroppedCapabilities a) (SelinuxLabel a) (StdinFile a) (StdoutFile a) (StderrFile a) uid (Priority a).
Definition WithPriority (priority : Z) : Option := fun a =>
  mkOptions (LoggingManager a) (Env a) (GracefulShutdownTimeout a) (Stdin a) (OOMScoreAdj a) (CgroupPath a) (LogID a)
    (HostNetworkFiles a) (DroppedCapabilities a) (SelinuxLabel a) (StdinFile a) (StdoutFile a) (StderrFile a) (UID a) priority.

(** [for _, setter := range setters { setter(r.opts) }]. *)
Definition apply_setters (setters : list Option) : Options := foldl (fun o s => s o) DefaultOptions setters.

(** [Args]. *)
Record Args := mkArgs { ID : string; ProcessArgs : list string }.

(** ** The restart wrapper *)

Module Restart.

(** [Type] is an [int]: [OtherType] stands for every other value. *)
Inductive Type_ := Forever | Once | UntilSuccess | OtherType (n : Z).

Definition Type_String (t : Type_) : string :=
  match t with
  | Forever => "Forever"
  | Once => "Once"
  | UntilSuccess => "UntilSuccess"
  | OtherType _ => "Unknown"
  end.

Record Options := mkOptions { Ty : Type_; RestartInterval : Z }.

Definition DefaultOptions : Options := mkOptions Forever (5 * Second).

Definition WithType (o : Type_) (args : Options) : Options := mkOptions o (RestartInterval args).
Definition WithRestartInterval (interval : Z) (args : Options) : Options := mkOptions (Ty args) interval.

Record restarter (E : Type) := mkRestarter { wrappedRunner : Runner E; opts : Options }.
Arguments mkRestarter {E} _ _.
Arguments wrappedRunner {E} _.
Arguments opts {E} _.

Definition New {E} (wrapRunner : Runner E) (setters : list (Options -> Options)) : restarter E :=
  mkRestarter wrapRunner (foldl (fun o s => s o) DefaultOptions setters).

Section Run.
Context {E : Type} (r : restarter E).

(** The [switch r.opts.Type]: [inl] leaves the loop, [inr] goes on to the
    wait. *)
Definition policy (st : Status) (err : option error) (w : world E) : (Status * option error) + world E :=
  let name := runner_String (wrappedRunner r) in
  match Ty (opts r), err with
  | Once, _ => inl (st, err)
  | UntilSuccess, None => inl (st, None)
  | UntilSuccess, Some e =>
    inr (eventSink StateWaiting ("Error running " +:+ name +:+ ", going to restart until it succeeds: " +:+ Error e) w)
  | Forever, None =>
    inr (eventSink StateWaiting ("Runner " +:+ name +:+ " exited without error, going to restart it") w)
  | Forever, Some e =>
    inr (eventSink StateWaiting ("Error running " +:+ name +:+ ", going to restart forever: " +:+ Error e) w)
  | OtherType _, _ => inr w
  end.

(** The loop of [Run].  [None]: the fuel is out or the wrapped runner does not
    return. *)
Fixpoint Run_loop (fuel : nat) (w : world E) : option (world E * (Status * option error)) :=
  match fuel with
  | O => None
  | S fuel =>
    '(w, (status, err)) ← Run (wrappedRunner r) w;
    match ctx_Err w with
    | Some _ => Some (w, (status, err))
    | None =>
      match policy status err w with
      | inl res => Some (w, res)
      | inr w =>
        '(done, w) ← select2 (cancel_at w) (time_After (RestartInterval (opts r)) w) w;
        if done : bool
        then Some (eventSink StateStopping "Aborting restart sequence" w, (status, None))
        else Run_loop fuel w
      end
    end
  end.

Definition restart_Open (w : world E) := Open (wrappedRunner r) w.
Definition restart_Close (w : world E) := Close (wrappedRunner r) w.
Definition restart_String : string :=
  "Restart(" +:+ Type_String (Ty (opts r)) +:+ ", " +:+ runner_String (wrappedRunner r) +:+ ")".

(** The restarter as a runner. *)
Definition as_Runner (fuel : nat) : Runner E :=
  mkRunner restart_Open (Run_loop fuel) restart_Close restart_String.

End Run.

End Restart.

(** ** Text of a process, [fmt]'s [%q] *)

Definition dquote : string := String (Ascii.ascii_of_nat 34) EmptyString.

Definition hex_digit (n : nat) : string :=
  match String.get n "0123456789abcdef" with Some c => String c EmptyString | None => EmptyString end.

(** One byte of [strconv.Quote], for bytes below 128; the bytes of printable
    characters above are kept. *)
Definition quote_byte (c : Ascii.ascii) : string :=
  let n := Ascii.nat_of_ascii c in
  if decide (n = 34%nat) then "\" +:+ dquote
  else if decide (n = 92%nat) then "\\"
  else if decide (n = 7%nat) then "\a" else if decide (n = 8%nat) then "\b"
  else if decide (n = 9%nat) then "\t" else if decide (n = 10%nat) then "\n"
  else if decide (n = 11%nat) then "\v" else if decide (n = 12%nat) then "\f"
  else if decide (n = 13%nat) then "\r"
  else if decide (n < 32)%nat then "\x" +:+ hex_digit (n / 16) +:+ hex_digit (n mod 16)
  else if decide (n = 127%nat) then "\x7f"
  else String c EmptyString.

Fixpoint quote_bytes (s : string) : string :=
  match s with
  | EmptyString => EmptyString
  | String c s => quote_byte c +:+ quote_bytes s
  end.

Definition quote (s : string) : string := dquote +:+ quote_bytes s +:+ dquote.

(** [%q] of a slice of strings. *)
Definition quote_list (l : list string) : string := "[" +:+ String.concat " " (quote <$> l) +:+ "]".

(** ** The operating system seen by the process runner *)

Inductive Signal := SIGTERM | SIGKILL.

#[export] Instance Signal_eq_dec : EqDecision Signal.
Proof. solve_decision. Defined.

Inductive exit_status := Exited (code : Z) | Signaled (name : string).

(** [cmd.ProcessState.ExitCode()] and the error of [cmd.Wait()]. *)
Definition exit_code (x : exit_status) : Z := match x with Exited c => c | Signaled _ => -1 end.

Definition wait_error (x : exit_status) : option error :=
  match x with
  | Exited c => if decide (c = 0) then None else Some (EMsg ("exit status " +:+ pretty c))
  | Signaled s => Some (EMsg ("signal: " +:+ s))
  end.

(** A started process: its PID, and when and how it exits given the signals
    delivered to it, with the instants of their delivery. *)
Record os_process := mkProcess {
  Pid : Z;
  exits : list (Signal * Z) -> option (Z * exit_status)
}.

(** The operating system and the log manager, as far as the runner sees them.
    The calls are numbered: the [nat] is the number of runs so far. *)
Class OS := {
  os_log_writer : nat -> option error;            (* ServiceLog(id).Writer() *)
  os_pipe : nat -> option error;
  os_open : nat -> string -> option error;        (* Open and OpenFile *)
  os_start : nat -> list string -> list string -> error + os_process
}.

(** Descriptors are numbered as they are opened; [copiers] are the goroutines
    that copy a pipe to the log, by read end and write end. *)
Record proc_env := mkProcEnv {
  runs : nat;
  next_fd : nat;
  open_fds : gset nat;
  copiers : list (nat * nat);
  delivered : list (Signal * Z)
}.

Module Process.

Section Process.
Context `{OS} (args : Args) (opts : Options).
Implicit Types w : world proc_env.

(** [commandWrapper]; [None] is a nil file. *)
Record commandWrapper := mkWrapper { stdin : option nat; stdout : option nat; stderr : option nat }.

Definition process_Open w : world proc_env * option error := (w, None).
Definition process_Close w : world proc_env * option error := (w, None).
Definition process_String : string := "Process(" +:+ quote_list (ProcessArgs args) +:+ ")".

Definition new_fd (e : proc_env) : nat * proc_env :=
  (next_fd e, mkProcEnv (runs e) (S (next_fd e)) ({[next_fd e]} ∪ open_fds e) (copiers e) (delivered e)).

Definition close_fds (l : list nat) (e : proc_env) : proc_env :=
  mkProcEnv (runs e) (next_fd e) (open_fds e ∖ list_to_set l) (copiers e) (delivered e).

(** [pr, pw, err := os.Pipe()]: the error is not looked at, so that both files
    are nil when it fails; then the copying goroutine is started. *)
Definition build_pipe (e : proc_env) : option nat * proc_env :=
  match os_pipe (runs e) with
  | Some _ => (None, e)
  | None =>
    let '(pr, e) := new_fd e in
    let '(pw, e) := new_fd e in
    (Some pw, mkProcEnv (runs e) (next_fd e) (open_fds e) ((pr, pw) :: copiers e) (delivered e))
  end.

(** One of the three optional files; [dflt] is used when no path is given. *)
Definition build_file (path : string) (dflt : option nat) (closers : list nat) (e : proc_env)
    : error + (option nat * list nat * proc_env) :=
  if decide (path = "") then inr (dflt, closers, e)
  else match os_open (runs e) path with
       | Some err => inl err
       | None => let '(fd, e) := new_fd e in inr (Some fd, closers ++ [fd], e)
       end.

(** The files of [build] in order, and what to close on an error. *)
Definition build_files (pw : option nat) (e : proc_env) : proc_env * list nat * (error + commandWrapper) :=
  let closers := option_list pw in
  match build_file (StdinFile opts) None closers e with
  | inl err => (e, closers, inl err)
  | inr (fin, closers, e) =>
    match build_file (StdoutFile opts) pw closers e with
    | inl err => (e, closers, inl err)
    | inr (fout, closers, e) =>
      match build_file (StderrFile opts) pw closers e with
      | inl err => (e, closers, inl err)
      | inr (ferr, closers, e) => (e, closers, inr (mkWrapper fin fout ferr))
      end
    end
  end.

(** The closers run only when [build] leaves early with an error. *)
Definition build (e : proc_env) : proc_env * (error + commandWrapper) :=
  match os_log_writer (runs e) with
  | Some err => (e, inl (EWrap "service log handler: " err ""))
  | None =>
    let '(pw, e) := build_pipe e in
    match build_files pw e with
    | (e, closers, inl err) => (close_fds closers e, inl err)
    | (e, _, inr wrapper) => (e, inr wrapper)
    end
  end.

(** [cmd.Process.Signal(sig)]: refused once the process has been waited for. *)
Definition signal (p : os_process) (s : Signal) w : world proc_env * option error :=
  let e := env w in
  match exits p (delivered e) with
  | Some (t, _) =>
    if decide (t <= now w) then (w, Some (EMsg "os: process already finished"))
    else (set_env (mkProcEnv (runs e) (next_fd e) (open_fds e) (copiers e) (delivered e ++ [(s, now w)])) w, None)
  | None => (set_env (mkProcEnv (runs e) (next_fd e) (open_fds e) (copiers e) (delivered e ++ [(s, now w)])) w, None)
  end.

Definition sig_name (s : Signal) : string := match s with SIGTERM => "SIGTERM" | SIGKILL => "SIGKILL" end.

(** Report, then send, then report a failure. *)
Definition send_signal (p : os_process) (s : Signal) w : world proc_env :=
  let w := eventSink StateStopping ("Sending " +:+ sig_name s +:+ " to " +:+ process_String) w in
  match signal p s w with
  | (w, None) => w
  | (w, Some e) =>
    eventSink StateStopping ("Failed to send " +:+ sig_name s +:+ " to " +:+ process_String +:+ ": " +:+ Error e) w
  end.

(** The instant [waitCh] is ready: when the process exits. *)
Definition wait_ready (p : os_process) w : option Z := fst <$> exits p (delivered (env w)).

(** [err := <-waitCh; status.ExitCode = ...; return status, err]. *)
Definition finish (p : os_process) w : option (world proc_env * (Status * option error)) :=
  '(_, x) ← exits p (delivered (env w));
  Some (w, (mkStatus true (goint (exit_code x)), wait_error x)).

(** From [cmd.Start()] on: the process runs, then is stopped when the context
    is done. *)
Definition supervise (p : os_process) w : option (world proc_env * (Status * option error)) :=
  let w := eventSink StateRunning ("Process " +:+ process_String +:+ " started with PID " +:+ pretty (Pid p)) w in
  '(exited, w) ← select2 (wait_ready p w) (cancel_at w) w;
  if exited : bool then finish p w
  else
    let w := send_signal p SIGTERM w in
    '(exited, w) ← select2 (wait_ready p w) (time_After (GracefulShutdownTimeout opts) w) w;
    if exited : bool then finish p w
    else
      let w := send_signal p SIGKILL w in
      w ← recv_at (wait_ready p w) w;
      finish p w.

(** [Run].  The signals delivered are those of this run's process. *)
Definition process_Run w : option (world proc_env * (Status * option error)) :=
  match ProcessArgs args with
  | [] => Some (w, (zeroStatus, Some (EMsg "no process args specified")))
  | _ :: _ =>
    let e := env w in
    let '(e, r) := build (mkProcEnv (runs e) (next_fd e) (open_fds e) (copiers e) []) in
    let w := set_env (mkProcEnv (S (runs e)) (next_fd e) (open_fds e) (copiers e) (delivered e)) w in
    match r with
    | inl err => Some (w, (zeroStatus, Some err))
    | inr wrapper =>
      match os_start (runs e) (ProcessArgs args) (Env opts) with
      | inl err => Some (w, (zeroStatus, Some (EWrap "error starting process: " err "")))
      | inr p => supervise p w
      end
    end
  end.

Definition as_Runner : Runner proc_env := mkRunner process_Open process_Run process_Close process_String.

End Process.

(** [NewRunner]. *)
Definition NewRunner `{OS} (args : Args) (setters : list Option) : Runner proc_env :=
  as_Runner args (apply_setters setters).

End Process.

(** ** The goroutine runner *)

Module Goroutine.

Definition ErrAborted : string := "service aborted".

Definition Getpid : Z := 1.

(** How the service's main function ends. *)
Inductive main_result := Returned (err : option error) | Panicked (value : string).

(** The service and its log: whether the log's writer opens, when and how the
    main function started at some instant ends given the instant of
    cancellation, what closing the log returns, and the text of the stack of
    a panic. *)
Record service_main := mkMain {
  log_writer : option error;
  main : Z -> option Z -> option (Z * main_result);
  log_close : option error;
  stack : string
}.

Section Goroutine.
Context {E : Type} (sm : service_main) (id : string) (opts : Options).
Implicit Types w : world E.

Definition goroutine_Open w : world E * option error := (w, None).
Definition goroutine_Close w : world E * option error := (w, None).
Definition goroutine_String : string := "Goroutine(" +:+ quote id +:+ ")".

(** [wrappedMain] started now: when it sends its result on [errCh], and the
    result; a panic is recovered. *)
Definition wrappedMain w : option (Z * option error) :=
  match log_writer sm with
  | Some e => Some (now w, Some (EWrap "service log handler: " e ""))
  | None =>
    '(t, res) ← main sm (now w) (cancel_at w);
    Some (t, match res with
             | Panicked v => Some (EMsg ("panic in service: " +:+ v +:+ String (Ascii.ascii_of_nat 10) (stack sm)))
             | Returned None => None
             | Returned (Some err) => if errors_Is err context_Canceled then log_close sm else Some err
             end)
  end.

Definition goroutine_Run w : option (world E * (Status * option error)) :=
  let status := mkStatus true 0 in
  let w := eventSink StateRunning "Service started as goroutine" w in
  let errCh := wrappedMain w in
  '(stopping, w) ← select2 (cancel_at w) (fst <$> errCh) w;
  if stopping : bool then
    let w := eventSink StateStopping "Service stopping" w in
    '(timeout, w) ← select2 (time_After (int64 (GracefulShutdownTimeout opts * 2)) w) (fst <$> errCh) w;
    if timeout : bool
    then Some (eventSink StateStopping "Service hasn't stopped gracefully on timeout, aborting" w,
               (status, Some (ESentinel ErrAborted)))
    else '(_, err) ← errCh; Some (w, (status, err))
  else '(_, err) ← errCh; Some (w, (status, err)).

Definition as_Runner : Runner E := mkRunner goroutine_Open goroutine_Run goroutine_Close goroutine_String.

End Goroutine.

(** [NewRunner]. *)
Definition NewRunner {E} (id : string) (sm : service_main) (setters : list Option) : Runner E :=
  as_Runner sm id (apply_setters setters).

End Goroutine.

(** ** Lemmas on the timed world *)

Section world_lemmas.
Context {E : Type}.
Implicit Types w : world E.

(** A step that reports nothing. *)
Lemma extends_quiet w w' : now w <= now w' -> cancel_at w' = cancel_at w -> sink w' = sink w -> extends w w'.
Proof. intros. split_and!; [done..|]. exists []. by rewrite app_nil_r. Qed.

#[export] Instance extends_preorder : PreOrder (@extends E).
Proof.
  split.
  - intros w. by apply extends_quiet.
  - intros w1 w2 w3 (H1 & H2 & l1 & H3 & F1) (H4 & H5 & l2 & H6 & F2). split; [lia|].
    split; [congruence|]. exists (l1 ++ l2). rewrite H6, H3, app_assoc. split; [done|]. by apply Forall_app.
Qed.

Lemma extends_eventSink s m w : runner_event s -> extends w (eventSink s m w).
Proof. intros Hs. split; [simpl; lia|]. split; [done|]. exists [(now w, (s, m))]. split; [done|]. by apply Forall_singleton. Qed.

Lemma extends_at_time t w : now w <= t -> extends w (at_time t w).
Proof. intros. by apply extends_quiet. Qed.

Lemma extends_set_env e w : extends w (set_env e w).
Proof. by apply extends_quiet. Qed.

Lemma runner_events : runner_event StateRunning /\ runner_event StateWaiting /\ runner_event StateStopping.
Proof. unfold runner_event. set_solver. Qed.

Lemma extends_running m w : extends w (eventSink StateRunning m w).
Proof. apply extends_eventSink, runner_events. Qed.
Lemma extends_waiting m w : extends w (eventSink StateWaiting m w).
Proof. apply extends_eventSink, runner_events. Qed.
Lemma extends_stopping m w : extends w (eventSink StateStopping m w).
Proof. apply extends_eventSink, runner_events. Qed.

Lemma pick_same w b w' : pick w = (b, w') ->
  now w' = now w /\ cancel_at w' = cancel_at w /\ sink w' = sink w /\ env w' = env w.
Proof. unfold pick. intros. destruct (picks w); by simplify_eq/=. Qed.

(** What a [select] does: it takes a channel that is ready at the instant it
    moves to, and not after the other one could have been taken. *)
Lemma select2_spec a b w c w' :
  select2 a b w = Some (c, w') ->
  exists t, (if c then a else b) = Some t /\ now w' = Z.max (now w) t /\
    (forall t', (if c then b else a) = Some t' -> Z.max (now w) t <= Z.max (now w) t') /\
    cancel_at w' = cancel_at w /\ sink w' = sink w /\ env w' = env w.
Proof.
  unfold select2. destruct a as [ta|], b as [tb|]; simpl; intros; try discriminate.
  2,3: simplify_eq/=; eexists; split_and!; done.
  destruct (Z.ltb_spec (Z.max (now w) ta) (Z.max (now w) tb)).
  { simplify_eq/=. exists ta. split_and!; try done. intros t' [= <-]. lia. }
  destruct (Z.ltb_spec (Z.max (now w) tb) (Z.max (now w) ta)).
  { simplify_eq/=. exists tb. split_and!; try done. intros t' [= <-]. lia. }
  injection H as H. pose proof (pick_same _ _ _ H) as (P1 & P2 & P3 & P4). simpl in *.
  destruct c; eexists; (split_and!; [done|lia| |done|done|done]); intros t' [= <-]; lia.
Qed.

Lemma select2_extends a b w c w' : select2 a b w = Some (c, w') -> extends w w'.
Proof.
  intros H. destruct (select2_spec _ _ _ _ _ H) as (t & _ & Hn & _ & Hc & Hs & _).
  apply extends_quiet; done || lia.
Qed.

Lemma select2_returns a b w : is_Some a \/ is_Some b -> exists c w', select2 a b w = Some (c, w').
Proof.
  intros H. unfold select2. destruct a as [ta|], b as [tb|]; simpl; try (repeat case_match; eauto; fail).
  - repeat case_match; eauto. destruct (pick _) eqn:?; eauto.
  - destruct H as [[]|[]]; done.
Qed.

Lemma recv_at_extends a w w' : recv_at a w = Some w' -> extends w w'.
Proof. unfold recv_at. intros (t & _ & [= <-])%bind_Some. apply extends_at_time. lia. Qed.

Lemma ctx_Err_extends w w' : extends w w' -> ctx_Err w' = None -> ctx_Err w = None.
Proof.
  unfold ctx_Err. intros (Hn & -> & _). destruct (cancel_at w); [|done].
  repeat case_decide; done || lia.
Qed.

Lemma ctx_Err_None w t : cancel_at w = Some t -> ctx_Err w = None -> now w < t.
Proof. unfold ctx_Err. intros ->. case_decide; [done|lia]. Qed.

Lemma ctx_Err_Some w t : cancel_at w = Some t -> t <= now w -> ctx_Err w = Some (ESentinel context_Canceled).
Proof. unfold ctx_Err. intros -> ?. by rewrite decide_True. Qed.

End world_lemmas.

#[export] Hint Resolve extends_running extends_waiting extends_stopping extends_set_env select2_extends recv_at_extends : go.

(** ** Lemmas on the restart wrapper *)

Module RestartLemmas.
Import Restart.

Section lemmas.
Context {E : Type} (r : restarter E).
Implicit Types w : world E.

Lemma policy_inr st err w w' : policy r st err w = inr w' -> extends w w' /\ now w' = now w.
Proof.
  unfold policy. intros H. destruct (Ty (opts r)), err; simplify_eq; split; done || apply extends_waiting || reflexivity.
Qed.

(** One turn of the loop. *)
Lemma Run_loop_S fuel w : Run_loop r (S fuel) w =
  '(w, (status, err)) ← Run (wrappedRunner r) w;
  match ctx_Err w with
  | Some _ => Some (w, (status, err))
  | None =>
    match policy r status err w with
    | inl res => Some (w, res)
    | inr w =>
      '(done, w) ← select2 (cancel_at w) (time_After (RestartInterval (opts r)) w) w;
      if done : bool
      then Some (eventSink StateStopping "Aborting restart sequence" w, (status, None))
      else Run_loop r fuel w
    end
  end.
Proof. done. Qed.

Context `{!RunnerLaws (wrappedRunner r)}.

Lemma Run_loop_extends fuel w w' st err : Run_loop r fuel w = Some (w', (st, err)) -> extends w w'.
Proof.
  revert w. induction fuel as [|fuel IH]; intros w; [done|]. rewrite Run_loop_S.
  intros ([w1 [st1 err1]] & HR & H)%bind_Some. apply run_extends in HR.
  destruct (ctx_Err w1); [by simplify_eq|].
  destruct (policy r st1 err1 w1) as [res|w2] eqn:Hp; [by simplify_eq|].
  apply policy_inr in Hp as [Hp _]. apply bind_Some in H as ([d w3] & Hs & H).
  apply select2_extends in Hs. rewrite HR, Hp, Hs.
  destruct d; [simplify_eq; apply extends_stopping|by apply IH].
Qed.

(** An attempt of the wrapped runner. *)
Record attempt := mkAttempt { at_begin : world E; at_end : world E; at_res : Status * option error }.

(** In [w'], nothing but the wait for the restart interval has happened since
    the attempt [a], at most to its end: the context was not done, and the wait
    was reported, unless the policy is unknown. *)
Definition waiting (a : attempt) w' : Prop :=
  ctx_Err (at_end a) = None /\ cancel_at w' = cancel_at (at_end a) /\ env w' = env (at_end a) /\
  now (at_end a) <= now w' <= now (at_end a) + Z.max (RestartInterval (opts r)) 0 /\
  match Ty (opts r) with
  | OtherType _ => sink w' = sink (at_end a)
  | _ => exists msg, sink w' = sink (at_end a) ++ [(now (at_end a), (StateWaiting, msg))]
  end.

(** A sequence of attempts of which the first begins in [w]. *)
Record attempts w (l : list attempt) : Prop := {
  as_first : at_begin <$> head l = Some w;
  as_runs a : a ∈ l -> Run (wrappedRunner r) (at_begin a) = Some (at_end a, at_res a);
  as_next i a b : l !! i = Some a -> l !! S i = Some b ->
    waiting a (at_begin b) /\ now (at_begin b) = now (at_end a) + Z.max (RestartInterval (opts r)) 0
}.

Lemma attempts_one w w1 res : Run (wrappedRunner r) w = Some (w1, res) -> attempts w [mkAttempt w w1 res].
Proof. intros HR. split; [done|by intros a ->%list_elem_of_singleton|by intros [|i] a b]. Qed.

Lemma attempts_cons w w1 w2 res l :
  Run (wrappedRunner r) w = Some (w1, res) -> waiting (mkAttempt w w1 res) w2 ->
  now w2 = now w1 + Z.max (RestartInterval (opts r)) 0 -> attempts w2 l -> attempts w (mkAttempt w w1 res :: l).
Proof.
  intros HR HW Hn [H1 H2 H3]. split; [done|by intros a [->|?]%elem_of_cons; [|apply H2]|].
  intros [|i] a b Ha Hb; [|by apply (H3 i)]. injection Ha as <-. destruct l as [|b' l]; [done|].
  injection Hb as <-. injection H1 as ->. done.
Qed.

(** The wait after an attempt. *)
Lemma policy_waiting w0 w1 st err w2 d w3 :
  ctx_Err w1 = None -> policy r st err w1 = inr w2 ->
  select2 (cancel_at w2) (time_After (RestartInterval (opts r)) w2) w2 = Some (d, w3) ->
  let a := mkAttempt w0 w1 (st, err) in
  waiting a w3 /\ Ty (opts r) <> Once /\ (Ty (opts r) = UntilSuccess -> is_Some err) /\
  if d then cancel_at w3 = Some (now w3) else now w3 = now w1 + Z.max (RestartInterval (opts r)) 0.
Proof.
  intros Hctx Hp Hs a. pose proof (policy_inr _ _ _ _ Hp) as [HE Hn]. destruct HE as (_ & Hc & _).
  destruct (select2_spec _ _ _ _ _ Hs) as (t & Ht & Hn3 & Hle & Hc3 & Hs3 & He3).
  assert (is_Some err \/ Ty (opts r) <> UntilSuccess) as Hu.
  { unfold policy in Hp. destruct (Ty (opts r)), err; simplify_eq; eauto. }
  assert (env w2 = env w1 /\ match Ty (opts r) with
    | OtherType _ => sink w2 = sink w1
    | _ => exists msg, sink w2 = sink w1 ++ [(now w1, (StateWaiting, msg))]
    end) as [He2 Hs2] by (unfold policy in Hp; destruct (Ty (opts r)), err; simplify_eq; eauto).
  assert (now w1 <= now w3 <= now w1 + Z.max (RestartInterval (opts r)) 0 /\
    if d then cancel_at w3 = Some (now w3) else now w3 = now w1 + Z.max (RestartInterval (opts r)) 0) as [Hb Hd].
  { unfold time_After in *. rewrite Hn in *. destruct d; [|injection Ht as <-; lia]. specialize (Hle _ eq_refl).
    pose proof (ctx_Err_None w1 t ltac:(congruence) Hctx). split; [lia|]. rewrite Hc3, Ht. f_equal. lia. }
  unfold waiting, a. cbn [at_end]. split; [|split; [|split; [|exact Hd]]].
  - split; [exact Hctx|]. split; [congruence|]. split; [congruence|]. split; [exact Hb|]. by rewrite Hs3.
  - intros HT. unfold policy in Hp. by rewrite HT in Hp.
  - intros HT. by destruct Hu.
Qed.

(** The attempts of a run. *)
Lemma Run_loop_attempts fuel w w' st err :
  Run_loop r fuel w = Some (w', (st, err)) ->
  exists l last, attempts w (l ++ [last]) /\
    (Ty (opts r) = Once -> l = []) /\
    (Ty (opts r) = UntilSuccess -> Forall (fun a => is_Some (snd (at_res a))) l) /\
    st = fst (at_res last) /\
    (w' = at_end last /\ err = snd (at_res last) /\
       (is_Some (ctx_Err w') \/ Ty (opts r) = Once \/ Ty (opts r) = UntilSuccess /\ err = None) \/
     err = None /\ Ty (opts r) <> Once /\ (Ty (opts r) = UntilSuccess -> is_Some (snd (at_res last))) /\
       exists b, waiting last b /\ cancel_at b = Some (now b) /\
         sink w' = sink b ++ [(now b, (StateStopping, "Aborting restart sequence"))] /\ now w' = now b).
Proof.
  revert w. induction fuel as [|fuel IH]; intros w; [done|]. rewrite Run_loop_S.
  intros ([w1 [st1 err1]] & HR & H)%bind_Some. pose proof (attempts_one _ _ _ HR) as H1.
  destruct (ctx_Err w1) eqn:Hctx.
  { simplify_eq. exists [], (mkAttempt w w' (st, err)). rewrite Hctx. split_and!; eauto 10. }
  destruct (policy r st1 err1 w1) as [res|w2] eqn:Hp.
  { simplify_eq. exists [], (mkAttempt w w' (st1, err1)). unfold policy in Hp.
    destruct (Ty (opts r)), err1; simplify_eq; split_and!; eauto 10. }
  apply bind_Some in H as ([d w3] & Hs & H).
  destruct (policy_waiting w _ _ _ _ _ _ Hctx Hp Hs) as (HW & HO & HU & Hd). destruct d.
  - simplify_eq. exists [], (mkAttempt w w1 (st, err1)). split_and!; eauto 12.
  - destruct (IH w3 H) as (l & last & HA & _ & G2 & G3). exists (mkAttempt w w1 (st1, err1) :: l), last.
    split; [by eapply attempts_cons|]. split; [done|]. split; [|done]. intros HT. constructor; auto.
Qed.

(** How the last attempt ended, and why it was the last. *)
Lemma Run_loop_last fuel w w' st err :
  Run_loop r fuel w = Some (w', (st, err)) ->
  exists wl w1 errl, Run (wrappedRunner r) wl = Some (w1, (st, errl)) /\
    (err = errl \/ err = None /\ is_Some (ctx_Err w')) /\
    match Ty (opts r) with
    | Once => wl = w
    | UntilSuccess => errl = None \/ is_Some (ctx_Err w')
    | Forever | OtherType _ => is_Some (ctx_Err w')
    end.
Proof.
  revert w. induction fuel as [|fuel IH]; intros w; [done|]. rewrite Run_loop_S.
  intros ([w1 [st1 err1]] & HR & H)%bind_Some.
  destruct (ctx_Err w1) eqn:Hctx.
  { simplify_eq. exists w, w', err. split; [done|]. split; [by left|]. rewrite Hctx. destruct (Ty _); eauto. }
  destruct (policy r st1 err1 w1) as [res|w2] eqn:Hp.
  { simplify_eq. unfold policy in Hp. exists w, w', err1.
    destruct (Ty (opts r)), err1; simplify_eq; eauto. }
  apply bind_Some in H as ([d w3] & Hs & H). destruct d.
  - simplify_eq. exists w, w1, err1. split; [done|].
    assert (is_Some (ctx_Err w3)) as Hc.
    { destruct (select2_spec _ _ _ _ _ Hs) as (t & Ht & Hn & _ & Hca & _).
      rewrite <-Hca in Ht. rewrite (ctx_Err_Some _ _ Ht); [done|]. lia. }
    split; [by right|]. unfold policy in Hp. destruct (Ty (opts r)), err1; simplify_eq; auto.
  - destruct (IH w3 H) as (wl & w4 & errl & H1 & H2 & H3). exists wl, w4, errl.
    split; [done|]. split; [done|]. destruct (Ty (opts r)) eqn:HT; try done.
    unfold policy in Hp. rewrite HT in Hp. done.
Qed.

Lemma Run_loop_stops bound fuel w t :
  StopsWithin (wrappedRunner r) bound -> 0 < RestartInterval (opts r) ->
  cancel_at w = Some t -> (t - now w) / RestartInterval (opts r) + 1 < Z.of_nat fuel -> (0 < fuel)%nat ->
  exists w' st err, Run_loop r fuel w = Some (w', (st, err)) /\ now w' <= Z.max (now w) t + bound.
Proof.
  intros Hstop Hi. revert w. induction fuel as [|fuel IH]; intros w Hc Hf Hf0; [lia|].
  destruct (run_stops (r := wrappedRunner r) w t Hc) as (w1 & st1 & err1 & HR & Hb).
  rewrite Run_loop_S, HR. simpl. apply run_extends in HR as HE.
  destruct HE as (Hn1 & Hc1 & _).
  destruct (ctx_Err w1) eqn:Hctx; [eauto|].
  destruct (policy r st1 err1 w1) as [[st err]|w2] eqn:Hp; [eauto|].
  apply policy_inr in Hp as [(_ & Hc2 & _) Hn2].
  assert (cancel_at w2 = Some t) as Hct by congruence.
  destruct (select2_returns (cancel_at w2) (time_After (RestartInterval (opts r)) w2) w2) as (d & w3 & Hs).
  { rewrite Hct. by left. }
  rewrite Hs. cbn [mbind option_bind].
  destruct (select2_spec _ _ _ _ _ Hs) as (t3 & Ht3 & Hn3 & Hle & Hc3 & _).
  pose proof (ctx_Err_None w1 t ltac:(congruence) Hctx) as Hlt.
  destruct d.
  - eexists _, _, _. split; [done|]. simpl. rewrite Hct in Ht3. injection Ht3 as <-.
    pose proof (run_stops (r := wrappedRunner r) w3 t ltac:(congruence)) as (w9 & ? & ? & HR9 & Hb9).
    apply run_extends in HR9 as (Hn9 & _). lia.
  - unfold time_After in Ht3. injection Ht3 as <-.
    specialize (Hle t Hct).
    assert ((t - now w3) / RestartInterval (opts r) <= (t - now w) / RestartInterval (opts r) - 1) as Hd.
    { pose proof (Z.div_add (t - now w) (-1) (RestartInterval (opts r)) ltac:(lia)) as Hda.
      pose proof (Z.div_le_mono (t - now w3) (t - now w + -1 * RestartInterval (opts r)) (RestartInterval (opts r))). lia. }
    assert (0 <= (t - now w) / RestartInterval (opts r) - 1 + 1).
    { pose proof (Z.div_pos (t - now w3) (RestartInterval (opts r)) ltac:(lia) ltac:(lia)). lia. }
    destruct (IH w3) as (w' & st & err & HR' & Hb'); [congruence|lia|lia|].
    exists w', st, err. split; [done|]. lia.
Qed.

End lemmas.

#[export] Instance restart_laws {E} (r : restarter E) fuel :
  RunnerLaws (wrappedRunner r) -> RunnerLaws (as_Runner r fuel).
Proof. intros Hr w w' st err. apply Run_loop_extends; apply Hr. Qed.

End RestartLemmas.

(** ** Lemmas on the process runner *)

(** [SIGKILL] ends a process within [latency]. *)
Class OSKills `{OS} (latency : Z) : Prop :=
  os_kill n argv envv p sigs t : os_start n argv envv = inr p ->
    exists t' x, exits p (sigs ++ [(SIGKILL, t)]) = Some (t', x) /\ t' <= t + latency.

Module ProcessLemmas.
Import Process.

Section lemmas.
Context `{OS} (args : Args) (opts : Options).
Implicit Types w : world proc_env.

(** A signal to a live process is delivered now; one to a process that has
    exited is not. *)
Lemma send_signal_spec p s w w' :
  send_signal args p s w = w' ->
  now w' = now w /\ cancel_at w' = cancel_at w /\ extends w w' /\
  open_fds (env w') = open_fds (env w) /\ runs (env w') = runs (env w) /\
  (delivered (env w') = delivered (env w) ++ [(s, now w)] /\
     (forall t x, exits p (delivered (env w)) = Some (t, x) -> now w < t) \/
   delivered (env w') = delivered (env w) /\
     exists t x, exits p (delivered (env w)) = Some (t, x) /\ t <= now w).
Proof.
  intros <-. unfold send_signal, signal. simpl.
  destruct (exits p (delivered (env w))) as [[t x]|]; [case_decide|]; simpl;
    (split_and!; [done|done| |done|done|]).
  - etrans; apply extends_stopping.
  - right. eauto.
  - apply extends_stopping.
  - left. split; [done|]. intros t' x' [= <- <-]. lia.
  - apply extends_stopping.
  - left. split; [done|]. done.
Qed.

Lemma finish_spec p w w' st err :
  finish p w = Some (w', (st, err)) ->
  exists t x, exits p (delivered (env w)) = Some (t, x) /\ w' = w /\
    st = mkStatus true (goint (exit_code x)) /\ err = wait_error x.
Proof. unfold finish. intros ([t x] & He & [= <- <- <-])%bind_Some. eauto 10. Qed.

Lemma wait_ready_Some p w t :
  wait_ready p w = Some t -> exists x, exits p (delivered (env w)) = Some (t, x).
Proof. unfold wait_ready. intros ([t' x] & -> & ->)%fmap_Some. eauto. Qed.

(** The result of a process that is waited for at its exit. *)
Lemma finish_ready p w t w1 w' st err :
  wait_ready p w = Some t -> env w1 = env w -> finish p w1 = Some (w', (st, err)) ->
  w' = w1 /\ exists x, exits p (delivered (env w1)) = Some (t, x) /\ st = mkStatus true (goint (exit_code x)) /\
    err = wait_error x.
Proof.
  intros (x & Hx)%wait_ready_Some He (t' & x' & Hx' & -> & -> & ->)%finish_spec. split; [done|].
  rewrite He in Hx'. rewrite Hx in Hx'. injection Hx' as <- <-. exists x. by rewrite He.
Qed.

(** Signals delivered while a process is supervised, and how it ended. *)
Definition stopped_properly (p : os_process) (w w' : world proc_env) (st : Status) (err : option error) : Prop :=
  (exists t x, exits p (delivered (env w')) = Some (t, x) /\ t <= now w' /\
    st = mkStatus true (goint (exit_code x)) /\ err = wait_error x) /\
  (delivered (env w') = [] \/
   exists c t1, cancel_at w' = Some c /\ c <= t1 <= now w' /\
    (delivered (env w') = [(SIGTERM, t1)] \/
     exists t2, delivered (env w') = [(SIGTERM, t1); (SIGKILL, t2)] /\
      t1 + GracefulShutdownTimeout opts <= t2 /\
      (forall t x, exits p [(SIGTERM, t1)] = Some (t, x) -> t2 < t))).

Lemma supervise_spec p w w' st err :
  delivered (env w) = [] -> supervise args opts p w = Some (w', (st, err)) ->
  extends w w' /\ stopped_properly p w w' st err /\
  open_fds (env w') = open_fds (env w) /\ runs (env w') = runs (env w).
Proof.
  intros Hd. unfold supervise. set (w0 := eventSink StateRunning _ w).
  assert (extends w w0) as X0 by apply extends_running.
  assert (delivered (env w0) = []) as D0 by done.
  assert (open_fds (env w0) = open_fds (env w) /\ runs (env w0) = runs (env w)) as [F0 N0] by done.
  clearbody w0.
  intros ([c1 w1] & S1 & HR)%bind_Some.
  destruct (select2_spec _ _ _ _ _ S1) as (t1 & R1 & T1 & L1 & C1 & _ & E1). apply select2_extends in S1.
  destruct c1.
  { destruct (finish_ready _ _ _ _ _ _ _ R1 E1 HR) as (-> & x1 & He & -> & ->).
    split; [by rewrite X0|]. split; [|by rewrite E1]. split; [|left; by rewrite E1].
    exists t1, x1. split_and!; [done|lia|done|done]. }
  destruct (send_signal_spec p SIGTERM w1 _ eq_refl) as (T2 & C2 & X2 & F2 & N2 & D2).
  set (w2 := send_signal args p SIGTERM w1) in *. clearbody w2.
  apply bind_Some in HR as ([c3 w3] & S3 & HR).
  destruct (select2_spec _ _ _ _ _ S3) as (t3 & R3 & T3 & L3 & C3 & _ & E3). apply select2_extends in S3.
  assert (extends w w3) as X3 by (rewrite X0, S1, X2; done).
  assert (delivered (env w2) = [] \/ delivered (env w2) = [(SIGTERM, now w1)]) as D2'.
  { rewrite E1, D0 in D2. destruct D2 as [[D2 _]|[D2 _]]; rewrite D2; auto. }
  assert (open_fds (env w3) = open_fds (env w)) as F3 by congruence.
  assert (runs (env w3) = runs (env w)) as N3 by congruence.
  destruct c3.
  { destruct (finish_ready _ _ _ _ _ _ _ R3 E3 HR) as (-> & x3 & He & -> & ->).
    split; [done|]. split; [|done]. split; [exists t3, x3; split_and!; [done|lia|done|done]|].
    rewrite E3. destruct D2' as [->| ->]; [by left|right].
    exists t1, (now w1). split_and!; [congruence|lia|lia|by left]. }
  destruct (send_signal_spec p SIGKILL w3 _ eq_refl) as (T4 & C4 & X4 & F4 & N4 & D4).
  set (w4 := send_signal args p SIGKILL w3) in *. clearbody w4.
  apply bind_Some in HR as (w5 & R5 & HR).
  pose proof (recv_at_extends _ _ _ R5) as X5. unfold recv_at in R5.
  apply bind_Some in R5 as (t5 & R5 & [= <-]).
  destruct (finish_ready p w4 t5 (at_time _ w4) _ _ _ R5 eq_refl HR) as (-> & x5 & He & -> & ->). simpl in *.
  split; [by rewrite X3, X4|]. split; [|split; congruence].
  split; [exists t5, x5; simpl; split_and!; [done|lia|done|done]|].
  simpl. unfold time_After in R3. injection R3 as <-. rewrite E3 in D4.
  destruct D2' as [D2'|D2']; rewrite D2' in D4; simpl in D4.
  - destruct D4 as [[D4 D5]|[D4 _]]; [|by left].
    destruct D2 as [[D2 _]|[D2 (t & x & Hex & Ht)]].
    + rewrite E1, D0, D2' in D2. done.
    + rewrite E1, D0 in Hex. specialize (D5 t x Hex). lia.
  - right. exists t1, (now w1). split_and!; [congruence|lia|lia|].
    destruct D4 as [[D4 D5]|[D4 _]]; [right|by left].
    exists (now w3). split; [done|]. split; [lia|done].
Qed.

(** Files opened by [build_files] beyond those already open. *)
Lemma build_file_fds path dflt closers e r closers' e' :
  build_file path dflt closers e = inr (r, closers', e') ->
  exists l, closers' = closers ++ l /\ open_fds e' = list_to_set l ∪ open_fds e /\
    Forall (fun fd => next_fd e <= fd)%nat l /\ (next_fd e <= next_fd e')%nat /\ runs e' = runs e /\ delivered e' = delivered e.
Proof.
  unfold build_file. case_decide; [|destruct (os_open _ _)]; intros; simplify_eq/=.
  - exists []. rewrite app_nil_r. set_solver.
  - eexists. split; [done|]. split; [set_solver|]. split; [by repeat constructor|]. split; [lia|done].
Qed.

Lemma build_files_fds pw e e' closers r :
  build_files opts pw e = (e', closers, r) ->
  exists l, closers = option_list pw ++ l /\ open_fds e' = list_to_set l ∪ open_fds e /\
    Forall (fun fd => next_fd e <= fd)%nat l /\ runs e' = runs e /\ delivered e' = delivered e.
Proof.
  unfold build_files. intros HB.
  destruct (build_file (StdinFile opts) _ _ e) as [?|[[fin c1] e1]] eqn:B1.
  { simplify_eq. exists []. rewrite app_nil_r. set_solver. }
  apply build_file_fds in B1 as (l1 & -> & F1 & G1 & M1 & N1 & V1).
  destruct (build_file (StdoutFile opts) _ _ e1) as [?|[[fout c2] e2]] eqn:B2.
  { simplify_eq. exists l1. done. }
  apply build_file_fds in B2 as (l2 & -> & F2 & G2 & M2 & N2 & V2).
  destruct (build_file (StderrFile opts) _ _ e2) as [?|[[ferr c3] e3]] eqn:B3.
  { simplify_eq. exists (l1 ++ l2). rewrite app_assoc. split; [done|]. split; [rewrite F2, F1, list_to_set_app_L; clear; set_solver|].
    split; [|split; congruence]. apply Forall_app. split; [done|]. eapply Forall_impl; [done|]. simpl. lia. }
  apply build_file_fds in B3 as (l3 & -> & F3 & G3 & M3 & N3 & V3).
  simplify_eq. exists (l1 ++ l2 ++ l3). rewrite !app_assoc. split; [done|]. split; [rewrite F3, F2, F1, !list_to_set_app_L; clear; set_solver|].
  split; [|split; congruence]. rewrite <-app_assoc. repeat apply Forall_app_2; [done|..];
    (eapply Forall_impl; [done|]; simpl; lia).
Qed.

End lemmas.

End ProcessLemmas.

(** ** Laws of the runners *)

Module ProcessLaws.
Import Process ProcessLemmas.

Section laws.
Context `{OS} (args : Args) (opts : Options).
Implicit Types w : world proc_env.

(** The world in which the process of a run is started. *)
Definition launch_world w (e : proc_env) : world proc_env :=
  set_env (mkProcEnv (S (runs e)) (next_fd e) (open_fds e) (copiers e) (delivered e)) w.

Definition fresh_run (e : proc_env) : proc_env :=
  mkProcEnv (runs e) (next_fd e) (open_fds e) (copiers e) [].

Lemma build_pipe_env e pw e' : build_pipe e = (pw, e') ->
  runs e' = runs e /\ delivered e' = delivered e /\
  match os_pipe (runs e) with
  | Some _ => pw = None /\ e' = e
  | None => pw = Some (S (next_fd e)) /\ next_fd e' = S (S (next_fd e)) /\
            open_fds e' = {[S (next_fd e)]} ∪ ({[next_fd e]} ∪ open_fds e)
  end.
Proof. unfold build_pipe. intros. destruct (os_pipe _); by simplify_eq/=. Qed.

Lemma build_env e e' r : build opts e = (e', r) -> runs e' = runs e /\ delivered e' = delivered e.
Proof.
  unfold build. destruct (os_log_writer _); intros HB; [by simplify_eq|].
  destruct (build_pipe e) as [pw e1] eqn:HP. apply build_pipe_env in HP as (HR & HD & _).
  destruct (build_files opts pw e1) as [[e2 cl] res] eqn:HF.
  pose proof (build_files_fds _ _ _ _ _ _ HF) as (_ & _ & _ & _ & HN & HD2).
  destruct res; simplify_eq/=; split; congruence.
Qed.

(** The three ways a run can go. *)
Lemma process_Run_cases w w' st err :
  process_Run args opts w = Some (w', (st, err)) ->
  extends w w' /\ Started st = false /\ is_Some err \/
  exists e wr p, build opts (fresh_run (env w)) = (e, inr wr) /\
    os_start (runs e) (ProcessArgs args) (Env opts) = inr p /\
    delivered (env (launch_world w e)) = [] /\
    supervise args opts p (launch_world w e) = Some (w', (st, err)).
Proof.
  unfold process_Run. fold (fresh_run (env w)). destruct (ProcessArgs args) as [|a l] eqn:HA.
  { intros [= <- <- <-]. left. split_and!; [reflexivity|done|eauto]. }
  destruct (build opts (fresh_run (env w))) as [e [eb|wr]] eqn:HB.
  { intros [= <- <- <-]. left. split_and!; [apply extends_set_env|done|eauto]. }
  destruct (os_start _ _ _) as [es|p] eqn:HS.
  { intros [= <- <- <-]. left. split_and!; [apply extends_set_env|done|eauto]. }
  intros HR. right. exists e, wr, p. pose proof (build_env _ _ _ HB) as [_ HD]. by simpl.
Qed.

Lemma process_Run_extends w w' st err : process_Run args opts w = Some (w', (st, err)) -> extends w w'.
Proof.
  intros [(H1 & _)|(e & wr & p & HB & HS & HD & HR)]%process_Run_cases; [done|].
  apply (supervise_spec args opts p _ _ _ _ HD) in HR as (HE & _).
  etrans; [apply (extends_set_env (mkProcEnv (S (runs e)) (next_fd e) (open_fds e) (copiers e) (delivered e)))|done].
Qed.

Lemma supervise_returns latency p w t :
  0 <= latency ->
  (forall sigs t, exists t' x, exits p (sigs ++ [(SIGKILL, t)]) = Some (t', x) /\ t' <= t + latency) ->
  delivered (env w) = [] -> cancel_at w = Some t ->
  exists w' st err, supervise args opts p w = Some (w', (st, err)) /\
    now w' <= Z.max (now w) t + (Z.max 0 (GracefulShutdownTimeout opts) + latency).
Proof.
  intros Hl Hk Hd Hc. unfold supervise. set (w0 := eventSink StateRunning _ w).
  assert (cancel_at w0 = Some t /\ now w0 = now w) as [C0 N0] by done. clearbody w0.
  assert (forall w1 t1, wait_ready p w1 = Some t1 -> exists r, finish p w1 = Some (w1, r)) as HF.
  { intros w1 t1 (x & He)%wait_ready_Some. unfold finish. rewrite He. simpl. eauto. }
  destruct (select2_returns (wait_ready p w0) (cancel_at w0) w0) as (c1 & w1 & S1); [rewrite C0; by right|].
  destruct (select2_spec _ _ _ _ _ S1) as (t1 & R1 & T1 & L1 & C1 & _ & E1). rewrite S1. cbn [mbind option_bind].
  destruct c1.
  { destruct (HF w1 t1) as ((st & err) & ->); [unfold wait_ready in *; by rewrite E1|].
    exists w1, st, err. split; [done|]. specialize (L1 t C0). lia. }
  rewrite C0 in R1. injection R1 as <-.
  destruct (send_signal_spec args p SIGTERM w1 _ eq_refl) as (T2 & C2 & X2 & F2 & M2 & D2).
  set (w2 := send_signal args p SIGTERM w1) in *. clearbody w2.
  destruct (select2_returns (wait_ready p w2) (time_After (GracefulShutdownTimeout opts) w2) w2) as (c3 & w3 & S3).
  { by right. }
  destruct (select2_spec _ _ _ _ _ S3) as (t3 & R3 & T3 & L3 & C3 & _ & E3). rewrite S3. cbn [mbind option_bind].
  destruct c3.
  { destruct (HF w3 t3) as ((st & err) & ->); [unfold wait_ready in *; by rewrite E3|].
    exists w3, st, err. split; [done|]. specialize (L3 _ eq_refl). lia. }
  unfold time_After in R3. injection R3 as <-.
  destruct (send_signal_spec args p SIGKILL w3 _ eq_refl) as (T4 & C4 & X4 & F4 & M4 & D4).
  set (w4 := send_signal args p SIGKILL w3) in *. clearbody w4.
  assert (exists t', wait_ready p w4 = Some t' /\ Z.max (now w4) t' <= now w4 + latency) as (t' & HW & Ht').
  { destruct D4 as [[D4 _]|[D4 (t4 & x4 & He & Ht4)]].
    - destruct (Hk (delivered (env w3)) (now w3)) as (t4 & x4 & He & Ht4). exists t4.
      unfold wait_ready. rewrite D4, He. split; [done|]. lia.
    - exists t4. unfold wait_ready. rewrite D4, He. split; [done|]. lia. }
  unfold recv_at. rewrite HW. cbn [mbind option_bind].
  destruct (HF (at_time (Z.max (now w4) t') w4) t') as ((st & err) & ->); [done|].
  eexists _, st, err. split; [done|]. simpl. lia.
Qed.

#[export] Instance process_laws : RunnerLaws (as_Runner args opts).
Proof. intros w w' st err. apply process_Run_extends. Qed.

#[export] Instance process_stops_within latency :
  OSKills latency -> 0 <= latency ->
  StopsWithin (as_Runner args opts) (Z.max 0 (GracefulShutdownTimeout opts) + latency).
Proof.
  intros HK Hl w t Hc. simpl. unfold process_Run. fold (fresh_run (env w)).
  destruct (ProcessArgs args) as [|a l] eqn:HA; [eexists _, _, _; split; [done|lia]|].
  destruct (build opts (fresh_run (env w))) as [e [eb|wr]] eqn:HB; [eexists _, _, _; split; [done|simpl; lia]|].
  destruct (os_start _ _ _) as [es|p] eqn:HS; [eexists _, _, _; split; [done|simpl; lia]|].
  apply (supervise_returns latency p (launch_world w e) t); [done| |by apply build_env in HB as [_ HD]; simpl in *|done].
  intros sigs t'. by apply (os_kill _ _ _ _ sigs t' HS).
Qed.

End laws.

End ProcessLaws.

Module GoroutineLaws.
Import Goroutine.

Section laws.
Context {E : Type} (sm : service_main) (id : string) (opts : Options).
Implicit Types w : world E.

#[export] Instance goroutine_laws : RunnerLaws (@as_Runner E sm id opts).
Proof.
  intros w w' st err. simpl. unfold goroutine_Run. set (w0 := eventSink StateRunning _ w).
  assert (extends w w0) as X0 by apply extends_running. clearbody w0.
  generalize (wrappedMain sm w0). intros errCh ([c1 w1] & S1%select2_extends & HR)%bind_Some. rewrite X0, S1.
  destruct c1.
  - apply bind_Some in HR as ([c2 w2] & S2%select2_extends & HR).
    etrans; [apply (extends_stopping "Service stopping")|]. rewrite S2. destruct c2.
    + simplify_eq. apply extends_stopping.
    + apply bind_Some in HR as ([? ?] & _ & HR). by simplify_eq.
  - apply bind_Some in HR as ([? ?] & _ & HR). by simplify_eq.
Qed.

#[export] Instance goroutine_stops_within :
  StopsWithin (@as_Runner E sm id opts) (Z.max 0 (int64 (GracefulShutdownTimeout opts * 2))).
Proof.
  intros w t Hc. simpl. unfold goroutine_Run. set (w0 := eventSink StateRunning _ w).
  assert (cancel_at w0 = Some t /\ now w0 = now w) as [C0 N0] by done. clearbody w0.
  generalize (wrappedMain sm w0). intros errCh.
  destruct (select2_returns (cancel_at w0) (fst <$> errCh) w0) as (c1 & w1 & S1); [rewrite C0; by left|].
  destruct (select2_spec _ _ _ _ _ S1) as (t1 & R1 & T1 & L1 & C1 & _ & E1). rewrite S1. cbn [mbind option_bind].
  destruct c1.
  - rewrite C0 in R1. injection R1 as <-. set (w2 := eventSink _ _ w1).
    destruct (select2_returns (time_After (int64 (GracefulShutdownTimeout opts * 2)) w2) (fst <$> errCh) w2)
      as (c3 & w3 & S3); [by left|].
    destruct (select2_spec _ _ _ _ _ S3) as (t3 & R3 & T3 & L3 & C3 & _ & E3). rewrite S3. cbn [mbind option_bind].
    destruct c3.
    + unfold time_After in R3. injection R3 as <-. eexists _, _, _. split; [done|]. simpl in *. lia.
    + destruct errCh as [[t4 r]|]; [|done]. injection R3 as <-. eexists _, _, _. split; [done|].
      specialize (L3 _ eq_refl). simpl in *. lia.
  - destruct errCh as [[t4 r]|]; [|done]. injection R1 as <-. eexists _, _, _. split; [done|].
    specialize (L1 _ C0). simpl in *. lia.
Qed.

End laws.

End GoroutineLaws.

(** ** Properties *)

(** C15: the restart policy.  A run that returns is a sequence of attempts of
    the wrapped runner, the first from where the run began.  Each later one
    begins where the one before ended, after one report that it waits (none for
    an unknown policy) and exactly the restart interval; none follows an attempt
    that ended with the context done.  [Once] makes one attempt, [UntilSuccess]
    tries again only after a failure, [Forever] after any attempt.  The run ends
    with the last attempt, in its world and with its status and error, when the
    context is done, when the policy is [Once], or when it is [UntilSuccess] and
    the attempt succeeded; or within the interval after the last attempt, at
    the cancellation, with its status and without error. *)
Theorem restart_policy {E} (r : Restart.restarter E) fuel w w' st err :
  Restart.Run_loop r fuel w = Some (w', (st, err)) ->
  let policy := Restart.Ty (Restart.opts r) in
  exists l last,
    RestartLemmas.attempts r w (l ++ [last]) /\
    (policy = Restart.Once -> l = []) /\
    (policy = Restart.UntilSuccess -> Forall (fun a => is_Some (snd (RestartLemmas.at_res a))) l) /\
    st = fst (RestartLemmas.at_res last) /\
    (w' = RestartLemmas.at_end last /\ err = snd (RestartLemmas.at_res last) /\
       (is_Some (ctx_Err w') \/ policy = Restart.Once \/ policy = Restart.UntilSuccess /\ err = None) \/
     err = None /\ policy <> Restart.Once /\
       (policy = Restart.UntilSuccess -> is_Some (snd (RestartLemmas.at_res last))) /\
       exists b, RestartLemmas.waiting r last b /\ cancel_at b = Some (now b) /\
         sink w' = sink b ++ [(now b, (StateStopping, "Aborting restart sequence"))] /\ now w' = now b).
Proof. intros HR. by apply RestartLemmas.Run_loop_attempts in HR. Qed.

(** Stopping a restarted runner.  When the wrapped runner returns within
    [bound] of a cancellation, so does the restarter, for every policy: it
    makes at most one attempt per restart interval before the cancellation,
    plus one, so that this much fuel is enough. *)
Theorem restart_stops {E} (r : Restart.restarter E) bound fuel w t :
  RunnerLaws (Restart.wrappedRunner r) -> StopsWithin (Restart.wrappedRunner r) bound ->
  0 < Restart.RestartInterval (Restart.opts r) -> cancel_at w = Some t ->
  Z.max 0 ((t - now w) / Restart.RestartInterval (Restart.opts r) + 1) < Z.of_nat fuel ->
  exists w' st err, Restart.Run_loop r fuel w = Some (w', (st, err)) /\ now w' <= Z.max (now w) t + bound.
Proof. intros. apply RestartLemmas.Run_loop_stops; done || lia. Qed.

(** C16: the stop sequence of a process.  Whatever the process does, a run that
    started it returns only once it has exited, with its exit code and error;
    signals are sent only after the context is done: first SIGTERM, then, only
    if the process is still alive the whole graceful timeout later, SIGKILL,
    and no other. *)
Theorem process_stop_sequence `{OS} args opts w w' st err :
  Process.process_Run args opts w = Some (w', (st, err)) -> Started st = true ->
  exists n p, os_start n (ProcessArgs args) (Env opts) = inr p /\
    ProcessLemmas.stopped_properly opts p w w' st err.
Proof.
  intros HR Hs. apply ProcessLaws.process_Run_cases in HR as [(_ & HF & _)|(e & wr & p & HB & HS & HD & HR)].
  { by rewrite HF in Hs. }
  exists (runs e), p. split; [done|].
  by apply (ProcessLemmas.supervise_spec args opts p _ _ _ _ HD) in HR as (_ & HP & _).
Qed.

(** C32: a process can always be stopped.  If SIGKILL ends the processes within
    [latency], a run whose context is cancelled at [t] returns at most
    the graceful timeout and [latency] after [t]. *)
Theorem process_stops `{OS} args opts latency w t :
  OSKills latency -> 0 <= latency -> cancel_at w = Some t ->
  exists w' st err, Process.process_Run args opts w = Some (w', (st, err)) /\
    now w' <= Z.max (now w) t + (Z.max 0 (GracefulShutdownTimeout opts) + latency).
Proof. intros HK Hl Hc. by apply (ProcessLaws.process_stops_within args opts latency HK Hl). Qed.

(** The descriptors of a run.  When the files of a process cannot be set up,
    everything opened so far is closed (the read end of the log pipe is left to
    its copying goroutine, which sees the end of the file); when they can, the
    run never closes anything: both ends of the pipe are still open in the
    supervisor when the run is over, so that each run adds at least two
    descriptors. *)
Theorem process_run_fds `{OS} args opts w w' st err :
  os_log_writer (runs (env w)) = None -> os_pipe (runs (env w)) = None ->
  (forall fd, fd ∈ open_fds (env w) -> (fd < next_fd (env w))%nat) ->
  Process.process_Run args opts w = Some (w', (st, err)) -> ProcessArgs args <> [] ->
  match snd (Process.build opts (ProcessLaws.fresh_run (env w))) with
  | inl _ => open_fds (env w') = {[next_fd (env w)]} ∪ open_fds (env w)
  | inr _ => {[next_fd (env w); S (next_fd (env w))]} ∪ open_fds (env w) ⊆ open_fds (env w')
  end.
Proof.
  intros Hlog Hpipe Hfresh HR HA. unfold Process.process_Run in HR.
  fold (ProcessLaws.fresh_run (env w)) in HR. destruct (ProcessArgs args) as [|a l] eqn:HAe; [done|].
  destruct (Process.build opts (ProcessLaws.fresh_run (env w))) as [e r] eqn:HB.
  pose proof (ProcessLaws.build_env opts _ _ _ HB) as [_ HD].
  unfold Process.build in HB. simpl runs in HB. rewrite Hlog in HB.
  destruct (Process.build_pipe (ProcessLaws.fresh_run (env w))) as [pw e1] eqn:HP.
  apply ProcessLaws.build_pipe_env in HP as (HN & _ & HP). simpl in HP. rewrite Hpipe in HP.
  destruct HP as (-> & HN1 & HF1).
  destruct (Process.build_files opts _ e1) as [[e2 cl] res] eqn:HF.
  apply ProcessLemmas.build_files_fds in HF as (fds & -> & HF2 & Hge & _ & _).
  destruct res as [er|wr]; simplify_eq/=.
  - rewrite HF2, HF1. rewrite Forall_forall in Hge. apply set_eq. intros x.
    specialize (Hfresh x). specialize (Hge x). rewrite HN1 in Hge.
    set_unfold. intuition (subst; lia || auto).
  - assert (open_fds (env w') = open_fds e) as ->.
    { destruct (os_start _ _ _) as [es|p]; [by simplify_eq|].
      by apply ProcessLemmas.supervise_spec in HR as (_ & _ & HE & _). }
    rewrite HF2, HF1. clear. set_solver.
Qed.

(** A service run as a goroutine.  A panic of its main function becomes an
    error of the run; a main function that ends with the context's cancellation
    error counts as a clean stop; and once the context is done the run returns
    within twice the graceful timeout, with [ErrAborted] when the function does
    not end in time. *)
Theorem goroutine_run_result {E} sm opts (w : world E) t :
  cancel_at w = Some t ->
  exists w' err, Goroutine.goroutine_Run sm opts w = Some (w', (mkStatus true 0, err)) /\
    now w' <= Z.max (now w) t + Z.max 0 (int64 (GracefulShutdownTimeout opts * 2)) /\
    (err = Some (ESentinel Goroutine.ErrAborted) /\ is_Some (ctx_Err w') \/
     (exists e, Goroutine.log_writer sm = Some e /\ err = Some (EWrap "service log handler: " e "")) \/
     exists t' res, Goroutine.main sm (now w) (Some t) = Some (t', res) /\ t' <= now w' /\
       match res with
       | Goroutine.Panicked v => err = Some (EMsg ("panic in service: " +:+ v +:+
           String (Ascii.ascii_of_nat 10) (Goroutine.stack sm)))
       | Goroutine.Returned (Some e) => err = if errors_Is e context_Canceled then Goroutine.log_close sm else Some e
       | Goroutine.Returned None => err = None
       end).
Proof.
  intros Hc. destruct (GoroutineLaws.goroutine_stops_within sm "" opts w t Hc) as (w' & st & err & HR & Hb).
  pose proof (GoroutineLaws.goroutine_laws sm "" opts w w' st err HR) as (_ & Hca & _).
  simpl in HR. pose proof HR as HR0. unfold Goroutine.goroutine_Run in HR. revert HR. set (w0 := eventSink StateRunning _ w).
  assert (cancel_at w0 = Some t /\ now w0 = now w) as [C0 N0] by done. clearbody w0.
  intros ([c1 w1] & S1 & HR)%bind_Some. destruct (select2_spec _ _ _ _ _ S1) as (t1 & R1 & T1 & _ & C1 & _).
  assert (forall wx tx e, fst <$> Goroutine.wrappedMain sm w0 = Some tx -> tx <= now wx ->
    ('(_, err0) ← Goroutine.wrappedMain sm w0; Some (wx, (mkStatus true 0, err0))) = Some (w', (st, e)) ->
    st = mkStatus true 0 /\ w' = wx /\ exists t2, Goroutine.wrappedMain sm w0 = Some (t2, e) /\ t2 <= now wx) as HM.
  { intros wx tx e Hr Hle. destruct (Goroutine.wrappedMain sm w0) as [[t2 e2]|]; [|done]. simpl in *.
    intros. simplify_eq. eauto 10. }
  assert (st = mkStatus true 0 /\ (err = Some (ESentinel Goroutine.ErrAborted) /\ is_Some (ctx_Err w') \/
    exists t2, Goroutine.wrappedMain sm w0 = Some (t2, err) /\ t2 <= now w')) as (-> & HE).
  { destruct c1.
    - apply bind_Some in HR as ([c2 w2] & S2 & HR).
      destruct (select2_spec _ _ _ _ _ S2) as (t2 & R2 & T2 & _ & C2 & _). destruct c2.
      + injection HR as <- <- <-. split; [done|]. left. split; [done|]. simpl in C2, T2, R2.
        rewrite (ctx_Err_Some _ t); [done|simpl; congruence|]. simpl. rewrite C0 in R1. injection R1 as ->. lia.
      + destruct (HM w2 t2 err R2 ltac:(simpl in *; lia) HR) as (-> & -> & ?). eauto.
    - destruct (HM w1 t1 err R1 ltac:(lia) HR) as (-> & -> & ?). split; [done|by right]. }
  exists w', err. split; [done|]. split; [done|].
  destruct HE as [HE|(t2 & HW & Ht2)]; [by left|right]. unfold Goroutine.wrappedMain in HW.
  destruct (Goroutine.log_writer sm) as [e|]; [left; simplify_eq; eauto|right].
  rewrite C0, N0 in HW. apply bind_Some in HW as ([t3 res] & HMn & HW). injection HW as <- HW.
  exists t3, res. split; [done|]. split; [done|]. destruct res as [[e|]|v]; simplify_eq; done.
Qed.

(** ** Concrete runs *)

(** A machine on which every process starts, exits with code 1 after a second
    if it is the first one, ignores SIGTERM and obeys the last SIGKILL. *)
#[local] Instance demo_OS : OS := {|
  os_log_writer _ := None;
  os_pipe _ := None;
  os_open _ path := if decide (path = "/dev/null") then None else Some (EMsg "no such file");
  os_start n _ _ := inr (mkProcess (100 + Z.of_nat n) (fun sigs =>
    match last sigs with
    | Some (SIGKILL, t) => Some (t + 1, Signaled "killed")
    | _ => if decide (n = 0%nat) then Some (Second, Exited 1) else None
    end))
|}.

Lemma demo_kills : OSKills 1.
Proof.
  intros n argv envv p sigs t [= <-]. simpl. rewrite last_snoc. eexists _, _. split; [done|lia].
Qed.

Definition demo_args : Args := mkArgs "svc" ["/bin/svc"; "-v"].
Definition demo_env : proc_env := mkProcEnv 0 3 {[0%nat; 1%nat; 2%nat]} [] [].
Definition demo_world : world proc_env := mkWorld 0 (Some (8 * Second)) [] [] demo_env.
Definition demo_restarter : Restart.restarter proc_env :=
  Restart.New (Process.NewRunner demo_args []) [].

(** The first process fails, the second one, started after the restart
    interval, is killed 10 s after the stop. *)
Definition demo_outcome : world proc_env * (Status * option error) :=
  match Restart.Run_loop demo_restarter 3 demo_world with Some r => r | None => (demo_world, (zeroStatus, None)) end.

Example demo_outcome_value :
  now (fst demo_outcome) = 18 * Second + 1 /\ snd demo_outcome = (mkStatus true (-1), Some (EMsg "signal: killed")) /\
  (fun ev => fst (snd ev)) <$> sink (fst demo_outcome) =
    [StateRunning; StateWaiting; StateRunning; StateStopping; StateStopping].
Proof. by vm_compute. Qed.

Lemma restart_policy_witness :
  exists l last, RestartLemmas.attempts demo_restarter demo_world (l ++ [last]) /\
    fst (RestartLemmas.at_res last) = mkStatus true (-1) /\ now (fst demo_outcome) = 18 * Second + 1.
Proof.
  destruct (restart_policy demo_restarter 3 demo_world (fst demo_outcome) (fst (snd demo_outcome)) (snd (snd demo_outcome)))
    as (l & last & HA & _ & _ & HS & _); [by vm_compute|].
  exists l, last. split; [exact HA|]. split; [rewrite <-HS; by vm_compute|by vm_compute].
Defined.

Lemma restart_stops_witness :
  exists w' st err, Restart.Run_loop demo_restarter 3 demo_world = Some (w', (st, err)) /\
    now w' <= Z.max 0 (8 * Second) + (Z.max 0 (10 * Second) + 1).
Proof.
  apply (restart_stops demo_restarter (Z.max 0 (10 * Second) + 1) 3 demo_world (8 * Second)).
  - apply ProcessLaws.process_laws.
  - apply (ProcessLaws.process_stops_within demo_args DefaultOptions 1); [apply demo_kills|lia].
  - by vm_compute.
  - done.
  - by vm_compute.
Defined.

Lemma process_stop_sequence_witness :
  let w := mkWorld 0 (Some 5) [] [] (mkProcEnv 1 3 ∅ [] []) in
  exists w' st err,
    Process.process_Run demo_args DefaultOptions w = Some (w', (st, err)) /\
    delivered (env w') = [(SIGTERM, 5); (SIGKILL, 10 * Second + 5)] /\
    exists n p, os_start n (ProcessArgs demo_args) (Env DefaultOptions) = inr p /\
      ProcessLemmas.stopped_properly DefaultOptions p w w' st err.
Proof.
  intros w. destruct (Process.process_Run demo_args DefaultOptions w) as [[w' [st err]]|] eqn:E;
    [|vm_compute in E; discriminate].
  exists w', st, err. split; [done|]. split.
  - vm_compute in E. injection E as <- _ _. done.
  - apply (process_stop_sequence demo_args DefaultOptions w w' st err E).
    vm_compute in E. by injection E as _ <- _.
Defined.

Lemma process_stops_witness :
  exists w' st err, Process.process_Run demo_args DefaultOptions demo_world = Some (w', (st, err)) /\
    now w' <= Z.max 0 (8 * Second) + (Z.max 0 (10 * Second) + 1).
Proof.
  apply (process_stops demo_args DefaultOptions 1 demo_world (8 * Second)); [apply demo_kills|lia|done].
Defined.

Lemma process_run_fds_witness :
  exists w' st err, Process.process_Run demo_args DefaultOptions demo_world = Some (w', (st, err)) /\
    {[3%nat; 4%nat]} ∪ {[0%nat; 1%nat; 2%nat]} ⊆ open_fds (env w').
Proof.
  destruct (Process.process_Run demo_args DefaultOptions demo_world) as [[w' [st err]]|] eqn:E;
    [|vm_compute in E; discriminate].
  exists w', st, err. split; [done|].
  assert (forall fd, fd ∈ open_fds (env demo_world) -> (fd < next_fd (env demo_world))%nat) as Hf.
  { intros fd. unfold demo_world, demo_env. simpl. set_unfold. lia. }
  exact (process_run_fds demo_args DefaultOptions demo_world w' st err eq_refl eq_refl Hf E ltac:(done)).
Defined.

Lemma goroutine_run_result_witness :
  let sm := Goroutine.mkMain None (fun t _ => Some (t + 3, Goroutine.Panicked "boom")) None "stack" in
  exists w' err, Goroutine.goroutine_Run sm DefaultOptions demo_world = Some (w', (mkStatus true 0, err)) /\
    now w' <= 8 * Second + 20 * Second.
Proof.
  intros sm. destruct (goroutine_run_result sm DefaultOptions demo_world (8 * Second) eq_refl)
    as (w' & err & HR & Hb & _).
  exists w', err. split; [done|]. exact Hb.
Defined.
