(* ===== verification/HealthLoop.v ===== *)
(** * The health check loop in time

    [health.Run] ([pkg/system/health/check.go]) with its delay, its ticker, its
    two [select]s and checks that take time, in the timed world of the runners:
    when it returns.  What it does to the status of the service is in [Health],
    to which [timed_run_is_run] relates it. *)

From S2P Require Import Prelude Health Runners.

(** ** The ticker *)

(** The first tick after [t] of a ticker that was made at [began].  Its channel
    holds one tick: those that find it full are lost, so that after a receive at
    [t] the next is the first one after [t]. *)
Definition next_tick (began period t : Z) : Z := began + ((t - began) / period + 1) * period.

(** ** The loop *)

Section Run.
Context {S : Type}.
(** [check deadline w]: a call under a context with that deadline which is done
    when the context of [w] is; [None] when it never returns.  The check keeps
    its state in the world. *)
Variable check : Z -> world S -> option (world S * option error).
Variable settings : Settings.
Implicit Types w : world S.

(** From [for] on; the next tick is due at [tick].  [None]: the fuel is out, or
    a check does not return. *)
Fixpoint check_loop (fuel : nat) (began tick : Z) w : option (world S * list iteration) :=
  match fuel with
  | O => None
  | Datatypes.S fuel =>
    '(w, err) ← check (now w + Timeout settings) w;
    let t := now w in
    '(cancelled, w) ← select2 (cancel_at w) (Some tick) w;
    let it := mkIteration err t cancelled in
    if cancelled : bool then Some (w, [it])
    else
      '(w, its) ← check_loop fuel began (next_tick began (Period settings) (now w)) w;
      Some (w, it :: its)
  end.

(** A check per period until the context is done, and three more at the most
    ([check_loop_ends]); without a cancellation the loop has no end. *)
Definition loop_fuel w : nat :=
  match cancel_at w with
  | Some c => (Z.to_nat ((c - now w) / Period settings) + 3)%nat
  | None => O
  end.

(** [health.Run], with the iterations of its loop. *)
Definition timed_Run w : option (world S * list iteration) :=
  '(cancelled, w) ← select2 (cancel_at w) (time_After (InitialDelay settings) w) w;
  if cancelled : bool then Some (w, [])
  else check_loop (loop_fuel w) (now w) (now w + Period settings) w.

(** When it has returned, begun at [t] under a context that is cancelled at
    [c]; [picks] are the choices of its [select]s. *)
Definition run_end (state : S) (picks : list bool) (t c : Z) : option Z :=
  (fun r => now (fst r)) <$> timed_Run (mkWorld t (Some c) [] picks state).

End Run.

(** ** Lemmas *)

Section lemmas.
Context {S : Type} (check : Z -> world S -> option (world S * option error)) (settings : Settings).
Implicit Types w : world S.

(** A check that begins when the context is done, or is in progress then,
    returns within [b]; its state keeps [inv]. *)
Class CheckEnds (inv : S -> Prop) (b : Z) : Prop :=
  check_ends w t : cancel_at w = Some t -> inv (env w) ->
    exists w' err, check (now w + Timeout settings) w = Some (w', err) /\
      now w <= now w' <= Z.max (now w) t + b /\ cancel_at w' = Some t /\ inv (env w').

Lemma next_tick_after began period t : 0 < period -> t < next_tick began period t.
Proof. intros Hp. unfold next_tick. pose proof (Z.mul_succ_div_gt (t - began) period Hp). nia. Qed.

(** Ticks are a period apart. *)
Lemma next_tick_period began period k t :
  0 < period -> began + k * period <= t -> began + k * period + period <= next_tick began period t.
Proof.
  intros Hp Ht. unfold next_tick. assert (k <= (t - began) / period); [|nia].
  apply Z.div_le_lower_bound; lia.
Qed.

Context (inv : S -> Prop) (b : Z) `{!CheckEnds inv b}.
Context (Hb : 0 <= b) (Hp : 0 < Period settings) (H2 : 2 * b <= Period settings).

(** One turn of the loop: the [select] after a check that returned in [w1]. *)
Lemma check_loop_S fuel began tick w t :
  cancel_at w = Some t -> inv (env w) ->
  exists w1 err w2 c, check (now w + Timeout settings) w = Some (w1, err) /\
    now w <= now w1 <= Z.max (now w) t + b /\
    select2 (cancel_at w1) (Some tick) w1 = Some (c, w2) /\ cancel_at w2 = Some t /\ inv (env w2) /\
    now w2 = Z.max (now w1) (if c then t else tick) /\
    Z.max (now w1) (if c then t else tick) <= Z.max (now w1) (if c then tick else t) /\
    check_loop check settings (Datatypes.S fuel) began tick w =
      if c then Some (w2, [mkIteration err (now w1) true])
      else '(w', its) ← check_loop check settings fuel began (next_tick began (Period settings) (now w2)) w2;
           Some (w', mkIteration err (now w1) false :: its).
Proof.
  intros Hc HI. destruct (check_ends (CheckEnds := CheckEnds0) w t Hc HI) as (w1 & err & HC & Hn & Hc1 & HI1).
  destruct (select2_returns (cancel_at w1) (Some tick) w1) as (c & w2 & HS); [right; eauto|].
  destruct (select2_spec _ _ _ _ _ HS) as (x & Hx & Hn2 & Hle & Hc2 & _ & He2).
  exists w1, err, w2, c. cbn [check_loop]. rewrite HC. cbn [mbind option_bind]. rewrite HS. cbn [mbind option_bind].
  split_and!; try done; try congruence; [lia|lia|..].
  - rewrite Hn2. destruct c; [rewrite Hc1 in Hx|]; by injection Hx as <-.
  - destruct c; [rewrite Hc1 in Hx|rewrite Hc1 in Hle]; injection Hx as <-; by apply Hle.
  - by destruct c.
Qed.

(** The context is done, and no tick is due before the end of the next check. *)
Lemma check_loop_last fuel began tick w t :
  cancel_at w = Some t -> inv (env w) -> t <= now w -> now w + b < tick -> (1 <= fuel)%nat ->
  exists w' its, check_loop check settings fuel began tick w = Some (w', its) /\ now w' <= now w + b.
Proof.
  intros Hc HI Ht Hk Hf. destruct fuel as [|fuel]; [lia|].
  destruct (check_loop_S fuel began tick w t Hc HI) as (w1 & err & w2 & c & _ & Hn & _ & _ & _ & Hn2 & Hle & ->).
  destruct c; [|lia]. eexists _, _. split; [done|lia].
Qed.

(** The context is done: at most one tick is received before that shows. *)
Lemma check_loop_done fuel began k w t :
  cancel_at w = Some t -> inv (env w) -> t <= now w -> now w < began + k * Period settings -> (2 <= fuel)%nat ->
  exists w' its, check_loop check settings fuel began (began + k * Period settings) w = Some (w', its) /\
    now w' <= now w + 2 * b.
Proof.
  intros Hc HI Ht Hk Hf. destruct fuel as [|fuel]; [lia|].
  destruct (check_loop_S fuel began (began + k * Period settings) w t Hc HI)
    as (w1 & err & w2 & c & _ & Hn & _ & Hc2 & HI2 & Hn2 & Hle & ->).
  destruct c; [eexists _, _; split; [done|lia]|].
  pose proof (next_tick_period began (Period settings) k (now w2) Hp ltac:(lia)) as Hnx.
  destruct (check_loop_last fuel began (next_tick began (Period settings) (now w2)) w2 t Hc2 HI2) as (w' & its & -> & Hw');
    [lia..|]. cbn [mbind option_bind]. eexists _, _. split; [done|lia].
Qed.

(** Until then there is at most one check per period. *)
Lemma check_loop_ends n fuel began k w t :
  cancel_at w = Some t -> inv (env w) -> now w < began + k * Period settings ->
  t - (began + k * Period settings) < Z.of_nat n * Period settings -> (n + 3 <= fuel)%nat ->
  exists w' its, check_loop check settings fuel began (began + k * Period settings) w = Some (w', its) /\
    now w' <= Z.max (now w) t + 3 * b.
Proof.
  revert fuel k w. induction n as [|n IH]; intros fuel k w Hc HI Hk Hn Hf.
  all: destruct (Z.le_gt_cases t (now w)) as [Ht|Ht];
    [destruct (check_loop_done fuel began k w t Hc HI Ht Hk) as (w' & its & HR & Hw'); [lia|]; exists w', its; split; [done|lia]|].
  all: destruct fuel as [|fuel]; [lia|].
  all: destruct (check_loop_S fuel began (began + k * Period settings) w t Hc HI)
    as (w1 & err & w2 & c & _ & Hn1 & _ & Hc2 & HI2 & Hn2 & Hle & ->).
  all: destruct c; [eexists _, _; split; [done|lia]|].
  all: pose proof (next_tick_after began (Period settings) (now w2) Hp) as Hna.
  all: pose proof (next_tick_period began (Period settings) k (now w2) Hp ltac:(lia)) as Hnx.
  all: unfold next_tick in *; set (k' := (now w2 - began) / Period settings + 1) in *.
  - destruct (check_loop_done fuel began k' w2 t Hc2 HI2) as (w' & its & -> & Hw'); [lia..|].
    cbn [mbind option_bind]. eexists _, _. split; [done|lia].
  - rewrite Nat2Z.inj_succ, Z.mul_succ_l in Hn. destruct (Z.le_gt_cases t (now w2)) as [Ht2|Ht2].
    + destruct (check_loop_done fuel began k' w2 t Hc2 HI2) as (w' & its & -> & Hw'); [lia..|].
      cbn [mbind option_bind]. eexists _, _. split; [done|lia].
    + destruct (IH fuel k' w2 Hc2 HI2) as (w' & its & -> & Hw'); [lia..|].
      cbn [mbind option_bind]. eexists _, _. split; [done|lia].
Qed.

(** [health.Run] returns within three checks of the cancellation. *)
Lemma timed_Run_ends w t :
  cancel_at w = Some t -> inv (env w) ->
  exists w' its, timed_Run check settings w = Some (w', its) /\ now w' <= Z.max (now w) t + 3 * b.
Proof.
  intros Hc HI. unfold timed_Run.
  destruct (select2_returns (cancel_at w) (time_After (InitialDelay settings) w) w) as (c & w1 & HS); [right; eauto|].
  rewrite HS. cbn [mbind option_bind]. destruct (select2_spec _ _ _ _ _ HS) as (x & Hx & Hn & Hle & Hc1 & _ & He).
  rewrite Hc in *. destruct c; [injection Hx as <-; eexists _, _; split; [done|lia]|]. specialize (Hle t eq_refl).
  pose proof (check_loop_ends (Z.to_nat ((t - now w1) / Period settings)) (loop_fuel settings w1) (now w1) 1 w1 t) as HE.
  rewrite Z.mul_1_l in HE. destruct HE as (w' & its & HR & Hw'); [congruence|congruence|lia| |unfold loop_fuel; by rewrite Hc1|].
  - pose proof (Z.mul_succ_div_gt (t - now w1) (Period settings) Hp).
    assert (forall q, Z.of_nat (Z.to_nat q) = Z.max 0 q) as -> by lia. nia.
  - exists w', its. split; [exact HR|]. lia.
Qed.

Lemma run_end_bound state picks t c :
  inv state -> exists e, run_end check settings state picks t c = Some e /\ e <= Z.max t c + 3 * b.
Proof.
  intros HI. unfold run_end. destruct (timed_Run_ends (mkWorld t (Some c) [] picks state) c eq_refl HI) as (w' & its & -> & Hn).
  eexists. split; [done|exact Hn].
Qed.

End lemmas.

(** ** Properties *)

(** A loop that returns has iterated until the context was done. *)
Lemma check_loop_performed {S} (check : Z -> world S -> option (world S * option error)) settings fuel began tick w w' its :
  check_loop check settings fuel began tick w = Some (w', its) ->
  performed its = its /\ forall ctxerr s cs, exists s' cs', Run_loop its ctxerr s cs = (s', cs', Some ctxerr).
Proof.
  revert tick w w' its. induction fuel as [|fuel IH]; intros tick w w' its; cbn [check_loop]; [done|].
  intros ([w1 err] & _ & ([c w2] & _ & H)%bind_Some)%bind_Some. destruct c.
  - injection H as _ <-. split; [done|]. intros ctxerr s cs. cbn [Run_loop].
    destruct (Run_check _ s cs) as [s1 cs1]. by eexists _, _.
  - apply bind_Some in H as ([w3 its'] & HR & [= _ <-]). destruct (IH _ _ _ _ HR) as [HP HL].
    split; [cbn [performed]; simpl; by rewrite HP|]. intros ctxerr s cs. cbn [Run_loop].
    destruct (Run_check _ s cs) as [s1 cs1]. simpl. apply HL.
Qed.

(** The loop in time is the loop of [Health]: a run that returns has performed
    its checks in the order of their ends, and [Health.Run] on them returns with
    the error of the context. *)
Theorem timed_run_is_run {S} (check : Z -> world S -> option (world S * option error)) settings w w' its :
  timed_Run check settings w = Some (w', its) ->
  performed its = its /\
  forall ctxerr s cs, exists s' cs',
    Health.Run (now w) (match its with [] => true | _ => false end) its ctxerr s cs = (s', cs', Some ctxerr).
Proof.
  unfold timed_Run. intros ([c w1] & _ & H)%bind_Some. destruct c.
  - injection H as _ <-. split; [done|]. intros ctxerr s cs. unfold Health.Run. by eexists _, _.
  - destruct (check_loop_performed check settings _ _ _ _ _ _ H) as [HP HL]. split; [done|]. intros ctxerr s cs.
    unfold Health.Run. destruct its as [|it its]; [|by apply HL]. by eexists _, _.
Qed.
