(* ===== verification/ServiceRunner.v ===== *)
(** * The service runner: the life of one service

    Models [internal/app/machined/pkg/system/service_runner.go] and
    [service.go].  Three views of the same code:

    - the critical sections and the notifications of a [ServiceRunner]
      ([UpdateState], [healthUpdate], [Subscribe], ...), as functions on its
      state;
    - [Run] and [run], the phases of a service's life, in the timed world of
      [Runners]; their [UpdateState] calls are the events of the sink;
    - the interleaving of everything that touches a [ServiceRunner] at the
      granularity of its critical sections ([cstep]), for the delivery of
      notifications. *)

From S2P Require Import Prelude Health ServiceEvents Runners.

(** ** State *)

Definition StateEvent : Type := string.

Definition StateEventUp : StateEvent := "up".
Definition StateEventDown : StateEvent := "down".
Definition StateEventFinished : StateEvent := "finished".

(** [healthchecked]: the service implements [HealthcheckedService].  Channels
    are identities. *)
Record ServiceRunner := mkServiceRunner {
  id : string;
  healthchecked : bool;
  has_runtime : bool;
  state : ServiceState;
  history : ServiceEvents;
  healthState : Health.State;
  stateSubscribers : gmap StateEvent (list nat);
  stopCh : chan unit
}.

Definition NewServiceRunner (service_id : string) (supports_health runtime : bool) : ServiceRunner :=
  mkServiceRunner service_id supports_health runtime StateInitialized zeroServiceEvents Health.zeroState ∅
    (make_chan unit 1).

Definition set_state (s : ServiceState) (r : ServiceRunner) : ServiceRunner :=
  mkServiceRunner (id r) (healthchecked r) (has_runtime r) s (history r) (healthState r) (stateSubscribers r) (stopCh r).
Definition set_history (e : ServiceEvents) (r : ServiceRunner) : ServiceRunner :=
  mkServiceRunner (id r) (healthchecked r) (has_runtime r) (state r) e (healthState r) (stateSubscribers r) (stopCh r).
Definition set_health (h : Health.State) (r : ServiceRunner) : ServiceRunner :=
  mkServiceRunner (id r) (healthchecked r) (has_runtime r) (state r) (history r) h (stateSubscribers r) (stopCh r).
Definition set_subscribers (m : gmap StateEvent (list nat)) (r : ServiceRunner) : ServiceRunner :=
  mkServiceRunner (id r) (healthchecked r) (has_runtime r) (state r) (history r) (healthState r) m (stopCh r).
Definition set_stopCh (c : chan unit) (r : ServiceRunner) : ServiceRunner :=
  mkServiceRunner (id r) (healthchecked r) (has_runtime r) (state r) (history r) (healthState r) (stateSubscribers r) c.

(** ** Critical sections *)

Definition GetState (r : ServiceRunner) : ServiceState := state r.

(** [None] is the panic on an unknown event. *)
Definition inStateLocked (event : StateEvent) (r : ServiceRunner) : option bool :=
  if decide (event = StateEventUp) then
    Some (match state r with
          | StateSkipped => true
          | StateRunning =>
            let health := Health.Get (healthState r) in
            negb (healthchecked r) || match Healthy health with Some h => h | None => false end
          | _ => false
          end)
  else if decide (event = StateEventDown) then
    Some (match state r with StateFailed | StateFinished | StateSkipped => true | _ => false end)
  else if decide (event = StateEventFinished) then
    Some (bool_decide (state r = StateFinished))
  else None.

(** The events to announce, in the order of the code. *)
Definition due (r : ServiceRunner) : list StateEvent :=
  filter (fun ev => inStateLocked ev r = Some true) [StateEventUp; StateEventDown; StateEventFinished].

(** [UpdateState] up to its unlock: the event pushed, and the new state. *)
Definition UpdateState_locked (newstate : ServiceState) (message : string) (now : Z) (r : ServiceRunner)
    : option (ServiceRunner * ServiceEvent) :=
  let health := match newstate with StateRunning => Health.Get (healthState r) | _ => Health.zeroStatus end in
  let event := mkServiceEvent message newstate health now in
  let r := set_state newstate r in
  h ← Push event (history r);
  Some (set_history h r, event).

Definition GetEventHistory (count : Z) (r : ServiceRunner) : option (list ServiceEvent) := Get count (history r).

(** [healthUpdate] up to its unlock; the event is [None] when it is suppressed.
    A nil [Healthy] pointer is a panic. *)
Definition healthUpdate_locked (change : StateChange) (now : Z) (r : ServiceRunner)
    : option (ServiceRunner * option ServiceEvent) :=
  match state r with
  | StateRunning =>
    h ← Healthy (New change);
    let message := if h : bool then "Health check successful"
                   else "Health check failed: " +:+ LastMessage (New change) in
    let event := mkServiceEvent message (state r) (New change) now in
    e ← Push event (history r);
    Some (set_history e r, Some event)
  | _ => Some (r, None)
  end.

(** [svcrunner.stateSubscribers[event]]: nil when absent. *)
Definition subscribers_of (event : StateEvent) (r : ServiceRunner) : list nat :=
  default [] (stateSubscribers r !! event).

(** [Subscribe]: [true] when the channel is to be notified at once. *)
Definition Subscribe_locked (event : StateEvent) (ch : nat) (r : ServiceRunner) : option (ServiceRunner * bool) :=
  b ← inStateLocked event r;
  Some (if b : bool then (r, true)
        else (set_subscribers (<[event := subscribers_of event r ++ [ch]]> (stateSubscribers r)) r, false)).

Definition Unsubscribe (event : StateEvent) (ch : nat) (r : ServiceRunner) : ServiceRunner :=
  set_subscribers (<[event := swap_delete ch (subscribers_of event r)]> (stateSubscribers r)) r.

Definition Shutdown (r : ServiceRunner) : ServiceRunner := set_stopCh (try_send tt (stopCh r)) r.

(** ** The calls as a whole, without interleaving *)

Record sr_world := mkSrWorld {
  sr : ServiceRunner;
  chs : gmap nat (chan unit);
  published : list ServiceStateEvent;
  logged : list string
}.

Definition send_all (l : list nat) (m : gmap nat (chan unit)) : gmap nat (chan unit) :=
  foldl (fun m ch => alter (try_send tt) ch m) m l.

Definition notifyEvent (event : StateEvent) (w : sr_world) : sr_world :=
  mkSrWorld (sr w) (send_all (subscribers_of event (sr w)) (chs w)) (published w) (logged w).

Definition log_event (event : ServiceEvent) (w : sr_world) : sr_world :=
  mkSrWorld (sr w) (chs w) (published w)
    (logged w ++ ["service[" +:+ id (sr w) +:+ "](" +:+ ServiceState_String (state (sr w)) +:+ "): " +:+ Message event]).

Definition publish (event : ServiceEvent) (w : sr_world) : sr_world :=
  if has_runtime (sr w)
  then mkSrWorld (sr w) (chs w) (published w ++ [ServiceEvent_AsProto (id (sr w)) event]) (logged w)
  else w.

Definition UpdateState (newstate : ServiceState) (message : string) (now : Z) (w : sr_world) : option sr_world :=
  '(r, event) ← UpdateState_locked newstate message now (sr w);
  let w := log_event event (mkSrWorld r (chs w) (published w) (logged w)) in
  Some (foldl (fun w ev => notifyEvent ev w) (publish event w) (due r)).

Definition healthUpdate (change : StateChange) (now : Z) (w : sr_world) : option sr_world :=
  '(r, oev) ← healthUpdate_locked change now (sr w);
  match oev with
  | None => Some w
  | Some event =>
    let w := log_event event (mkSrWorld r (chs w) (published w) (logged w)) in
    let w := if decide (inStateLocked StateEventUp r = Some true) then notifyEvent StateEventUp w else w in
    Some (publish event w)
  end.

Definition Subscribe (event : StateEvent) (ch : nat) (w : sr_world) : option sr_world :=
  '(r, b) ← Subscribe_locked event ch (sr w);
  Some (mkSrWorld r (if b : bool then alter (try_send tt) ch (chs w) else chs w) (published w) (logged w)).

(** ** The phases of a service's life *)

Definition ErrSkip : string := "service skipped".

(** A condition: what it waits for; the result of waiting: the descriptions
    seen at the ticks until then, and the error ([None]: it never returns); and
    the conditions that a conjunction consists of. *)
Inductive condition (E : Type) := mkCondition {
  cond_String : string;
  cond_Wait : world E -> option (world E * list (Z * string) * option error);
  cond_parts : option (list (condition E))
}.
Arguments mkCondition {E} _ _ _.
Arguments cond_String {E} _.
Arguments cond_Wait {E} _ _.
Arguments cond_parts {E} _.

(** The [Service] interface.  A nil condition or runner is [None].  [HealthRun]
    is there for a [HealthcheckedService]: [health t c] is when [health.Run], begun
    at [t] under a context that is cancelled at [c], has returned, and [None]
    when it never does. *)
Record Service (E : Type) := mkService {
  ID : string;
  PreFunc : world E -> world E * option error;
  Runner_ : world E -> world E * (error + option (Runner E));
  PostFunc : ServiceState -> world E -> world E * option error;
  Condition : option (condition E);
  DependsOn : list string;
  HealthRun : option (Z -> Z -> option Z)
}.
Arguments mkService {E} _ _ _ _ _ _ _.
Arguments ID {E} _.
Arguments PreFunc {E} _ _.
Arguments Runner_ {E} _ _.
Arguments PostFunc {E} _ _ _.
Arguments Condition {E} _.
Arguments DependsOn {E} _.
Arguments HealthRun {E} _.

Definition supports_health {E} (svc : Service E) : bool := bool_decide (is_Some (HealthRun svc)).

Section Run.
Context {E : Type}.
(** [waitForService] (service_events.go), and [conditions.WaitForAll] of the
    talos library. *)
Variable waitForService : list StateEvent -> string -> condition E.
Variable WaitForAll : list (condition E) -> condition E.
Variable svc : Service E.
Implicit Types w : world E.

(** [UpdateState(ctx, state, message)] in the timed world. *)
Definition report (s : ServiceState) (msg : string) w : world E := eventSink s msg w.

(** [GetState]: the state of the last event, or [s0] at the start. *)
Definition state_in (s0 : ServiceState) w : ServiceState :=
  match last (sink w) with Some (_, (s, _)) => s | None => s0 end.

(** The reports of [waitFor]'s loop: one per new, non-empty description, at the
    instant of the tick. *)
Fixpoint waitFor_ticks (description : string) (ticks : list (Z * string)) w : world E :=
  match ticks with
  | [] => w
  | (t, d) :: ticks =>
    if decide (d <> description /\ d <> "")
    then waitFor_ticks d ticks (at_time (now w) (report StateWaiting ("Waiting for " +:+ d) (at_time t w)))
    else waitFor_ticks description ticks w
  end.

Definition waitFor (c : condition E) w : option (world E * option error) :=
  let description := cond_String c in
  let w := report StateWaiting ("Waiting for " +:+ description) w in
  '(w, ticks, err) ← cond_Wait c w;
  Some (waitFor_ticks description ticks w, err).

(** The condition of [Run]: the service's own, and its dependencies up. *)
Definition run_condition : option (condition E) :=
  match DependsOn svc with
  | [] => Condition svc
  | deps => Some (WaitForAll (WaitForAll ((fun dep => waitForService [StateEventUp] dep) <$> deps)
                              :: option_list (Condition svc)))
  end.

(** The end of [run], for a runner that was started in [w] and has returned in
    [w1]: which channel the [select] takes; then the deferred [healthWg.Wait] of
    a health-checked service.  It waits for the goroutine that takes the changes
    of health, which returns when the context is done, and for [health.Run],
    which was begun with the runner and returns only after the context is done
    and the check in progress has returned. *)
Definition run_select (w w1 : world E) (err : option error) : option (world E * option error) :=
  '(stopped, w2) ← select2 (cancel_at w) (Some (now w1)) (at_time (now w) w1);
  let w2 := at_time (now w1) w2 in
  w2 ← match HealthRun svc with
       | Some health => c ← cancel_at w2; e ← health (now w) c; recv_at (Some (Z.max c e)) w2
       | None => Some w2
       end;
  Some (w2, if stopped : bool then None
            else match err with Some e => Some (EWrap "error running service: " e "") | None => None end).

(** [run]: the runner is opened, run and closed. *)
Definition run (r : Runner E) w : option (world E * option error) :=
  match Open r w with
  | (w, Some e) => Some (w, Some (EWrap "error opening runner: " e ""))
  | (w, None) =>
    '(w1, (_, err)) ← Runners.Run r w;
    '(w2, res) ← run_select w w1 err;
    Some (fst (Close r w2), res)
  end.

(** The phase after the runner is created, with the deferred [PostFunc]. *)
Definition run_runner (s0 : ServiceState) (runnr : option (Runner E)) w : option (world E * option error) :=
  '(w, res) ← match runnr with
              | None => Some (w, Some (ESentinel ErrSkip))
              | Some r =>
                '(w, err) ← run r w;
                Some (w, match err with Some e => Some (EWrap "failed running service: " e "") | None => None end)
              end;
  match PostFunc svc (state_in s0 w) w with
  | (w, Some e) => Some (report StateFailed ("Failed to run post stage: " +:+ Error e) w, res)
  | (w, None) => Some (w, res)
  end.

(** [if err != nil { if ctx.Err() != nil { return nil }; return wrap(err) }]. *)
Definition phase_error (pre : string) (e : error) w : option error :=
  match ctx_Err w with Some _ => None | None => Some (EWrap pre e "") end.

(** From the pre-stage on. *)
Definition run_prepare (s0 : ServiceState) w : option (world E * option error) :=
  let w := report StatePreparing "Running pre state" w in
  match PreFunc svc w with
  | (w, Some e) => Some (w, phase_error "failed to run pre stage: " e w)
  | (w, None) =>
    let w := report StatePreparing "Creating service runner" w in
    match Runner_ svc w with
    | (w, inl e) => Some (w, Some (EWrap "failed to create runner: " e ""))
    | (w, inr runnr) => run_runner s0 runnr w
    end
  end.

(** [Run].  The context is cancelled when a token is taken from [stopCh]; it is
    the instant [cancel_at] of the world. *)
Definition Run (s0 : ServiceState) w : option (world E * option error) :=
  let w := report StateStarting "Starting service" w in
  match run_condition with
  | None => run_prepare s0 w
  | Some c =>
    '(w, err) ← waitFor c w;
    match err with
    | Some e => Some (w, phase_error "condition failed: " e w)
    | None => run_prepare s0 w
    end
  end.

End Run.

(** The context of a [Run] that starts at [now] when the next [Shutdown] comes
    at [stop]: a token already in [stopCh] cancels it at once. *)
Definition run_context (r : ServiceRunner) (now : Z) (stop : option Z) : option Z :=
  match try_recv (stopCh r) with Some _ => Some now | None => stop end.

(** ** Interleaving *)

(** What a goroutine that left a critical section still has to do without the
    lock: announce an event (clone the subscribers, under the lock, then send
    to each of them), send to a channel, or send a change of health. *)
Inductive action :=
| ANotify (ev : StateEvent)
| ASend (ch : nat)
| AHealthSend (hch : nat) (change : StateChange).

(** [c_notifyCh]: the channel on which [run] listens to the health; [c_over]:
    the context of the run is done, or its runner has ended; [c_woken]: the
    channels that have been received from. *)
Record conc := mkConc {
  c_sr : ServiceRunner;
  c_chs : gmap nat (chan unit);
  c_hchs : Health.chans;
  c_threads : list (list action);
  c_notifyCh : option nat;
  c_over : bool;
  c_woken : gset nat
}.

Definition init_conc (r : ServiceRunner) : conc := mkConc r ∅ ∅ [] None true ∅.

(** One action of a goroutine. *)
Definition perform (a : action) (c : conc) : conc * list action :=
  match a with
  | ANotify ev => (c, ASend <$> subscribers_of ev (c_sr c))
  | ASend ch => (mkConc (c_sr c) (alter (try_send tt) ch (c_chs c)) (c_hchs c) (c_threads c)
                   (c_notifyCh c) (c_over c) (c_woken c), [])
  | AHealthSend hch ch => (mkConc (c_sr c) (c_chs c) (alter (try_send ch) hch (c_hchs c)) (c_threads c)
                             (c_notifyCh c) (c_over c) (c_woken c), [])
  end.

Definition with_sr (r : ServiceRunner) (new : list action) (c : conc) : conc :=
  mkConc r (c_chs c) (c_hchs c) (c_threads c ++ [new]) (c_notifyCh c) (c_over c) (c_woken c).

Definition with_threads (ths : list (list action)) (c : conc) : conc :=
  mkConc (c_sr c) (c_chs c) (c_hchs c) ths (c_notifyCh c) (c_over c) (c_woken c).

Inductive cstep (c : conc) : conc -> Prop :=
(** [Run] starts: a new context and the first report. *)
| cs_run_start msg now r ev :
    c_over c = true -> UpdateState_locked StateStarting msg now (c_sr c) = Some (r, ev) ->
    cstep c (let c' := with_sr r (ANotify <$> due r) c in
             mkConc (c_sr c') (c_chs c') (c_hchs c') (c_threads c') (c_notifyCh c') false (c_woken c'))
| cs_update s msg now r ev :
    UpdateState_locked s msg now (c_sr c) = Some (r, ev) ->
    cstep c (with_sr r (ANotify <$> due r) c)
(** [run] subscribes to the health. *)
| cs_health_subscribe hch :
    c_notifyCh c = None -> c_hchs c !! hch = None ->
    cstep c (mkConc (set_health (Health.Subscribe hch (healthState (c_sr c))) (c_sr c)) (c_chs c)
               (<[hch := make_chan StateChange 2]> (c_hchs c)) (c_threads c) (Some hch) (c_over c) (c_woken c))
(** [health.Run] starts. *)
| cs_health_init now :
    cstep c (with_sr (set_health (Health.Init now (healthState (c_sr c))) (c_sr c)) [] c)
(** A result of the health check, or the recorder of [run]; only the former,
    which runs between the subscription and the end of the run, makes a service
    healthy. *)
| cs_health_update h msg now st ch notify :
    (h = true -> is_Some (c_notifyCh c) \/ c_over c = true) ->
    Health.Update_locked h msg now (healthState (c_sr c)) = (st, ch, notify) ->
    cstep c (with_sr (set_health st (c_sr c))
               (if notify then (fun hch => AHealthSend hch ch) <$> subscribers (healthState (c_sr c)) else []) c)
(** The goroutine of [run] that receives from [notifyCh]. *)
| cs_health_consume hch q change q' now r oev :
    c_notifyCh c = Some hch -> c_hchs c !! hch = Some q -> try_recv q = Some (change, q') ->
    healthUpdate_locked change now (c_sr c) = Some (r, oev) ->
    cstep c (let c' := with_sr r (if oev is Some _ then
                          if decide (inStateLocked StateEventUp r = Some true) then [ANotify StateEventUp] else [] else []) c in
             mkConc (c_sr c') (c_chs c') (<[hch := q']> (c_hchs c')) (c_threads c') (c_notifyCh c') (c_over c') (c_woken c'))
| cs_over :
    cstep c (mkConc (c_sr c) (c_chs c) (c_hchs c) (c_threads c) (c_notifyCh c) true (c_woken c))
| cs_health_unsubscribe hch :
    c_notifyCh c = Some hch -> c_over c = true ->
    cstep c (mkConc (set_health (Health.Unsubscribe hch (healthState (c_sr c))) (c_sr c)) (c_chs c) (c_hchs c)
               (c_threads c) None (c_over c) (c_woken c))
(** A goroutine goes on. *)
| cs_act i a rest :
    c_threads c !! i = Some (a :: rest) ->
    cstep c (let (c', new) := perform a c in with_threads (<[i := new ++ rest]> (c_threads c)) c')
(** The waiters: [notifyCh := make(chan struct{}, 1)], [Subscribe], the receive
    and [Unsubscribe]. *)
| cs_make ch :
    c_chs c !! ch = None ->
    cstep c (mkConc (c_sr c) (<[ch := make_chan unit 1]> (c_chs c)) (c_hchs c) (c_threads c)
               (c_notifyCh c) (c_over c) (c_woken c))
| cs_subscribe ev ch r b :
    is_Some (c_chs c !! ch) -> Subscribe_locked ev ch (c_sr c) = Some (r, b) ->
    cstep c (with_sr r (if b : bool then [ASend ch] else []) c)
| cs_receive ch q q' :
    c_chs c !! ch = Some q -> try_recv q = Some (tt, q') ->
    cstep c (mkConc (c_sr c) (<[ch := q']> (c_chs c)) (c_hchs c) (c_threads c)
               (c_notifyCh c) (c_over c) ({[ch]} ∪ c_woken c))
| cs_unsubscribe ev ch :
    cstep c (with_sr (Unsubscribe ev ch (c_sr c)) [] c)
| cs_shutdown :
    cstep c (with_sr (Shutdown (c_sr c)) [] c).

Inductive reachable (r : ServiceRunner) : conc -> Prop :=
| reach_init : reachable r (init_conc r)
| reach_step c c' : reachable r c -> cstep c c' -> reachable r c'.

(** *** What a subscriber can count on *)

(** A goroutine will announce the event or send to the channel. *)
Definition thread_pending (ths : list (list action)) (ev : StateEvent) (ch : nat) : Prop :=
  exists th, th ∈ ths /\ (ANotify ev ∈ th \/ ASend ch ∈ th).

(** A change of health is on its way to the goroutine that handles it. *)
Definition health_pending (ths : list (list action)) (hchs : Health.chans) (hch : nat) : Prop :=
  (exists th change, th ∈ ths /\ AHealthSend hch change ∈ th) \/
  (exists q, hchs !! hch = Some q /\ chan_buf q <> []).

Definition pending (c : conc) (ev : StateEvent) (ch : nat) : Prop :=
  ch ∈ c_woken c \/
  (exists q, c_chs c !! ch = Some q /\ chan_buf q <> []) \/
  thread_pending (c_threads c) ev ch \/
  (ev = StateEventUp /\ state (c_sr c) = StateRunning /\
     (c_over c = true \/ exists hch, c_notifyCh c = Some hch /\ health_pending (c_threads c) (c_hchs c) hch)).

Record conc_ok (c : conc) : Prop := {
  co_chs : forall ev ch, ch ∈ subscribers_of ev (c_sr c) -> exists q, c_chs c !! ch = Some q;
  co_cap : forall ch q, c_chs c !! ch = Some q -> (0 < chan_cap q)%nat;
  co_hcap : forall hch q, c_hchs c !! hch = Some q -> (0 < chan_cap q)%nat;
  co_health : forall hch, c_notifyCh c = Some hch ->
    hch ∈ subscribers (healthState (c_sr c)) /\ is_Some (c_hchs c !! hch);
  co_history : exists l, history_ok (history (c_sr c)) l;
  co_pending : forall ev ch, ch ∈ subscribers_of ev (c_sr c) -> inStateLocked ev (c_sr c) = Some true ->
    pending c ev ch
}.

(** *** Lemmas *)

Lemma inStateLocked_Some ev r : inStateLocked ev r = Some true ->
  ev ∈ [StateEventUp; StateEventDown; StateEventFinished].
Proof. unfold inStateLocked. intros. repeat case_decide; set_solver. Qed.

Lemma due_spec ev r : inStateLocked ev r = Some true -> ev ∈ due r.
Proof. intros H. unfold due. apply list_elem_of_filter. split; [done|]. by eapply inStateLocked_Some. Qed.

(** An event other than up depends on the state alone; so does up unless the
    service is running. *)
Lemma inStateLocked_health ev r h :
  ev <> StateEventUp \/ state r <> StateRunning ->
  inStateLocked ev (set_health h r) = inStateLocked ev r.
Proof.
  intros Hx. unfold inStateLocked. case_decide; [|done]. destruct Hx; [done|].
  f_equal. simpl. by destruct (state r).
Qed.

Lemma subscribers_of_set_state s r ev : subscribers_of ev (set_state s r) = subscribers_of ev r.
Proof. done. Qed.

(** Growing the set of threads keeps what is pending, if the rest that
    [pending] reads is kept as well. *)
Lemma thread_pending_mono ths ths' ev ch :
  (forall th, th ∈ ths -> exists th', th' ∈ ths' /\ forall a, a ∈ th -> a ∈ th') ->
  thread_pending ths ev ch -> thread_pending ths' ev ch.
Proof.
  intros Hm (th & Hin & H). destruct (Hm th Hin) as (th' & Hin' & Ha).
  exists th'. split; [done|]. destruct H; [left|right]; auto.
Qed.

Lemma thread_pending_app ths new ev ch : thread_pending ths ev ch -> thread_pending (ths ++ [new]) ev ch.
Proof. apply thread_pending_mono. intros th ?. exists th. split; [set_solver|done]. Qed.

Lemma health_pending_app ths new hchs hch : health_pending ths hchs hch -> health_pending (ths ++ [new]) hchs hch.
Proof. intros [(th & change & H1 & H2)|H]; [left|by right]. exists th, change. set_solver. Qed.

Lemma thread_pending_last ths new ev ch :
  ANotify ev ∈ new \/ ASend ch ∈ new -> thread_pending (ths ++ [new]) ev ch.
Proof. intros. exists new. split; [set_solver|done]. Qed.

(** A report announces every event that holds afterwards. *)
Lemma due_pending ths r ev ch :
  inStateLocked ev r = Some true -> thread_pending (ths ++ [ANotify <$> due r]) ev ch.
Proof. intros H. apply thread_pending_last. left. apply list_elem_of_fmap. eauto using due_spec. Qed.

Lemma try_send_lookup {A} (v : A) ch (m : gmap nat (chan A)) k q :
  m !! k = Some q -> exists q', alter (try_send v) ch m !! k = Some q' /\ chan_cap q' = chan_cap q /\
    (chan_buf q <> [] -> chan_buf q' <> []) /\ (k = ch -> (0 < chan_cap q)%nat -> chan_buf q' <> []).
Proof.
  intros Hq. destruct (decide (k = ch)) as [->|Hne].
  - rewrite lookup_alter_eq, Hq. eexists. split; [done|]. split_and!.
    + unfold try_send. by case_decide.
    + unfold try_send. case_decide; [by destruct (chan_buf q)|done].
    + intros _ ?. by apply try_send_nonempty.
  - rewrite lookup_alter_ne by done. exists q. split_and!; done.
Qed.

Lemma alter_cap {A} (v : A) ch (m : gmap nat (chan A)) :
  (forall k q, m !! k = Some q -> (0 < chan_cap q)%nat) ->
  forall k q, alter (try_send v) ch m !! k = Some q -> (0 < chan_cap q)%nat.
Proof.
  intros Hm k q Hk. destruct (m !! k) as [q0|] eqn:E.
  - destruct (try_send_lookup v ch m k q0 E) as (q' & Hq' & Hc & _). simplify_eq. rewrite Hc. eauto.
  - apply lookup_alter_Some in Hk as [(-> & ? & ? & _)|[_ ?]]; congruence.
Qed.

(** A state change of the runner that leaves subscribers, health and channels
    alone and announces what holds afterwards. *)
Lemma conc_ok_update c s msg now r ev over :
  conc_ok c -> UpdateState_locked s msg now (c_sr c) = Some (r, ev) ->
  conc_ok (mkConc r (c_chs c) (c_hchs c) (c_threads c ++ [ANotify <$> due r]) (c_notifyCh c) over (c_woken c)).
Proof.
  intros [C1 C2 C3 C4 [l C5] C6] HU. unfold UpdateState_locked in HU.
  apply bind_Some in HU as (h & HP & HU). injection HU as <- <-. split; simpl; [exact C1|exact C2|exact C3|exact C4| |].
  - destruct (Push_ok (mkServiceEvent msg s match s with StateRunning => Health.Get (healthState (c_sr c))
      | _ => Health.zeroStatus end now) _ _ C5) as (h' & HP' & Hok).
    simpl in HP. rewrite HP in HP'. simplify_eq. eauto.
  - intros ev' ch Hin Hst. right. right. left. by apply due_pending.
Qed.

(** A change of the health alone, that keeps the health channel subscribed. *)
Lemma conc_ok_health c h new :
  conc_ok c ->
  (forall hch, c_notifyCh c = Some hch -> hch ∈ subscribers h) ->
  (state (c_sr c) = StateRunning -> inStateLocked StateEventUp (set_health h (c_sr c)) = Some true ->
     inStateLocked StateEventUp (c_sr c) = Some true \/ c_over c = true \/
     exists hch change, c_notifyCh c = Some hch /\ AHealthSend hch change ∈ new) ->
  conc_ok (with_sr (set_health h (c_sr c)) new c).
Proof.
  intros [C1 C2 C3 C4 C5 C6] Hsub Hup. split; simpl; [exact C1|exact C2|exact C3| |exact C5|].
  - intros hch Hh. split; [by apply Hsub|by apply C4].
  - intros ev ch Hin Hst.
    assert (inStateLocked ev (c_sr c) = Some true \/ ev = StateEventUp /\ state (c_sr c) = StateRunning /\
      (c_over c = true \/ exists hch change, c_notifyCh c = Some hch /\ AHealthSend hch change ∈ new)) as Hc.
    { destruct (decide (ev = StateEventUp)) as [->|Hne].
      - destruct (decide (state (c_sr c) = StateRunning)) as [Hr|Hr].
        + destruct (Hup Hr Hst) as [?|?]; [by left|by right].
        + left. rewrite inStateLocked_health in Hst by (by right). done.
      - left. rewrite inStateLocked_health in Hst by (by left). done. }
    destruct Hc as [Hc|(-> & Hr & Hc)].
    + destruct (C6 ev ch Hin Hc) as [?|[?|[?|(? & ? & Hh)]]]; [by left|by right; left| |].
      * right. right. left. by apply thread_pending_app.
      * right. right. right. split; [done|]. split; [done|].
        destruct Hh as [?|(hch & ? & ?)]; [by left|right]. exists hch. split; [done|]. by apply health_pending_app.
    + right. right. right. split; [done|]. split; [done|].
      destruct Hc as [?|(hch & change & Hn & Hin')]; [by left|right]. exists hch. split; [done|].
      left. exists new, change. set_solver.
Qed.

Lemma elem_of_insert_other {A} (l : list A) i x0 x y :
  l !! i = Some x0 -> y ∈ l -> y = x0 \/ y ∈ <[i := x]> l.
Proof.
  intros Hi (j & Hj)%list_elem_of_lookup. destruct (decide (j = i)) as [->|Hne]; [left; congruence|right].
  apply list_elem_of_lookup. exists j. by rewrite list_lookup_insert_ne.
Qed.

Lemma elem_of_insert_same {A} (l : list A) i x0 x : l !! i = Some x0 -> x ∈ <[i := x]> l.
Proof.
  intros Hi%lookup_lt_Some. apply list_elem_of_lookup. exists i. by rewrite list_lookup_insert_eq.
Qed.

(** The actions left in the thread that moved are still pending. *)
Lemma action_kept (ths : list (list action)) i a rest new (P : action -> Prop) :
  ths !! i = Some (a :: rest) ->
  (exists th b, th ∈ ths /\ b ∈ th /\ P b) ->
  P a \/ exists th b, th ∈ <[i := new ++ rest]> ths /\ b ∈ th /\ P b.
Proof.
  intros Hi (th & b & Hin & Hb & HP).
  destruct (elem_of_insert_other ths i (a :: rest) (new ++ rest) th Hi Hin) as [->|Hin'].
  - apply elem_of_cons in Hb as [->|Hb]; [by left|right].
    exists (new ++ rest), b. split; [by eapply elem_of_insert_same|]. set_solver.
  - right. eauto.
Qed.

Lemma thread_pending_alt ths ev ch :
  thread_pending ths ev ch <-> exists th b, th ∈ ths /\ b ∈ th /\ (b = ANotify ev \/ b = ASend ch).
Proof.
  split; [intros (th & H1 & [H2|H2]); eauto 10|].
  intros (th & b & H1 & H2 & [->| ->]); exists th; auto.
Qed.

Lemma health_pending_alt ths hchs hch :
  health_pending ths hchs hch <->
  (exists th b, th ∈ ths /\ b ∈ th /\ exists change, b = AHealthSend hch change) \/
  (exists q, hchs !! hch = Some q /\ chan_buf q <> []).
Proof.
  unfold health_pending. split; (intros [H|H]; [left|by right]).
  - destruct H as (th & change & H1 & H2). eauto 10.
  - destruct H as (th & b & H1 & H2 & change & ->). eauto.
Qed.

Lemma perform_sr a c : c_sr (fst (perform a c)) = c_sr c /\ c_notifyCh (fst (perform a c)) = c_notifyCh c /\
  c_over (fst (perform a c)) = c_over c /\ c_woken (fst (perform a c)) = c_woken c.
Proof. by destruct a. Qed.

Lemma perform_chs a c : (forall ch q, c_chs c !! ch = Some q -> (0 < chan_cap q)%nat) -> forall ch q, c_chs c !! ch = Some q ->
  exists q', c_chs (fst (perform a c)) !! ch = Some q' /\ (chan_buf q <> [] -> chan_buf q' <> []) /\
    (a = ASend ch -> chan_buf q' <> []).
Proof.
  intros Hcap ch q Hq. destruct a as [ev|ch0|hch change]; simpl; try (exists q; split_and!; done).
  destruct (try_send_lookup tt ch0 _ _ _ Hq) as (q' & H1 & H2 & H3 & H4). exists q'. split_and!; [done..|].
  intros [= ->]. eauto.
Qed.

Lemma perform_hchs a c : (forall ch q, c_hchs c !! ch = Some q -> (0 < chan_cap q)%nat) -> forall ch q, c_hchs c !! ch = Some q ->
  exists q', c_hchs (fst (perform a c)) !! ch = Some q' /\ (chan_buf q <> [] -> chan_buf q' <> []) /\
    ((exists change, a = AHealthSend ch change) -> chan_buf q' <> []).
Proof.
  intros Hcap ch q Hq. destruct a as [ev|ch0|hch change]; simpl; try (exists q; split_and!; [done..|by intros (? & ?)]).
  destruct (try_send_lookup change hch _ _ _ Hq) as (q' & H1 & H2 & H3 & H4). exists q'. split_and!; [done..|].
  intros (? & [= -> ->]). eauto.
Qed.

Lemma conc_ok_act c i a rest :
  conc_ok c -> c_threads c !! i = Some (a :: rest) ->
  conc_ok (let (c', new) := perform a c in with_threads (<[i := new ++ rest]> (c_threads c)) c').
Proof.
  intros [C1 C2 C3 C4 C5 C6] Hi. destruct (perform a c) as [c' new] eqn:Hp.
  pose proof (perform_sr a c) as (P1 & P2 & P3 & P4). pose proof (perform_chs a c C2) as P5.
  pose proof (perform_hchs a c C3) as P6. rewrite Hp in *. simpl in P1, P2, P3, P4, P5, P6.
  split; unfold with_threads; simpl; rewrite ?P1, ?P2, ?P3, ?P4.
  - intros ev ch Hin. destruct (C1 ev ch Hin) as (q & Hq). destruct (P5 _ _ Hq) as (q' & ? & _). eauto.
  - destruct a; simpl in Hp; injection Hp as <- <-; simpl; [exact C2|by apply alter_cap|exact C2].
  - destruct a; simpl in Hp; injection Hp as <- <-; simpl; [exact C3|exact C3|by apply alter_cap].
  - intros hch Hh. destruct (C4 hch Hh) as [H1 (q & Hq)]. split; [done|]. destruct (P6 _ _ Hq) as (q' & ? & _). eauto.
  - exact C5.
  - intros ev ch Hin Hst. unfold pending. simpl. rewrite ?P1, ?P2, ?P3, ?P4.
    destruct (C1 ev ch Hin) as (q0 & Hq0). destruct (P5 _ _ Hq0) as (q0' & Hq0' & Hkeep & Hsend).
    destruct (C6 ev ch Hin Hst) as [H|[(q & Hq & Hb)|[H|(-> & Hr & H)]]]; [by left| | |].
    + right. left. exists q0'. split; [done|]. apply Hkeep. congruence.
    + apply thread_pending_alt in H. destruct (action_kept _ i a rest new _ Hi H) as [[->| ->]|H'].
      * right. right. left. apply thread_pending_alt. simpl in Hp. injection Hp as <- <-.
        eexists _, (ASend ch). split; [by eapply elem_of_insert_same|]. split; [|by right].
        apply elem_of_app. left. apply list_elem_of_fmap. eauto.
      * right. left. exists q0'. split; [done|]. by apply Hsend.
      * right. right. left. by apply thread_pending_alt.
    + right. right. right. split; [done|]. split; [done|]. destruct H as [H|(hch & Hn & H)]; [by left|right].
      exists hch. split; [done|]. apply health_pending_alt.
      destruct (C4 hch Hn) as [_ (q & Hq)]. destruct (P6 _ _ Hq) as (q' & Hq' & Hk' & Hs').
      apply health_pending_alt in H as [H|(q2 & Hq2 & Hb)].
      * destruct (action_kept _ i a rest new _ Hi H) as [[change ->]|H']; [right|by left].
        exists q'. split; [done|]. apply Hs'. eauto.
      * right. exists q'. split; [done|]. apply Hk'. congruence.
Qed.

(** Steps that do not touch what [pending] reads, except to add to it. *)
Lemma subscribers_of_insert ev ev' l r :
  subscribers_of ev (set_subscribers (<[ev' := l]> (stateSubscribers r)) r) =
  if decide (ev = ev') then l else subscribers_of ev r.
Proof.
  unfold subscribers_of. simpl. case_decide; [subst; by rewrite lookup_insert_eq|by rewrite lookup_insert_ne].
Qed.

Lemma conc_ok_subscribers c m new :
  conc_ok c ->
  (forall ev ch, ch ∈ subscribers_of ev (set_subscribers m (c_sr c)) ->
     ch ∈ subscribers_of ev (c_sr c) \/ (is_Some (c_chs c !! ch) /\ inStateLocked ev (c_sr c) <> Some true)) ->
  conc_ok (with_sr (set_subscribers m (c_sr c)) new c).
Proof.
  intros [C1 C2 C3 C4 C5 C6] Hm. split; simpl; [|exact C2|exact C3|exact C4|exact C5|].
  - intros ev ch Hin. destruct (Hm ev ch Hin) as [?|[[q ?] _]]; eauto.
  - intros ev ch Hin Hst. destruct (Hm ev ch Hin) as [Hin'|[_ Hn]]; [|done].
    destruct (C6 ev ch Hin' Hst) as [H|[H|[H|(? & ? & H)]]]; [by left|by right; left|right;right;left|right;right;right].
    + by apply thread_pending_app.
    + split; [done|]. split; [done|]. destruct H as [?|(hch & ? & ?)]; [by left|right; exists hch].
      split; [done|]. by apply health_pending_app.
Qed.

Lemma Update_locked_spec h msg now s st ch notify :
  Health.Update_locked h msg now s = (st, ch, notify) ->
  subscribers st = subscribers s /\ Healthy (status st) = Some h /\ (notify = false -> Healthy (status s) = Some h) /\
  Healthy (New ch) = Some h.
Proof.
  unfold Health.Update_locked. intros [= <- <- <-]. destruct (Healthy (status s)) as [b|] eqn:E; simpl; [|done].
  destruct b, h; simpl; by rewrite ?E.
Qed.

Lemma conc_ok_consume c hch q change q' now r oev :
  conc_ok c -> c_notifyCh c = Some hch -> c_hchs c !! hch = Some q -> try_recv q = Some (change, q') ->
  healthUpdate_locked change now (c_sr c) = Some (r, oev) ->
  conc_ok (mkConc r (c_chs c) (<[hch := q']> (c_hchs c)) (c_threads c ++
             [if oev is Some _ then
                if decide (inStateLocked StateEventUp r = Some true) then [ANotify StateEventUp] else [] else []])
             (c_notifyCh c) (c_over c) (c_woken c)).
Proof.
  intros [C1 C2 C3 C4 [l C5] C6] Hn Hq Hr HU.
  assert (chan_cap q' = chan_cap q) as Hcap by (unfold try_recv in Hr; destruct (chan_buf q); by simplify_eq/=).
  assert (stateSubscribers r = stateSubscribers (c_sr c) /\ healthState r = healthState (c_sr c) /\
    (forall ev, inStateLocked ev r = inStateLocked ev (c_sr c)) /\ state r = state (c_sr c) /\
    (exists l, history_ok (history r) l) /\ (state r = StateRunning -> is_Some oev)) as (U1 & U2 & U3 & U4 & U5 & U6).
  { unfold healthUpdate_locked in HU. destruct (state (c_sr c)) eqn:Hs; simplify_eq; try (split_and!; eauto; congruence).
    apply bind_Some in HU as (hb & _ & HU). apply bind_Some in HU as (e & HP & HU). injection HU as <- <-.
    simpl. split_and!; try done.
    destruct (Push_ok (mkServiceEvent (if hb : bool then "Health check successful" else "Health check failed: " +:+
      LastMessage (New change)) StateRunning (New change) now) _ _ C5) as (e' & HP' & Hok). rewrite HP in HP'. injection HP' as <-. eauto. }
  split; simpl; [|exact C2| | |exact U5|].
  - intros ev ch. unfold subscribers_of. rewrite U1. apply C1.
  - intros k x Hk. destruct (decide (k = hch)) as [->|Hne].
    + rewrite lookup_insert_eq in Hk. injection Hk as <-. rewrite Hcap. eauto.
    + rewrite lookup_insert_ne in Hk by done. eauto.
  - intros k Hk. rewrite U2. destruct (C4 k Hk) as [? ?]. split; [done|].
    rewrite Hn in Hk. injection Hk as <-. by rewrite lookup_insert_eq.
  - intros ev ch. unfold subscribers_of. rewrite U1, U3. intros Hin Hst.
    unfold pending. simpl. rewrite U4.
    destruct (C6 ev ch Hin Hst) as [H|[H|[H|(-> & Hrun & H)]]];
      [by left|by right; left|right; right; left; by apply thread_pending_app|].
    right. right. left. apply thread_pending_last. left.
    destruct (U6 ltac:(congruence)) as [? ->]. rewrite U3, decide_True by done. set_solver.
Qed.

(** [run] subscribes its channel to the health. *)
Lemma conc_ok_health_subscribe c hch :
  conc_ok c -> c_notifyCh c = None ->
  conc_ok (mkConc (set_health (Health.Subscribe hch (healthState (c_sr c))) (c_sr c)) (c_chs c)
             (<[hch := make_chan StateChange 2]> (c_hchs c)) (c_threads c) (Some hch) (c_over c) (c_woken c)).
Proof.
  intros [C1 C2 C3 C4 C5 C6] Hn. split; simpl; [exact C1|exact C2| | |exact C5|].
  - intros k q Hk. destruct (decide (k = hch)) as [->|]; [rewrite lookup_insert_eq in Hk; by simplify_eq/=; lia|].
    rewrite lookup_insert_ne in Hk by done. eauto.
  - intros k [= <-]. split; [set_solver|]. by rewrite lookup_insert_eq.
  - intros ev ch Hin Hst. destruct (C6 ev ch Hin Hst) as [?|[?|[?|(? & ? & Hx)]]]; [by left|by right; left|by right; right; left|].
    right. right. right. split; [done|]. split; [done|]. destruct Hx as [?|(k & Hk & _)]; [by left|congruence].
Qed.

(** A result of the health check. *)
Lemma conc_ok_health_update c h msg now st ch notify :
  conc_ok c -> (h = true -> is_Some (c_notifyCh c) \/ c_over c = true) ->
  Health.Update_locked h msg now (healthState (c_sr c)) = (st, ch, notify) ->
  conc_ok (with_sr (set_health st (c_sr c))
             (if notify then (fun hch => AHealthSend hch ch) <$> subscribers (healthState (c_sr c)) else []) c).
Proof.
  intros HC Hok HU. pose proof HC as [C1 C2 C3 C4 C5 C6]. destruct (Update_locked_spec _ _ _ _ _ _ _ HU) as (U1 & U2 & U3 & _).
  apply conc_ok_health; [done|intros; rewrite U1; by apply C4|].
  intros Hr Hup. unfold inStateLocked in Hup |- *. simpl in Hup |- *. rewrite Hr in Hup |- *. simpl in Hup |- *.
  destruct (healthchecked (c_sr c)) eqn:Hh; simpl in *; [|by left]. unfold Health.Get in *. rewrite U2 in Hup.
  injection Hup as ->. destruct notify; [|rewrite U3 by done; by left]. right.
  destruct (Hok eq_refl) as [[k Hk]|?]; [right|by left]. exists k, ch. split; [done|].
  apply list_elem_of_fmap. exists k. split; [done|]. by apply C4.
Qed.

(** The end of a run, and of its subscription to the health. *)
Lemma conc_ok_over c r n :
  conc_ok c -> stateSubscribers r = stateSubscribers (c_sr c) -> history r = history (c_sr c) ->
  (forall ev, inStateLocked ev r = inStateLocked ev (c_sr c)) -> state r = state (c_sr c) ->
  (forall hch, n = Some hch -> hch ∈ subscribers (healthState r) /\ is_Some (c_hchs c !! hch)) ->
  conc_ok (mkConc r (c_chs c) (c_hchs c) (c_threads c) n true (c_woken c)).
Proof.
  intros [C1 C2 C3 C4 C5 C6] U1 U2 U3 U4 Hn. split; simpl; [|exact C2|exact C3|exact Hn|by rewrite U2|].
  - intros ev ch. unfold subscribers_of. rewrite U1. apply C1.
  - intros ev ch. unfold subscribers_of. rewrite U1, U3. intros Hin Hst. unfold pending. simpl. rewrite U4.
    destruct (C6 ev ch Hin Hst) as [?|[?|[?|(? & ? & Hx)]]]; [by left|by right; left|by right; right; left|].
    right. right. right. split; [done|]. split; [done|]. by left.
Qed.

(** A waiter makes its channel. *)
Lemma conc_ok_make c ch :
  conc_ok c -> c_chs c !! ch = None ->
  conc_ok (mkConc (c_sr c) (<[ch := make_chan unit 1]> (c_chs c)) (c_hchs c) (c_threads c)
             (c_notifyCh c) (c_over c) (c_woken c)).
Proof.
  intros [C1 C2 C3 C4 C5 C6] Hn. split; simpl; [| |exact C3|exact C4|exact C5|].
  - intros ev k Hin. destruct (decide (k = ch)) as [->|]; [rewrite lookup_insert_eq; eauto|].
    rewrite lookup_insert_ne by done. eauto.
  - intros k q Hk. destruct (decide (k = ch)) as [->|]; [rewrite lookup_insert_eq in Hk; by simplify_eq/=; lia|].
    rewrite lookup_insert_ne in Hk by done. eauto.
  - intros ev k Hin Hst. destruct (C6 ev k Hin Hst) as [?|[(q & Hq & Hb)|[?|?]]];
      [by left|right; left; simpl|by right; right; left|by right; right; right].
    exists q. split; [|done]. rewrite lookup_insert_ne; [done|congruence].
Qed.

(** A waiter receives. *)
Lemma conc_ok_receive c ch q q' :
  conc_ok c -> c_chs c !! ch = Some q -> try_recv q = Some (tt, q') ->
  conc_ok (mkConc (c_sr c) (<[ch := q']> (c_chs c)) (c_hchs c) (c_threads c)
             (c_notifyCh c) (c_over c) ({[ch]} ∪ c_woken c)).
Proof.
  intros [C1 C2 C3 C4 C5 C6] Hq Hr. split; simpl; [| |exact C3|exact C4|exact C5|].
  - intros ev k Hin. destruct (decide (k = ch)) as [->|]; [rewrite lookup_insert_eq; eauto|].
    rewrite lookup_insert_ne by done. eauto.
  - intros k x Hk. destruct (decide (k = ch)) as [->|].
    + rewrite lookup_insert_eq in Hk. injection Hk as <-. unfold try_recv in Hr. destruct (chan_buf q); [done|].
      injection Hr as _ <-. simpl. eauto.
    + rewrite lookup_insert_ne in Hk by done. eauto.
  - intros ev k Hin Hst. unfold pending. simpl. destruct (decide (k = ch)) as [->|]; [left; set_solver|].
    destruct (C6 ev k Hin Hst) as [?|[(x & Hx & Hb)|[?|?]]];
      [left; set_solver|right; left|by right; right; left|by right; right; right].
    exists x. by rewrite lookup_insert_ne.
Qed.

(** A waiter subscribes. *)
Lemma conc_ok_subscribe c ev ch r b :
  conc_ok c -> is_Some (c_chs c !! ch) -> Subscribe_locked ev ch (c_sr c) = Some (r, b) ->
  conc_ok (with_sr r (if b then [ASend ch] else []) c).
Proof.
  intros HC Hch HS. unfold Subscribe_locked in HS. apply bind_Some in HS as ([] & Hst & Hr); simplify_eq.
  - replace (c_sr c) with (set_subscribers (stateSubscribers (c_sr c)) (c_sr c)) at 1 by (by destruct (c_sr c)).
    apply conc_ok_subscribers; [done|by left].
  - apply conc_ok_subscribers; [done|]. intros ev' ch'. rewrite subscribers_of_insert.
    case_decide; [subst|by left]. intros [?| ->%list_elem_of_singleton]%elem_of_app; [by left|right].
    split; [done|congruence].
Qed.

Lemma conc_ok_step c c' : conc_ok c -> cstep c c' -> conc_ok c'.
Proof.
  intros HC HS. pose proof HC as [C1 C2 C3 C4 C5 C6]. destruct HS.
  - by apply (conc_ok_update c StateStarting msg now r ev false).
  - by apply (conc_ok_update c s msg now r ev (c_over c)).
  - by apply conc_ok_health_subscribe.
  - apply conc_ok_health; [done|by intros; apply C4|].
    intros Hr. unfold inStateLocked. simpl. rewrite Hr. destruct (healthchecked (c_sr c)) eqn:Hh; simpl; [done|by left].
  - by eapply conc_ok_health_update.
  - by apply (conc_ok_consume c hch q change q' now r oev).
  - by apply conc_ok_over.
  - match goal with H : c_over c = true |- _ => rewrite H end. by apply conc_ok_over.
  - by apply conc_ok_act.
  - by apply conc_ok_make.
  - by eapply conc_ok_subscribe.
  - by eapply conc_ok_receive.
  - apply conc_ok_subscribers; [done|]. intros ev' ch'. rewrite subscribers_of_insert.
    case_decide; [subst|by left]. rewrite elem_of_swap_delete. intros [? _]. by left.
  - split; simpl; [exact C1|exact C2|exact C3|exact C4|exact C5|].
    intros ev k Hin Hst. destruct (C6 ev k Hin Hst) as [?|[?|[?|(? & ? & Hx)]]]; [by left|by right; left| |].
    + right. right. left. by apply thread_pending_app.
    + right. right. right. split; [done|]. split; [done|]. destruct Hx as [?|(hch & ? & ?)]; [by left|right; exists hch].
      split; [done|]. by apply health_pending_app.
Qed.

Lemma conc_ok_init s b rt : conc_ok (init_conc (NewServiceRunner s b rt)).
Proof.
  split; simpl; try done.
  - intros ev ch. unfold subscribers_of. simpl. rewrite lookup_empty. simpl. by intros ?%elem_of_nil.
  - exists []. apply history_ok_init.
  - intros ev ch. unfold subscribers_of. simpl. rewrite lookup_empty. simpl. by intros ?%elem_of_nil.
Qed.

Lemma conc_ok_reachable s b rt c : reachable (NewServiceRunner s b rt) c -> conc_ok c.
Proof. induction 1; eauto using conc_ok_init, conc_ok_step. Qed.

(** ** Lemmas on the phases *)

(** Time passes within [b] of a cancellation, and nothing is reported. *)
Record quiet {E} (w w' : world E) : Prop := {
  q_now : now w <= now w';
  q_ctx : cancel_at w' = cancel_at w;
  q_sink : sink w' = sink w
}.

(** What [Run] relies on of a service: its functions report nothing themselves
    (they are not given the recorder), and its runner is a lawful one. *)
Class ServiceLaws {E} (svc : Service E) : Prop := {
  sl_pre w w' r : PreFunc svc w = (w', r) -> quiet w w';
  sl_runner w w' r : Runner_ svc w = (w', r) -> quiet w w';
  sl_post s w w' r : PostFunc svc s w = (w', r) -> quiet w w';
  sl_run w w' r : Runner_ svc w = (w', inr (Some r)) -> RunnerLaws r;
  sl_open w w' r w1 w2 e : Runner_ svc w = (w', inr (Some r)) -> Open r w1 = (w2, e) -> quiet w1 w2;
  sl_close w w' r w1 w2 e : Runner_ svc w = (w', inr (Some r)) -> Close r w1 = (w2, e) -> quiet w1 w2
}.

Definition waits_quietly {E} (c : condition E) : Prop :=
  forall w w' ticks e, cond_Wait c w = Some (w', ticks, e) -> quiet w w'.

(** The wait of a condition reports nothing, nor do those of its parts. *)
Class ConditionLaws {E} (c : condition E) : Prop := {
  cond_quiet : waits_quietly c;
  cond_parts_quiet cs : cond_parts c = Some cs -> Forall waits_quietly cs
}.

(** The service and all it waits for react to a cancellation within [b], and
    its phases take no longer than that. *)
Class StopsPromptly {E} (svc : Service E) (b : Z) : Prop := {
  sp_pre w t : cancel_at w = Some t -> now (fst (PreFunc svc w)) <= Z.max (now w) t + b;
  sp_runner w t : cancel_at w = Some t -> now (fst (Runner_ svc w)) <= Z.max (now w) t + b;
  sp_post s w t : cancel_at w = Some t -> now (fst (PostFunc svc s w)) <= Z.max (now w) t + b;
  sp_run w w' r : Runner_ svc w = (w', inr (Some r)) -> StopsWithin r b;
  sp_open w w' r w1 t : Runner_ svc w = (w', inr (Some r)) -> cancel_at w1 = Some t ->
    now (fst (Open r w1)) <= Z.max (now w1) t + b;
  sp_close w w' r w1 t : Runner_ svc w = (w', inr (Some r)) -> cancel_at w1 = Some t ->
    now (fst (Close r w1)) <= Z.max (now w1) t + b;
  sp_health health t c : HealthRun svc = Some health -> exists e, health t c = Some e /\ e <= Z.max t c + b
}.

Definition gives_up {E} (b : Z) (c : condition E) : Prop :=
  forall w t, cancel_at w = Some t -> exists w' ticks e,
    cond_Wait c w = Some (w', ticks, e) /\ now w' <= Z.max (now w) t + b.

Class ConditionStops {E} (c : condition E) (b : Z) : Prop := {
  cond_stops : gives_up b c;
  cond_parts_stop cs : cond_parts c = Some cs -> Forall (gives_up b) cs
}.

(** The states reported between two worlds. *)
Definition reports {E} (w w' : world E) (l : list ServiceState) : Prop :=
  now w <= now w' /\ cancel_at w' = cancel_at w /\
  exists evs, sink w' = sink w ++ evs /\ l = (fun ev => fst (snd ev)) <$> evs.

Section phases.
Context {E : Type}.
Implicit Types w : world E.

Lemma reports_trans w1 w2 w3 l1 l2 : reports w1 w2 l1 -> reports w2 w3 l2 -> reports w1 w3 (l1 ++ l2).
Proof.
  intros (H1 & H2 & e1 & H3 & ->) (H4 & H5 & e2 & H6 & ->). split; [lia|]. split; [congruence|].
  exists (e1 ++ e2). by rewrite H6, H3, app_assoc, fmap_app.
Qed.

Lemma reports_quiet w w' : quiet w w' -> reports w w' [].
Proof. intros [H1 H2 H3]. split_and!; [done..|]. exists []. by rewrite app_nil_r. Qed.

Lemma reports_report s m w : reports w (report s m w) [s].
Proof. split; [simpl; lia|]. split; [done|]. by exists [(now w, (s, m))]. Qed.

Lemma reports_extends w w' : extends w w' -> exists l, reports w w' l /\ Forall runner_event l.
Proof.
  intros (H1 & H2 & l & H3 & HF). eexists. split; [split_and!; [done..|]; by exists l|].
  apply Forall_fmap. eapply Forall_impl; [done|]. done.
Qed.

Lemma reports_at_time t w : now w <= t -> reports w (at_time t w) [].
Proof. intros. by apply reports_quiet. Qed.

Lemma waitFor_ticks_reports d ticks w :
  exists l, reports w (waitFor_ticks d ticks w) l /\ Forall (eq StateWaiting) l /\ now (waitFor_ticks d ticks w) = now w.
Proof.
  revert d w. induction ticks as [|[t x] ticks IH]; intros d w; simpl.
  { exists []. split; [|done]. apply reports_quiet. by constructor. }
  case_decide; [|by apply IH].
  destruct (IH x (at_time (now w) (report StateWaiting ("Waiting for " +:+ x) (at_time t w)))) as (l & H1 & H2 & H3).
  exists ([StateWaiting] ++ l). split; [eapply reports_trans; [|exact H1]|by split; [constructor|]].
  split_and!; [simpl; lia|done|]. by eexists [_].
Qed.

Lemma waitFor_reports c w w' err :
  ConditionLaws c -> waitFor c w = Some (w', err) ->
  exists l, reports w w' l /\ Forall (eq StateWaiting) l /\ l <> [].
Proof.
  intros HC. unfold waitFor. intros ([[w1 ticks] e] & Hw%cond_quiet & [= <- <-])%bind_Some.
  destruct (waitFor_ticks_reports (cond_String c) ticks w1) as (l & H1 & H2 & _).
  exists ([StateWaiting] ++ [] ++ l). split; [|split; [by constructor|done]].
  eapply reports_trans; [apply reports_report|]. eapply reports_trans; [by apply reports_quiet|done].
Qed.

Lemma waitFor_inv c w w' err :
  waitFor c w = Some (w', err) ->
  exists wa wb ticks, reports w wa [StateWaiting] /\ cond_Wait c wa = Some (wb, ticks, err) /\ now w' = now wb.
Proof.
  unfold waitFor. intros ([[w1 ticks] e] & Hw & [= <- <-])%bind_Some. eexists _, _, _.
  split; [apply reports_report|]. split; [exact Hw|].
  by destruct (waitFor_ticks_reports (cond_String c) ticks w1) as (l & _ & _ & ->).
Qed.

Lemma waitFor_stops c b w t :
  ConditionStops c b -> cancel_at w = Some t ->
  exists w' e, waitFor c w = Some (w', e) /\ now w' <= Z.max (now w) t + b.
Proof.
  intros HC Hc. unfold waitFor.
  destruct (cond_stops (report StateWaiting ("Waiting for " +:+ cond_String c) w) t Hc) as (w1 & ticks & e & -> & Hb).
  eexists _, _. split; [done|].
  destruct (waitFor_ticks_reports (cond_String c) ticks w1) as (l & _ & _ & ->). done.
Qed.

Context (svc : Service E).

Lemma run_select_reports w w1 err w' res :
  extends w w1 -> run_select svc w w1 err = Some (w', res) ->
  reports w1 w' [] /\
  (res = None \/ exists e, err = Some e /\ res = Some (EWrap "error running service: " e "")).
Proof.
  intros (Hn & Hc & _). unfold run_select. intros ([st w2] & HS & HR)%bind_Some.
  destruct (select2_spec _ _ _ _ _ HS) as (t2 & _ & H2 & _ & C2 & S2 & _). simpl in *.
  apply bind_Some in HR as (w3 & HR & [= <- <-]). split.
  - assert (reports w1 (at_time (now w1) w2) []) as X by (apply reports_quiet; by constructor).
    destruct (HealthRun svc) as [health|]; [|by injection HR as <-].
    apply bind_Some in HR as (c & _ & (e & _ & [= <-])%bind_Some). apply reports_quiet. simpl. constructor; [simpl; lia|done..].
  - destruct st; [by left|]. destruct err; [right; eauto|by left].
Qed.

Lemma run_reports rn w w' res :
  RunnerLaws rn -> (forall w1 w2 e, Open rn w1 = (w2, e) -> quiet w1 w2) ->
  (forall w1 w2 e, Close rn w1 = (w2, e) -> quiet w1 w2) ->
  run svc rn w = Some (w', res) -> exists l, reports w w' l /\ Forall runner_event l.
Proof.
  intros HL HO HC. unfold run. destruct (Open rn w) as [w0 [e|]] eqn:EO; apply HO in EO.
  { intros [= <- <-]. exists []. split; [by apply reports_quiet|done]. }
  intros ([w1 [st err]] & HR%run_extends & H)%bind_Some. apply bind_Some in H as ([w2 res'] & HS & [= <- <-]).
  pose proof (reports_extends _ _ HR) as (l & Hl & Hf). apply run_select_reports in HS as [HS _]; [|done].
  exists l. split; [|done]. apply (reports_trans w w0 _ [] l); [by apply reports_quiet|].
  rewrite <-(app_nil_r l). eapply reports_trans; [exact Hl|]. destruct (Close rn w2) as [w3 e3] eqn:EC. apply HC in EC.
  apply (reports_trans w1 w2 _ [] []); [done|]. by apply reports_quiet.
Qed.

End phases.

Section life.
Context {E : Type} (waitForService : list StateEvent -> string -> condition E)
  (WaitForAll : list (condition E) -> condition E) (svc : Service E).
Implicit Types w : world E.

(** The end of a run from [w] that has reported that it starts and waits
    ([waits]): what was reported after that while it was prepared ([pres]), while
    it ran ([runs]) and at the end ([posts]), in [w'] with the result [res]. *)
Inductive life_end w (waits : list ServiceState) w' :
    list ServiceState -> list ServiceState -> list ServiceState -> option error -> Prop :=
(** The condition failed. *)
| end_condition c w0 w1 ticks e :
    run_condition waitForService WaitForAll svc = Some c -> reports w w0 [StateStarting; StateWaiting] ->
    cond_Wait c w0 = Some (w1, ticks, Some e) -> now w' = now w1 ->
    life_end w waits w' [] [] []
      (match ctx_Err w' with Some _ => None | None => Some (EWrap "condition failed: " e "") end)
(** The pre-stage failed. *)
| end_pre wp e :
    reports w wp (waits ++ [StatePreparing]) -> PreFunc svc wp = (w', Some e) ->
    life_end w waits w' [StatePreparing] [] []
      (match ctx_Err w' with Some _ => None | None => Some (EWrap "failed to run pre stage: " e "") end)
(** There is no runner to be had. *)
| end_create wp wq e :
    reports w wp (waits ++ [StatePreparing]) -> PreFunc svc wp = (wq, None) ->
    Runner_ svc (report StatePreparing "Creating service runner" wq) = (w', inl e) ->
    life_end w waits w' [StatePreparing; StatePreparing] [] [] (Some (EWrap "failed to create runner: " e ""))
(** The runner was run to its end in [w2], or skipped, and the post-stage came
    after it, with the state that was reported last; [failed] is its error. *)
| end_post wp wq w1 w2 w3 runnr runs last_state failed res :
    reports w wp (waits ++ [StatePreparing]) -> PreFunc svc wp = (wq, None) ->
    Runner_ svc (report StatePreparing "Creating service runner" wq) = (w1, inr runnr) ->
    match runnr with
    | None => w2 = w1 /\ runs = [] /\ res = Some (ESentinel ErrSkip)
    | Some r => exists err, run svc r w1 = Some (w2, err) /\
        res = match err with Some e => Some (EWrap "failed running service: " e "") | None => None end
    end ->
    reports w w2 (waits ++ [StatePreparing; StatePreparing] ++ runs) ->
    last ([StatePreparing; StatePreparing] ++ runs) = Some last_state ->
    PostFunc svc last_state w2 = (w3, failed) ->
    w' = match failed with Some e => report StateFailed ("Failed to run post stage: " +:+ Error e) w3 | None => w3 end ->
    life_end w waits w' [StatePreparing; StatePreparing] runs
      (match failed with Some _ => [StateFailed] | None => [] end) res.

(** The condition was waited for with success, or there is none. *)
Definition condition_met : Prop :=
  match run_condition waitForService WaitForAll svc with
  | Some c => exists w0 w1 ticks, cond_Wait c w0 = Some (w1, ticks, None)
  | None => True
  end.

(** The state that the post-stage is told. *)
Lemma state_in_last s0 w w' l s : reports w w' l -> last l = Some s -> state_in s0 w' = s.
Proof.
  intros (_ & _ & evs & HS & ->) Hl. rewrite fmap_last in Hl. apply fmap_Some in Hl as ([t [s' m]] & Hl & ->).
  unfold state_in. by rewrite HS, last_app, Hl.
Qed.

(** From the creation of the runner on. *)
Lemma run_runner_life s0 runnr w wp wq w1 w' waits res :
  ServiceLaws svc -> reports w wp (waits ++ [StatePreparing]) -> PreFunc svc wp = (wq, None) ->
  Runner_ svc (report StatePreparing "Creating service runner" wq) = (w1, inr runnr) -> reports w w1 (waits ++ [StatePreparing; StatePreparing]) ->
  run_runner svc s0 runnr w1 = Some (w', res) ->
  exists runs posts, reports w w' (waits ++ [StatePreparing; StatePreparing] ++ runs ++ posts) /\
    Forall runner_event runs /\ life_end w waits w' [StatePreparing; StatePreparing] runs posts res.
Proof.
  intros HL Rp HPre HRn R1 HR. unfold run_runner in HR. apply bind_Some in HR as ([w2 r2] & H1 & H2).
  assert (exists runs, reports w1 w2 runs /\ Forall runner_event runs /\ match runnr with
    | None => w2 = w1 /\ runs = [] /\ r2 = Some (ESentinel ErrSkip)
    | Some r => exists err, run svc r w1 = Some (w2, err) /\
        r2 = match err with Some e => Some (EWrap "failed running service: " e "") | None => None end
    end) as (runs & Hruns & Hf & HM).
  { destruct runnr as [r|]; [|injection H1 as <- <-; exists []; split_and!; [by apply reports_quiet|done..]].
    apply bind_Some in H1 as ([w3 e3] & H3 & [= <- <-]). pose proof H3 as H3'.
    eapply run_reports in H3 as (l & Hl & HF); [|by eapply sl_run|intros ???; by eapply sl_open|intros ???; by eapply sl_close].
    exists l. split_and!; [done|done|]. exists e3. done. }
  assert (reports w w2 (waits ++ [StatePreparing; StatePreparing] ++ runs)) as R2 by (rewrite app_assoc; by eapply reports_trans).
  assert (exists s, last ([StatePreparing; StatePreparing] ++ runs) = Some s) as [s Hs].
  { rewrite last_app. destruct (last runs); eauto. }
  assert (state_in s0 w2 = s) as Hst.
  { eapply state_in_last; [exact R2|]. by rewrite last_app, Hs. }
  rewrite Hst in H2. destruct (PostFunc svc s w2) as [w3 [e|]] eqn:HP; pose proof (sl_post _ _ _ _ HP) as Q3; injection H2 as <- <-.
  - exists runs, [StateFailed]. split; [|split; [done|]].
    + rewrite !app_assoc. rewrite !app_assoc in R2. eapply reports_trans; [exact R2|].
      apply (reports_trans w2 w3 _ [] [StateFailed]); [by apply reports_quiet|apply reports_report].
    + by eapply (end_post w waits _ wp wq w1 w2 w3 runnr runs s (Some e) r2).
  - exists runs, []. split; [|split; [done|]].
    + rewrite app_nil_r. rewrite <-(app_nil_r (waits ++ _)). eapply reports_trans; [exact R2|by apply reports_quiet].
    + by eapply (end_post w waits _ wp wq w1 w2 w3 runnr runs s None r2).
Qed.

(** From the pre-stage on. *)
Lemma run_prepare_life s0 w wx w' waits res :
  ServiceLaws svc -> reports w wx waits -> run_prepare svc s0 wx = Some (w', res) ->
  exists pres runs posts, reports w w' (waits ++ pres ++ runs ++ posts) /\ pres <> [] /\
    Forall runner_event runs /\ life_end w waits w' pres runs posts res.
Proof.
  intros HL R HR. unfold run_prepare in HR. set (w0 := report StatePreparing "Running pre state" wx) in HR.
  assert (reports w w0 (waits ++ [StatePreparing])) as R0 by (eapply reports_trans; [exact R|apply reports_report]). clearbody w0.
  assert (forall w1 w2 l, reports w w1 l -> quiet w1 w2 -> reports w w2 l) as HQ.
  { intros w1 w2 l H1 H2. rewrite <-(app_nil_r l). eapply reports_trans; [exact H1|by apply reports_quiet]. }
  destruct (PreFunc svc w0) as [w1 [e|]] eqn:HP; pose proof (sl_pre _ _ _ HP) as Q1.
  { injection HR as <- <-. exists [StatePreparing], [], []. split_and!; [by eapply HQ|done|done|by eapply end_pre]. }
  set (w2 := report StatePreparing "Creating service runner" w1) in HR.
  assert (reports w w2 (waits ++ [StatePreparing; StatePreparing])) as R2.
  { change [StatePreparing; StatePreparing] with ([StatePreparing] ++ [StatePreparing]). rewrite app_assoc.
    eapply reports_trans; [by eapply HQ|apply reports_report]. }
  destruct (Runner_ svc w2) as [w3 [e|runnr]] eqn:HRn; pose proof (sl_runner _ _ _ HRn) as Q3.
  { injection HR as <- <-. exists [StatePreparing; StatePreparing], [], [].
    split_and!; [by eapply HQ|done|done|by eapply end_create]. }
  destruct (run_runner_life s0 runnr w w0 w1 w3 w' waits res HL R0 HP HRn) as (runs & posts & HRep & HF & HE); [by eapply HQ|done|].
  exists [StatePreparing; StatePreparing], runs, posts. done.
Qed.

Lemma run_runner_reports s0 runnr w w1 w' res :
  ServiceLaws svc -> Runner_ svc w1 = (w, inr runnr) ->
  run_runner svc s0 runnr w = Some (w', res) ->
  exists runs posts, reports w w' (runs ++ posts) /\ Forall runner_event runs /\ (posts = [] \/ posts = [StateFailed]).
Proof.
  intros HL HRn HR. unfold run_runner in HR. apply bind_Some in HR as ([w2 r2] & H1 & H2).
  assert (exists runs, reports w w2 runs /\ Forall runner_event runs) as (runs & Hruns & Hf).
  { destruct runnr as [r|]; [|injection H1 as <- <-; exists []; split; [by apply reports_quiet|done]].
    apply bind_Some in H1 as ([w3 e3] & H3 & [= <- <-]).
    eapply run_reports in H3; [done|by eapply sl_run|intros ???; by eapply sl_open|intros ???; by eapply sl_close]. }
  exists runs. destruct (PostFunc svc (state_in s0 w2) w2) as [w3 [e|]] eqn:HP; apply sl_post in HP; injection H2 as <- <-.
  - exists [StateFailed]. split; [|by auto]. eapply reports_trans; [done|].
    apply (reports_trans w2 w3 _ [] [StateFailed]); [by apply reports_quiet|apply reports_report].
  - exists []. split; [|by auto]. eapply reports_trans; [done|by apply reports_quiet].
Qed.

(** Each phase of a life ends within [b] of a stop. *)
Lemma run_runner_stops s0 runnr w w1 t b :
  0 <= b -> ServiceLaws svc -> StopsPromptly svc b -> Runner_ svc w1 = (w, inr runnr) -> cancel_at w = Some t ->
  exists w' res, run_runner svc s0 runnr w = Some (w', res) /\ now w' <= Z.max (now w) t + 4 * b.
Proof.
  intros Hb HL HS HRn Hc. unfold run_runner.
  assert (exists w2 r2, match runnr with
    | None => Some (w, Some (ESentinel ErrSkip))
    | Some r => '(w, err) ← run svc r w;
        Some (w, match err with Some e => Some (EWrap "failed running service: " e "") | None => None end)
    end = Some (w2, r2) /\ cancel_at w2 = Some t /\ now w2 <= Z.max (now w) t + 3 * b) as (w2 & r2 & -> & Hc2 & Hn2).
  { destruct runnr as [r|]; [|eexists _, _; split_and!; [done|done|lia]]. unfold run.
    pose proof (sp_open _ _ _ w t HRn Hc) as HO. destruct (Open r w) as [w0 [e|]] eqn:EO; simpl in HO;
      pose proof (sl_open _ _ _ _ _ _ HRn EO) as [_ Q2 _].
    { eexists _, _. split_and!; [done|congruence|lia]. }
    pose proof (sp_run _ _ _ HRn) as HSW. pose proof (sl_run _ _ _ HRn) as HRL.
    destruct (run_stops w0 t ltac:(congruence)) as (w3 & st & err & HR & Hn3). rewrite HR. cbn [mbind option_bind].
    pose proof (run_extends _ _ _ _ HR) as HE.
    assert (exists w4 res, run_select svc w0 w3 err = Some (w4, res) /\ now w4 <= Z.max (now w3) (Z.max (now w0) t + b)) as (w4 & res & HSel & Hn4).
    { unfold run_select. destruct (select2_returns (cancel_at w0) (Some (now w3)) (at_time (now w0) w3)) as (c & w5 & HSe);
        [right; done|]. rewrite HSe. cbn [mbind option_bind].
      destruct (select2_spec _ _ _ _ _ HSe) as (t5 & _ & _ & _ & C5 & _).
      destruct HE as (_ & HCE & _). simpl in C5.
      destruct (HealthRun svc) as [health|] eqn:EH; [|eexists _, _; split; [done|simpl; lia]].
      cbn [cancel_at at_time]. rewrite C5, HCE, Q2, Hc. cbn [mbind option_bind].
      destruct (sp_health health (now w0) t EH) as (e & He & Hle). rewrite He. cbn [mbind option_bind recv_at].
      eexists _, _. split; [done|]. simpl. lia. }
    rewrite HSel. cbn [mbind option_bind].
    destruct (run_select_reports svc w0 w3 err w4 res HE HSel) as [(_ & HC4 & _) _].
    destruct HE as (_ & HCE & _).
    pose proof (sp_close _ _ _ w4 t HRn ltac:(congruence)) as HCl.
    destruct (Close r w4) as [w5 e5] eqn:EC. simpl in HCl |- *. pose proof (sl_close _ _ _ _ _ _ HRn EC) as [_ Q5 _].
    eexists _, _. split_and!; [done|congruence|lia]. }
  cbn [mbind option_bind]. pose proof (sp_post (state_in s0 w2) w2 t Hc2) as HP.
  destruct (PostFunc svc (state_in s0 w2) w2) as [w3 [e|]]; simpl in HP; eexists _, _; (split; [done|]); simpl; lia.
Qed.

Lemma run_prepare_stops s0 w t b :
  0 <= b -> ServiceLaws svc -> StopsPromptly svc b -> cancel_at w = Some t ->
  exists w' res, run_prepare svc s0 w = Some (w', res) /\ now w' <= Z.max (now w) t + 6 * b.
Proof.
  intros Hb HL HS Hc. unfold run_prepare. set (w0 := report _ _ w).
  pose proof (sp_pre w0 t Hc) as HP. destruct (PreFunc svc w0) as [w1 [e|]] eqn:EP; simpl in HP;
    pose proof (sl_pre _ _ _ EP) as [_ Q1 _].
  { eexists _, _. split; [done|lia]. }
  set (w2 := report _ _ w1). assert (cancel_at w2 = Some t) as C2 by (subst w2 w0; simpl in *; congruence).
  pose proof (sp_runner w2 t C2) as HR. destruct (Runner_ svc w2) as [w3 [e|rn]] eqn:ER; simpl in HR;
    pose proof (sl_runner _ _ _ ER) as [_ Q3 _].
  { eexists _, _. split; [done|lia]. }
  destruct (run_runner_stops s0 rn w3 w2 t b Hb HL HS ER ltac:(congruence)) as (w' & res & HRR & Hn).
  exists w', res. split; [done|]. lia.
Qed.

End life.

(** ** Lemmas on the calls *)

Lemma send_all_keeps l m ch q :
  m !! ch = Some q -> chan_buf q <> [] -> exists q', send_all l m !! ch = Some q' /\ chan_buf q' <> [].
Proof.
  unfold send_all. revert m q. induction l as [|x l IH]; intros m q Hq Hb; simpl; [eauto|].
  destruct (try_send_lookup tt x m ch q Hq) as (q' & Hq' & _ & Hk & _). eauto.
Qed.

Lemma send_all_lookup l m ch q :
  m !! ch = Some q -> (0 < chan_cap q)%nat ->
  exists q', send_all l m !! ch = Some q' /\ chan_cap q' = chan_cap q /\ (ch ∈ l -> chan_buf q' <> []).
Proof.
  unfold send_all. revert m q. induction l as [|x l IH]; intros m q Hq Hc; simpl.
  { exists q. split_and!; [done..|]. by intros ?%elem_of_nil. }
  destruct (try_send_lookup tt x m ch q Hq) as (q1 & Hq1 & Hc1 & _ & Hs).
  destruct (IH _ q1 Hq1 ltac:(lia)) as (q' & Hq' & Hc' & Hin). exists q'. split_and!; [done|lia|].
  intros [->|?]%elem_of_cons; [|auto]. destruct (send_all_keeps l _ x q1 Hq1 (Hs eq_refl Hc)) as (q2 & Hq2 & Hb2).
  unfold send_all in Hq2. congruence.
Qed.

Lemma notify_events_spec evs w :
  sr (foldl (fun w ev => notifyEvent ev w) w evs) = sr w /\
  published (foldl (fun w ev => notifyEvent ev w) w evs) = published w /\
  forall ch q, chs w !! ch = Some q -> (0 < chan_cap q)%nat ->
    exists q', chs (foldl (fun w ev => notifyEvent ev w) w evs) !! ch = Some q' /\
      (chan_buf q <> [] \/ (exists ev, ev ∈ evs /\ ch ∈ subscribers_of ev (sr w)) -> chan_buf q' <> []).
Proof.
  revert w. induction evs as [|ev evs IH]; intros w; simpl.
  { split_and!; [done..|]. intros ch q Hq _. exists q. split; [done|]. intros [?|(? & []%elem_of_nil & _)]; done. }
  destruct (IH (notifyEvent ev w)) as (H1 & H2 & H3). split_and!; [done..|]. intros ch q Hq Hc.
  destruct (send_all_lookup (subscribers_of ev (sr w)) (chs w) ch q Hq Hc) as (q1 & Hq1 & Hc1 & Hin).
  destruct (H3 ch q1 Hq1 ltac:(lia)) as (q' & Hq' & Hb). exists q'. split; [done|].
  intros [Hne|(ev' & [->|Hev]%elem_of_cons & Hs)]; apply Hb.
  - left. destruct (send_all_keeps (subscribers_of ev (sr w)) (chs w) ch q Hq Hne) as (q2 & Hq2 & ?). congruence.
  - left. auto.
  - right. eauto.
Qed.

(** *** Stopping a service *)

Lemma Run_stops {E} wfs wfa (svc : Service E) s0 w t b :
  0 <= b -> ServiceLaws svc -> StopsPromptly svc b ->
  (forall c, run_condition wfs wfa svc = Some c -> ConditionLaws c /\ ConditionStops c b) ->
  cancel_at w = Some t ->
  exists w' res, Run wfs wfa svc s0 w = Some (w', res) /\ now w' <= Z.max (now w) t + 7 * b.
Proof.
  intros Hb HL HS HC Hc. unfold Run. set (w0 := report _ _ w). assert (cancel_at w0 = Some t) as C0 by done.
  assert (now w0 = now w) as N0 by done. clearbody w0.
  destruct (run_condition wfs wfa svc) as [c|].
  - destruct (HC c eq_refl) as [HCL HCS]. destruct (waitFor_stops c b w0 t HCS C0) as (w1 & e & HW & Hn).
    rewrite HW. cbn [mbind option_bind]. destruct e as [e|]; [eexists _, _; split; [done|lia]|].
    destruct (waitFor_reports c _ _ _ HCL HW) as (waits & (_ & C1 & _) & _ & _).
    destruct (run_prepare_stops svc s0 w1 t b Hb HL HS ltac:(congruence)) as (w' & res & HR & Hn').
    exists w', res. split; [done|]. lia.
  - destruct (run_prepare_stops svc s0 w0 t b Hb HL HS C0) as (w' & res & HR & Hn').
    exists w', res. split; [done|]. lia.
Qed.

(** ** Properties *)

(** C1: no lost wake-up.  Under every interleaving of state changes, health
    results, notifications, subscriptions and receives, at the granularity of
    the critical sections: when an event holds, each of its subscribers has
    received a notification, has one in its channel, or one is on its way (a
    goroutine is about to send it; or a change of health is on its way to
    the handler that announces "up", unless the run is being stopped). *)
Theorem no_lost_wakeup service_id health rt c ev ch :
  reachable (NewServiceRunner service_id health rt) c ->
  ch ∈ subscribers_of ev (c_sr c) -> inStateLocked ev (c_sr c) = Some true ->
  pending c ev ch.
Proof. intros HR. by apply co_pending, (conc_ok_reachable _ _ _ _ HR). Qed.

(** What a report does.  [UpdateState] never fails: it sets the state,
    records the event in the history (with the health only when running),
    publishes its wire form when there is a runtime, and leaves a notification
    in the channel of every subscriber of an event that now holds. *)
Theorem update_state_effects s msg now w l :
  history_ok (history (sr w)) l ->
  (forall ev ch, ch ∈ subscribers_of ev (sr w) -> exists q, chs w !! ch = Some q /\ (0 < chan_cap q)%nat) ->
  let health := match s with StateRunning => Health.Get (healthState (sr w)) | _ => Health.zeroStatus end in
  let event := mkServiceEvent msg s health now in
  exists w', UpdateState s msg now w = Some w' /\ GetState (sr w') = s /\
    history_ok (history (sr w')) (l ++ [event]) /\
    published w' = published w ++ (if has_runtime (sr w) then [ServiceEvent_AsProto (id (sr w)) event] else []) /\
    forall ev ch, inStateLocked ev (sr w') = Some true -> ch ∈ subscribers_of ev (sr w') ->
      exists q, chs w' !! ch = Some q /\ chan_buf q <> [].
Proof.
  intros Hh Hsub health event. destruct (Push_ok event _ _ Hh) as (h' & HP & Hok).
  unfold UpdateState, UpdateState_locked. fold health event. simpl history.
  rewrite HP. cbn [mbind option_bind].
  set (r := set_history h' (set_state s (sr w))).
  set (w1 := publish event (log_event event (mkSrWorld r (chs w) (published w) (logged w)))).
  destruct (notify_events_spec (due r) w1) as (H1 & H2 & H3).
  assert (sr w1 = r /\ chs w1 = chs w /\ published w1 = published w ++
    (if has_runtime (sr w) then [ServiceEvent_AsProto (id (sr w)) event] else [])) as (E1 & E2 & E3).
  { unfold w1, publish, log_event. simpl. destruct (has_runtime (sr w)); simpl; by rewrite ?app_nil_r. }
  eexists. split; [done|]. rewrite H1, H2, E1, E3. split_and!; [done|done|done|].
  intros ev ch Hst Hin. destruct (Hsub ev ch Hin) as (q & Hq & Hc). rewrite E2, E1 in H3.
  destruct (H3 ch q Hq Hc) as (q' & Hq' & Hb). exists q'. split; [done|]. apply Hb. right. exists ev.
  split; [by apply due_spec|done].
Qed.

(** C13: the life of a service.  The states [Run] reports are, in this order:
    starting; waiting, when there is a condition and until it is met; preparing;
    the events of the runner; and failed.  How far it comes is decided by the
    service alone: nothing is prepared unless the condition is met; a failed
    pre-stage ends the run after one report, with the error, or none if the
    context is done; a runner that cannot be created ends it after two, with the
    error; and once there is a runner, or none is wanted, the post-stage is called exactly when the
    runner has ended, with the state reported last, and a last report, failed,
    follows exactly when it fails, with the result of the runner. *)
Theorem service_life {E} wfs wfa (svc : Service E) s0 w w' res :
  ServiceLaws svc -> (forall c, run_condition wfs wfa svc = Some c -> ConditionLaws c) ->
  Run wfs wfa svc s0 w = Some (w', res) ->
  exists waits pres runs posts,
    reports w w' (StateStarting :: waits ++ pres ++ runs ++ posts) /\
    Forall (eq StateWaiting) waits /\ (waits = [] <-> run_condition wfs wfa svc = None) /\
    (pres <> [] -> condition_met wfs wfa svc) /\ Forall runner_event runs /\
    life_end wfs wfa svc w (StateStarting :: waits) w' pres runs posts res.
Proof.
  intros HL HC HR. unfold Run in HR. set (w0 := report _ _ w) in HR.
  assert (reports w w0 [StateStarting]) as R0 by apply reports_report. clearbody w0. unfold condition_met.
  destruct (run_condition wfs wfa svc) as [c|] eqn:Hc.
  - apply bind_Some in HR as ([w1 e] & HW & HR). destruct (waitFor_reports c _ _ _ (HC c eq_refl) HW)
      as (waits & HW' & HF & HN).
    pose proof (reports_trans _ _ _ _ _ R0 HW') as R1. destruct (waitFor_inv c _ _ _ HW) as (wa & wb & ticks & Ra & HWt & Hn).
    destruct e as [e|].
    + injection HR as <- <-. exists waits, [], [], []. rewrite !app_nil_r.
      split_and!; [done|done|by split|done|done|]. eapply end_condition; [done| |done..].
      exact (reports_trans _ _ _ _ _ R0 Ra).
    + destruct (run_prepare_life wfs wfa svc s0 w w1 w' _ res HL R1 HR) as (pres & runs & posts & HRep & _ & HFr & HE).
      exists waits, pres, runs, posts. split_and!; [exact HRep|done|by split|eauto|done|exact HE].
  - destruct (run_prepare_life wfs wfa svc s0 w w0 w' [StateStarting] res HL R0 HR) as (pres & runs & posts & HRep & _ & HFr & HE).
    exists [], pres, runs, posts. split_and!; done.
Qed.

(** C31: stopping a service.  When its condition, stages, runner and health
    checks ([health.Run], which [run] waits for) react to a cancellation within
    [b], a service whose context is cancelled at [t] returns from [Run],
    health-checked or not, within seven times [b]. *)
Theorem service_stops {E} wfs wfa (svc : Service E) s0 w t b :
  0 <= b -> ServiceLaws svc -> StopsPromptly svc b ->
  (forall c, run_condition wfs wfa svc = Some c -> ConditionLaws c /\ ConditionStops c b) ->
  cancel_at w = Some t ->
  exists w' res, Run wfs wfa svc s0 w = Some (w', res) /\ now w' <= Z.max (now w) t + 7 * b.
Proof. apply Run_stops. Qed.

(** A health-checked service whose runner ends by itself.  If nothing stops
    the service, [run] never returns, whatever the runner's result: the
    deferred wait for the health goroutines blocks, since they end only with
    the context, which is cancelled after [run] returns. *)
Theorem health_run_never_returns {E} (svc : Service E) (r : Runner E) w w0 w1 st err :
  supports_health svc = true -> cancel_at w = None -> Open r w = (w0, None) -> cancel_at w0 = None ->
  RunnerLaws r -> Runners.Run r w0 = Some (w1, (st, err)) -> run svc r w = None.
Proof.
  intros Hh Hc HO Hc0 HL HR. unfold run. rewrite HO, HR. cbn [mbind option_bind].
  unfold run_select. rewrite Hc0. unfold select2 at 1. simpl.
  unfold supports_health in Hh. destruct (HealthRun svc) as [health|]; [|done].
  apply run_extends in HR as (_ & Hc1 & _). by rewrite Hc1, Hc0.
Qed.

(** A stop that comes while the service is not running is kept for later.
    After [Shutdown] the context of the next [Run] is cancelled from the start,
    so that a service whose condition gives up when it is cancelled ends
    without its pre-stage having run, and without an error. *)
Theorem stale_stop {E} wfs wfa (svc : Service E) s0 w r stop c :
  chan_cap (stopCh r) = 1%nat -> (length (chan_buf (stopCh r)) <= 1)%nat ->
  cancel_at w = run_context (Shutdown r) (now w) stop ->
  run_condition wfs wfa svc = Some c -> ConditionLaws c ->
  (forall w1, is_Some (ctx_Err w1) -> exists w2 ticks e, cond_Wait c w1 = Some (w2, ticks, Some e)) ->
  exists w' l, Run wfs wfa svc s0 w = Some (w', None) /\ reports w w' (StateStarting :: l) /\
    Forall (eq StateWaiting) l.
Proof.
  intros Hcap Hlen Hca Hc HCL Hgive.
  assert (cancel_at w = Some (now w)) as Hct.
  { rewrite Hca. unfold run_context, Shutdown, try_send, try_recv. simpl. rewrite Hcap.
    destruct (chan_buf (stopCh r)) as [|u [|u' l']] eqn:Eb; simpl in *; [done| |lia].
    by rewrite Eb. }
  unfold Run. set (w0 := report _ _ w). rewrite Hc.
  destruct (Hgive (report StateWaiting ("Waiting for " +:+ cond_String c) w0)) as (w2 & ticks & e & HW).
  { rewrite (ctx_Err_Some _ (now w)); [done|done|simpl; lia]. }
  assert (waitFor c w0 = Some (waitFor_ticks (cond_String c) ticks w2, Some e)) as HWF by (unfold waitFor; by rewrite HW).
  rewrite HWF. cbn [mbind option_bind]. unfold phase_error.
  destruct (waitFor_reports c _ _ _ HCL HWF) as (l & HR & HF & _). destruct HR as (Hn & Hc' & evs & Hs & Hl).
  rewrite (ctx_Err_Some _ (now w)); [|simpl in *; congruence|simpl in *; lia].
  eexists _, l. split; [done|]. split; [|done]. apply (reports_trans w w0 _ [StateStarting] l); [apply reports_report|].
  split_and!; [done..|]. eauto.
Qed.

(** ** Concrete runs *)

Definition demo_runner : ServiceRunner := NewServiceRunner "udevd" false true.

(** A waiter subscribes to "up" and then the service is reported running. *)
Definition demo_subscribed : conc :=
  with_sr (set_subscribers {[StateEventUp := [1%nat]]} demo_runner) []
    (mkConc demo_runner {[1%nat := make_chan unit 1]} ∅ [] None true ∅).

Definition demo_running : conc :=
  match UpdateState_locked StateRunning "Process started" 5 (c_sr demo_subscribed) with
  | Some (r, _) => with_sr r (ANotify <$> due r) demo_subscribed
  | None => demo_subscribed
  end.

Lemma demo_running_reachable : reachable demo_runner demo_running.
Proof.
  apply (reach_step demo_runner demo_subscribed).
  - apply (reach_step demo_runner (mkConc demo_runner {[1%nat := make_chan unit 1]} ∅ [] None true ∅)).
    + apply (reach_step demo_runner (init_conc demo_runner)); [constructor|].
      apply (cs_make (init_conc demo_runner) 1%nat). done.
    + apply (cs_subscribe _ StateEventUp 1%nat (set_subscribers {[StateEventUp := [1%nat]]} demo_runner) false); done.
  - apply (cs_update demo_subscribed StateRunning "Process started" 5 (c_sr demo_running)
      (mkServiceEvent "Process started" StateRunning Health.zeroStatus 5)). by vm_compute.
Qed.

Lemma no_lost_wakeup_witness :
  reachable demo_runner demo_running /\ inStateLocked StateEventUp (c_sr demo_running) = Some true /\
  pending demo_running StateEventUp 1.
Proof.
  split; [apply demo_running_reachable|]. split; [done|].
  apply (no_lost_wakeup "udevd" false true demo_running StateEventUp 1%nat);
    [apply demo_running_reachable|apply list_elem_of_singleton; done|done].
Defined.

Definition demo_sr_world : sr_world :=
  mkSrWorld (set_subscribers {[StateEventDown := [4%nat]]} demo_runner) {[4%nat := make_chan unit 1]} [] [].

Lemma demo_sr_world_channels ev ch : ch ∈ subscribers_of ev (sr demo_sr_world) ->
  exists q, chs demo_sr_world !! ch = Some q /\ (0 < chan_cap q)%nat.
Proof.
  unfold subscribers_of, demo_sr_world. simpl. destruct (decide (ev = StateEventDown)) as [->|Hne].
  - rewrite lookup_singleton_eq. simpl. intros ->%list_elem_of_singleton. rewrite lookup_singleton_eq. eexists.
    split; [done|simpl; lia].
  - rewrite lookup_singleton_ne by done. simpl. by intros ?%elem_of_nil.
Qed.

Lemma update_state_effects_witness :
  exists w', UpdateState StateFailed "Condition failed" 9 demo_sr_world = Some w' /\ GetState (sr w') = StateFailed /\
    history_ok (history (sr w')) [mkServiceEvent "Condition failed" StateFailed Health.zeroStatus 9] /\
    length (published w') = 1%nat.
Proof.
  destruct (update_state_effects StateFailed "Condition failed" 9 demo_sr_world [] history_ok_init
    demo_sr_world_channels) as (w' & H1 & H2 & H3 & H4 & _).
  exists w'. split_and!; [exact H1|exact H2|exact H3|]. rewrite H4. done.
Defined.

(** A service that waits for a condition until 3, and runs a restarted
    goroutine which ends by itself after 4. *)
Definition demo_main : Goroutine.service_main :=
  Goroutine.mkMain None (fun t c => Some (match c with Some c => Z.min c (t + 4) | None => t + 4 end,
    Goroutine.Returned (Some (ESentinel context_Canceled)))) None "".

Definition demo_condition : condition unit :=
  mkCondition "device" (fun w =>
    let w' := at_time (Z.max (now w) (match cancel_at w with Some c => Z.min c 3 | None => 3 end)) w in
    Some (w', [(1, "device"); (2, "network")], ctx_Err w')) None.

Definition demo_service (health : bool) : Service unit :=
  mkService "demo" (fun w => (w, None))
    (fun w => (w, inr (Some (Goroutine.NewRunner "demo" demo_main []))))
    (fun _ w => (w, None)) (Some demo_condition) [] (if health then Some (fun t c => Some (Z.max t c + 1)) else None).

Definition demo_wfs (evs : list StateEvent) (name : string) : condition unit := demo_condition.
Definition demo_wfa (l : list (condition unit)) : condition unit := demo_condition.

Lemma demo_quiet_refl (w : world unit) : quiet w w.
Proof. by constructor. Qed.

Lemma demo_service_laws h : ServiceLaws (demo_service h).
Proof.
  split; simpl; intros; simplify_eq; try (by constructor).
  - apply GoroutineLaws.goroutine_laws.
  - by injection H0 as <- _.
  - by injection H0 as <- _.
Qed.

Lemma demo_condition_laws : ConditionLaws demo_condition.
Proof. split; [|done]. intros w w' ticks e. simpl. intros [= <- _ _]. constructor; simpl; [lia|done|done]. Qed.

Lemma demo_condition_of h c : run_condition demo_wfs demo_wfa (demo_service h) = Some c -> c = demo_condition.
Proof. by intros [= <-]. Qed.

Definition demo_start (stop : option Z) : world unit := mkWorld 0 stop [] [] tt.

Lemma service_life_witness :
  exists w' res, Run demo_wfs demo_wfa (demo_service true) StateInitialized (demo_start (Some 100)) = Some (w', res) /\
    now w' = 101 /\ exists waits pres runs posts,
      reports (demo_start (Some 100)) w' (StateStarting :: waits ++ pres ++ runs ++ posts) /\
      life_end demo_wfs demo_wfa (demo_service true) (demo_start (Some 100)) (StateStarting :: waits) w' pres runs posts res.
Proof.
  destruct (Run demo_wfs demo_wfa (demo_service true) StateInitialized (demo_start (Some 100))) as [[w' res]|] eqn:E;
    [|vm_compute in E; discriminate].
  exists w', res. split; [done|]. split; [vm_compute in E; by injection E as <- _|].
  destruct (service_life demo_wfs demo_wfa (demo_service true) StateInitialized (demo_start (Some 100)) w' res)
    as (waits & pres & runs & posts & HR & _ & _ & _ & _ & HE).
  - apply demo_service_laws.
  - intros c ->%demo_condition_of. apply demo_condition_laws.
  - exact E.
  - exists waits, pres, runs, posts. split; [exact HR|exact HE].
Defined.

Lemma demo_service_stops h : StopsPromptly (demo_service h) (20 * Second).
Proof.
  split; simpl; intros; simplify_eq; try (simpl; unfold Second; lia).
  - apply (GoroutineLaws.goroutine_stops_within demo_main "demo" DefaultOptions).
  - destruct h; simplify_eq. eexists. split; [done|]. unfold Second. lia.
Qed.

Lemma demo_condition_stops : ConditionStops demo_condition (20 * Second).
Proof. split; [|done]. intros w t Hc. eexists _, _, _. split; [done|]. simpl. rewrite Hc. unfold Second. lia. Qed.

Lemma service_stops_witness :
  exists w' res, Run demo_wfs demo_wfa (demo_service true) StateInitialized (demo_start (Some 100)) = Some (w', res) /\
    now w' <= Z.max 0 100 + 7 * (20 * Second).
Proof.
  apply (service_stops demo_wfs demo_wfa (demo_service true) StateInitialized (demo_start (Some 100)) 100 (20 * Second)).
  - unfold Second. lia.
  - apply demo_service_laws.
  - apply demo_service_stops.
  - intros c ->%demo_condition_of. split; [apply demo_condition_laws|apply demo_condition_stops].
  - done.
Defined.

(** The goroutine runs for 4 and is not restarted. *)
Lemma health_run_never_returns_witness :
  run (demo_service true) (Goroutine.NewRunner "demo" demo_main []) (demo_start None) = None /\
  is_Some (run (demo_service false) (Goroutine.NewRunner "demo" demo_main []) (demo_start None)).
Proof.
  split; [|by vm_compute; eauto].
  destruct (Runners.Run (Goroutine.NewRunner "demo" demo_main []) (demo_start None)) as [[w1 [st err]]|] eqn:E;
    [|vm_compute in E; discriminate].
  apply (health_run_never_returns (demo_service true) (Goroutine.NewRunner "demo" demo_main []) (demo_start None)
    (demo_start None) w1 st err); [done|done|done|done|apply GoroutineLaws.goroutine_laws|exact E].
Defined.

Lemma demo_condition_gives_up w1 : is_Some (ctx_Err w1) ->
  exists w2 ticks e, cond_Wait demo_condition w1 = Some (w2, ticks, Some e).
Proof.
  intros [e He]. unfold ctx_Err in He. destruct (cancel_at w1) as [t|] eqn:Hc; [|done].
  case_decide; [|done]. simpl. rewrite Hc. eexists _, _, _. do 2 f_equal. unfold ctx_Err. simpl. rewrite Hc.
  rewrite decide_True by lia. done.
Qed.

Lemma stale_stop_witness :
  exists w' l, Run demo_wfs demo_wfa (demo_service false) StateInitialized (demo_start (Some 0)) = Some (w', None) /\
    reports (demo_start (Some 0)) w' (StateStarting :: l) /\ Forall (eq StateWaiting) l.
Proof.
  apply (stale_stop demo_wfs demo_wfa (demo_service false) StateInitialized (demo_start (Some 0)) demo_runner None demo_condition).
  - done.
  - simpl. lia.
  - done.
  - done.
  - apply demo_condition_laws.
  - apply demo_condition_gives_up.
Defined.
