(* ===== verification/Services.v ===== *)
(** * The services singleton: loading, starting and stopping services

    Models [internal/app/machined/pkg/system/system.go] and
    [service_events.go].  [Load], [List], [IsRunning], [DenyNewServices] and
    the loop body of [Start] are functions on the singleton; [sstep]
    interleaves the calls with the goroutines that run the services.  [Start]
    keeps [s.mu] from its first to its last service, so that it is a call in
    progress ([starting]) that excludes every other holder of [s.mu]. *)

From S2P Require Import Prelude Health ServiceEvents Runners ServiceRunner.

(** ** State *)

(** How [svcrunner.Run] ended, and where the goroutine that called it is:
    spawned, in [Run], returned (the deferred [wg.Done] has run), deleted from
    [running], and ended, after its last report. *)
Inductive phase :=
| GSpawned
| GRunning
| GReturned (res : option error)
| GDeleted (res : option error)
| GEnded.

Record goroutine := mkGoroutine { g_id : string; g_phase : phase; g_cancelled : bool }.

(** A [Start] in progress: the services left, the goroutine whose start it
    waits for, and the error so far. *)
Record start_call := mkStart { sc_todo : list string; sc_wait : option nat; sc_err : option error }.

(** A [stopServices] after its unlock: the services to signal, those whose end
    it waits for, and whether its context can be cancelled. *)
Record stop_call := mkStop { st_signal : list string; st_wait : list string; st_cancellable : bool }.

Record singleton := mkSingleton {
  svcs : gmap string ServiceRunner;     (* the field [state] *)
  running : gset string;
  wg : nat;
  denyNewServices : bool;
  terminating : bool;
  starting : option start_call;
  gs : list goroutine;
  stops : list stop_call
}.

Definition newServices : singleton := mkSingleton ∅ ∅ 0 false false None [] [].

(** [instance] behind [once], with the runtime it was made for; nothing but
    [Services] writes the variable, and all who call it share the singleton. *)
Definition Services {R} (runtime : R) (instance : option (R * singleton)) : option (R * singleton) * (R * singleton) :=
  match instance with
  | Some i => (Some i, i)
  | None => let i := (runtime, newServices) in (Some i, i)
  end.

Definition set_svcs m s := mkSingleton m (running s) (wg s) (denyNewServices s) (terminating s) (starting s) (gs s) (stops s).
Definition set_starting c s :=
  mkSingleton (svcs s) (running s) (wg s) (denyNewServices s) (terminating s) c (gs s) (stops s).
Definition set_stops l s :=
  mkSingleton (svcs s) (running s) (wg s) (denyNewServices s) (terminating s) (starting s) (gs s) l.
Definition set_g (k : nat) (g : goroutine) s :=
  mkSingleton (svcs s) (running s) (wg s) (denyNewServices s) (terminating s) (starting s) (<[k := g]> (gs s)) (stops s).

(** ** Operations *)

(** What [Load] needs of a service: its id, and whether it has health checks. *)
Definition Load_one (ids : list string) (s : singleton) (service : string * bool) : list string * singleton :=
  let id := fst service in
  (ids ++ [id], match svcs s !! id with
                | Some _ => s
                | None => set_svcs (<[id := NewServiceRunner id (snd service) true]> (svcs s)) s
                end).

Definition Load (services : list (string * bool)) (s : singleton) : list string * singleton :=
  if terminating s || denyNewServices s then ([], s)
  else foldl (fun '(ids, s) service => Load_one ids s service) ([], s) services.

(** [fmt.Errorf("service %q not defined: %w", id, multiErr)]; a nil error under
    [%w] is printed as such. *)
Definition not_defined (id : string) (multiErr : option error) : error :=
  match multiErr with
  | Some e => EWrap ("service " +:+ quote id +:+ " not defined: ") e ""
  | None => EMsg ("service " +:+ quote id +:+ " not defined: %!w(<nil>)")
  end.

(** One turn of the loop of [Start], up to the wait for [runNotify]. *)
Definition Start_one (id : string) (todo : list string) (err : option error) (s : singleton) : singleton :=
  match svcs s !! id with
  | None => set_starting (Some (mkStart todo None (Some (not_defined id err)))) s
  | Some _ =>
    if decide (id ∈ running s) then set_starting (Some (mkStart todo None err)) s
    else mkSingleton (svcs s) ({[id]} ∪ running s) (S (wg s)) (denyNewServices s) (terminating s)
           (Some (mkStart todo (Some (length (gs s))) err))
           (gs s ++ [mkGoroutine id GSpawned false]) (stops s)
  end.

(** [strings.ToUpper(msg[:1]) + msg[1:]]: one byte that is not ASCII is not
    valid UTF-8, and becomes U+FFFD. *)
Definition upper_byte (c : Ascii.ascii) : string :=
  let n := Ascii.nat_of_ascii c in
  if decide (97 <= n <= 122)%nat then String (Ascii.ascii_of_nat (n - 32)) EmptyString
  else if decide (n < 128)%nat then String c EmptyString
  else String (Ascii.ascii_of_nat 239) (String (Ascii.ascii_of_nat 191) (String (Ascii.ascii_of_nat 189) EmptyString)).

Definition capitalize (msg : string) : string :=
  match msg with
  | EmptyString => EmptyString
  | String c rest => upper_byte c +:+ rest
  end.

(** The last report of the goroutine. *)
Definition final_event (res : option error) : ServiceState * string :=
  match res with
  | None => (StateFinished, "Service finished successfully")
  | Some e => if errors_Is e ErrSkip then (StateSkipped, "Service skipped")
              else (StateFailed, capitalize (Error e))
  end.

(** [Shutdown] is only called with [context.Background()].
    [stopServices] with [services == nil] stops all services; the order of a
    map is of no consequence, since they are signalled concurrently. *)
Definition stop_targets (services : option (list string)) (s : singleton) : list string :=
  match services with
  | None => elements (dom (svcs s))
  | Some l => elements (list_to_set (filter (fun name => is_Some (svcs s !! name)) l) : gset string)
  end.

Definition begin_stop (services : option (list string)) (shutdown : bool) (s : singleton) : singleton :=
  let targets := stop_targets services s in
  mkSingleton (svcs s) (running s) (wg s) (denyNewServices s) (terminating s || shutdown) (starting s) (gs s)
    (stops s ++ [mkStop targets targets (negb shutdown)]).

Definition List_ (s : singleton) : list ServiceRunner := snd <$> map_to_list (svcs s).

Definition IsRunning (id : string) (s : singleton) : result bool :=
  match svcs s !! id with
  | None => Err (EMsg ("service " +:+ quote id +:+ " not defined"))
  | Some _ => Ok (bool_decide (id ∈ running s))
  end.

Definition DenyNewServices (s : singleton) : singleton :=
  mkSingleton (svcs s) (running s) (wg s) true (terminating s) (starting s) (gs s) (stops s).

(** ** Interleaving *)

Definition report (id : string) (r : ServiceRunner) (s : singleton) : singleton :=
  set_svcs (<[id := r]> (svcs s)) s.

Inductive sstep (s : singleton) : singleton -> Prop :=
| ss_load services : starting s = None -> sstep s (snd (Load services s))
| ss_deny : starting s = None -> sstep s (DenyNewServices s)
(** [Start]: refused while terminating or denying, otherwise one service after
    the other. *)
| ss_start ids :
    starting s = None -> terminating s || denyNewServices s = false ->
    sstep s (set_starting (Some (mkStart ids None None)) s)
| ss_start_next id todo err :
    starting s = Some (mkStart (id :: todo) None err) -> sstep s (Start_one id todo err s)
| ss_start_notified todo k g err :
    starting s = Some (mkStart todo (Some k) err) -> gs s !! k = Some g -> g_phase g <> GSpawned ->
    sstep s (set_starting (Some (mkStart todo None err)) s)
| ss_start_end err :
    starting s = Some (mkStart [] None err) -> sstep s (set_starting None s)
(** The goroutine of a service. *)
| ss_run_begin k id b r now r' ev :
    gs s !! k = Some (mkGoroutine id GSpawned b) -> svcs s !! id = Some r ->
    UpdateState_locked StateStarting "Starting service" now r = Some (r', ev) ->
    sstep s (report id r' (set_g k (mkGoroutine id GRunning b) s))
| ss_report k id b r st msg now r' ev :
    gs s !! k = Some (mkGoroutine id GRunning b) -> svcs s !! id = Some r ->
    UpdateState_locked st msg now r = Some (r', ev) -> sstep s (report id r' s)
| ss_take_stop k id r c' :
    gs s !! k = Some (mkGoroutine id GRunning false) -> svcs s !! id = Some r ->
    try_recv (stopCh r) = Some (tt, c') ->
    sstep s (report id (set_stopCh c' r) (set_g k (mkGoroutine id GRunning true) s))
| ss_return k id b res :
    gs s !! k = Some (mkGoroutine id GRunning b) ->
    sstep s (mkSingleton (svcs s) (running s) (wg s - 1) (denyNewServices s) (terminating s) (starting s)
               (<[k := mkGoroutine id (GReturned res) b]> (gs s)) (stops s))
| ss_delete k id b res :
    gs s !! k = Some (mkGoroutine id (GReturned res) b) ->
    sstep s (mkSingleton (svcs s) (running s ∖ {[id]}) (wg s) (denyNewServices s) (terminating s) (starting s)
               (<[k := mkGoroutine id (GDeleted res) b]> (gs s)) (stops s))
| ss_final k id b res r now r' ev :
    gs s !! k = Some (mkGoroutine id (GDeleted res) b) -> svcs s !! id = Some r ->
    UpdateState_locked (fst (final_event res)) (snd (final_event res)) now r = Some (r', ev) ->
    sstep s (report id r' (set_g k (mkGoroutine id GEnded b) s))
(** [Stop] and [Shutdown], refused while terminating. *)
| ss_stop services :
    starting s = None -> terminating s = false -> services <> [] -> sstep s (begin_stop (Some services) false s)
| ss_shutdown :
    starting s = None -> terminating s = false -> sstep s (begin_stop None true s)
| ss_signal j todo wait c id r :
    stops s !! j = Some (mkStop todo wait c) -> id ∈ todo -> svcs s !! id = Some r ->
    sstep s (report id (Shutdown r) (set_stops (<[j := mkStop (filter (.≠ id) todo) wait c]> (stops s)) s))
(** A service is no longer waited for from the moment its notification is in
    the channel, which is sent while the service is down; a wait also ends with
    its context. *)
| ss_observe j wait c id r :
    stops s !! j = Some (mkStop [] wait c) -> id ∈ wait -> svcs s !! id = Some r ->
    inStateLocked StateEventDown r = Some true ->
    sstep s (set_stops (<[j := mkStop [] (filter (.≠ id) wait) c]> (stops s)) s)
| ss_cancelled j wait :
    stops s !! j = Some (mkStop [] wait true) ->
    sstep s (set_stops (<[j := mkStop [] [] true]> (stops s)) s).

Inductive steps : singleton -> singleton -> Prop :=
| steps_refl s : steps s s
| steps_trans s1 s2 s3 : sstep s1 s2 -> steps s2 s3 -> steps s1 s3.

Definition reachable (s : singleton) : Prop := steps newServices s.

(** ** Conditions on services (service_events.go) *)

Record serviceCondition := mkServiceCondition {
  waitingRegister : bool;
  sc_events : list StateEvent;
  sc_service : string
}.

Definition waitForService (events : list StateEvent) (service : string) : serviceCondition :=
  mkServiceCondition false events service.

Definition WaitForService (event : StateEvent) (service : string) : serviceCondition :=
  waitForService [event] service.

Definition WaitForServiceAnyEvent (events : list StateEvent) (service : string) : serviceCondition :=
  waitForService events service.

Definition serviceCondition_String (sc : serviceCondition) : string :=
  if waitingRegister sc then "service " +:+ quote (sc_service sc) +:+ " to be registered"
  else match sc_events sc with
       | [ev] => "service " +:+ quote (sc_service sc) +:+ " to be " +:+ quote ev
       | evs => "service " +:+ quote (sc_service sc) +:+ " to be " +:+ String.concat "/" evs
       end.

(** [waitEvent]: a channel of its own is subscribed to each event; it returns at
    once when a notification is there; the deferred calls remove the
    subscriptions. *)
Definition waitEvent_subscribe (evs : list StateEvent) (ch : nat) (w : sr_world) : option sr_world :=
  foldl (fun w ev => w ← w; ServiceRunner.Subscribe ev ch w)
    (Some (mkSrWorld (sr w) (<[ch := make_chan unit 1]> (chs w)) (published w) (logged w))) evs.

Definition waitEvent_cleanup (evs : list StateEvent) (ch : nat) (w : sr_world) : sr_world :=
  foldr (fun ev w => mkSrWorld (Unsubscribe ev ch (sr w)) (chs w) (published w) (logged w)) w evs.

Definition waitEvent_ready (ch : nat) (w : sr_world) : bool :=
  match chs w !! ch with Some q => match chan_buf q with [] => false | _ => true end | None => false end.

(** ** Invariant *)

(** The goroutine holds its service's entry of [running]; it is counted by
    [wg]. *)
Definition live (g : goroutine) : Prop :=
  match g_phase g with GSpawned | GRunning | GReturned _ => True | _ => False end.

Definition counted (g : goroutine) : Prop :=
  match g_phase g with GSpawned | GRunning => True | _ => False end.

#[export] Instance live_dec g : Decision (live g).
Proof. unfold live. destruct (g_phase g); apply _. Defined.

#[export] Instance counted_dec g : Decision (counted g).
Proof. unfold counted. destruct (g_phase g); apply _. Defined.

(** The goroutines that run the service [id]. *)
Definition runs_of (id : string) (s : singleton) : list goroutine := filter (fun g => g_id g = id /\ live g) (gs s).

Record services_ok (s : singleton) : Prop := {
  so_runs : forall id, length (runs_of id s) = (if decide (id ∈ running s) then 1 else 0)%nat;
  so_wg : wg s = length (filter counted (gs s));
  so_defined : forall k g, gs s !! k = Some g -> is_Some (svcs s !! g_id g)
}.

(** ** Lemmas *)

Lemma Load_one_spec ids s service :
  let s' := snd (Load_one ids s service) in
  running s' = running s /\ wg s' = wg s /\ gs s' = gs s /\ starting s' = starting s /\ stops s' = stops s /\
  terminating s' = terminating s /\ denyNewServices s' = denyNewServices s /\
  svcs s ⊆ svcs s'.
Proof.
  unfold Load_one. destruct (svcs s !! fst service) eqn:E; simpl; split_and!; try done.
  by apply insert_subseteq.
Qed.

Lemma Load_loop_spec services ids s :
  let s' := snd (foldl (fun '(ids, s) service => Load_one ids s service) (ids, s) services) in
  running s' = running s /\ wg s' = wg s /\ gs s' = gs s /\ starting s' = starting s /\ stops s' = stops s /\
  terminating s' = terminating s /\ denyNewServices s' = denyNewServices s /\
  svcs s ⊆ svcs s'.
Proof.
  revert ids s. induction services as [|service services IH]; intros ids s; cbn [foldl]; [done|].
  pose proof (Load_one_spec ids s service) as H. destruct (Load_one ids s service) as [ids1 s1]. simpl in H.
  destruct (IH ids1 s1) as (H1 & H2 & H3 & H4 & H5 & H6 & H7 & H8). destruct H as (G1 & G2 & G3 & G4 & G5 & G6 & G7 & G8).
  split_and!; try congruence. by etrans.
Qed.

Lemma Load_spec services s :
  let s' := snd (Load services s) in
  running s' = running s /\ wg s' = wg s /\ gs s' = gs s /\ starting s' = starting s /\ stops s' = stops s /\
  terminating s' = terminating s /\ denyNewServices s' = denyNewServices s /\
  svcs s ⊆ svcs s'.
Proof. unfold Load. destruct (_ || _); [done|]. apply Load_loop_spec. Qed.

Lemma defined_report s id r r' k g :
  svcs s !! id = Some r -> (forall k g, gs s !! k = Some g -> is_Some (svcs s !! g_id g)) ->
  gs s !! k = Some g -> is_Some (<[id := r']> (svcs s) !! g_id g).
Proof.
  intros Hr HD Hk. destruct (decide (g_id g = id)) as [->|]; [by rewrite lookup_insert_eq|].
  rewrite lookup_insert_ne by done. eauto.
Qed.

(** A goroutine moves to another phase; the counts follow. *)
Lemma move_runs s k g g' id' :
  gs s !! k = Some g -> g_id g' = g_id g ->
  (length (filter (fun g => g_id g = id' /\ live g) (<[k := g']> (gs s))) +
     (if decide (g_id g = id' /\ live g) then 1 else 0) =
   length (runs_of id' s) + (if decide (g_id g = id' /\ live g') then 1 else 0))%nat.
Proof.
  intros Hk Hg. pose proof (length_filter_insert (fun g => g_id g = id' /\ live g) (gs s) k g g' Hk) as H.
  simpl in H. unfold runs_of. rewrite Hg in H. exact H.
Qed.

Lemma move_wg s k g g' :
  gs s !! k = Some g ->
  (length (filter counted (<[k := g']> (gs s))) + (if decide (counted g) then 1 else 0) =
   length (filter counted (gs s)) + (if decide (counted g') then 1 else 0))%nat.
Proof. apply length_filter_insert. Qed.

Lemma defined_move s k g g' :
  gs s !! k = Some g -> g_id g' = g_id g ->
  (forall k g, gs s !! k = Some g -> is_Some (svcs s !! g_id g)) ->
  forall k' g0, <[k := g']> (gs s) !! k' = Some g0 -> is_Some (svcs s !! g_id g0).
Proof.
  intros Hk Hg HD k' g0 Hk'. destruct (decide (k' = k)) as [->|].
  - rewrite list_lookup_insert_eq in Hk' by (by eapply lookup_lt_Some). injection Hk' as <-. rewrite Hg. eauto.
  - rewrite list_lookup_insert_ne in Hk' by done. eauto.
Qed.

(** A step that changes a goroutine only from one live and counted phase to
    another, and services. *)
Lemma services_ok_same s s' k g g' :
  services_ok s -> gs s !! k = Some g -> g_id g' = g_id g ->
  (live g <-> live g') -> (counted g <-> counted g') ->
  gs s' = <[k := g']> (gs s) -> running s' = running s -> wg s' = wg s ->
  (forall id, is_Some (svcs s !! id) -> is_Some (svcs s' !! id)) -> services_ok s'.
Proof.
  intros [H1 H2 H3] Hk Hg HL HC Egs Er Ew Hs. split.
  - intros id'. unfold runs_of. rewrite Egs, Er, <-H1. pose proof (move_runs s k g g' id' Hk Hg) as HM.
    destruct (decide (g_id g = id' /\ live g)), (decide (g_id g = id' /\ live g')); try tauto; lia.
  - rewrite Ew, Egs, H2. pose proof (move_wg s k g g' Hk) as HM.
    destruct (decide (counted g)), (decide (counted g')); try tauto; lia.
  - rewrite Egs. intros k' g0 Hk'. apply Hs. by eapply (defined_move s k g g').
Qed.

Lemma services_ok_frame s s' :
  services_ok s -> gs s' = gs s -> running s' = running s -> wg s' = wg s ->
  (forall id, is_Some (svcs s !! id) -> is_Some (svcs s' !! id)) -> services_ok s'.
Proof.
  intros [H1 H2 H3] Egs Er Ew Hs. split; unfold runs_of; rewrite ?Egs, ?Er, ?Ew; [exact H1|exact H2|].
  intros k g Hk. eauto.
Qed.

Lemma is_Some_insert (m : gmap string ServiceRunner) id r id' :
  is_Some (m !! id') -> is_Some (<[id := r]> m !! id').
Proof.
  intros H. destruct (decide (id' = id)) as [->|]; [by rewrite lookup_insert_eq|by rewrite lookup_insert_ne].
Qed.

Lemma runs_of_snoc id g l :
  filter (fun g => g_id g = id /\ live g) (l ++ [g]) =
  filter (fun g => g_id g = id /\ live g) l ++ (if decide (g_id g = id /\ live g) then [g] else []).
Proof. rewrite filter_app, filter_cons. by case_decide. Qed.

Lemma services_ok_Start_one id todo err s : services_ok s -> services_ok (Start_one id todo err s).
Proof.
  intros HS. unfold Start_one. destruct (svcs s !! id) as [r|] eqn:Er; [|by apply (services_ok_frame s)].
  case_decide as Hin; [by apply (services_ok_frame s)|]. destruct HS as [H1 H2 H3]. split; simpl.
  - intros id'. unfold runs_of. simpl. rewrite runs_of_snoc, length_app. fold (runs_of id' s). rewrite H1. simpl.
    destruct (decide (id = id')) as [<-|Hne].
    + rewrite decide_False by done. rewrite (decide_True (P := id ∈ {[id]} ∪ running s)) by set_solver.
      rewrite decide_True; [done|]. by split.
    + rewrite (decide_False (P := id = id' /\ _)) by (by intros [? _]). simpl.
      destruct (decide (id' ∈ running s)); [rewrite decide_True by set_solver; done|rewrite decide_False by set_solver; done].
  - rewrite filter_app, length_app, H2. rewrite filter_cons_True by done. simpl. lia.
  - intros k g Hk. apply lookup_app_Some in Hk as [Hk|[_ Hk]]; [eauto|].
    apply list_lookup_singleton_Some in Hk as [_ <-]. simpl. by rewrite Er.
Qed.

Lemma services_ok_step s s' : services_ok s -> sstep s s' -> services_ok s'.
Proof.
  intros HS HT. destruct HT; try (by apply (services_ok_frame s));
    try (apply (services_ok_frame s); [done..|]; intros; by apply is_Some_insert).
  - destruct (Load_spec services s) as (H1 & H2 & H3 & _ & _ & _ & _ & H8).
    apply (services_ok_frame s); try done. intros id [r Hr]. exists r. by eapply lookup_weaken.
  - by apply services_ok_Start_one.
  - apply (services_ok_same s _ k (mkGoroutine id GSpawned b) (mkGoroutine id GRunning b)); try done.
    intros. by apply is_Some_insert.
  - apply (services_ok_same s _ k (mkGoroutine id GRunning false) (mkGoroutine id GRunning true)); try done.
    intros. by apply is_Some_insert.
  - destruct HS as [H1 H2 H3]. split; simpl.
    + intros id'. unfold runs_of. simpl. rewrite <-H1.
      pose proof (move_runs s k _ (mkGoroutine id (GReturned res) b) id' H eq_refl) as HM.
      unfold runs_of in *. simpl g_id in HM.
      destruct (decide (id = id' /\ live (mkGoroutine id GRunning b))) as [[]|N1],
        (decide (id = id' /\ live (mkGoroutine id (GReturned res) b))) as [[]|N2];
        [lia|by destruct N2|by destruct N1|lia].
    + pose proof (move_wg s k _ (mkGoroutine id (GReturned res) b) H) as HM.
      rewrite (decide_True (P := counted _)) in HM by done. rewrite decide_False in HM by (by intros []). lia.
    + by apply (defined_move s k (mkGoroutine id GRunning b)).
  - destruct HS as [H1 H2 H3]. split; simpl.
    + intros id'. unfold runs_of. simpl. specialize (H1 id').
      pose proof (move_runs s k _ (mkGoroutine id (GDeleted res) b) id' H eq_refl) as HM. simpl in HM.
      rewrite (decide_False (P := id = id' /\ live (mkGoroutine id (GDeleted res) b))) in HM by (by intros [_ []]).
      destruct (decide (id = id')) as [<-|Hne].
      * rewrite decide_True in HM by done. rewrite (decide_False (P := id ∈ running s ∖ {[id]})) by set_solver.
        destruct (decide (id ∈ running s)); lia.
      * rewrite decide_False in HM by (by intros [? _]).
        destruct (decide (id' ∈ running s)); [rewrite decide_True by set_solver|rewrite decide_False by set_solver]; lia.
    + pose proof (move_wg s k _ (mkGoroutine id (GDeleted res) b) H) as HM.
      rewrite !decide_False in HM by (by intros []). lia.
    + by apply (defined_move s k (mkGoroutine id (GReturned res) b)).
  - apply (services_ok_same s _ k (mkGoroutine id (GDeleted res) b) (mkGoroutine id GEnded b)); try done.
    intros. by apply is_Some_insert.
Qed.

Lemma services_ok_init : services_ok newServices.
Proof. by split. Qed.

Lemma services_ok_steps s s' : services_ok s -> steps s s' -> services_ok s'.
Proof. induction 2; eauto using services_ok_step. Qed.

(** While terminating, a [Start] in progress ended before [Shutdown] took the
    lock, and no other begins. *)
Lemma terminating_step s s' :
  sstep s s' -> (terminating s = true -> starting s = None) ->
  (terminating s' = true -> starting s' = None) /\
  (terminating s = true -> terminating s' = true /\ length (gs s') = length (gs s)).
Proof.
  intros HT Hinv. destruct HT; simpl in *; rewrite ?length_insert;
    try (split; [done|]; intros; split; done);
    try (split; [intros Ht; specialize (Hinv Ht); congruence|]; intros Ht; specialize (Hinv Ht); congruence).
  - destruct (Load_spec services s) as (_ & _ & H3 & H4 & _ & H6 & _). rewrite H3, H4, H6. done.
  - rewrite Bool.orb_false_iff in H0. destruct H0 as [Ht _]. rewrite Ht. done.
  - assert (terminating (Start_one id todo err s) = terminating s) as ->
      by (unfold Start_one; destruct (svcs s !! id); [case_decide|]; done).
    split; intros Ht; specialize (Hinv Ht); congruence.
  - split; [done|]. intros Ht. rewrite Ht in *. done.
  - rewrite H0. done.
Qed.

Lemma terminating_steps s s' :
  steps s s' -> (terminating s = true -> starting s = None) ->
  (terminating s' = true -> starting s' = None) /\
  (terminating s = true -> terminating s' = true /\ length (gs s') = length (gs s)).
Proof.
  induction 1 as [|s1 s2 s3 H1 H2 IH]; intros Hinv; [done|].
  destruct (terminating_step s1 s2 H1 Hinv) as [A B]. destruct (IH A) as [C D]. split; [done|].
  intros Ht. destruct (B Ht) as [E F]. destruct (D E) as [G I]. split; [done|lia].
Qed.

(** A stop that waits for a service which was never started. *)
Record stuck (j : nat) (id : string) (s : singleton) : Prop := {
  sk_term : terminating s = true;
  sk_start : starting s = None;
  sk_wait : exists todo wait, stops s !! j = Some (mkStop todo wait false) /\ id ∈ wait;
  sk_state : exists r, svcs s !! id = Some r /\ state r = StateInitialized;
  sk_gs : forall k g, gs s !! k = Some g -> g_id g = id -> g_phase g = GEnded
}.

(** A step of another service leaves a stuck stop stuck. *)
Lemma stuck_report j id id' r' s s' :
  stuck j id s -> id' <> id -> svcs s' = <[id' := r']> (svcs s) -> terminating s' = terminating s ->
  starting s' = starting s -> stops s' = stops s ->
  (forall k g, gs s' !! k = Some g -> g_id g = id -> gs s !! k = Some g) -> stuck j id s'.
Proof.
  intros [H1 H2 H3 H4 H5] Hne Es Et Est Esp Hg. split; try congruence.
  - by rewrite Esp.
  - destruct H4 as (r & Hr & Hst). exists r. by rewrite Es, lookup_insert_ne.
  - eauto.
Qed.

Lemma gs_insert_other (l : list goroutine) k g0 g' id :
  l !! k = Some g0 -> g_id g' <> id ->
  forall k' g, <[k := g']> l !! k' = Some g -> g_id g = id -> l !! k' = Some g.
Proof.
  intros Hk Hne k' g Hk' Hid. destruct (decide (k' = k)) as [->|].
  - rewrite list_lookup_insert_eq in Hk' by (by eapply lookup_lt_Some). injection Hk' as <-. done.
  - by rewrite list_lookup_insert_ne in Hk'.
Qed.

Lemma stuck_step j id s s' : stuck j id s -> sstep s s' -> stuck j id s'.
Proof.
  intros HK HT. pose proof HK as [H1 H2 (todo0 & wait0 & H3 & H3') (r0 & H4 & H4') H5].
  assert (forall k id' b p, gs s !! k = Some (mkGoroutine id' p b) -> p <> GEnded -> id' <> id) as Hother.
  { intros k id' b p Hk Hp ->. apply Hp, (H5 _ _ Hk eq_refl). }
  destruct HT; try congruence.
  - unfold Load. rewrite H1. done.
  - split; eauto.
  - by rewrite H1 in *.
  - apply (stuck_report j id id0 r' s); try done; [by eapply Hother|]. simpl.
    eapply gs_insert_other; [done|]. by eapply Hother.
  - apply (stuck_report j id id0 r' s); try done. by eapply Hother.
  - apply (stuck_report j id id0 (set_stopCh c' r) s); try done; [by eapply Hother|]. simpl.
    eapply gs_insert_other; [done|]. by eapply Hother.
  - split; simpl; try done; [eauto..|]. intros k' g Hk' Hid.
    apply (H5 k' g); [|done]. eapply gs_insert_other; [done| |done|done]. by eapply Hother.
  - split; simpl; try done; [eauto..|]. intros k' g Hk' Hid.
    apply (H5 k' g); [|done]. eapply gs_insert_other; [done| |done|done]. by eapply Hother.
  - apply (stuck_report j id id0 r' s); try done; [by eapply Hother|]. simpl.
    eapply gs_insert_other; [done|]. by eapply Hother.
  - split; simpl; try done.
    + destruct (decide (j0 = j)) as [->|].
      * rewrite list_lookup_insert_eq by (by eapply lookup_lt_Some). simplify_eq. eauto.
      * rewrite list_lookup_insert_ne by done. eauto.
    + destruct (decide (id0 = id)) as [->|]; [|rewrite lookup_insert_ne by done; eauto].
      rewrite lookup_insert_eq. eexists. split; [done|]. simplify_eq. done.
  - assert (id0 <> id) as Hne.
    { intros ->. simplify_eq.
      match goal with X : inStateLocked _ _ = _ |- _ => unfold inStateLocked in X; rewrite H4' in X; done end. }
    split; simpl; try done; [|eauto].
    destruct (decide (j0 = j)) as [->|].
    + rewrite list_lookup_insert_eq by (by eapply lookup_lt_Some). simplify_eq. eexists _, _. split; [done|].
      apply list_elem_of_filter. split; [congruence|done].
    + rewrite list_lookup_insert_ne by done. eauto.
  - split; simpl; try done; [|eauto..].
    destruct (decide (j0 = j)) as [->|]; [congruence|]. rewrite list_lookup_insert_ne by done. eauto.
Qed.

Lemma stuck_steps j id s s' : stuck j id s -> steps s s' -> stuck j id s'.
Proof. induction 2; eauto using stuck_step. Qed.

(** *** Subscriptions of a wait *)

Lemma subscribe_sr ev ch w w' : ServiceRunner.Subscribe ev ch w = Some w' ->
  exists b, inStateLocked ev (sr w) = Some b /\
    (if b then sr w' = sr w /\ chs w' = alter (try_send tt) ch (chs w)
     else sr w' = set_subscribers (<[ev := subscribers_of ev (sr w) ++ [ch]]> (stateSubscribers (sr w))) (sr w) /\
          chs w' = chs w).
Proof.
  unfold ServiceRunner.Subscribe, Subscribe_locked. intros ([r b] & H & [= <-])%bind_Some.
  apply bind_Some in H as (b' & Hb & H). exists b'. split; [done|]. destruct b'; injection H as <- <-; done.
Qed.

(** The other subscriptions of the events are as before. *)
Definition same_others (ch : nat) (r r' : ServiceRunner) : Prop :=
  forall ev, filter (.≠ ch) (subscribers_of ev r') = filter (.≠ ch) (subscribers_of ev r).

Lemma inStateLocked_subscribers ev m r : inStateLocked ev (set_subscribers m r) = inStateLocked ev r.
Proof. done. Qed.

Lemma waitEvent_subscribe_loop evs ch w w' q :
  foldl (fun w ev => w ← w; ServiceRunner.Subscribe ev ch w) (Some w) evs = Some w' ->
  chs w !! ch = Some q -> (0 < chan_cap q)%nat ->
  same_others ch (sr w) (sr w') /\ state (sr w') = state (sr w) /\
  (forall ev, ch ∈ subscribers_of ev (sr w') -> ch ∈ subscribers_of ev (sr w) \/ ev ∈ evs) /\
  (forall ev, inStateLocked ev (sr w') = inStateLocked ev (sr w)) /\
  exists q', chs w' !! ch = Some q' /\ (chan_buf q <> [] -> chan_buf q' <> []) /\
    ((exists ev, ev ∈ evs /\ inStateLocked ev (sr w) = Some true) -> chan_buf q' <> []).
Proof.
  revert w q. induction evs as [|ev evs IH]; intros w q H Hq Hc; simpl in H.
  { injection H as <-. split_and!; try done; [by left|]. exists q. split_and!; try done. intros (? & []%elem_of_nil & _). }
  destruct (ServiceRunner.Subscribe ev ch w) as [w1|] eqn:ES.
  2:{ exfalso. clear -H. induction evs; done. }
  destruct (subscribe_sr ev ch w w1 ES) as (b & Hb & HS).
  assert (exists q1, chs w1 !! ch = Some q1 /\ (0 < chan_cap q1)%nat /\ (chan_buf q <> [] -> chan_buf q1 <> []) /\
    (b = true -> chan_buf q1 <> [])) as (q1 & Hq1 & Hc1 & Hk1 & Hb1).
  { destruct b; destruct HS as [_ ->].
    - destruct (try_send_lookup tt ch (chs w) ch q Hq) as (q1 & H1 & H2 & H3 & H4). exists q1. split_and!; [done|lia|done|auto].
    - exists q. split_and!; done. }
  destruct (IH w1 q1 H Hq1 Hc1) as (A & B & C & D & q' & Hq' & Hk' & Hin').
  assert (same_others ch (sr w) (sr w1) /\ state (sr w1) = state (sr w) /\
    (forall ev', ch ∈ subscribers_of ev' (sr w1) -> ch ∈ subscribers_of ev' (sr w) \/ ev' = ev) /\
    (forall ev', inStateLocked ev' (sr w1) = inStateLocked ev' (sr w))) as (A1 & B1 & C1 & D1).
  { destruct b; destruct HS as [-> _]; [by split_and!; auto|]. split_and!; [|done| |done].
    - intros ev'. rewrite subscribers_of_insert. case_decide; [subst|done].
      rewrite filter_app, filter_cons_False, filter_nil, app_nil_r by (by intros []). done.
    - intros ev'. rewrite subscribers_of_insert. case_decide; [by right|by left]. }
  split_and!.
  - intros ev'. by rewrite A, A1.
  - congruence.
  - intros ev' [Hx|Hx]%C; [|right; set_solver]. destruct (C1 _ Hx) as [?| ->]; [by left|right; set_solver].
  - intros ev'. by rewrite D, D1.
  - exists q'. split_and!; [done|auto|]. intros (ev' & [->|Hx]%elem_of_cons & Ht).
    + apply Hk', Hb1. congruence.
    + apply Hin'. exists ev'. split; [done|]. by rewrite D1.
Qed.

Lemma waitEvent_cleanup_spec evs ch w :
  let w' := waitEvent_cleanup evs ch w in
  (forall ev, filter (.≠ ch) (subscribers_of ev (sr w')) ≡ₚ filter (.≠ ch) (subscribers_of ev (sr w))) /\
  (forall ev, ev ∈ evs -> ch ∉ subscribers_of ev (sr w')) /\
  (forall ev, ch ∈ subscribers_of ev (sr w') -> ch ∈ subscribers_of ev (sr w)).
Proof.
  induction evs as [|ev evs IH]; simpl.
  { split_and!; try done. by intros ev ?%elem_of_nil. }
  destruct IH as (A & B & C). set (w1 := waitEvent_cleanup evs ch w) in *. unfold Unsubscribe.
  split_and!; intros ev'; rewrite subscribers_of_insert; case_decide; subst; try done.
  - rewrite swap_delete_perm. rewrite <-A, list_filter_filter. apply Permutation_refl'.
    apply list_filter_iff. naive_solver.
  - rewrite elem_of_swap_delete. naive_solver.
  - intros [?|?]%elem_of_cons; [done|]. by apply B.
  - rewrite elem_of_swap_delete. naive_solver.
  - apply C.
Qed.

(** The runtime of the first call is that of all. *)
Lemma Services_first {R} (runtimes : list R) (runtime : R) instance i s :
  Services runtime instance = (i, s) ->
  foldl (fun g r => fst (Services r g)) i runtimes = Some s /\ forall r, snd (Services r (Some s)) = s.
Proof.
  intros HS. assert (i = Some s) as -> by (unfold Services in HS; by destruct instance; injection HS as <- <-).
  split; [|done]. clear HS. induction runtimes as [|r l IH]; [done|exact IH].
Qed.

(** ** Properties *)

(** C2: at most one run per service.  Whatever is loaded, started and stopped,
    concurrently or not, a service has exactly one goroutine in [Run] (or on
    its way in or out) when its id is in [running] and none otherwise, and [wg]
    counts the goroutines in [Run]. *)
Theorem single_run s id :
  reachable s ->
  length (runs_of id s) = (if decide (id ∈ running s) then 1 else 0)%nat /\
  wg s = length (filter counted (gs s)) /\
  (forall g, g ∈ runs_of id s -> is_Some (svcs s !! id)).
Proof.
  intros HR. destruct (services_ok_steps newServices s services_ok_init HR) as [H1 H2 H3].
  split; [done|]. split; [done|]. intros g [[<- _] (k & Hk)%list_elem_of_lookup]%list_elem_of_filter. eauto.
Qed.

(** C14: nothing starts after [Shutdown].  Once the singleton is terminating it
    stays so, no [Start] is in progress and no goroutine is ever spawned again. *)
Theorem terminating_no_new_runs s s' :
  reachable s -> terminating s = true -> steps s s' ->
  terminating s' = true /\ starting s' = None /\ length (gs s') = length (gs s).
Proof.
  intros HR Ht HS. destruct (terminating_steps newServices s HR) as [Hinv _]; [done|].
  destruct (terminating_steps s s' HS Hinv) as [H1 H2]. destruct (H2 Ht). auto.
Qed.

(** [Shutdown] waits for every loaded service to be down, also for one that
    was never started.  Such a service never goes down, so that [Shutdown] never
    ends, whatever else happens. *)
Theorem shutdown_waits_for_never_started s s' id r :
  reachable s -> starting s = None -> svcs s !! id = Some r -> state r = StateInitialized ->
  (forall k g, gs s !! k = Some g -> g_id g = id -> g_phase g = GEnded) ->
  steps (begin_stop None true s) s' ->
  exists todo wait, stops s' !! length (stops s) = Some (mkStop todo wait false) /\ id ∈ wait.
Proof.
  intros HR Hst Hr Hs Hg HS. eapply stuck_steps in HS; [apply (sk_wait _ _ _ HS)|]. split; simpl; try done.
  - by rewrite Bool.orb_true_r.
  - eexists _, _. split; [by apply list_lookup_middle|]. unfold stop_targets.
    apply elem_of_elements, elem_of_dom. eauto.
  - eauto.
Qed.

(** The end of a run may be reported after the next run has begun.  The
    goroutine leaves [running] before its last report, so that there is an
    interleaving in which a service that is being run is in the state
    finished. *)
Theorem late_final_report :
  exists s r, reachable s /\ svcs s !! "apid" = Some r /\ state r = StateFinished /\
    exists g, g ∈ gs s /\ g_id g = "apid" /\ g_phase g = GRunning.
Proof.
  eexists _, _. split; [|split; [|split]].
  - eapply steps_trans; [apply (ss_load _ [("apid", true)]); done|].
    eapply steps_trans; [apply (ss_start _ ["apid"]); done|].
    eapply steps_trans; [eapply ss_start_next; done|].
    eapply steps_trans; [eapply (ss_run_begin _ 0 "apid" false _ 1); [done|vm_compute; reflexivity|];
      vm_compute; reflexivity|].
    eapply steps_trans; [eapply ss_start_notified; [done|done|done]|].
    eapply steps_trans; [eapply ss_start_end; done|].
    eapply steps_trans; [apply (ss_return _ 0 "apid" false None); done|].
    eapply steps_trans; [apply (ss_delete _ 0 "apid" false None); done|].
    eapply steps_trans; [apply (ss_start _ ["apid"]); done|].
    eapply steps_trans; [eapply ss_start_next; done|].
    eapply steps_trans; [eapply (ss_run_begin _ 1 "apid" false _ 2); [done|vm_compute; reflexivity|];
      vm_compute; reflexivity|].
    eapply steps_trans; [eapply (ss_final _ 0 "apid" false None _ 3); [done|vm_compute; reflexivity|];
      vm_compute; reflexivity|].
    apply steps_refl.
  - vm_compute. reflexivity.
  - reflexivity.
  - exists (mkGoroutine "apid" GRunning false). split; [|done]. vm_compute. right. left.
Qed.

(** Waiting for events.  A wait for one of several events is notified at
    once when one of them already holds, and when it is over every subscription
    it made is gone and those of the others are untouched. *)
Theorem wait_event_exact evs ch w w' :
  waitEvent_subscribe evs ch w = Some w' -> (forall ev, ch ∉ subscribers_of ev (sr w)) ->
  ((exists ev, ev ∈ evs /\ inStateLocked ev (sr w) = Some true) -> waitEvent_ready ch w' = true) /\
  (forall ev, subscribers_of ev (sr (waitEvent_cleanup evs ch w')) ≡ₚ subscribers_of ev (sr w)).
Proof.
  intros HS Hf. unfold waitEvent_subscribe in HS.
  destruct (waitEvent_subscribe_loop evs ch _ w' (make_chan unit 1) HS) as (A & _ & C & _ & q' & Hq' & _ & Hb);
    [simpl; by rewrite lookup_insert_eq|simpl; lia|]. simpl in *. split.
  - intros Hx. unfold waitEvent_ready. rewrite Hq'. specialize (Hb Hx). by destruct (chan_buf q').
  - intros ev. destruct (waitEvent_cleanup_spec evs ch w') as (P & Q & R).
    specialize (P ev). rewrite A, (filter_ne_id ch (subscribers_of ev (sr w))) in P by apply Hf.
    rewrite filter_ne_id in P; [done|]. intros Hin. pose proof (R ev Hin) as [?|He]%C; [by apply (Hf ev)|].
    by apply (Q ev He).
Qed.

(** ** Concrete runs *)

Definition demo_loaded : singleton := snd (Load [("udevd", false); ("apid", true)] newServices).

Lemma demo_loaded_reachable : reachable demo_loaded.
Proof. eapply steps_trans; [by apply (ss_load _ [("udevd", false); ("apid", true)])|apply steps_refl]. Qed.

Definition demo_started : singleton :=
  Start_one "udevd" ["apid"] None (set_starting (Some (mkStart ["udevd"; "apid"] None None)) demo_loaded).

Lemma demo_started_reachable : reachable demo_started.
Proof.
  eapply steps_trans; [by apply (ss_load _ [("udevd", false); ("apid", true)])|].
  eapply steps_trans; [by apply (ss_start _ ["udevd"; "apid"])|].
  eapply steps_trans; [by eapply ss_start_next|]. apply steps_refl.
Qed.

Lemma single_run_witness :
  length (runs_of "udevd" demo_started) = 1%nat /\ wg demo_started = 1%nat /\
  (forall g, g ∈ runs_of "udevd" demo_started -> is_Some (svcs demo_started !! "udevd")).
Proof. apply (single_run demo_started "udevd"), demo_started_reachable. Defined.

Definition demo_shutdown : singleton := begin_stop None true demo_loaded.

Lemma demo_shutdown_reachable : reachable demo_shutdown.
Proof.
  eapply steps_trans; [by apply (ss_load _ [("udevd", false); ("apid", true)])|].
  eapply steps_trans; [by apply ss_shutdown|]. apply steps_refl.
Qed.

Lemma terminating_no_new_runs_witness :
  terminating demo_shutdown = true /\ starting demo_shutdown = None /\ length (gs demo_shutdown) = 0%nat.
Proof.
  apply (terminating_no_new_runs demo_shutdown demo_shutdown);
    [apply demo_shutdown_reachable|done|apply steps_refl].
Defined.

Lemma shutdown_waits_for_never_started_witness :
  exists todo wait, stops demo_shutdown !! 0%nat = Some (mkStop todo wait false) /\ "udevd" ∈ wait.
Proof.
  apply (shutdown_waits_for_never_started demo_loaded demo_shutdown "udevd" (NewServiceRunner "udevd" false true)).
  - apply demo_loaded_reachable.
  - done.
  - done.
  - done.
  - done.
  - apply steps_refl.
Defined.

Definition demo_wait_world : sr_world :=
  mkSrWorld (set_state StateSkipped demo_runner) ∅ [] [].

Lemma wait_event_exact_witness :
  exists w', waitEvent_subscribe [StateEventUp; StateEventDown] 3 demo_wait_world = Some w' /\
    waitEvent_ready 3 w' = true.
Proof.
  destruct (waitEvent_subscribe [StateEventUp; StateEventDown] 3 demo_wait_world) as [w'|] eqn:E;
    [|vm_compute in E; discriminate].
  exists w'. split; [done|]. apply (wait_event_exact [StateEventUp; StateEventDown] 3 demo_wait_world w' E).
  - intros ev. unfold subscribers_of. simpl. rewrite lookup_empty. by intros ?%elem_of_nil.
  - exists StateEventUp. split; [left|done].
Defined.
