(* ===== verification/Conditions.v ===== *)
(** * Waiting for services

    Models the waits of [internal/app/machined/pkg/system/service_events.go] in
    the timed world of [Runners]: [Wait] of a [serviceCondition], with the
    polling of [waitRegister] and the select of [waitEvent], and the
    conjunction of conditions ([conditions.WaitForAll] of the talos library,
    [vendor/github.com/siderolabs/talos/pkg/conditions/all.go]).  They are the
    conditions a service with dependencies waits for, so that [Run] of
    [ServiceRunner] can be stated for the dependencies the program has.

    When another service is registered and announces its events is the
    [Timeline]; that a subscriber is notified is the subject of
    [ServiceRunner.no_lost_wakeup]. *)

From stdpp Require Import pretty sorting.
From S2P Require Import Prelude Health ServiceEvents Runners ServiceRunner Services.

(** ** The other services *)

(** [registered_at service]: when [Load] puts the service into the singleton.
    [notified_at service ev t]: when a channel subscribed at [t] is notified of
    [ev]; at [t] itself when the service is in that state. *)
Class Timeline := {
  registered_at : string -> option Z;
  notified_at : string -> StateEvent -> Z -> option Z
}.

Class TimelineLaws `{Timeline} : Prop := {
  notified_after service ev t e : notified_at service ev t = Some e -> t <= e
}.

(** The first of several instants. *)
Definition earliest (l : list (option Z)) : option Z := foldr (union_with (fun a b => Some (Z.min a b))) None l.

Definition Millisecond : Z := 1000000.
Definition register_poll : Z := 100 * Millisecond.

(** [WaitConditionCheckInterval] (service_runner.go). *)
Definition WaitConditionCheckInterval : Z := Second.

(** ** The wait for one service *)

Section Wait.
Context `{Timeline} {E : Type}.
Implicit Types (w : world E) (sc : serviceCondition).

Definition registered_by (service : string) (t : Z) : bool :=
  match registered_at service with Some r => r <=? t | None => false end.

(** The [select] on the context and [notifyCh], which the subscriptions
    before it may have filled. *)
Definition waitEvent sc w : option (world E * option error) :=
  let notifyCh := earliest ((fun ev => notified_at (sc_service sc) ev (now w)) <$> sc_events sc) in
  '(cancelled, w) ← select2 (cancel_at w) notifyCh w;
  Some (w, if cancelled : bool then ctx_Err w else None).

(** The loop of [waitRegister]; the next tick is due at [tick].  [true]: the
    service is there; [false]: the context is done. *)
Fixpoint waitRegister_loop (fuel : nat) (service : string) (tick : Z) w : option (world E * bool) :=
  match fuel with
  | O => None
  | S fuel =>
    if registered_by service (now w) then Some (w, true)
    else
      '(cancelled, w) ← select2 (cancel_at w) (Some tick) w;
      if cancelled : bool then Some (w, false)
      else waitRegister_loop fuel service (tick + register_poll) w
  end.

(** The polls until the service is there or the context is done; without
    either, the loop does not end ([waitRegister_forever]). *)
Definition polls (service : string) w : nat :=
  match earliest [registered_at service; cancel_at w] with
  | Some t => Z.to_nat (Z.max 0 ((t - now w) / register_poll) + 3)
  | None => O
  end.

(** [waitRegister]: also the instant at which it resets [waitingRegister]. *)
Definition waitRegister sc w : option (world E * option Z * option error) :=
  '(w, found) ← waitRegister_loop (polls (sc_service sc) w) (sc_service sc) (now w + register_poll) w;
  if found : bool
  then '(w', err) ← waitEvent sc w; Some (w', Some (now w), err)
  else Some (w, None, ctx_Err w).

(** [Wait], with the instant from which [waitingRegister] is false. *)
Definition Wait sc w : option (world E * option Z * option error) :=
  if registered_by (sc_service sc) (now w)
  then '(w', err) ← waitEvent sc w; Some (w', Some (now w), err)
  else waitRegister sc w.

(** [String] at the instant [t] of a wait. *)
Definition String_at sc (found : option Z) (t : Z) : string :=
  let waiting := match found with Some f => t <? f | None => true end in
  serviceCondition_String (mkServiceCondition waiting (sc_events sc) (sc_service sc)).

(** The instants at which [waitFor] looks at the description, of a wait from
    [ts] to [te]. *)
Definition check_ticks (ts te : Z) : list Z :=
  (fun k => ts + Z.of_nat (S k) * WaitConditionCheckInterval)
    <$> seq 0 (Z.to_nat ((te - ts - 1) / WaitConditionCheckInterval)).

Definition service_condition sc : condition E :=
  mkCondition (serviceCondition_String sc) (fun w =>
    '(w', found, err) ← Wait sc w;
    Some (w', (fun t => (t, String_at sc found t)) <$> check_ticks (now w) (now w'), err)) None.

(** ** Conjunctions (all.go) *)

Definition newline : string := String (Ascii.ascii_of_nat 10) EmptyString.
Definition tab : string := String (Ascii.ascii_of_nat 9) EmptyString.

(** [multierror.ListFormatFunc]. *)
Definition ListFormatFunc (es : list error) : string :=
  match es with
  | [e] => "1 error occurred:" +:+ newline +:+ tab +:+ "* " +:+ Error e +:+ newline +:+ newline
  | _ => pretty (Z.of_nat (length es)) +:+ " errors occurred:" +:+ newline +:+ tab
           +:+ String.concat (newline +:+ tab) ((fun e => "* " +:+ Error e) <$> es) +:+ newline +:+ newline
  end.

(** The end of [all.Wait]: the results in the order they arrive; [==] compares
    the error values themselves. *)
Definition collect (errs : list error) : option error :=
  if decide (ESentinel context_Canceled ∈ errs) then Some (ESentinel context_Canceled)
  else match errs with [] => None | _ => Some (EMsg (ListFormatFunc errs)) end.

(** The goroutines: each condition is waited for from [ts]. *)
Fixpoint wait_each (l : list (condition E)) (ts : Z) w
    : option (world E * list (Z * list (Z * string) * option error)) :=
  match l with
  | [] => Some (w, [])
  | c :: l =>
    '(w, ticks, err) ← cond_Wait c (at_time ts w);
    let te := now w in
    '(w, rest) ← wait_each l ts w;
    Some (w, (te, ticks, err) :: rest)
  end.

(** At each tick of a wait from [ts] the descriptions of the conditions that are
    still waited for. *)
Definition join_ticks (ts : Z) (ticks : list (list (Z * string))) : list (Z * string) :=
  (fun k => (ts + Z.of_nat (S k) * WaitConditionCheckInterval,
             String.concat ", " (omap (fun l : list (Z * string) => snd <$> l !! k) ticks)))
    <$> seq 0 (foldr max O (length <$> ticks)).

Definition end_of (ts : Z) (results : list (Z * list (Z * string) * option error)) : Z :=
  foldr (fun r => Z.max (fst (fst r))) ts results.

Definition by_end (a b : Z * list (Z * string) * option error) : Prop := fst (fst a) <= fst (fst b).

#[export] Instance by_end_dec : RelDecision by_end.
Proof. intros a b. unfold by_end. apply _. Defined.

(** [if multi, ok := c.( *all); ok { ... }]. *)
Definition flatten (l : list (condition E)) : list (condition E) :=
  l ≫= (fun c => match cond_parts c with Some cs => cs | None => [c] end).

(** The [all] of conditions none of which is an [all]. *)
Definition all_of (l : list (condition E)) : condition E :=
  mkCondition (String.concat ", " (cond_String <$> l)) (fun w =>
    '(w', results) ← wait_each l (now w) w;
    Some (at_time (end_of (now w) results) w', join_ticks (now w) ((fun r => snd (fst r)) <$> results),
          collect (omap snd (merge_sort by_end results)))) (Some l).

(** [WaitForAll]. *)
Definition WaitForAll (l : list (condition E)) : condition E := all_of (flatten l).

(** What [Run] waits for: a service to announce one of the events. *)
Definition wait_for_service (events : list StateEvent) (service : string) : condition E :=
  service_condition (waitForService events service).

End Wait.

(** ** Lemmas on instants *)

Lemma earliest_cons a l :
  earliest (a :: l) = union_with (fun a b => Some (Z.min a b)) a (earliest l).
Proof. done. Qed.

Lemma earliest_is_Some l t : Some t ∈ l -> exists t', earliest l = Some t' /\ t' <= t.
Proof.
  induction l as [|a l IH]; [by intros ?%elem_of_nil|]. rewrite earliest_cons.
  intros [<-|(t' & -> & Hl)%IH]%elem_of_cons.
  - destruct (earliest l); simpl; eexists; (split; [done|lia]).
  - destruct a; simpl; eexists; (split; [done|lia]).
Qed.

Lemma earliest_elem l t : earliest l = Some t -> Some t ∈ l.
Proof.
  revert t. induction l as [|a l IH]; intros t; [done|]. rewrite earliest_cons.
  destruct a as [a|], (earliest l) as [t0|]; simpl; intros H; simplify_eq.
  - destruct (Z.min_spec a t0) as [[_ ->]|[_ ->]]; [left|right; auto].
  - left.
  - right. auto.
Qed.

(** ** Lemmas on the wait for one service *)

Section wait_lemmas.
Context `{TimelineLaws} {E : Type}.
Implicit Types (w : world E) (sc : serviceCondition).

Lemma quiet_trans w1 w2 w3 : quiet w1 w2 -> quiet w2 w3 -> quiet w1 w3.
Proof. intros [] []. split; [lia|congruence..]. Qed.

Lemma select2_quiet a b w c w' : select2 a b w = Some (c, w') -> quiet w w'.
Proof. intros (t & _ & Hn & _ & Hc & Hs & _)%select2_spec. split; [lia|done..]. Qed.

(** When a [select] takes the context, the context is done. *)
Lemma select2_cancelled b w w' :
  select2 (cancel_at w) b w = Some (true, w') -> ctx_Err w' = Some (ESentinel context_Canceled).
Proof.
  intros (t & Ht & Hn & _ & Hc & _)%select2_spec. simpl in Ht.
  apply (ctx_Err_Some w' t); [by rewrite Hc|lia].
Qed.

Lemma select2_by b w c w' t :
  cancel_at w = Some t -> select2 (cancel_at w) b w = Some (c, w') -> now w' <= Z.max (now w) t.
Proof.
  intros Hc (t1 & H1 & Hn & Hle & _)%select2_spec. destruct c.
  - simpl in H1. rewrite Hc in H1. injection H1 as <-. lia.
  - specialize (Hle t Hc). lia.
Qed.

Lemma waitEvent_spec sc w w' err :
  waitEvent sc w = Some (w', err) ->
  quiet w w' /\
  match err with
  | None => exists ev e, ev ∈ sc_events sc /\ notified_at (sc_service sc) ev (now w) = Some e /\ e <= now w'
  | Some e => e = ESentinel context_Canceled /\ is_Some (ctx_Err w')
  end.
Proof.
  unfold waitEvent. intros ([c w1] & HS & [= -> <-])%bind_Some.
  split; [by eapply select2_quiet|]. destruct c.
  - apply select2_cancelled in HS. rewrite HS. eauto.
  - apply select2_spec in HS as (t & Ht%earliest_elem & Hn & _).
    apply list_elem_of_fmap in Ht as (ev & He & Hin). exists ev, t. split; [done|]. split; [done|lia].
Qed.

Lemma waitEvent_stops sc w t :
  cancel_at w = Some t -> exists w' err, waitEvent sc w = Some (w', err) /\ now w' <= Z.max (now w) t.
Proof.
  intros Hc. unfold waitEvent.
  match goal with |- context [select2 _ ?b _] => destruct (select2_returns (cancel_at w) b w) as (c & w1 & HS) end;
    [rewrite Hc; by left|].
  rewrite HS. eexists _, _. split; [done|]. by eapply select2_by.
Qed.

(** Without a cancellation it ends when the first of the events is notified. *)
Lemma waitEvent_notified sc w ev e :
  cancel_at w = None -> ev ∈ sc_events sc -> notified_at (sc_service sc) ev (now w) = Some e ->
  exists w', waitEvent sc w = Some (w', None) /\ now w' <= e.
Proof.
  intros Hc Hev He. unfold waitEvent.
  destruct (earliest_is_Some ((fun ev => notified_at (sc_service sc) ev (now w)) <$> sc_events sc) e) as (t & Ht & Hle).
  { apply list_elem_of_fmap. eauto. }
  assert (now w <= t) as Hnt.
  { apply earliest_elem in Ht as (ev' & He' & _)%list_elem_of_fmap. by eapply notified_after. }
  rewrite Ht. unfold select2. rewrite Hc. simpl. eexists. split; [done|]. simpl. lia.
Qed.

Lemma waitRegister_loop_spec fuel service tick w w' b :
  waitRegister_loop fuel service tick w = Some (w', b) ->
  quiet w w' /\ (if b then registered_by service (now w') = true else ctx_Err w' = Some (ESentinel context_Canceled)).
Proof.
  revert tick w. induction fuel as [|fuel IH]; intros tick w; cbn [waitRegister_loop]; [done|].
  destruct (registered_by service (now w)) eqn:HR; [by intros [= <- <-]|].
  intros ([c w1] & HS & HL)%bind_Some. destruct c.
  - injection HL as <- <-. split; [by eapply select2_quiet|by eapply select2_cancelled].
  - apply IH in HL as [HQ HL]. split; [|done]. eapply quiet_trans; [by eapply select2_quiet|done].
Qed.

(** It returns once the service is there or the context is done. *)
Lemma waitRegister_loop_returns fuel service w m :
  (exists r, registered_at service = Some r /\ r <= m) \/ (exists c, cancel_at w = Some c /\ c <= m) ->
  m - now w < (Z.of_nat fuel - 1) * register_poll -> (0 < fuel)%nat ->
  exists w' b, waitRegister_loop fuel service (now w + register_poll) w = Some (w', b) /\
    (forall t, cancel_at w = Some t -> now w' <= Z.max (now w) t) /\
    (forall r, registered_at service = Some r -> now w' = now w \/ now w' < r + register_poll).
Proof.
  assert (0 < register_poll) as Hp by (unfold register_poll, Millisecond; lia).
  revert w. induction fuel as [|fuel IH]; intros w Hm Hf Hpos; [lia|]. cbn [waitRegister_loop].
  destruct (registered_by service (now w)) eqn:HR.
  { exists w, true. split; [done|]. split; intros; [lia|by left]. }
  destruct (select2_returns (cancel_at w) (Some (now w + register_poll)) w) as (c & w1 & HS); [right; eauto|].
  rewrite HS. cbn [mbind option_bind].
  destruct (select2_spec _ _ _ _ _ HS) as (t1 & H1 & Hn & Hle & Hc & _).
  assert (forall r, registered_at service = Some r -> now w < r) as Hr.
  { intros r Er. unfold registered_by in HR. rewrite Er in HR. by apply Z.leb_gt. }
  destruct c; simpl in H1.
  - exists w1, false. split; [done|]. split; [intros t Ht; by eapply select2_by|].
    intros r Er. specialize (Hle _ eq_refl). specialize (Hr r Er). right. lia.
  - injection H1 as <-. assert (now w1 = now w + register_poll) as Hn1 by lia. rewrite <-Hn1.
    assert (0 < fuel)%nat as Hf1.
    { destruct fuel; [|lia]. exfalso. destruct Hm as [(r & Er & ?)|(t & Et & ?)].
      - specialize (Hr r Er). lia.
      - specialize (Hle t Et). lia. }
    destruct (IH w1) as (w' & b & HL & HB1 & HB2); [by rewrite Hc|lia|done|].
    exists w', b. split; [done|]. rewrite Hc in HB1. split.
    + intros t Et. specialize (HB1 t Et). specialize (Hle t Et). lia.
    + intros r Er. specialize (HB2 r Er). specialize (Hr r Er). right. lia.
Qed.

Lemma polls_enough service w m :
  earliest [registered_at service; cancel_at w] = Some m ->
  ((exists r, registered_at service = Some r /\ r <= m) \/ (exists c, cancel_at w = Some c /\ c <= m)) /\
  m - now w < (Z.of_nat (polls service w) - 1) * register_poll /\ (0 < polls service w)%nat.
Proof.
  intros Hm. unfold polls. rewrite Hm. apply earliest_elem in Hm as Hin. split.
  - apply elem_of_cons in Hin as [Hin|[Hin|[]%elem_of_nil]%elem_of_cons].
    + left. exists m. split; [done|lia].
    + right. exists m. split; [done|lia].
  - rewrite Z2Nat.id by lia. assert (0 < register_poll) as Hp by (unfold register_poll, Millisecond; lia).
    pose proof (Z.mul_succ_div_gt (m - now w) register_poll Hp). split; [|lia]. nia.
Qed.

(** Without a registration and without a cancellation the polling never ends. *)
Lemma waitRegister_forever fuel service tick w :
  registered_at service = None -> cancel_at w = None -> waitRegister_loop fuel service tick w = None.
Proof.
  intros HR. revert tick w. induction fuel as [|fuel IH]; intros tick w Hc; cbn [waitRegister_loop]; [done|].
  unfold registered_by. rewrite HR.
  destruct (select2 (cancel_at w) (Some tick) w) as [[c w1]|] eqn:HS; [|done]. cbn [mbind option_bind].
  destruct (select2_spec _ _ _ _ _ HS) as (t1 & H1 & _ & _ & Hc1 & _).
  destruct c; [by rewrite Hc in H1|]. apply IH. congruence.
Qed.

Lemma Wait_spec sc w w' found err :
  Wait sc w = Some (w', found, err) ->
  quiet w w' /\
  match err with
  | None => exists ts ev e, now w <= ts /\ registered_by (sc_service sc) ts = true /\ ev ∈ sc_events sc /\
      notified_at (sc_service sc) ev ts = Some e /\ e <= now w'
  | Some e => e = ESentinel context_Canceled /\ is_Some (ctx_Err w')
  end.
Proof.
  unfold Wait, waitRegister. destruct (registered_by (sc_service sc) (now w)) eqn:HR.
  - intros ([w1 e1] & (HQ & HE)%waitEvent_spec & [= <- <- <-])%bind_Some. split; [done|].
    destruct e1; [done|]. destruct HE as (ev & e & ? & ? & ?). exists (now w), ev, e. split_and!; done || lia.
  - intros ([w1 b] & (HQ & HB)%waitRegister_loop_spec & HW)%bind_Some. destruct b.
    + apply bind_Some in HW as ([w2 e2] & (HQ2 & HE)%waitEvent_spec & [= <- <- <-]).
      split; [by eapply quiet_trans|]. destruct e2; [done|]. destruct HE as (ev & e & ? & ? & ?).
      exists (now w1), ev, e. split_and!; try done. by destruct HQ.
    + injection HW as <- <- <-. rewrite HB. eauto.
Qed.

Lemma Wait_stops sc w t :
  cancel_at w = Some t -> exists w' found err, Wait sc w = Some (w', found, err) /\ now w' <= Z.max (now w) t.
Proof.
  intros Hc. unfold Wait, waitRegister. destruct (registered_by (sc_service sc) (now w)).
  - destruct (waitEvent_stops sc w t Hc) as (w' & err & -> & Hn). eexists _, _, _. split; [done|done].
  - destruct (earliest_is_Some [registered_at (sc_service sc); cancel_at w] t) as (m & Hm & _);
      [rewrite Hc; by right; left|].
    destruct (polls_enough _ _ _ Hm) as (H1 & H2 & H3).
    destruct (waitRegister_loop_returns _ _ w m H1 H2 H3) as (w1 & b & HL & HB & _). rewrite HL. cbn [mbind option_bind].
    apply waitRegister_loop_spec in HL as [[_ Hc1 _] _]. specialize (HB t Hc). destruct b.
    + destruct (waitEvent_stops sc w1 t) as (w' & err & -> & Hn); [congruence|]. eexists _, _, _. split; [done|lia].
    + eexists _, _, _. split; [done|done].
Qed.

(** A service that is loaded, and notifies whoever subscribes by [u]. *)
Lemma Wait_succeeds sc w r u :
  cancel_at w = None -> registered_at (sc_service sc) = Some r ->
  (forall t, r <= t -> exists ev e, ev ∈ sc_events sc /\ notified_at (sc_service sc) ev t = Some e /\ e <= Z.max t u) ->
  exists w' found, Wait sc w = Some (w', found, None) /\ now w' <= Z.max (Z.max (now w) r + register_poll) u.
Proof.
  intros Hc Hr Hu. unfold Wait, waitRegister. destruct (registered_by (sc_service sc) (now w)) eqn:HR.
  - assert (r <= now w) as Hrw by (unfold registered_by in HR; rewrite Hr in HR; by apply Z.leb_le).
    destruct (Hu (now w) Hrw) as (ev & e & H1 & H2 & H3).
    destruct (waitEvent_notified sc w ev e Hc H1 H2) as (w' & -> & Hn). eexists _, _. split; [done|].
    assert (0 < register_poll) by (unfold register_poll, Millisecond; lia). lia.
  - destruct (earliest_is_Some [registered_at (sc_service sc); cancel_at w] r) as (m & Hm & _);
      [rewrite Hr; by left|].
    destruct (polls_enough _ _ _ Hm) as (H1 & H2 & H3).
    destruct (waitRegister_loop_returns _ _ w m H1 H2 H3) as (w1 & b & HL & _ & HB). rewrite HL. cbn [mbind option_bind].
    specialize (HB r Hr). apply waitRegister_loop_spec in HL as [[_ Hc1 _] Hb]. destruct b.
    + assert (r <= now w1) as Hrw by (unfold registered_by in Hb; rewrite Hr in Hb; by apply Z.leb_le).
      destruct (Hu (now w1) Hrw) as (ev & e & G1 & G2 & G3).
      destruct (waitEvent_notified sc w1 ev e) as (w' & -> & Hn); [congruence|done..|]. eexists _, _. split; [done|].
      destruct HB; unfold register_poll, Millisecond in *; lia.
    + unfold ctx_Err in Hb. rewrite Hc1, Hc in Hb. done.
Qed.

#[export] Instance service_condition_laws sc : ConditionLaws (E := E) (service_condition sc).
Proof. split; [|done]. intros w w' ticks e. simpl. by intros ([[w1 f] e1] & (HQ & _)%Wait_spec & [= <- _ _])%bind_Some. Qed.

#[export] Instance service_condition_stops sc b : 0 <= b -> ConditionStops (E := E) (service_condition sc) b.
Proof.
  intros Hb. split; [|done]. intros w t Hc. simpl. destruct (Wait_stops sc w t Hc) as (w' & f & e & -> & Hn).
  eexists _, _, _. split; [done|]. lia.
Qed.

End wait_lemmas.

(** ** Lemmas on conjunctions *)

Section all_lemmas.
Context {E : Type}.
Implicit Types (w : world E) (c : condition E).

(** One condition of a conjunction that is waited for from [ts]. *)
Definition waited (ts : Z) w c (r : Z * list (Z * string) * option error) : Prop :=
  exists wc wc', now wc = ts /\ cancel_at wc = cancel_at w /\
    cond_Wait c wc = Some (wc', snd (fst r), snd r) /\ now wc' = fst (fst r).

Lemma wait_each_spec l ts w w' rs :
  Forall waits_quietly l -> wait_each l ts w = Some (w', rs) ->
  cancel_at w' = cancel_at w /\ sink w' = sink w /\ Forall2 (waited ts w) l rs.
Proof.
  revert w rs. induction l as [|c l IH]; intros w rs; cbn [wait_each]; [by intros _ [= <- <-]|].
  intros [HL HLs]%Forall_cons ([[w1 ticks] err] & HW & HR)%bind_Some.
  apply bind_Some in HR as ([w2 rest] & HE & [= <- <-]). pose proof (HL _ _ _ _ HW) as [_ Hc Hs].
  destruct (IH w1 rest HLs HE) as (Hc2 & Hs2 & HF). simpl in *. split; [congruence|]. split; [congruence|].
  constructor; [by exists (at_time ts w), w1|].
  eapply Forall2_impl; [exact HF|]. intros c' r (wc & wc' & ? & ? & ? & ?). exists wc, wc'. split_and!; congruence.
Qed.

Lemma wait_each_stops l ts w t b :
  Forall waits_quietly l -> Forall (gives_up b) l -> cancel_at w = Some t ->
  exists w' rs, wait_each l ts w = Some (w', rs) /\ Forall (fun r => fst (fst r) <= Z.max ts t + b) rs.
Proof.
  intros HL. revert w. induction HL as [|c l HC HL IH]; intros w HS Hc; cbn [wait_each].
  { eexists _, _. split; [done|by constructor]. }
  apply Forall_cons in HS as [HS HSs].
  destruct (HS (at_time ts w) t Hc) as (w1 & ticks & e & HW & Hn). rewrite HW. cbn [mbind option_bind].
  pose proof (HC _ _ _ _ HW) as [_ Hc1 _]. simpl in *.
  destruct (IH w1 HSs) as (w2 & rs & -> & HF); [congruence|]. cbn [mbind option_bind].
  eexists _, _. split; [done|]. by constructor.
Qed.

Lemma end_of_ge ts rs : ts <= end_of ts rs /\ Forall (fun r => fst (fst r) <= end_of ts rs) rs.
Proof.
  induction rs as [|r rs [H1 H2]]; simpl; [by split; [lia|]|]. split; [lia|]. constructor; [lia|].
  eapply Forall_impl; [done|]. simpl. lia.
Qed.

Lemma end_of_le ts rs m : ts <= m -> Forall (fun r => fst (fst r) <= m) rs -> end_of ts rs <= m.
Proof. intros Ht. induction 1; simpl; lia. Qed.

Lemma flatten_Forall (P : condition E -> Prop) l :
  Forall (fun c => P c /\ forall cs, cond_parts c = Some cs -> Forall P cs) l -> Forall P (flatten l).
Proof.
  intros HF. apply Forall_bind. eapply Forall_impl; [exact HF|]. intros c [H1 H2].
  cbn. destruct (cond_parts c) as [cs|]; [by apply H2|by apply Forall_singleton].
Qed.

Lemma flatten_quiet l : Forall (@ConditionLaws E) l -> Forall waits_quietly (flatten l).
Proof. intros HL. apply flatten_Forall. eapply Forall_impl; [exact HL|]. by intros c [H1 H2]. Qed.

(** A conjunction of services is flat. *)
Lemma flatten_id l : Forall (fun c => cond_parts c = None) l -> flatten l = l.
Proof. induction 1 as [|c l Hc Hl IH]; [done|]. unfold flatten in *. cbn. by rewrite Hc, IH. Qed.

#[export] Instance WaitForAll_laws l : Forall (@ConditionLaws E) l -> ConditionLaws (WaitForAll l).
Proof.
  intros HL%flatten_quiet. split; [|by intros cs [= <-]]. intros w w' ticks e. simpl.
  intros ([w1 rs] & (Hc & Hs & _)%wait_each_spec & [= <- _ _])%bind_Some; [|done].
  pose proof (end_of_ge (now w) rs) as [H1 _]. by split.
Qed.

#[export] Instance WaitForAll_stops l b : 0 <= b ->
  Forall (@ConditionLaws E) l -> Forall (fun c => ConditionStops c b) l -> ConditionStops (WaitForAll l) b.
Proof.
  intros Hb HL%flatten_quiet HS.
  assert (Forall (gives_up b) (flatten l)) as HS' by (apply flatten_Forall; eapply Forall_impl; [exact HS|]; by intros c [H1 H2]).
  split; [|by intros cs [= <-]].
  intros w t Hc. simpl. destruct (wait_each_stops (flatten l) (now w) w t b HL HS' Hc) as (w' & rs & -> & HF).
  eexists _, _, _. split; [done|]. simpl. apply end_of_le; [lia|done].
Qed.

Lemma collect_None errs : collect errs = None -> errs = [].
Proof. unfold collect. case_decide; [done|]. by destruct errs. Qed.

(** A conjunction succeeds only when each of its conditions has. *)
Lemma WaitForAll_success l w w' ticks c :
  Forall ConditionLaws l -> cond_Wait (WaitForAll l) w = Some (w', ticks, None) -> c ∈ flatten l ->
  exists wc wc' tk, now wc = now w /\ cond_Wait c wc = Some (wc', tk, None) /\ now wc' <= now w'.
Proof.
  intros HL%flatten_quiet. simpl. intros ([w1 rs] & HW & HR)%bind_Some Hc. apply wait_each_spec in HW as (_ & _ & HF); [|done].
  assert (now w' = end_of (now w) rs /\ collect (omap snd (merge_sort by_end rs)) = None) as [Hn' HE%collect_None]
    by (by simplify_eq/=). clear HR.
  apply list_elem_of_lookup in Hc as [i Hi].
  destruct (Forall2_lookup_l _ _ _ _ _ HF Hi) as (r & Hr & wc & wc' & Ht & _ & HWc & Hn).
  exists wc, wc', (snd (fst r)). split; [done|].
  assert (snd r = None) as <-.
  { destruct (snd r) as [e|] eqn:He; [|done]. exfalso.
    assert (e ∈ omap snd (merge_sort by_end rs)) as Hin; [|rewrite HE in Hin; by apply elem_of_nil in Hin].
    apply list_elem_of_omap. exists r. split; [|done]. rewrite merge_sort_Permutation. by eapply list_elem_of_lookup_2. }
  split; [done|]. rewrite Hn, Hn'. pose proof (end_of_ge (now w) rs) as [_ HG].
  rewrite Forall_lookup in HG. by apply (HG i).
Qed.

End all_lemmas.

(** ** The preparation of a service *)

(** Time goes forward, and what is newly reported as preparing is not stamped
    before. *)
Definition stamped {E} (w w' : world E) : Prop :=
  now w <= now w' /\
  exists l, sink w' = sink w ++ l /\ Forall (fun ev => fst (snd ev) = StatePreparing -> now w <= fst ev) l.

Section stamped.
Context {E : Type}.
Implicit Types w : world E.

#[export] Instance stamped_preorder : PreOrder (@stamped E).
Proof.
  split.
  - intros w. split; [lia|]. exists []. by rewrite app_nil_r.
  - intros w1 w2 w3 (H1 & l1 & H2 & F1) (H3 & l2 & H4 & F2). split; [lia|]. exists (l1 ++ l2).
    rewrite H4, H2, app_assoc. split; [done|]. apply Forall_app. split; [done|].
    eapply Forall_impl; [exact F2|]. simpl. intros ev Hev Hp. specialize (Hev Hp). lia.
Qed.

Lemma stamped_report s m w : stamped w (ServiceRunner.report s m w).
Proof. split; [simpl; lia|]. exists [(now w, (s, m))]. split; [done|]. apply Forall_singleton. simpl. lia. Qed.

Lemma stamped_quiet w w' : quiet w w' -> stamped w w'.
Proof. intros [H1 _ H2]. split; [done|]. exists []. by rewrite H2, app_nil_r. Qed.

(** Reports of other states are no preparation. *)
Lemma stamped_reports w w' l : reports w w' l -> StatePreparing ∉ l -> stamped w w'.
Proof.
  intros (H1 & _ & evs & H2 & ->) Hn. split; [done|]. exists evs. split; [done|]. apply Forall_forall.
  intros ev Hev Hp. exfalso. apply Hn. apply list_elem_of_fmap. eauto.
Qed.

Lemma run_prepare_stamped (svc : Service E) s0 w w' res :
  ServiceLaws svc -> run_prepare svc s0 w = Some (w', res) -> stamped w w'.
Proof.
  intros HL. unfold run_prepare. pose proof (stamped_report StatePreparing "Running pre state" w) as H0. revert H0.
  generalize (ServiceRunner.report StatePreparing "Running pre state" w). intros w0 H0.
  destruct (PreFunc svc w0) as [w1 e] eqn:EP. apply sl_pre, stamped_quiet in EP.
  destruct e; [intros [= <- _]; by etrans|].
  destruct (Runner_ svc (ServiceRunner.report StatePreparing "Creating service runner" w1)) as [w2 rr] eqn:ER.
  pose proof (sl_runner _ _ _ ER) as HQ%stamped_quiet.
  assert (stamped w w2) as H2 by (do 2 (etrans; [done|]); etrans; [apply stamped_report|exact HQ]).
  destruct rr as [e|rn]; [by intros [= <- _]|]. intros HR.
  destruct (run_runner_reports svc s0 rn w2 _ w' res HL ER HR) as (runs & posts & HRep & HF & HP).
  etrans; [exact H2|]. eapply stamped_reports; [exact HRep|]. rewrite elem_of_app. intros [Hin|Hin].
  - rewrite Forall_forall in HF. specialize (HF _ Hin). unfold runner_event in HF. set_solver.
  - destruct HP as [-> | ->]; set_solver.
Qed.

End stamped.

(** ** The condition of a service with dependencies *)

Section run_condition.
Context `{TimelineLaws} {E : Type} (svc : Service E).
Implicit Types w : world E.

Lemma dependencies_laws deps : Forall (@ConditionLaws E) ((fun dep => wait_for_service [StateEventUp] dep) <$> deps).
Proof. apply Forall_fmap, Forall_forall. intros dep _. apply service_condition_laws. Qed.

Lemma dependencies_stops deps b : 0 <= b ->
  Forall (fun c : condition E => ConditionStops c b) ((fun dep => wait_for_service [StateEventUp] dep) <$> deps).
Proof. intros. apply Forall_fmap, Forall_forall. intros dep _. by apply service_condition_stops. Qed.

Lemma run_condition_laws c :
  (forall c, Condition svc = Some c -> ConditionLaws c) ->
  run_condition wait_for_service WaitForAll svc = Some c -> ConditionLaws c.
Proof.
  intros HC. unfold run_condition. destruct (DependsOn svc) as [|d ds]; [apply HC|]. intros [= <-].
  apply WaitForAll_laws. constructor; [apply (WaitForAll_laws _ (dependencies_laws (d :: ds)))|].
  destruct (Condition svc); simpl; constructor; auto.
Qed.

Lemma run_condition_stops c b : 0 <= b ->
  (forall c, Condition svc = Some c -> ConditionLaws c /\ ConditionStops c b) ->
  run_condition wait_for_service WaitForAll svc = Some c -> ConditionStops c b.
Proof.
  intros Hb HC. unfold run_condition. destruct (DependsOn svc) as [|d ds]; [apply HC|]. intros [= <-].
  apply WaitForAll_stops; [done|..]; constructor.
  - apply (WaitForAll_laws _ (dependencies_laws (d :: ds))).
  - destruct (Condition svc) as [c|] eqn:Hc; simpl; constructor; [by apply HC|done].
  - apply (WaitForAll_stops _ b Hb (dependencies_laws (d :: ds)) (dependencies_stops (d :: ds) b Hb)).
  - destruct (Condition svc) as [c|] eqn:Hc; simpl; constructor; [by apply HC|done].
Qed.

(** A dependency was registered and announced that it is up, in this order,
    between the two instants. *)
Definition up_between (dep : string) (from to : Z) : Prop :=
  exists ts e, from <= ts /\ registered_by dep ts = true /\
    notified_at dep StateEventUp ts = Some e /\ ts <= e /\ e <= to.

Lemma dependencies_up deps own w w' ticks :
  Forall ConditionLaws own ->
  cond_Wait (WaitForAll (WaitForAll ((fun dep => wait_for_service [StateEventUp] dep) <$> deps) :: own)) w
    = Some (w', ticks, None) ->
  forall dep, dep ∈ deps -> up_between dep (now w) (now w').
Proof.
  intros HO HW dep Hdep. pose proof (dependencies_laws deps) as HD.
  destruct (WaitForAll_success _ w w' ticks (wait_for_service [StateEventUp] dep)
    (Forall_cons_2 _ _ _ (WaitForAll_laws _ HD) HO) HW)
    as (w3 & w4 & tk' & N3 & HW3 & N4).
  { apply elem_of_app. left. cbn [cond_parts WaitForAll all_of]. rewrite flatten_id; [by apply list_elem_of_fmap_2|].
    by apply Forall_fmap, Forall_forall. }
  simpl in HW3. apply bind_Some in HW3 as ([[w5 f] e] & (HQ & HE)%Wait_spec & HR).
  assert (w5 = w4 /\ e = None) as [-> ->] by (by simplify_eq/=).
  destruct HE as (ts & ev & e & H1 & H2 & Hev & H4 & H5). simpl in *.
  apply list_elem_of_singleton in Hev as ->. exists ts, e. split_and!; [lia|done|done|by eapply notified_after|lia].
Qed.

Lemma stamped_after w1 w2 (P : Z -> Prop) :
  stamped w1 w2 -> (forall t, now w1 <= t -> P t) ->
  exists l, sink w2 = sink w1 ++ l /\ Forall (fun ev => fst (snd ev) = StatePreparing -> P (fst ev)) l.
Proof.
  intros (_ & l & Hs & HF) HP. exists l. split; [done|]. eapply Forall_impl; [done|]. simpl. auto.
Qed.

Lemma no_preparing l (P : Z * (ServiceState * string) -> Prop) :
  Forall (eq StateWaiting) ((fun ev : Z * (ServiceState * string) => fst (snd ev)) <$> l) ->
  Forall (fun ev => fst (snd ev) = StatePreparing -> P ev) l.
Proof.
  intros HF. rewrite Forall_fmap in HF. eapply Forall_impl; [exact HF|].
  simpl. intros ev Hev Hp. simpl in Hev. congruence.
Qed.

(** What holds from the end of the condition on holds whenever the service is
    reported as preparing. *)
Lemma Run_prepares wfs wfa s0 w w' res (P : Z -> Prop) :
  ServiceLaws svc -> (forall c, run_condition wfs wfa svc = Some c -> ConditionLaws c) ->
  (run_condition wfs wfa svc = None -> forall t, now w <= t -> P t) ->
  (forall c w0 w1 ticks, run_condition wfs wfa svc = Some c -> now w0 = now w ->
     cond_Wait c w0 = Some (w1, ticks, None) -> forall t, now w1 <= t -> P t) ->
  Run wfs wfa svc s0 w = Some (w', res) ->
  exists l, sink w' = sink w ++ l /\ Forall (fun ev => fst (snd ev) = StatePreparing -> P (fst ev)) l.
Proof.
  intros HL HC HN HS HR. unfold Run in HR. set (w0 := ServiceRunner.report _ _ w) in HR.
  assert (sink w0 = sink w ++ [(now w, (StateStarting, "Starting service"))] /\ now w0 = now w) as [S0 N0] by done.
  clearbody w0. destruct (run_condition wfs wfa svc) as [c|].
  2:{ apply run_prepare_stamped in HR; [|done]. destruct (stamped_after w0 w' P HR) as (l & Hs & HF); [rewrite N0; auto|].
      eexists. rewrite Hs, S0, <-app_assoc. split; [done|]. apply Forall_app. split; [by apply Forall_singleton|done]. }
  apply bind_Some in HR as ([w1 e] & HW & HR).
  pose proof (waitFor_reports c _ _ _ (HC c eq_refl) HW) as (l1 & (_ & _ & evs1 & S1 & ->) & HF1 & _).
  assert (exists l2, sink w' = sink w1 ++ l2 /\ Forall (fun ev => fst (snd ev) = StatePreparing -> P (fst ev)) l2)
    as (l2 & S2 & HF2).
  { destruct e as [e|]; [injection HR as <- _; exists []; by rewrite app_nil_r|].
    apply run_prepare_stamped in HR; [|done]. apply (stamped_after w1 w' P HR).
    unfold waitFor in HW. apply bind_Some in HW as ([[w2 ticks] e] & HW & HX).
    destruct (waitFor_ticks_reports (cond_String c) ticks w2) as (_ & _ & _ & Hnt).
    assert (w1 = waitFor_ticks (cond_String c) ticks w2 /\ e = None) as [-> ->] by (by simplify_eq/=).
    rewrite Hnt. exact (HS c (ServiceRunner.report StateWaiting _ w0) w2 ticks eq_refl N0 HW). }
  eexists. rewrite S2, S1, S0, <-!app_assoc. split; [done|].
  apply Forall_app. split; [by apply Forall_singleton|]. apply Forall_app. split; [by apply no_preparing|done].
Qed.

End run_condition.

(** ** Properties *)

(** C3: Waiting for a service.  [Wait] ends at once when its context is
    cancelled, and then with the context's error; it succeeds only after the
    service was registered and notified one of the events to the wait's own
    subscription; and a service that is registered and announces one of them
    is noticed, at most one poll after it is registered. *)
Theorem service_wait_exact `{TimelineLaws} {E} (sc : serviceCondition) (w : world E) :
  (forall t, cancel_at w = Some t ->
     exists w' found err, Wait sc w = Some (w', found, err) /\ now w' <= Z.max (now w) t) /\
  (forall w' found, Wait sc w = Some (w', found, None) ->
     exists ts ev e, now w <= ts /\ registered_by (sc_service sc) ts = true /\ ev ∈ sc_events sc /\
       notified_at (sc_service sc) ev ts = Some e /\ e <= now w') /\
  (forall w' found e, Wait sc w = Some (w', found, Some e) ->
     e = ESentinel context_Canceled /\ is_Some (ctx_Err w')) /\
  (forall r u, cancel_at w = None -> registered_at (sc_service sc) = Some r ->
     (forall t, r <= t -> exists ev e, ev ∈ sc_events sc /\ notified_at (sc_service sc) ev t = Some e /\ e <= Z.max t u) ->
     exists w' found, Wait sc w = Some (w', found, None) /\ now w' <= Z.max (Z.max (now w) r + register_poll) u).
Proof.
  split_and!.
  - intros t. apply Wait_stops.
  - intros w' found HW. by apply Wait_spec in HW as [_ HW].
  - intros w' found e HW. by apply Wait_spec in HW as [_ HW].
  - intros r u. apply Wait_succeeds.
Qed.

(** C4: Dependencies first.  Whatever a service's own condition is, its
    pre-stage begins only after every service it depends on was registered and
    has announced that it is up, both since this run began. *)
Theorem dependencies_first `{TimelineLaws} {E} (svc : Service E) s0 w w' res :
  ServiceLaws svc -> (forall c, Condition svc = Some c -> ConditionLaws c) ->
  Run wait_for_service WaitForAll svc s0 w = Some (w', res) ->
  exists l, sink w' = sink w ++ l /\
    Forall (fun ev => fst (snd ev) = StatePreparing ->
      forall dep, dep ∈ DependsOn svc -> up_between dep (now w) (fst ev)) l.
Proof.
  intros HL HC. apply (Run_prepares svc _ _ s0 w w' res (fun t => forall dep, dep ∈ DependsOn svc -> up_between dep (now w) t));
    [done|intros c; by apply run_condition_laws|..]; unfold run_condition.
  - destruct (DependsOn svc); [|done]. intros _ t _ dep ?%elem_of_nil. done.
  - intros c w0 w1 ticks. destruct (DependsOn svc) as [|d ds]; [intros _ _ _ t _ dep ?%elem_of_nil; done|].
    intros [= <-] Hn HW t Ht dep Hdep.
    destruct (dependencies_up (d :: ds) (option_list (Condition svc)) w0 w1 ticks) with (dep := dep) as (ts & e & ? & ? & ? & ? & ?);
      [destruct (Condition svc) eqn:Hc; simpl; constructor; auto|done|done|].
    exists ts, e. split_and!; done || lia.
Qed.

(** ** Concrete runs *)

Module DemoConditions.

(** udevd is loaded at 250 ms and up from 2 s on; nothing else is there. *)
#[export] Instance demo_timeline : Timeline := {|
  registered_at service := if decide (service = "udevd") then Some (250 * Millisecond) else None;
  notified_at service ev t :=
    if decide (service = "udevd" /\ ev = StateEventUp) then Some (Z.max t (2 * Second)) else None
|}.

#[export] Instance demo_timeline_laws : TimelineLaws.
Proof. split. intros service ev t e. simpl. case_decide; [|done]. intros [= <-]. lia. Qed.

(** Depends on udevd, and runs a goroutine. *)
Definition demo_dependent : Service unit :=
  mkService "tailscaled" (fun w => (w, None))
    (fun w => (w, inr (Some (Goroutine.NewRunner "demo" demo_main []))))
    (fun _ w => (w, None)) None ["udevd"] None.

Lemma demo_dependent_laws : ServiceLaws demo_dependent.
Proof.
  split; simpl; intros; simplify_eq; try (by constructor).
  - apply GoroutineLaws.goroutine_laws.
  - by injection H0 as <- _.
  - by injection H0 as <- _.
Qed.

(** The wait ends at 2 s, after the polls at 100, 200 and 300 ms. *)
Lemma service_wait_exact_witness :
  exists w' found, Wait (waitForService [StateEventUp] "udevd") (demo_start None) = Some (w', found, None) /\
    now w' <= 2 * Second.
Proof.
  refine (proj2 (proj2 (proj2 (service_wait_exact (H := demo_timeline) (E := unit)
    (waitForService [StateEventUp] "udevd") (demo_start None)))) (250 * Millisecond) (2 * Second) eq_refl _ _).
  - by vm_compute.
  - intros t Ht. exists StateEventUp, (Z.max t (2 * Second)). split; [left|]. simpl. split; [done|lia].
Defined.

Lemma dependencies_first_witness :
  exists w' res l, Run wait_for_service WaitForAll demo_dependent StateInitialized (demo_start None) = Some (w', res) /\
    sink w' = l /\ StatePreparing ∈ (fun ev => fst (snd ev)) <$> l /\
    Forall (fun ev => fst (snd ev) = StatePreparing ->
      forall dep, dep ∈ ["udevd"] -> up_between dep 0 (fst ev)) l.
Proof.
  destruct (Run wait_for_service WaitForAll demo_dependent StateInitialized (demo_start None)) as [[w' res]|] eqn:ER;
    [|vm_compute in ER; discriminate].
  destruct (dependencies_first demo_dependent StateInitialized (demo_start None) w' res demo_dependent_laws
    (fun c (Hc : None = Some c) => match Hc in _ = o return match o with Some _ => ConditionLaws c | None => True end with eq_refl => I end)
    ER) as (l & Hl & HF).
  exists w', res, l. split; [done|]. split; [exact Hl|]. split; [|exact HF].
  simpl in Hl. rewrite <-Hl. vm_compute in ER. injection ER as <- _. vm_compute. do 2 right. left.
Defined.

End DemoConditions.
