(* ===== verification/ServiceDefs.v ===== *)
(** * The services of the system: udevd, apid and tailscaled

    Models [internal/app/machined/pkg/system/services] ([udevd.go], [apid.go],
    [tailscaled.go]): the three services as instances of [Service] of
    [ServiceRunner], with the runners and options they choose, their health
    checks, and the main function of apid.  The health check of udevd keeps a
    state of its own across checks ([Udevd]); it is a function on that state in
    a timed world. *)

From S2P Require Import Prelude Health ServiceEvents Runners HealthLoop ServiceRunner Services Conditions.

(** ** What the services call *)

(** [os.MkdirAll]; the commands run by the go-cmd library, given when the
    context of the command is done: when they end, and their error. *)
Class ServiceSystem := {
  os_MkdirAll : string -> Z -> Z -> option error;
  run_command : string -> list string -> Z -> option Z -> Z * option error
}.

Definition MkdirAll `{ServiceSystem} (path : string) (mode : Z) (w : world proc_env) : world proc_env * option error :=
  (w, os_MkdirAll path mode (now w)).

(** [cmd.RunWithOptions(ctx, name, args)]. *)
Definition RunWithOptions `{ServiceSystem} (name : string) (args : list string) (w : world proc_env)
    : world proc_env * option error :=
  let '(t, err) := run_command name args (now w) (cancel_at w) in (at_time t w, err).

(** A check without a state, given when its context is done. *)
Definition stateless_check (HealthFunc : Z -> option Z -> Z * option error) (deadline : Z) (w : world unit)
    : option (world unit * option error) :=
  let '(t, err) := HealthFunc (now w) (earliest [cancel_at w; Some deadline]) in Some (at_time t w, err).

(** ** A restarted runner with the fuel its context allows *)

Section restarted.
Context {E : Type} (r : Restart.restarter E).
Implicit Types w : world E.

(** One attempt per restart interval until the cancellation, and one more. *)
Definition restart_fuel w : nat :=
  match cancel_at w with
  | Some t => S (Z.to_nat (Z.max 0 ((t - now w) / Restart.RestartInterval (Restart.opts r) + 1)))
  | None => O
  end.

Definition restarted : Runner E :=
  mkRunner (Restart.restart_Open r) (fun w => Restart.Run_loop r (restart_fuel w) w) (Restart.restart_Close r)
    (Restart.restart_String r).

End restarted.

(** ** tailscaled (tailscaled.go) *)

Module Tailscaled.

Definition ID : string := "tailscaled".

Section Tailscaled.
Context `{ServiceSystem} `{OS} (logging : string).
Implicit Types w : world proc_env.

Definition PreFunc w : world proc_env * option error :=
  match MkdirAll "/run/tailscale-logs" 448 w with   (* 0700 *)
  | (w, Some err) => (w, Some err)
  | (w, None) => (w, None)
  end.

Definition PostFunc (s : ServiceState) w : world proc_env * option error := (w, None).
Definition DependsOn : list string := ["udevd"].
Definition Volumes : list string := [].

Definition args : Args := mkArgs ID ["/usr/sbin/tailscaled"; "--statedir=/run"; "--state=mem:"].

Definition options : list Option :=
  [WithLoggingManager logging; WithEnv ["PATH=/usr/sbin"; "TS_LOGS_DIR=/run/tailscale-logs"]].

Definition restarter : Restart.restarter proc_env :=
  Restart.New (Process.NewRunner args options) [Restart.WithType Restart.Forever].

Definition Runner_ w : world proc_env * (error + option (Runner proc_env)) := (w, inr (Some (restarted restarter))).

(** The check always succeeds. *)
Definition HealthFunc (t : Z) (done_at : option Z) : Z * option error := (t, None).

Definition HealthSettings : Health.Settings := Health.mkSettings (1 * Second) (10 * Second) (5 * Second).

(** [picks] are the choices of the [select]s of [health.Run]. *)
Definition service (picks : list bool) : Service proc_env :=
  mkService ID PreFunc Runner_ PostFunc None DependsOn (Some (run_end (stateless_check HealthFunc) HealthSettings tt picks)).

End Tailscaled.

End Tailscaled.

(** ** udevd (udevd.go) *)

(** Constants of [talos/pkg/machinery/constants]. *)
Definition CgroupUdevd : string := "system/udevd".
Definition SelinuxLabelUdevd : string := "system_u:system_r:udev_t:s0".
Definition UdevdDroppedCapabilities : list string := ["cap_sys_boot"].
Definition EnvXDGRuntimeDir : string := "XDG_RUNTIME_DIR=/run".

Module Udevd.

Definition ID : string := "udevd".

Section Udevd.
Context `{ServiceSystem} `{OS} (logging : string).
Implicit Types w : world proc_env.

Definition PreFunc w : world proc_env * option error :=
  RunWithOptions "/sbin/udevadm" ["hwdb"; "--update"; "--root=/run"] w.

Definition PostFunc (s : ServiceState) w : world proc_env * option error := (w, None).
Definition DependsOn : list string := [].
Definition Volumes : list string := [].

Definition args : Args := mkArgs ID ["/sbin/udevd"; "--resolve-names=never"].

Definition options : list Option :=
  [WithLoggingManager logging; WithCgroupPath CgroupUdevd; WithSelinuxLabel SelinuxLabelUdevd;
   WithDroppedCapabilities UdevdDroppedCapabilities; WithEnv [EnvXDGRuntimeDir]].

Definition restarter : Restart.restarter proc_env :=
  Restart.New (Process.NewRunner args options) [Restart.WithType Restart.Forever].

Definition Runner_ w : world proc_env * (error + option (Runner proc_env)) := (w, inr (Some (restarted restarter))).

End Udevd.

Definition HealthSettings : Health.Settings :=
  Health.mkSettings (100 * Millisecond) (60 * Second) (55 * Second).

(** *** The health check *)

(** The struct; a zero [time.Time] is [None]. *)
Record Udevd := mkUdevd { ExtraSettleTime : Z; triggered : bool; extraSettleStart : option Z }.

(** A command of the check: its arguments, when it ended, and whether it
    succeeded. *)
Record issued := mkIssued { i_args : list string; i_end : Z; i_ok : bool }.

Record check_world := mkCheck { clock : Z; udevd : Udevd; commands : list issued }.

(** The context of a check: its deadline, and when it is cancelled from
    outside. *)
Record check_ctx := mkCtx { ctx_Deadline : option Z; ctx_cancelled : option Z }.

Definition ctx_done (c : check_ctx) : option Z := earliest [ctx_cancelled c; ctx_Deadline c].

(** [ctx.Err()]: the first of the two decides. *)
Definition ctx_Err (c : check_ctx) (t : Z) : option error :=
  match ctx_done c with
  | Some d =>
    if decide (d <= t)
    then Some (ESentinel (if decide (ctx_cancelled c = Some d) then context_Canceled else context_DeadlineExceeded))
    else None
  | None => None
  end.

Inductive stat_result := SExists | SNotExist | SError (err : error).

Class Files := { os_Stat : string -> Z -> stat_result }.

Section Health.
Context `{ServiceSystem} `{Files}.
Implicit Types (c : check_ctx) (w : check_world).

(** A call of the check: [None] is one that never returns. *)
Definition call : Type := check_world -> option (check_world * option error).

(** [if err := m; err != nil { return err }; k]. *)
Definition and_then (m k : call) : call := fun w =>
  '(w, err) ← m w;
  match err with Some e => Some (w, Some e) | None => k w end.

Definition at_clock (t : Z) w : check_world := mkCheck t (udevd w) (commands w).
Definition set_udevd (u : Udevd) w : check_world := mkCheck (clock w) u (commands w).

(** [conditions.WaitForFileToExist(name).Wait(ctx)] of the talos library: it
    looks once a second. *)
Fixpoint file_Wait (fuel : nat) (name : string) c (tick : Z) : call := fun w =>
  match fuel with
  | O => None
  | S fuel =>
    match os_Stat name (clock w) with
    | SExists => Some (w, None)
    | SError err => Some (w, Some err)
    | SNotExist =>
      match ctx_done c with
      | Some d =>
        if decide (d <= tick) then Some (at_clock (Z.max (clock w) d) w, ctx_Err c (Z.max (clock w) d))
        else file_Wait fuel name c (tick + Second) (at_clock tick w)
      | None => file_Wait fuel name c (tick + Second) (at_clock tick w)
      end
    end
  end.

(** The looks until the context is done.  The contexts of [health.Run] have a
    deadline. *)
Definition looks c w : nat :=
  match ctx_done c with Some d => Z.to_nat (Z.max 0 ((d - clock w) / Second) + 2) | None => O end.

Definition WaitForFile (name : string) c : call := fun w => file_Wait (looks c w) name c (clock w + Second) w.

(** [cmd.RunWithOptions(ctx, "/sbin/udevadm", args)]. *)
Definition udevadm c (args : list string) : call := fun w =>
  let '(t, err) := run_command "/sbin/udevadm" args (clock w) (ctx_done c) in
  Some (mkCheck t (udevd w) (commands w ++ [mkIssued args t (bool_decide (err = None))]), err).

Definition trigger_devices : list string := ["trigger"; "--type=devices"; "--action=add"].
Definition trigger_subsystems : list string := ["trigger"; "--type=subsystems"; "--action=add"].
Definition settle : list string := ["settle"; "--timeout=50"].

Definition set_triggered : call := fun w =>
  Some (set_udevd (mkUdevd (ExtraSettleTime (udevd w)) true (extraSettleStart (udevd w))) w, None).

(** [if !c.triggered { ... }]. *)
Definition trigger c : call := fun w =>
  if triggered (udevd w) then Some (w, None)
  else and_then (udevadm c trigger_devices) (and_then (udevadm c trigger_subsystems) set_triggered) w.

(** [if c.extraSettleStart.IsZero() { ... }]. *)
Definition start_settling w : check_world :=
  match extraSettleStart (udevd w) with
  | Some _ => w
  | None => set_udevd (mkUdevd (ExtraSettleTime (udevd w)) (triggered (udevd w)) (Some (clock w))) w
  end.

(** From [c.extraSettleStart] on. *)
Definition extra_settle c : call := fun w =>
  let w := start_settling w in
  if decide (ExtraSettleTime (udevd w) <= 0) then Some (w, None)
  else
    let settleEnd := default 0 (extraSettleStart (udevd w)) + ExtraSettleTime (udevd w) in
    let still_settling := Some (w, Some (EMsg "waiting for udevd for extra settle timeout")) in
    if decide (settleEnd < clock w) then Some (w, None)
    else match ctx_Deadline c with
         | Some deadline =>
           if decide (settleEnd < deadline)
           then Some (at_clock (Z.max (clock w) settleEnd) w, None)   (* time.Sleep(time.Until(settleEnd)) *)
           else still_settling
         | None => still_settling
         end.

Definition HealthFunc c : call :=
  and_then (WaitForFile "/run/udev/control" c)
    (and_then (udevadm c ["control"; "--reload"])
      (and_then (trigger c)
        (and_then (udevadm c settle) (extra_settle c)))).

(** The context [health.Run] makes for a check that starts now
    ([context.WithTimeout]), when its own is cancelled at [cancel]. *)
Definition with_timeout (timeout : Z) (cancel : option Z) w : check_ctx := mkCtx (Some (clock w + timeout)) cancel.

(** The checks of [health.Run], due at the given ticks. *)
Fixpoint checks (timeout : Z) (cancel : option Z) (l : list Z) w : option (check_world * list (option error)) :=
  match l with
  | [] => Some (w, [])
  | t :: l =>
    let w := at_clock (Z.max (clock w) t) w in
    '(w, err) ← HealthFunc (with_timeout timeout cancel w) w;
    '(w, errs) ← checks timeout cancel l w;
    Some (w, err :: errs)
  end.

(** The check as [health.Run] calls it; the struct and the commands are its
    state. *)
Definition check (deadline : Z) (w : world (Udevd * list issued)) : option (world (Udevd * list issued) * option error) :=
  '(c, err) ← HealthFunc (mkCtx (Some deadline) (cancel_at w)) (mkCheck (now w) (fst (env w)) (snd (env w)));
  Some (at_time (clock c) (set_env (udevd c, commands c) w), err).

End Health.

(** The service of the struct [u], as it is when the run begins. *)
Definition service `{ServiceSystem} `{OS} `{Files} (logging : string) (u : Udevd) (picks : list bool) : Service proc_env :=
  mkService ID PreFunc (Runner_ logging) PostFunc None DependsOn (Some (run_end check HealthSettings (u, []) picks)).

End Udevd.

(** ** apid (apid.go) *)

Module APID.

Definition ID : string := "apid".

Definition protocol : string := "tcp".
Definition endpoint : string := ":6666".

(** The network and the gRPC server: the error of [net.Listen]; when and how
    [Serve], started at an instant, fails by itself; when [GracefulStop],
    called at an instant, returns, which waits for all calls in progress; the
    error of closing a listener that is closed; and whether a graceful stop
    overtakes [Serve] before it has begun. *)
Class GRPC := {
  net_Listen : string -> string -> Z -> option error;
  accept_fails : Z -> option (Z * error);
  graceful_stop : Z -> option Z;
  close_error : error;
  overtaken : Z -> bool;
  net_Dial : string -> string -> Z -> option Z -> Z * option error;
  conn_Close : option error
}.

Definition ErrServerStopped : string := "grpc: the server has been stopped".

Section APID.
Context `{GRPC} (logging : string).

Definition PreFunc {E} (w : world E) : world E * option error := (w, None).
Definition PostFunc {E} (s : ServiceState) (w : world E) : world E * option error := (w, None).
Definition DependsOn : list string := [].
Definition Volumes : list string := [].

(** The end of a health check that starts at [t]. *)
Definition HealthFunc (t : Z) (done_at : option Z) : Z * option error :=
  match net_Dial protocol endpoint t done_at with
  | (t, Some err) => (t, Some err)
  | (t, None) => (t, conn_Close)
  end.

(** The first of the two goroutines to return an error, and the instant at
    which both have returned.  The context of the group is done when the
    caller's is, or when [Serve] has failed; [Serve] returns nil once a stop has
    begun.  By then the listener has been closed, by the server. *)
Definition errgroup (t : Z) (cancel : option Z) : option (Z * error) :=
  match cancel, accept_fails t with
  | None, None => None
  | Some c, None =>
    let c := Z.max t c in
    g ← graceful_stop c;
    Some (g, if decide (c <= t) then if overtaken t then ESentinel ErrServerStopped else close_error else close_error)
  | None, Some (f, err) => g ← graceful_stop f; Some (g, err)
  | Some c, Some (f, err) =>
    let c := Z.max t c in
    if decide (f < c) then g ← graceful_stop f; Some (g, err)
    else g ← graceful_stop c;
         Some (g, if decide (c <= t) then if overtaken t then ESentinel ErrServerStopped else close_error else close_error)
  end.

Definition runAPID (t : Z) (cancel : option Z) : option (Z * Goroutine.main_result) :=
  match net_Listen protocol endpoint t with
  | Some err => Some (t, Goroutine.Returned (Some err))
  | None => '(g, err) ← errgroup t cancel; Some (g, Goroutine.Returned (Some err))
  end.

(** The log's writer, and the stack of a panic, are the caller's. *)
Definition service_main (log_writer log_close : option error) (stack : string) : Goroutine.service_main :=
  Goroutine.mkMain log_writer runAPID log_close stack.

Definition restarter {E} (lw lc : option error) (stack : string) : Restart.restarter E :=
  Restart.New (Goroutine.NewRunner ID (service_main lw lc stack) [WithLoggingManager logging])
    [Restart.WithType Restart.Forever].

Definition Runner_ {E} (lw lc : option error) (stack : string) (w : world E)
    : world E * (error + option (Runner E)) :=
  (w, inr (Some (restarted (restarter lw lc stack)))).

Definition HealthSettings : Health.Settings := Health.DefaultSettings.

Definition service {E} (lw lc : option error) (stack : string) (picks : list bool) : Service E :=
  mkService ID PreFunc (Runner_ lw lc stack) PostFunc None DependsOn
    (Some (run_end (stateless_check HealthFunc) HealthSettings tt picks)).

End APID.

End APID.

(** ** Lemmas on restarted runners *)

Section restarted_lemmas.
Context {E : Type} (r : Restart.restarter E) `{!RunnerLaws (Restart.wrappedRunner r)}.
Implicit Types w : world E.

#[export] Instance restarted_laws : RunnerLaws (restarted r).
Proof. intros w w' st err HR. exact (RestartLemmas.Run_loop_extends r _ w w' st err HR). Qed.

#[export] Instance restarted_stops bound :
  StopsWithin (Restart.wrappedRunner r) bound -> 0 < Restart.RestartInterval (Restart.opts r) ->
  StopsWithin (restarted r) bound.
Proof.
  intros HS Hi w t Hc. simpl. unfold restart_fuel. rewrite Hc.
  apply RestartLemmas.Run_loop_stops; done || lia.
Qed.

Lemma Run_loop_mono n m w x : Restart.Run_loop r n w = Some x -> (n <= m)%nat -> Restart.Run_loop r m w = Some x.
Proof.
  revert m w. induction n as [|n IH]; intros m w HR Hnm; [done|]. destruct m as [|m]; [lia|].
  rewrite RestartLemmas.Run_loop_S in *. apply bind_Some in HR as ([w1 [st1 err1]] & -> & HR). cbn [mbind option_bind].
  destruct (ctx_Err w1); [done|]. destruct (Restart.policy r st1 err1 w1) as [res|w2]; [done|].
  apply bind_Some in HR as ([d w3] & -> & HR). cbn [mbind option_bind]. destruct d; [done|]. apply IH; [done|lia].
Qed.

(** The fuel is enough: a runner that is restarted forever returns with it
    what it returns with any fuel. *)
Lemma restarted_complete bound n w x :
  StopsWithin (Restart.wrappedRunner r) bound -> 0 < Restart.RestartInterval (Restart.opts r) ->
  Restart.Ty (Restart.opts r) = Restart.Forever ->
  Restart.Run_loop r n w = Some x -> Runners.Run (restarted r) w = Some x.
Proof.
  intros HS Hi HT HR. destruct (cancel_at w) as [t|] eqn:Hc.
  - destruct (restarted_stops bound HS Hi w t Hc) as (w1 & st1 & err1 & H1 & _). rewrite H1. simpl in H1.
    apply (Run_loop_mono _ (Nat.max n (restart_fuel r w))) in H1; [|lia].
    apply (Run_loop_mono _ (Nat.max n (restart_fuel r w))) in HR; [|lia]. congruence.
  - exfalso. destruct x as [w' [st err]].
    destruct (RestartLemmas.Run_loop_last r n w w' st err HR) as (wl & w1 & errl & _ & _ & HL). rewrite HT in HL.
    apply RestartLemmas.Run_loop_extends in HR as (_ & Hc' & _); [|done].
    unfold ctx_Err in HL. rewrite Hc', Hc in HL. by destruct HL.
Qed.

End restarted_lemmas.

(** ** The laws of the environment *)

(** A command ends after it starts, and within [latency] of the end of its
    context, by which it is killed. *)
Class ServiceSystemLaws `{ServiceSystem} (latency : Z) : Prop := {
  command_forward name args t d : t <= fst (run_command name args t d);
  command_killed name args t d : fst (run_command name args t (Some d)) <= Z.max t d + latency
}.

(** [DialContext] returns after it is called, and within [latency] of the end of
    its context. *)
Class DialLaws `{APID.GRPC} (latency : Z) : Prop := {
  dial_forward network address t d : t <= fst (APID.net_Dial network address t d);
  dial_ends network address t d : fst (APID.net_Dial network address t (Some d)) <= Z.max t d + latency
}.

(** *** Their health checks end *)

Section health_ends.
Context {latency : Z} (HL : 0 <= latency).

(** A stateless check that ends within [b] of the end of its context. *)
Lemma stateless_ends f settings b :
  0 <= b -> (forall t d, t <= fst (f t (Some d)) <= Z.max t d + b) ->
  CheckEnds (stateless_check f) settings (fun _ => True) b.
Proof.
  intros Hb Hf w t Hc _. unfold stateless_check. rewrite Hc.
  destruct (earliest_is_Some [Some t; Some (now w + Timeout settings)] t) as (d & Hd & Hle); [left|]. rewrite Hd.
  pose proof (Hf (now w) d) as H. destruct (f (now w) (Some d)) as [t' err]. simpl in H.
  eexists _, _. split; [done|]. simpl. split; [lia|done].
Qed.

Lemma tailscaled_check_ends : CheckEnds (stateless_check Tailscaled.HealthFunc) Tailscaled.HealthSettings (fun _ => True) 0.
Proof. apply stateless_ends; [lia|]. intros t d. simpl. lia. Qed.

Lemma apid_check_ends `{APID.GRPC} `{!DialLaws latency} :
  CheckEnds (stateless_check APID.HealthFunc) APID.HealthSettings (fun _ => True) latency.
Proof.
  apply stateless_ends; [done|]. intros t d. unfold APID.HealthFunc.
  pose proof (dial_forward APID.protocol APID.endpoint t (Some d)) as H1.
  pose proof (dial_ends APID.protocol APID.endpoint t d) as H2. destruct (APID.net_Dial _ _ _ _) as [t' []]; simpl in *; lia.
Qed.

End health_ends.

(** ** The health check of udevd *)

Module UdevdLemmas.
Import Udevd.

Section lemmas.
Context `{ServiceSystem} `{Files}.
Implicit Types (c : check_ctx) (w : check_world) (m k : call).

(** The successful commands of the given arguments. *)
Definition succeeded (args : list string) w : list issued :=
  filter (fun i => i_args i = args /\ i_ok i = true) (commands w).

(** What the check keeps: it has triggered the subsystems once, or not yet, and
    [extraSettleStart] is the end of the first settle that succeeded. *)
Record check_ok w : Prop := {
  co_trigger : length (succeeded trigger_subsystems w) = (if triggered (udevd w) then 1 else 0)%nat;
  co_settle : extraSettleStart (udevd w) = i_end <$> head (succeeded settle w)
}.

Lemma and_then_inv m k w w' err :
  and_then m k w = Some (w', err) ->
  exists w1 e1, m w = Some (w1, e1) /\
    match e1 with Some e => w' = w1 /\ err = Some e | None => k w1 = Some (w', err) end.
Proof.
  unfold and_then. intros ([w1 e1] & HM & HK)%bind_Some. exists w1, e1. split; [done|].
  destruct e1; [by injection HK as <- <-|done].
Qed.

Lemma and_then_ok m k w w1 : m w = Some (w1, None) -> and_then m k w = k w1.
Proof. unfold and_then. by intros ->. Qed.

Lemma file_Wait_frame fuel name c tick w w' err :
  file_Wait fuel name c tick w = Some (w', err) -> udevd w' = udevd w /\ commands w' = commands w.
Proof.
  revert tick w. induction fuel as [|fuel IH]; intros tick w; cbn [file_Wait]; [done|].
  destruct (os_Stat name (clock w)); [by intros [= <- _]| |by intros [= <- _]].
  destruct (ctx_done c) as [d|]; [|intros HW; by apply IH in HW].
  case_decide; [by intros [= <- _]|intros HW; by apply IH in HW].
Qed.

Lemma udevadm_inv c args w w' err :
  udevadm c args w = Some (w', err) ->
  udevd w' = udevd w /\ commands w' = commands w ++ [mkIssued args (clock w') (bool_decide (err = None))].
Proof.
  unfold udevadm. destruct (run_command _ _ _ _) as [t e]. by intros [= <- <-].
Qed.

Lemma succeeded_snoc args w w' i :
  commands w' = commands w ++ [i] ->
  succeeded args w' = succeeded args w ++ (if decide (i_args i = args /\ i_ok i = true) then [i] else []).
Proof. intros E. unfold succeeded. rewrite E, filter_app, filter_cons. by case_decide. Qed.

Lemma check_ok_frame w w' : udevd w' = udevd w -> commands w' = commands w -> check_ok w -> check_ok w'.
Proof. intros E1 E2 [HT HS]. split; unfold succeeded in *; by rewrite E1, E2. Qed.

(** A command that is neither of the two that count. *)
Lemma udevadm_ok c args w w' err :
  args <> trigger_subsystems -> args <> settle ->
  udevadm c args w = Some (w', err) -> check_ok w -> check_ok w' /\ udevd w' = udevd w.
Proof.
  intros N1 N2 [E1 E2]%udevadm_inv [HT HS]. rewrite E1. split; [|done]. split; rewrite E1;
    rewrite (succeeded_snoc _ w w' _ E2); simpl; rewrite decide_False by (by intros [? _]); by rewrite app_nil_r.
Qed.

Lemma trigger_ok c w w' err :
  trigger c w = Some (w', err) -> check_ok w ->
  check_ok w' /\ ExtraSettleTime (udevd w') = ExtraSettleTime (udevd w) /\ (err = None \/ triggered (udevd w) = true -> triggered (udevd w') = true).
Proof.
  unfold trigger. intros HR HC. destruct (triggered (udevd w)) eqn:HT; [by injection HR as <- <-|].
  apply and_then_inv in HR as (w1 & e1 & H1%udevadm_ok & HR); [|done..]. destruct H1 as [HC1 HU1].
  pose proof HT as HT1. rewrite <-HU1 in HT1.
  destruct e1 as [e|]; [destruct HR as [-> ->]; split_and!; [done|congruence|intros []; congruence]|].
  apply and_then_inv in HR as (w2 & e2 & (E1 & E2)%udevadm_inv & HR). destruct HC1 as [HC1 HS1]. rewrite HT1 in HC1.
  assert (extraSettleStart (udevd w2) = i_end <$> head (succeeded settle w2)) as HS2.
  { rewrite E1, (succeeded_snoc _ w1 w2 _ E2). simpl. by rewrite app_nil_r. }
  destruct e2 as [e|].
  - destruct HR as [-> ->]. split; [|split; [congruence|intros []; congruence]]. split; [|done]. rewrite E1, HT1, (succeeded_snoc _ w1 w2 _ E2). simpl.
    by rewrite app_nil_r.
  - injection HR as <- <-. split; [|split; [simpl; congruence|done]]. split; [|exact HS2]. simpl.
    change (succeeded trigger_subsystems (set_udevd _ w2)) with (succeeded trigger_subsystems w2).
    rewrite (succeeded_snoc _ w1 w2 _ E2), length_app. simpl. lia.
Qed.

(** The check once the settle has succeeded. *)
Lemma extra_settle_ok c w1 w w' err :
  udevd w = udevd w1 -> commands w = commands w1 ++ [mkIssued settle (clock w) true] -> check_ok w1 ->
  extra_settle c w = Some (w', err) ->
  check_ok w' /\ triggered (udevd w') = triggered (udevd w) /\ ExtraSettleTime (udevd w') = ExtraSettleTime (udevd w) /\
  exists s, extraSettleStart (udevd w') = Some s /\ (s <= clock w -> clock w <= clock w') /\
    (err = None -> 0 < ExtraSettleTime (udevd w) -> s + ExtraSettleTime (udevd w) <= clock w').
Proof.
  intros E1 E2 [HT HS] HR.
  assert (check_ok (start_settling w) /\ triggered (udevd (start_settling w)) = triggered (udevd w) /\
    ExtraSettleTime (udevd (start_settling w)) = ExtraSettleTime (udevd w) /\ clock (start_settling w) = clock w /\
    is_Some (extraSettleStart (udevd (start_settling w)))) as (HC & HT' & HE & HN & HSome).
  { unfold start_settling. rewrite E1.
    assert (succeeded settle w = succeeded settle w1 ++ [mkIssued settle (clock w) true]) as Es
      by (rewrite (succeeded_snoc _ w1 w _ E2); done).
    assert (succeeded trigger_subsystems w = succeeded trigger_subsystems w1) as Et
      by (rewrite (succeeded_snoc _ w1 w _ E2); simpl; by rewrite app_nil_r).
    destruct (extraSettleStart (udevd w1)) as [s|] eqn:ES.
    - rewrite E1, ES. split_and!; eauto. split; [by rewrite E1, Et|]. rewrite E1, ES, Es.
      destruct (succeeded settle w1); [done|exact HS].
    - assert (succeeded settle w1 = []) as Hn by (by destruct (succeeded settle w1)). split_and!; eauto.
      split; simpl; unfold succeeded in *; simpl; [rewrite Et; by rewrite ?E1, HT|]. by rewrite Es, Hn. }
  unfold extra_settle in HR. destruct HSome as [s Hs].
  assert (forall t, check_ok (at_clock t (start_settling w))) as HC' by (intros t; by apply (check_ok_frame (start_settling w))).
  rewrite Hs, HE, HN in HR. simpl in HR.
  assert (forall w0, udevd w0 = udevd (start_settling w) -> clock w <= clock w0 ->
    triggered (udevd w0) = triggered (udevd w) /\ ExtraSettleTime (udevd w0) = ExtraSettleTime (udevd w) /\
    extraSettleStart (udevd w0) = Some s) as HF by (intros w0 -> _; split_and!; done).
  destruct (decide (ExtraSettleTime (udevd w) <= 0)).
  { injection HR as <- <-. split_and!; try done. exists s. split_and!; [done|lia|lia]. }
  destruct (decide (s + ExtraSettleTime (udevd w) < clock w)).
  { injection HR as <- <-. split_and!; try done. exists s. split_and!; [done|lia|lia]. }
  destruct (ctx_Deadline c) as [dl|]; [destruct (decide (s + ExtraSettleTime (udevd w) < dl))|];
    injection HR as <- <-; (split_and!; [done || apply HC'|done..|]); exists s; simpl; split_and!; done || lia.
Qed.

Lemma HealthFunc_ok c w w' err :
  HealthFunc c w = Some (w', err) -> check_ok w ->
  check_ok w' /\ ExtraSettleTime (udevd w') = ExtraSettleTime (udevd w) /\
  (err = None \/ triggered (udevd w) = true -> triggered (udevd w') = true) /\
  (err = None -> exists s, extraSettleStart (udevd w') = Some s /\
     (0 < ExtraSettleTime (udevd w) -> s + ExtraSettleTime (udevd w) <= clock w')).
Proof.
  intros HR HC. apply and_then_inv in HR as (w1 & e1 & (U1 & C1)%file_Wait_frame & HR).
  pose proof (check_ok_frame _ _ U1 C1 HC) as HC1.
  destruct e1; [destruct HR as [-> ->]; rewrite U1; split_and!; try done; by intros []|].
  apply and_then_inv in HR as (w2 & e2 & (HC2 & U2)%udevadm_ok & HR); [|done..].
  destruct e2; [destruct HR as [-> ->]; rewrite U2, U1; split_and!; try done; by intros []|].
  apply and_then_inv in HR as (w3 & e3 & (HC3 & X3 & T3)%trigger_ok & HR); [|done]. rewrite U2, U1 in X3, T3.
  destruct e3; [destruct HR as [-> ->]; split_and!; try done; intros []; auto; done|].
  apply and_then_inv in HR as (w4 & e4 & (U4 & C4)%udevadm_inv & HR).
  assert (ExtraSettleTime (udevd w4) = ExtraSettleTime (udevd w)) as X4 by (by rewrite U4, X3).
  destruct e4.
  - destruct HR as [-> ->]. split_and!; [|done|rewrite U4; intros _; apply T3; by left|done]. destruct HC3 as [HT HS].
    split; rewrite U4, (succeeded_snoc _ w3 w4 _ C4); simpl; rewrite ?decide_False by (by intros [? ?]); by rewrite app_nil_r.
  - destruct (extra_settle_ok c w3 w4 w' err U4 C4 HC3 HR) as (HC' & HT' & HX & s & Hs & _ & He). rewrite X4 in *.
    split_and!; [done|done|intros _; rewrite HT', U4; apply T3; by left|]. intros ->. exists s. split; [done|]. auto.
Qed.

Lemma checks_ok timeout cancel l w w' errs :
  checks timeout cancel l w = Some (w', errs) -> check_ok w ->
  check_ok w' /\ ExtraSettleTime (udevd w') = ExtraSettleTime (udevd w) /\
  (triggered (udevd w) = true \/ None ∈ errs -> length (succeeded trigger_subsystems w') = 1%nat) /\
  (last errs = Some None -> exists s, extraSettleStart (udevd w') = Some s /\
     (0 < ExtraSettleTime (udevd w) -> s + ExtraSettleTime (udevd w) <= clock w')).
Proof.
  revert w errs. induction l as [|t l IH]; intros w errs; cbn [checks].
  { intros [= <- <-] HC. split_and!; try done. intros [HT|?%elem_of_nil]; [|done]. by rewrite (co_trigger _ HC), HT. }
  intros ([w1 e] & HF & HR)%bind_Some HC. apply bind_Some in HR as ([w2 errs'] & HR & [= <- <-]).
  destruct (HealthFunc_ok _ _ _ _ HF) as (HC1 & HX1 & HT1 & HN1); [by apply (check_ok_frame w)|].
  destruct (IH w1 errs' HR HC1) as (HC2 & HX2 & HN2 & HL2). simpl in *. rewrite HX1 in *.
  split_and!; [done|done| |].
  - intros [HT|[<-|?]%elem_of_cons]; apply HN2; [left; auto|left; auto|by right].
  - destruct errs' as [|e' errs']; [|exact HL2]. intros [= ->]. destruct l as [|t' l].
    + injection HR as <-. by apply HN1.
    + cbn [checks] in HR. apply bind_Some in HR as ([? ?] & _ & HR). by apply bind_Some in HR as ([? ?] & _ & ?).
Qed.

(** *** The check ends *)

Lemma file_Wait_returns fuel name c w d :
  ctx_done c = Some d -> d - clock w < Z.of_nat fuel * Second -> (0 < fuel)%nat ->
  exists w' err, file_Wait fuel name c (clock w + Second) w = Some (w', err) /\ clock w <= clock w' <= Z.max (clock w) d.
Proof.
  intros Hd. revert w. induction fuel as [|fuel IH]; intros w Hf Hpos; [lia|]. cbn [file_Wait].
  assert (0 < Second) as HS by done.
  destruct (os_Stat name (clock w)); [eexists _, _; split; [done|lia]| |eexists _, _; split; [done|lia]].
  rewrite Hd. case_decide as Hle; [eexists _, _; split; [done|simpl; lia]|].
  destruct (IH (at_clock (clock w + Second) w)) as (w' & err & HW & Hn); simpl; [lia| |].
  - destruct fuel; [|lia]. simpl in Hf. lia.
  - exists w', err. split; [done|]. simpl in Hn. lia.
Qed.

Lemma WaitForFile_returns name c w d :
  ctx_done c = Some d ->
  exists w' err, WaitForFile name c w = Some (w', err) /\ clock w <= clock w' <= Z.max (clock w) d.
Proof.
  intros Hd. assert (0 < Second) as HS by done. unfold WaitForFile, looks. rewrite Hd.
  apply file_Wait_returns; [done| |lia]. pose proof (Z.mul_succ_div_gt (d - clock w) Second HS). nia.
Qed.

(** Whatever it is called on until [a], a call returns by [b]; the extra settle
    time is [x], and stays so. *)
Definition ends_by (x : Z) (m : call) (a b : Z) : Prop :=
  forall w, clock w <= a -> ExtraSettleTime (udevd w) = x ->
    exists w' err, m w = Some (w', err) /\ clock w <= clock w' <= b /\ ExtraSettleTime (udevd w') = x.

Lemma ends_by_then x m k a b b' : ends_by x m a b -> ends_by x k b b' -> b <= b' -> ends_by x (and_then m k) a b'.
Proof.
  intros Hm Hk Hb w Hw Hx. destruct (Hm w Hw Hx) as (w1 & e1 & H1 & Hn & Hx1). unfold and_then. rewrite H1.
  cbn [mbind option_bind]. destruct e1; [eexists _, _; split; [done|]; by split; [lia|]|].
  destruct (Hk w1) as (w2 & e2 & H2 & Hn2 & Hx2); [lia|done|]. exists w2, e2. split; [done|]. by split; [lia|].
Qed.

Lemma udevadm_ends x latency c args d a :
  ServiceSystemLaws latency -> ctx_done c = Some d -> d <= a -> ends_by x (udevadm c args) a (a + latency).
Proof.
  intros HS Hd Ha w Hw Hx. unfold udevadm. rewrite Hd.
  pose proof (command_killed "/sbin/udevadm" args (clock w) d) as HK.
  pose proof (command_forward "/sbin/udevadm" args (clock w) (Some d)) as HF.
  destruct (run_command _ _ _ _) as [t err]. eexists _, _. split; [done|]. simpl in *. split; [lia|done].
Qed.

Lemma extra_settle_ends x c a :
  x <= 0 \/ (exists dl, ctx_Deadline c = Some dl /\ dl <= a) -> ends_by x (extra_settle c) a a.
Proof.
  intros Hor w Hw Hx. unfold extra_settle.
  assert (clock (start_settling w) = clock w /\ ExtraSettleTime (udevd (start_settling w)) = x) as [Hc Hx1]
    by (unfold start_settling; by destruct (extraSettleStart (udevd w))).
  rewrite Hx1. destruct (decide (x <= 0)); [eexists _, _; split; [done|]; by split; [lia|]|].
  destruct Hor as [?|(dl & -> & Hdl)]; [lia|]. rewrite Hc.
  repeat case_decide; eexists _, _; (split; [done|]); simpl; (split; [lia|done]).
Qed.

Lemma ctx_done_deadline c dl :
  ctx_Deadline c = Some dl -> exists d, ctx_done c = Some d /\ d <= dl.
Proof. intros Hd. apply earliest_is_Some. rewrite Hd. right. left. Qed.

(** The check ends soon after [a] if its context is done by then and it does not
    sleep beyond. *)
Lemma HealthFunc_ends x latency c d a :
  0 <= latency -> ServiceSystemLaws latency -> ctx_done c = Some d -> d <= a ->
  x <= 0 \/ (exists dl, ctx_Deadline c = Some dl /\ dl <= a) -> ends_by x (HealthFunc c) a (a + 4 * latency).
Proof.
  intros HL HS Hd Ha Hx.
  assert (forall args (k : Z), 0 <= k -> ends_by x (udevadm c args) (a + k * latency) (a + (k + 1) * latency)) as HU.
  { intros args k Hk. replace (a + (k + 1) * latency) with (a + k * latency + latency) by lia.
    eapply udevadm_ends; [done|done|nia]. }
  apply (ends_by_then x _ _ a (a + 0 * latency)); [|apply (ends_by_then x _ _ _ (a + 1 * latency))|lia].
  - intros w0 Hw0 Hx0. destruct (WaitForFile_returns "/run/udev/control" c w0 d Hd) as (w' & err & HW & ?).
    eexists _, _. split; [done|]. split; [lia|]. by rewrite (proj1 (file_Wait_frame _ _ _ _ _ _ _ HW)).
  - by apply HU.
  - apply (ends_by_then x _ _ _ (a + 3 * latency)); [|apply (ends_by_then x _ _ _ (a + 4 * latency))|lia].
    + intros w0 Hw0 Hx0. unfold trigger. destruct (triggered _); [eexists _, _; split; [done|]; split; [nia|done]|].
      revert w0 Hw0 Hx0. change (ends_by x (and_then (udevadm c trigger_devices) (and_then (udevadm c trigger_subsystems) set_triggered))
        (a + 1 * latency) (a + 3 * latency)).
      apply (ends_by_then x _ _ _ (a + 2 * latency)); [by apply HU| |lia].
      apply (ends_by_then x _ _ _ (a + 3 * latency)); [by apply HU| |lia].
      intros w1 Hw1 Hx1. eexists _, _. split; [done|]. simpl. split; [lia|done].
    + by apply HU.
    + apply extra_settle_ends. destruct Hx as [?|(dl & ? & ?)]; [by left|right]. exists dl. split; [done|]. nia.
    + lia.
  - lia.
Qed.

(** *** The check succeeds *)

(** From [t0] on the commands succeed within [d], when their context leaves
    them that time, and the control socket is there. *)
Definition responsive (t0 d : Z) : Prop :=
  (forall args t done_at, t0 <= t -> (forall dn, done_at = Some dn -> t + d < dn) ->
     exists t', run_command "/sbin/udevadm" args t done_at = (t', None) /\ t <= t' <= t + d) /\
  (forall t, t0 <= t -> os_Stat "/run/udev/control" t = SExists).

Lemma udevadm_responsive t0 d c dn args w :
  responsive t0 d -> t0 <= clock w -> ctx_done c = Some dn -> clock w + d < dn ->
  exists w', udevadm c args w = Some (w', None) /\ udevd w' = udevd w /\ clock w <= clock w' <= clock w + d.
Proof.
  intros [HR _] Hw Hc Hd. unfold udevadm. destruct (HR args (clock w) (ctx_done c) Hw) as (t' & -> & Ht); [by rewrite Hc; intros ? [= <-]|].
  eexists. split; [done|]. done.
Qed.

Lemma trigger_responsive t0 d c dn w :
  0 <= d -> responsive t0 d -> t0 <= clock w -> ctx_done c = Some dn -> clock w + 2 * d < dn ->
  exists w', trigger c w = Some (w', None) /\ clock w <= clock w' <= clock w + 2 * d /\
    ExtraSettleTime (udevd w') = ExtraSettleTime (udevd w) /\ extraSettleStart (udevd w') = extraSettleStart (udevd w).
Proof.
  intros Hd HR Hw Hc Hdn. unfold trigger. destruct (triggered (udevd w)); [exists w; split_and!; done || lia|].
  destruct (udevadm_responsive t0 d c dn trigger_devices w HR Hw Hc ltac:(lia)) as (w1 & H1 & U1 & T1). rewrite (and_then_ok _ _ _ _ H1).
  destruct (udevadm_responsive t0 d c dn trigger_subsystems w1 HR ltac:(lia) Hc ltac:(lia)) as (w2 & H2 & U2 & T2).
  rewrite (and_then_ok _ _ _ _ H2). eexists. split; [done|]. simpl. rewrite U2, U1. split_and!; done || lia.
Qed.

Lemma HealthFunc_responsive t0 d timeout w :
  let c := with_timeout timeout None w in
  0 <= d -> responsive t0 d -> t0 <= clock w -> 4 * d < timeout ->
  exists w' err s, HealthFunc c w = Some (w', err) /\ clock w <= clock w' /\
    ExtraSettleTime (udevd w') = ExtraSettleTime (udevd w) /\ extraSettleStart (udevd w') = Some s /\
    (extraSettleStart (udevd w) = Some s \/ extraSettleStart (udevd w) = None /\ s <= clock w + 4 * d) /\
    (ExtraSettleTime (udevd w) <= 0 \/ s + ExtraSettleTime (udevd w) < clock w -> err = None).
Proof.
  intros c Hd HR Hw Hto. set (dn := clock w + timeout). assert (ctx_done c = Some dn /\ ctx_Deadline c = Some dn) as [Hdn Hdl] by done.
  assert (dn = clock w + timeout) as Edn by done. clearbody c dn. unfold HealthFunc.
  assert (WaitForFile "/run/udev/control" c w = Some (w, None)) as HW.
  { unfold WaitForFile, looks. rewrite Hdn. replace (Z.to_nat _) with (S (Z.to_nat (Z.max 0 ((dn - clock w) / Second) + 1))) by lia.
    cbn [file_Wait]. by rewrite (proj2 HR). }
  rewrite (and_then_ok _ _ _ _ HW).
  destruct (udevadm_responsive t0 d c dn ["control"; "--reload"] w HR Hw Hdn ltac:(lia)) as (w1 & H1 & U1 & T1). rewrite (and_then_ok _ _ _ _ H1).
  destruct (trigger_responsive t0 d c dn w1 Hd HR ltac:(lia) Hdn ltac:(lia)) as (w2 & H2 & T2 & X2 & S2). rewrite (and_then_ok _ _ _ _ H2).
  destruct (udevadm_responsive t0 d c dn settle w2 HR ltac:(lia) Hdn ltac:(lia)) as (w3 & H3 & U3 & T3). rewrite (and_then_ok _ _ _ _ H3).
  rewrite U1 in X2, S2. unfold extra_settle.
  assert (exists s, extraSettleStart (udevd (start_settling w3)) = Some s /\ clock (start_settling w3) = clock w3 /\
    ExtraSettleTime (udevd (start_settling w3)) = ExtraSettleTime (udevd w) /\
    (extraSettleStart (udevd w) = Some s \/ extraSettleStart (udevd w) = None /\ s = clock w3)) as (s & Hs & Hc & HX & Hor).
  { unfold start_settling. rewrite U3, S2. destruct (extraSettleStart (udevd w)) as [s|] eqn:Es.
    - exists s. rewrite U3, S2, X2. split_and!; auto.
    - exists (clock w3). simpl. rewrite X2. split_and!; auto. }
  rewrite Hs, HX, Hc, Hdl. simpl.
  assert (extraSettleStart (udevd w) = Some s \/ extraSettleStart (udevd w) = None /\ s <= clock w + 4 * d) as Hor'
    by (destruct Hor as [?|[? ->]]; [by left|right; split; [done|lia]]).
  repeat case_decide; eexists _, _, s; (split; [done|]); simpl;
    (split_and!; [lia|done|done|done|]); intros [?|?]; done || lia.
Qed.

Lemma checks_responsive t0 d timeout l w s :
  0 <= d -> responsive t0 d -> t0 <= clock w -> 4 * d < timeout -> extraSettleStart (udevd w) = Some s ->
  exists w' errs, checks timeout None l w = Some (w', errs) /\
    Forall2 (fun t err => ExtraSettleTime (udevd w) <= 0 \/ s + ExtraSettleTime (udevd w) < t -> err = None) l errs.
Proof.
  intros Hd HR. revert w. induction l as [|t l IH]; intros w Hw Hto Hs; cbn [checks]; [by eexists _, _|].
  destruct (HealthFunc_responsive t0 d timeout (at_clock (Z.max (clock w) t) w) Hd HR) as (w1 & e1 & s1 & H1 & T1 & X1 & S1 & O1 & N1);
    [simpl; lia|done|].
  rewrite H1. cbn [mbind option_bind]. simpl in *.
  assert (s1 = s) as -> by (destruct O1 as [?|[? _]]; congruence).
  destruct (IH w1) as (w2 & errs & H2 & HF); [lia|done|done|]. rewrite H2. cbn [mbind option_bind].
  eexists _, _. split; [done|]. rewrite X1 in HF. constructor; [|exact HF]. simpl. intros [?|?]; apply N1; [by left|right; lia].
Qed.

(** The check as [health.Run] calls it. *)
Lemma check_ends latency x :
  0 <= latency -> ServiceSystemLaws latency -> x <= 0 ->
  CheckEnds check HealthSettings (fun s => ExtraSettleTime (fst s) = x) (4 * latency).
Proof.
  intros HL HS Hx w t Hc HI. unfold check. set (c := mkCtx _ _). set (w0 := mkCheck _ _ _).
  destruct (earliest_is_Some [ctx_cancelled c; ctx_Deadline c] t) as (d & Hd & Hle); [simpl; rewrite Hc; left|].
  destruct (HealthFunc_ends x latency c d (Z.max (now w) t) HL HS Hd) with (w := w0) as (w' & err & -> & Hn & Hx');
    [lia|by left|simpl; lia|done|].
  cbn [mbind option_bind]. eexists _, _. split; [done|]. simpl in *. split; [lia|done].
Qed.

End lemmas.
End UdevdLemmas.

(** *** The services *)

Section service_laws.
Context `{ServiceSystem} `{OS} (logging : string) (latency : Z).
Context (HL : 0 <= latency) (HM : latency <= Second) {HS : ServiceSystemLaws latency} {HK : OSKills latency}.

(** How long each of them takes to stop: the graceful timeout of the process
    runner, and twice that for the goroutine runner. *)
Definition stop_bound : Z := 20 * Second + latency.

(** The checks of [health.Run] that may follow a stop take no longer. *)
Lemma run_end_stops {S} check settings inv b (state : S) picks :
  CheckEnds check settings inv b -> 0 <= b -> 0 < Period settings -> 2 * b <= Period settings -> 3 * b <= stop_bound ->
  inv state -> forall t c, exists e, run_end check settings state picks t c = Some e /\ e <= Z.max t c + stop_bound.
Proof.
  intros HC Hb Hp H2 H3 HI t c. destruct (run_end_bound check settings inv b Hb Hp H2 state picks t c HI) as (e & He & Hle).
  exists e. split; [done|lia].
Qed.

(** A service whose pre- and post-stage and runner are as those of the three. *)
Lemma simple_service_laws {E} id pre (rn : Runner E) deps health :
  (forall w w' r, pre w = (w', r) -> quiet w w') -> RunnerLaws rn ->
  (forall w, Open rn w = (w, None)) -> (forall w, Close rn w = (w, None)) ->
  ServiceLaws (mkService id pre (fun w => (w, inr (Some rn))) (fun _ w => (w, None)) None deps health).
Proof.
  intros HP HR HO HC. split; simpl.
  - exact HP.
  - intros w w' r [= <- _]. by constructor.
  - intros _ w w' r [= <- _]. by constructor.
  - intros w w' r [= _ <-]. done.
  - intros w w' r w1 w2 e [= _ <-]. rewrite HO. intros [= <- _]. by constructor.
  - intros w w' r w1 w2 e [= _ <-]. rewrite HC. intros [= <- _]. by constructor.
Qed.

Lemma simple_service_stops {E} id pre (rn : Runner E) deps health b :
  (forall t c, exists e, health t c = Some e /\ e <= Z.max t c + b) -> 0 <= b -> (forall w t, cancel_at w = Some t -> now (fst (pre w)) <= Z.max (now w) t + b) -> StopsWithin rn b ->
  (forall w, Open rn w = (w, None)) -> (forall w, Close rn w = (w, None)) ->
  StopsPromptly (mkService id pre (fun w => (w, inr (Some rn))) (fun _ w => (w, None)) None deps (Some health)) b.
Proof.
  intros HH Hb HP HR HO HC. split; simpl.
  - exact HP.
  - intros. lia.
  - intros. lia.
  - intros w w' r [= _ <-]. done.
  - intros w w' r w1 t [= _ <-] Hc. rewrite HO. simpl. lia.
  - intros w w' r w1 t [= _ <-] Hc. rewrite HC. simpl. lia.
  - intros h t c [= <-]. apply HH.
Qed.

Lemma StopsWithin_mono {E} (r : Runner E) b b' : StopsWithin r b -> b <= b' -> StopsWithin r b'.
Proof. intros HR Hb w t Hc. destruct (HR w t Hc) as (w' & st & err & ? & ?). exists w', st, err. split; [done|lia]. Qed.

#[export] Instance tailscaled_laws picks : ServiceLaws (Tailscaled.service logging picks).
Proof.
  apply (simple_service_laws Tailscaled.ID Tailscaled.PreFunc (restarted (Tailscaled.restarter logging))).
  - intros w w' r. unfold Tailscaled.PreFunc, MkdirAll. destruct (os_MkdirAll _ _ _); intros [= <- _]; by constructor.
  - apply restarted_laws, ProcessLaws.process_laws.
  - done.
  - done.
Qed.

Lemma tailscaled_stops picks : StopsPromptly (Tailscaled.service logging picks) stop_bound.
Proof.
  assert (0 < Second) by done.
  apply (simple_service_stops Tailscaled.ID Tailscaled.PreFunc (restarted (Tailscaled.restarter logging)));
    try done; [by apply (run_end_stops _ _ _ _ _ _ tailscaled_check_ends); unfold stop_bound; simpl; lia || done|..]; unfold stop_bound.
  - lia.
  - intros w t _. unfold Tailscaled.PreFunc, MkdirAll. destruct (os_MkdirAll _ _ _); simpl; lia.
  - apply restarted_stops; [apply ProcessLaws.process_laws| |done].
    eapply StopsWithin_mono; [by apply (ProcessLaws.process_stops_within _ _ latency)|]. simpl. unfold Second. lia.
Qed.

#[export] Instance udevd_laws `{Udevd.Files} u picks : ServiceLaws (Udevd.service logging u picks).
Proof.
  apply (simple_service_laws Udevd.ID Udevd.PreFunc (restarted (Udevd.restarter logging))).
  - intros w w' r. unfold Udevd.PreFunc, RunWithOptions.
    pose proof (command_forward "/sbin/udevadm" ["hwdb"; "--update"; "--root=/run"] (now w) (cancel_at w)) as HF.
    destruct (run_command _ _ _ _) as [t err]. intros [= <- _]. simpl in HF. by constructor.
  - apply restarted_laws, ProcessLaws.process_laws.
  - done.
  - done.
Qed.

Lemma udevd_stops `{Udevd.Files} u picks :
  Udevd.ExtraSettleTime u <= 0 -> StopsPromptly (Udevd.service logging u picks) stop_bound.
Proof.
  intros Hx. assert (Second = 1000000000) as HSec by done.
  apply (simple_service_stops Udevd.ID Udevd.PreFunc (restarted (Udevd.restarter logging))); try done;
    [apply (run_end_stops _ _ _ _ _ _ (UdevdLemmas.check_ends latency (Udevd.ExtraSettleTime u) HL HS Hx));
       unfold stop_bound; simpl; lia || done|..]; unfold stop_bound.
  - lia.
  - intros w t Hc. unfold Udevd.PreFunc, RunWithOptions. rewrite Hc.
    pose proof (command_killed "/sbin/udevadm" ["hwdb"; "--update"; "--root=/run"] (now w) t) as HF.
    destruct (run_command _ _ _ _) as [t' err]. simpl in *. lia.
  - apply restarted_stops; [apply ProcessLaws.process_laws| |done].
    eapply StopsWithin_mono; [by apply (ProcessLaws.process_stops_within _ _ latency)|]. simpl. unfold Second. lia.
Qed.

#[export] Instance apid_laws `{APID.GRPC} {E} lw lc stack picks : ServiceLaws (APID.service (E := E) logging lw lc stack picks).
Proof.
  apply (simple_service_laws APID.ID APID.PreFunc (restarted (APID.restarter logging lw lc stack))).
  - intros w w' r [= <- _]. by constructor.
  - apply restarted_laws, GoroutineLaws.goroutine_laws.
  - done.
  - done.
Qed.

Lemma apid_stops `{APID.GRPC} `{!DialLaws latency} {E} lw lc stack picks :
  StopsPromptly (APID.service (E := E) logging lw lc stack picks) stop_bound.
Proof.
  assert (0 < Second) by done.
  apply (simple_service_stops APID.ID APID.PreFunc (restarted (APID.restarter logging lw lc stack))); try done;
    [apply (run_end_stops _ _ _ _ _ _ (apid_check_ends HL)); unfold stop_bound, Second in *; simpl; lia || done|..]; unfold stop_bound.
  - lia.
  - intros w t _. simpl. lia.
  - apply restarted_stops; [apply GoroutineLaws.goroutine_laws| |done].
    eapply StopsWithin_mono; [apply GoroutineLaws.goroutine_stops_within|]. simpl. unfold Second in *.
    rewrite int64_small by lia. lia.
Qed.

End service_laws.

(** ** Properties *)

(** C21: Each of the three services can be stopped.  Whatever its phase, be it
    waiting for its dependencies, in a stage or running, with a health check in
    progress or not, and however often it has been restarted, the [Run] of
    udevd, apid or tailscaled returns within seven times the bound of a phase of
    the cancellation of its context; the bound is twice the graceful timeout and
    what a kill takes.  This is so if processes and commands end within
    [latency] of a kill, and dials of the end of their context, which is no more
    than a second; and for udevd without an extra settle time, as the system
    makes it: its check sleeps through a stop otherwise. *)
Theorem system_services_stop `{TimelineLaws} `{ServiceSystem} `{OS} `{APID.GRPC} `{Udevd.Files}
    logging latency lw lc stack u picks (svc : Service proc_env) s0 w t :
  0 <= latency -> latency <= Second -> ServiceSystemLaws latency -> OSKills latency -> DialLaws latency ->
  Udevd.ExtraSettleTime u <= 0 ->
  svc ∈ [Tailscaled.service logging picks; Udevd.service logging u picks; APID.service logging lw lc stack picks] ->
  cancel_at w = Some t ->
  exists w' res, Run wait_for_service WaitForAll svc s0 w = Some (w', res) /\
    now w' <= Z.max (now w) t + 7 * stop_bound latency.
Proof.
  intros HL HM HS HK HD Hx Hsvc Hc.
  assert (0 <= stop_bound latency) as Hb by (unfold stop_bound, Second; lia).
  assert (ServiceLaws svc /\ StopsPromptly svc (stop_bound latency) /\ Condition svc = None) as (H1L & H1S & HN).
  { apply elem_of_cons in Hsvc as [->|[->|[->|[]%elem_of_nil]%elem_of_cons]%elem_of_cons]; split_and!; try done.
    - apply tailscaled_laws.
    - by apply tailscaled_stops.
    - by apply (udevd_laws logging latency (HS := HS)).
    - by apply udevd_stops.
    - apply apid_laws.
    - by apply apid_stops. }
  apply Run_stops; [done..| |done].
  intros c HR. assert (forall c, Condition svc = Some c -> ConditionLaws c /\ ConditionStops c (stop_bound latency))
    as HC by (rewrite HN; done).
  split; [by eapply run_condition_laws; [intros c0 ?%HC; tauto|]|by eapply run_condition_stops].
Qed.

(** Errors of the network are not the context's. *)
Class GRPCLaws `{APID.GRPC} : Prop := {
  graceful_after t g : APID.graceful_stop t = Some g -> t <= g;
  close_error_own : errors_Is APID.close_error context_Canceled = false
}.

(** C22: Stopping apid.  apid, serving and cancelled at [t], ends when the calls
    in progress have, and then always with an error, that of closing a
    listener which the server has closed already; if they have not ended within
    twice the graceful timeout, the run is aborted at that instant. *)
Theorem apid_stop_exact `{GRPCLaws} {E} logging lc stack (w : world E) t :
  APID.net_Listen APID.protocol APID.endpoint (now w) = None -> APID.accept_fails (now w) = None ->
  cancel_at w = Some t -> now w < t ->
  exists w' err,
    Runners.Run (Goroutine.NewRunner APID.ID (APID.service_main None lc stack) [WithLoggingManager logging]) w
      = Some (w', (mkStatus true 0, Some err)) /\
    match APID.graceful_stop t with
    | Some g => (g < t + 20 * Second -> now w' = g /\ err = APID.close_error) /\
                (t + 20 * Second < g -> now w' = t + 20 * Second /\ err = ESentinel Goroutine.ErrAborted)
    | None => now w' = t + 20 * Second /\ err = ESentinel Goroutine.ErrAborted
    end.
Proof.
  intros HLi HA Hc Ht. unfold Goroutine.NewRunner, Goroutine.as_Runner. cbn [Runners.Run].
  unfold Goroutine.goroutine_Run. set (w0 := eventSink StateRunning _ w).
  assert (cancel_at w0 = Some t /\ now w0 = now w) as [C0 N0] by done. clearbody w0.
  assert (Goroutine.wrappedMain (APID.service_main None lc stack) w0 =
    (fun g => (g, Some APID.close_error)) <$> APID.graceful_stop t) as ->.
  { unfold Goroutine.wrappedMain. cbn [Goroutine.log_writer APID.service_main Goroutine.main].
    unfold APID.runAPID, APID.errgroup. rewrite N0, HLi, C0, HA. rewrite Z.max_r by lia.
    destruct (APID.graceful_stop t); cbn; [|done]. rewrite (decide_False (P := t <= now w)) by lia.
    by rewrite close_error_own. }
  cbn [GracefulShutdownTimeout apply_setters foldl WithLoggingManager DefaultOptions].
  assert (0 < Second) as HS by done. set (lim := int64 _). assert (lim = 20 * Second) as -> by done.
  assert (forall g, APID.graceful_stop t = Some g -> t <= g) as Hg by (intros g; apply graceful_after).
  destruct (APID.graceful_stop t) as [g|]; cbn [fmap option_fmap option_map fst].
  - specialize (Hg g eq_refl).
    destruct (select2_returns (cancel_at w0) (Some g) w0) as (c1 & w1 & S1); [right; eauto|]. rewrite S1. cbn [mbind option_bind].
    destruct (select2_spec _ _ _ _ _ S1) as (t1 & R1 & T1 & L1 & _). rewrite C0 in R1, L1. destruct c1; injection R1 as <-.
    + set (w2 := eventSink _ _ w1). assert (now w2 = t) as N2 by (simpl; lia).
      destruct (select2_returns (time_After (20 * Second) w2) (Some g) w2) as (c3 & w3 & S3); [right; eauto|].
      rewrite S3. cbn [mbind option_bind]. unfold time_After in S3.
      destruct (select2_spec _ _ _ _ _ S3) as (t3 & R3 & T3 & L3 & _). rewrite N2 in *.
      destruct c3; injection R3 as <-; specialize (L3 _ eq_refl); eexists _, _; (split; [done|]); simpl; (split; intros; [|]); lia || (split; done || lia).
    + specialize (L1 _ eq_refl). eexists _, _. split; [done|]. split; intros; [split; done || lia|lia].
  - unfold select2 at 1. rewrite C0. cbn. eexists _, _. split; [done|]. simpl. split; [|done]. lia.
Qed.

(** C19: The state of udevd's health check.  Whatever the commands do, over any
    sequence of checks of a new udevd: the subsystems are triggered with
    success once, or, before a check has come that far, not at all; once any
    check was healthy they have been; the extra settle time counts from the end
    of the first successful settle; and a healthy check ends only when this
    time is over. *)
Theorem udevd_checks_exact `{ServiceSystem} `{Udevd.Files} timeout cancel t x l w' errs :
  Udevd.checks timeout cancel l (Udevd.mkCheck t (Udevd.mkUdevd x false None) []) = Some (w', errs) ->
  length (UdevdLemmas.succeeded Udevd.trigger_subsystems w')
    = (if Udevd.triggered (Udevd.udevd w') then 1 else 0)%nat /\
  (None ∈ errs -> length (UdevdLemmas.succeeded Udevd.trigger_subsystems w') = 1%nat) /\
  Udevd.extraSettleStart (Udevd.udevd w') = Udevd.i_end <$> head (UdevdLemmas.succeeded Udevd.settle w') /\
  (last errs = Some None -> exists i, head (UdevdLemmas.succeeded Udevd.settle w') = Some i /\
     (0 < x -> Udevd.i_end i + x <= Udevd.clock w')).
Proof.
  intros HR. destruct (UdevdLemmas.checks_ok timeout cancel l _ w' errs HR) as ([HT HS] & _ & HN & HL).
  { by split. }
  split_and!; [done|auto|done|]. intros Hl. destruct (HL Hl) as (s & Hs & He). rewrite HS in Hs.
  destruct (head _) as [i|]; [|done]. injection Hs as <-. exists i. split; [done|exact He].
Qed.

(** Udevd's health check ends.  Under a context with a deadline, as
    [health.Run] gives it, the check returns by the deadline or, when it begins
    later, at once, plus what it takes to kill the four commands it may still
    issue. *)
Theorem udevd_check_ends `{ServiceSystem} `{Udevd.Files} latency c w dl :
  0 <= latency -> ServiceSystemLaws latency -> Udevd.ctx_Deadline c = Some dl ->
  exists w' err, Udevd.HealthFunc c w = Some (w', err) /\
    Udevd.clock w' <= Z.max (Udevd.clock w) dl + 4 * latency.
Proof.
  intros HL HS Hdl. destruct (UdevdLemmas.ctx_done_deadline c dl Hdl) as (d & Hd & Hle).
  destruct (UdevdLemmas.HealthFunc_ends (Udevd.ExtraSettleTime (Udevd.udevd w)) latency c d (Z.max (Udevd.clock w) dl)
    HL HS Hd ltac:(lia)) with (w := w) as (w' & err & HE & Hn & _); [right; exists dl; split; [done|lia]|lia|done|].
  exists w', err. split; [done|lia].
Qed.

(** C20: Udevd becomes healthy.  Once its commands succeed, each within [d], and
    its control socket is there, every check of a new udevd returns under the
    timeout of its settings, and those due when four commands and the extra
    settle time have passed are healthy; without an extra settle time, as the
    system runs it, all of them. *)
Theorem udevd_becomes_healthy `{ServiceSystem} `{Udevd.Files} t0 d x t1 l w :
  0 <= d -> 4 * d < Timeout Udevd.HealthSettings -> UdevdLemmas.responsive t0 d -> t0 <= Udevd.clock w ->
  Udevd.udevd w = Udevd.mkUdevd x false None ->
  exists w' errs, Udevd.checks (Timeout Udevd.HealthSettings) None (t1 :: l) w = Some (w', errs) /\
    Forall2 (fun t err => x <= 0 \/ Z.max (Udevd.clock w) t1 + 4 * d + x < t -> err = None) (t1 :: l) errs.
Proof.
  intros Hd. generalize (Timeout Udevd.HealthSettings). intros timeout Hto HR Hw HU. cbn [Udevd.checks].
  destruct (UdevdLemmas.HealthFunc_responsive t0 d timeout (Udevd.at_clock (Z.max (Udevd.clock w) t1) w) Hd HR)
    as (w1 & e1 & s & H1 & T1 & X1 & S1 & O1 & N1); [simpl; lia|done|].
  rewrite H1. cbn [mbind option_bind]. simpl in *. rewrite HU in *. simpl in *.
  destruct O1 as [?|[_ O1]]; [done|].
  destruct (UdevdLemmas.checks_responsive t0 d timeout l w1 s Hd HR ltac:(lia) Hto S1) as (w2 & errs & H2 & HF).
  rewrite H2. cbn [mbind option_bind]. eexists _, _. split; [done|]. rewrite X1 in HF. constructor.
  - simpl. intros [?|?]; apply N1; [by left|]. lia.
  - eapply Forall2_impl; [exact HF|]. simpl. intros t err HE [?|?]; apply HE; [by left|right; lia].
Qed.

(** ** Concrete runs *)

Module DemoServices.
Import DemoConditions.

#[local] Existing Instance demo_OS.

(** A command takes two seconds, and is killed at the end of its context. *)
#[export] Instance demo_system : ServiceSystem := {|
  os_MkdirAll _ _ _ := None;
  run_command _ _ t done_at :=
    match done_at with
    | Some d => if decide (t + 2 * Second < d) then (t + 2 * Second, None) else (Z.max t d, Some (EMsg "signal: killed"))
    | None => (t + 2 * Second, None)
    end
|}.

Lemma demo_system_laws : ServiceSystemLaws 1.
Proof.
  assert (0 < Second) by done.
  split; intros; simpl; [destruct d; simpl|]; repeat case_decide; simpl; lia.
Qed.

(** apid's calls in progress end three seconds after a stop. *)
#[export] Instance demo_grpc : APID.GRPC := {|
  APID.net_Listen _ _ _ := None;
  APID.accept_fails _ := None;
  APID.graceful_stop t := Some (t + 3 * Second);
  APID.close_error := EMsg "close tcp [::]:6666: use of closed network connection";
  APID.overtaken _ := false;
  APID.net_Dial _ _ t _ := (t, None);
  APID.conn_Close := None
|}.

Lemma demo_grpc_laws : GRPCLaws.
Proof. split; [|done]. intros t g [= <-]. assert (0 < Second) by done. lia. Qed.

(** The control socket appears after three seconds. *)
#[export] Instance demo_files : Udevd.Files := {|
  Udevd.os_Stat _ t := if decide (3 * Second <= t) then Udevd.SExists else Udevd.SNotExist
|}.

Lemma demo_dial_laws : DialLaws 1.
Proof. split; intros; simpl; lia. Qed.

(** udevd, stopped eight seconds after its start, while its check runs. *)
Lemma system_services_stop_witness :
  exists w' res, Run wait_for_service WaitForAll (Udevd.service "runtime" (Udevd.mkUdevd 0 false None) [])
      StateInitialized demo_world = Some (w', res) /\
    now w' <= Z.max 0 (8 * Second) + 7 * stop_bound 1.
Proof.
  apply (system_services_stop "runtime" 1 None None "" (Udevd.mkUdevd 0 false None) []
    (Udevd.service "runtime" (Udevd.mkUdevd 0 false None) []) StateInitialized demo_world (8 * Second)).
  - lia.
  - done.
  - apply demo_system_laws.
  - apply demo_kills.
  - apply demo_dial_laws.
  - done.
  - right. left.
  - done.
Defined.

Lemma apid_stop_exact_witness :
  exists w' err,
    Runners.Run (Goroutine.NewRunner APID.ID (APID.service_main None None "") [WithLoggingManager "runtime"]) demo_world
      = Some (w', (mkStatus true 0, Some err)) /\
    now w' = 11 * Second /\ err = APID.close_error.
Proof.
  destruct (apid_stop_exact (H0 := demo_grpc_laws) "runtime" None "" demo_world (8 * Second)) as (w' & err & HR & H1 & _);
    [done..|].
  exists w', err. split; [exact HR|]. apply H1. done.
Defined.

Definition demo_udevd (extra : Z) : Udevd.check_world := Udevd.mkCheck 0 (Udevd.mkUdevd extra false None) [].

(** With a minute of extra settle time the first check gives up, and the
    second, a minute later, sleeps until the time is over. *)
Lemma udevd_checks_exact_witness :
  exists w' errs, Udevd.checks (55 * Second) None [0; 60 * Second] (demo_udevd (60 * Second)) = Some (w', errs) /\
    errs = [Some (EMsg "waiting for udevd for extra settle timeout"); None] /\
    exists i, head (UdevdLemmas.succeeded Udevd.settle w') = Some i /\ (0 < 60 * Second -> Udevd.i_end i + 60 * Second <= Udevd.clock w').
Proof.
  destruct (Udevd.checks (55 * Second) None [0; 60 * Second] (demo_udevd (60 * Second))) as [[w' errs]|] eqn:E;
    [|vm_compute in E; discriminate].
  exists w', errs. split; [done|].
  assert (errs = [Some (EMsg "waiting for udevd for extra settle timeout"); None]) as He by (vm_compute in E; by injection E as _ <-).
  split; [exact He|].
  destruct (udevd_checks_exact (55 * Second) None 0 (60 * Second) [0; 60 * Second] w' errs E) as (_ & _ & _ & HL).
  apply HL. by rewrite He.
Defined.

Lemma udevd_check_ends_witness :
  exists w' err, Udevd.HealthFunc (Udevd.mkCtx (Some (2 * Second)) None) (demo_udevd 0) = Some (w', err) /\
    Udevd.clock w' <= 2 * Second + 4 * 1.
Proof.
  apply (udevd_check_ends 1 (Udevd.mkCtx (Some (2 * Second)) None) (demo_udevd 0) (2 * Second));
    [lia|apply demo_system_laws|done].
Defined.

Lemma demo_responsive : UdevdLemmas.responsive (3 * Second) (2 * Second).
Proof.
  assert (0 < Second) by done. split.
  - intros args t done_at Ht Hd. exists (t + 2 * Second). simpl. destruct done_at as [dn|]; [|split; [done|lia]].
    rewrite decide_True by (by apply Hd). split; [done|lia].
  - intros t Ht. simpl. by rewrite decide_True.
Qed.

Lemma udevd_becomes_healthy_witness :
  let w := Udevd.at_clock (3 * Second) (demo_udevd (30 * Second)) in
  exists w' errs, Udevd.checks (Timeout Udevd.HealthSettings) None [3 * Second; 63 * Second] w = Some (w', errs) /\
    errs !! 1%nat = Some None.
Proof.
  intros w. destruct (udevd_becomes_healthy (3 * Second) (2 * Second) (30 * Second) (3 * Second) [63 * Second] w)
    as (w' & errs & HR & HF); [by vm_compute|by vm_compute|apply demo_responsive|by vm_compute|done|].
  exists w', errs. split; [exact HR|].
  destruct (Forall2_lookup_l _ _ _ 1%nat (63 * Second) HF eq_refl) as (e & He & HN). rewrite He. f_equal. apply HN.
  right. by vm_compute.
Defined.

End DemoServices.
