(* ===== verification/Logging.v ===== *)
(** * Loggers and log writers

    Models [internal/app/machined/pkg/runtime/logging] ([simple.go],
    [null.go]), the options of [pkg/runtime/logging.go] and
    [pkg/logging/zap.go].  Bytes are strings.  The open files of the process are
    a store shared by all writers ([files]), since the simple manager hands out
    the standard output itself.  The logger and its cores are modelled from
    [vendor/go.uber.org/zap]; encoders are a parameter. *)

From stdpp Require Import pretty.
From S2P Require Import Prelude Runners.

(** ** io.Writer *)

(** [Write(p) (n int, err error)] on a state [W]. *)
Definition writer (W : Type) : Type := string -> W -> W * (Z * option error).

Definition str_len (s : string) : Z := Z.of_nat (String.length s).

(** "Write must return a non-nil error if it returns n < len(p)", with [n]
    from 0 to [len(p)]. *)
Class WriterLaws {W} (wr : writer W) : Prop :=
  writer_n p w w' n err : wr p w = (w', (n, err)) -> 0 <= n <= str_len p /\ (n < str_len p -> is_Some err).

(** ** Files *)

(** The open files, what was written to them, and the kernel's answer to an open
    of the null device: [None] is success. *)
Record files := mkFiles {
  next_file : nat;
  open_files : gset nat;
  data : list (nat * string);
  null_error : option error
}.

Definition stdout : nat := 1%nat.

Definition err_closed (what : string) : error := EWrap what (ESentinel "file already closed") "".

(** [os.File.Write] and [Close], of a device that takes everything. *)
Definition file_Write (fd : nat) : writer files := fun p w =>
  if decide (fd ∈ open_files w)
  then (mkFiles (next_file w) (open_files w) (data w ++ [(fd, p)]) (null_error w), (str_len p, None))
  else (w, (0, Some (err_closed "write: "))).

Definition file_Close (fd : nat) (w : files) : files * option error :=
  if decide (fd ∈ open_files w)
  then (mkFiles (next_file w) (open_files w ∖ {[fd]}) (data w) (null_error w), None)
  else (w, Some (err_closed "close: ")).

(** [os.OpenFile(os.DevNull, flag, 0)]. *)
Definition opened (w : files) : files :=
  mkFiles (S (next_file w)) ({[next_file w]} ∪ open_files w) (data w) (null_error w).

Definition open_null : M files nat := fun w =>
  match null_error w with
  | Some err => (w, Err err)
  | None => (opened w, Ok (next_file w))
  end.

(** ** Time stamps *)

(** The calendar fields of [time.Now()]. *)
Record time := mkTime {
  year : Z; month : Z; day : Z; hour : Z; minute : Z; second : Z; nanosecond : Z
}.

Definition digit (z : Z) : Ascii.ascii := Ascii.ascii_of_nat (48 + Z.to_nat (z `mod` 10)).

(** The last [n] decimal digits. *)
Fixpoint fixed (n : nat) (z : Z) : string :=
  match n with
  | O => ""
  | S n => fixed n (z / 10) +:+ String (digit z) EmptyString
  end.

(** [appendInt] of the package [time]: at least [n] digits. *)
Definition appendInt (n : nat) (z : Z) : string :=
  let go (z : Z) := if decide (z < 10 ^ Z.of_nat n) then fixed n z else pretty z in
  if decide (z < 0) then "-" +:+ go (- z) else go z.

(** [AppendFormat(buf, "2006/01/02 15:04:05.000000")]: the fraction is cut
    off. *)
Definition AppendFormat (t : time) : string :=
  appendInt 4 (year t) +:+ "/" +:+ appendInt 2 (month t) +:+ "/" +:+ appendInt 2 (day t) +:+ " " +:+
  appendInt 2 (hour t) +:+ ":" +:+ appendInt 2 (minute t) +:+ ":" +:+ appendInt 2 (second t) +:+ "." +:+
  fixed 6 (nanosecond t / 1000).

(** ** timeStampWriter (simple.go) *)

Definition io_ErrShortWrite : string := "short write".

Definition stamped_line (now : time) (p : string) : string := AppendFormat now +:+ " " +:+ p.

Definition timeStampWriter_Write {W} (under : writer W) (now : time) : writer W := fun p w =>
  let buf := stamped_line now p in
  let '(w, (n, err)) := under buf w in
  match err with
  | None =>
    if decide (n = str_len buf) then (w, (str_len p, None))
    else (w, (n, Some (EWrap "time stamp writer error: " (ESentinel io_ErrShortWrite) "")))
  | Some e => (w, (n, Some (EWrap "time stamp writer internal error: " e "")))
  end.

(** ** The logging managers *)

(** What [Writer()] returns. *)
Inductive log_writer :=
| TimeStamp (fd : nat)
| Plain (fd : nat).

Definition log_Write (now : time) (lw : log_writer) : writer files :=
  match lw with
  | TimeStamp fd => timeStampWriter_Write (file_Write fd) now
  | Plain fd => file_Write fd
  end.

Definition log_Close (lw : log_writer) (w : files) : files * option error :=
  match lw with TimeStamp fd | Plain fd => file_Close fd w end.

(** [LogHandler] and [LoggingManager].  A sender and a line writer are not
    looked at. *)
Record LogHandler := mkHandler {
  Writer : M files log_writer;
  Reader : M files nat
}.

Record LoggingManager := mkManager {
  ServiceLog : string -> LogHandler;
  SetSenders : list nat -> M files (list nat);
  SetLineWriter : nat -> M files unit;
  RegisteredLogs : M files (list string)
}.

(** [SimpleLoggingManager]. *)
Definition simple_handler : LogHandler :=
  mkHandler (mret (TimeStamp stdout)) (panics "unimplemented").

Definition SimpleLoggingManager : LoggingManager :=
  mkManager (fun _ => simple_handler) (fun _ => panics "unimplemented") (fun _ => panics "unimplemented")
    (panics "unimplemented").

(** [NullLoggingManager]. *)
Definition null_handler : LogHandler :=
  mkHandler (fd ← open_null; mret (Plain fd)) open_null.

Definition NullLoggingManager : LoggingManager :=
  mkManager (fun _ => null_handler) (fun _ => mret []) (fun _ => mret tt) (mret []).

(** ** Options of a reader (logging.go) *)

Record LogOptions := mkLogOptions { Follow : bool; TailLines : option Z }.

Definition LogOption : Type := LogOptions -> LogOptions * option error.

Definition WithFollow : LogOption := fun o => (mkLogOptions true (TailLines o), None).
Definition WithTailLines (lines : Z) : LogOption := fun o => (mkLogOptions (Follow o) (Some lines), None).

(** ** Loggers (zap.go) *)

Inductive Level := DebugLevel | InfoLevel | WarnLevel | ErrorLevel | DPanicLevel | PanicLevel | FatalLevel.

#[export] Instance Level_eq_dec : EqDecision Level.
Proof. solve_decision. Defined.

Definition Level_num (l : Level) : Z :=
  match l with
  | DebugLevel => -1 | InfoLevel => 0 | WarnLevel => 1 | ErrorLevel => 2
  | DPanicLevel => 3 | PanicLevel => 4 | FatalLevel => 5
  end.

(** The fields of [zapcore.EncoderConfig] that the options change; [None] is a
    nil encoder. *)
Record EncoderConfig := mkConfig {
  EncodeTime : option string;
  EncodeLevel : option string;
  ConsoleSeparator : string;
  StacktraceKey : string
}.

(** [zap.NewDevelopmentEncoderConfig()], as far as it is used. *)
Definition NewDevelopmentEncoderConfig : EncoderConfig := mkConfig (Some "ISO8601") (Some "Capital") "" "S".

(** What logs are written to: the standard logger (or another one), the log of
    a service, or any other writer. *)
Inductive io_Writer := LogWrapper (log : option nat) | ServiceWriter (lw : log_writer).

#[export] Instance log_writer_eq_dec : EqDecision log_writer.
Proof. solve_decision. Defined.
#[export] Instance io_Writer_eq_dec : EqDecision io_Writer.
Proof. solve_decision. Defined.

Definition StdWriter : io_Writer := LogWrapper None.

Record LogDestination := mkDestination {
  dest_level : Level;
  dest_writer : io_Writer;
  dest_config : EncoderConfig;
  suppressThreshold : Z
}.

Definition LogDestinationOption : Type := LogDestination -> LogDestination.

Definition WithoutTimestamp : LogDestinationOption := fun d =>
  let c := dest_config d in
  mkDestination (dest_level d) (dest_writer d)
    (mkConfig None (EncodeLevel c) (ConsoleSeparator c) (StacktraceKey c)) (suppressThreshold d).
Definition WithoutLogLevels : LogDestinationOption := fun d =>
  let c := dest_config d in
  mkDestination (dest_level d) (dest_writer d)
    (mkConfig (EncodeTime c) None (ConsoleSeparator c) (StacktraceKey c)) (suppressThreshold d).
Definition WithColoredLevels : LogDestinationOption := fun d =>
  let c := dest_config d in
  mkDestination (dest_level d) (dest_writer d)
    (mkConfig (EncodeTime c) (Some "CapitalColor") (ConsoleSeparator c) (StacktraceKey c)) (suppressThreshold d).
Definition WithControllerErrorSuppressor (threshold : Z) : LogDestinationOption := fun d =>
  mkDestination (dest_level d) (dest_writer d) (dest_config d) threshold.

Definition NewLogDestination (writer : io_Writer) (logLevel : Level) (options : list LogDestinationOption) : LogDestination :=
  let c := NewDevelopmentEncoderConfig in
  foldl (fun d option => option d)
    (mkDestination logLevel writer (mkConfig (EncodeTime c) (EncodeLevel c) " " "error") 0) options.

(** A field of a record: its key and its string. *)
Record Field := mkField { field_Key : string; field_String : string }.

(** A core: its level, its encoder's configuration and fields, and its writer. *)
Record core := mkCore { core_level : Level; core_config : EncoderConfig; core_context : list Field; core_writer : io_Writer }.

Record zap_logger := mkLogger { cores : list core; development : bool }.

(** [ZapLogger]; the suppression is commented out in the source. *)
Definition ZapLogger (dests : list LogDestination) : result zap_logger :=
  match dests with
  | [] => Panic "at least one writer must be defined"
  | _ => Ok (mkLogger ((fun d => mkCore (dest_level d) (dest_config d) [] (dest_writer d)) <$> dests) false)
  end.

Definition Wrap (writer : io_Writer) : result zap_logger := ZapLogger [NewLogDestination writer DebugLevel []].

(** [Component], and [zap.Logger.With] for one field. *)
Definition Component (name : string) : Field := mkField "component" name.

Definition With_ (f : Field) (l : zap_logger) : zap_logger :=
  mkLogger ((fun c => mkCore (core_level c) (core_config c) (core_context c ++ [f]) (core_writer c)) <$> cores l) (development l).

Definition core_Enabled (lvl : Level) (c : core) : bool := Level_num (core_level c) <=? Level_num lvl.

(** What a checked entry does after it is written. *)
Inductive after := ANothing | APanic | AFatal.

Record CheckedEntry := mkChecked { ce_level : Level; ce_message : string; ce_cores : list core; ce_after : after }.

Definition terminal (l : zap_logger) (lvl : Level) : after :=
  match lvl with
  | PanicLevel => APanic
  | FatalLevel => AFatal
  | DPanicLevel => if development l then APanic else ANothing
  | _ => ANothing
  end.

(** [zap.Logger.Check]; [None] is nil. *)
Definition Check_ (l : zap_logger) (lvl : Level) (msg : string) : option CheckedEntry :=
  if decide (Level_num lvl < Level_num DPanicLevel /\ existsb (core_Enabled lvl) (cores l) = false) then None
  else
    let enabled := filter (fun c => core_Enabled lvl c = true) (cores l) in
    match enabled, terminal l lvl with
    | [], ANothing => None
    | _, a => Some (mkChecked lvl msg enabled a)
    end.

(** How a call ends: it returns, panics, or ends the process. *)
Inductive outcome (A : Type) := Returned (a : A) | Panicked (msg : string) | Exited (code : Z).
Arguments Returned {A} a.
Arguments Panicked {A} msg.
Arguments Exited {A} code.

Section Logger.
Context {W : Type} (writers : io_Writer -> writer W).
Context (EncodeEntry : EncoderConfig -> list Field -> Level -> string -> error + string).

(** [ioCore.Write]. *)
Definition core_Write (lvl : Level) (msg : string) (c : core) (w : W) : W * option error :=
  match EncodeEntry (core_config c) (core_context c) lvl msg with
  | inl err => (w, Some err)
  | inr buf => let '(w, (_, err)) := writers (core_writer c) buf w in (w, err)
  end.

(** [CheckedEntry.Write]: every core is written to; errors go to the
    logger's error output. *)
Definition CheckedEntry_Write (ce : CheckedEntry) (w : W) : W * outcome unit :=
  (foldl (fun w c => fst (core_Write (ce_level ce) (ce_message ce) c w)) w (ce_cores ce),
   match ce_after ce with ANothing => Returned tt | APanic => Panicked (ce_message ce) | AFatal => Exited 1 end).

(** ASCII white space; [strings.TrimSpace] of ASCII text. *)
Definition is_space (c : Ascii.ascii) : bool :=
  let n := Ascii.nat_of_ascii c in ((9 <=? n) && (n <=? 13) || (n =? 32))%nat.

Fixpoint trim_left (s : string) : string :=
  match s with
  | EmptyString => EmptyString
  | String c s' => if is_space c then trim_left s' else s
  end.

(** Drops the white space at the end. *)
Fixpoint trim_right (s : string) : string :=
  match s with
  | EmptyString => EmptyString
  | String c s =>
    let s := trim_right s in
    if decide (s = EmptyString /\ is_space c = true) then EmptyString else String c s
  end.

Definition TrimSpace (s : string) : string := trim_right (trim_left s).

(** [LogWriter]: the logger and the level. *)
Definition LogWriter_Write (dest : zap_logger) (level : Level) (line : string) (w : W) : W * outcome (Z * option error) :=
  match Check_ dest level (TrimSpace line) with
  | None => (w, Returned (0, None))
  | Some checked =>
    match CheckedEntry_Write checked w with
    | (w, Returned _) => (w, Returned (str_len line, None))
    | (w, Panicked m) => (w, Panicked m)
    | (w, Exited c) => (w, Exited c)
    end
  end.

(** [logWrapper]: the standard logger, or the given one. *)
Definition logWrapper_Write (Print : option nat -> string -> W -> W) (log : option nat) : writer W := fun line w =>
  (Print log line w, (str_len line, None)).

End Logger.

(** ** Lemmas *)

Lemma str_length_app s t : String.length (s +:+ t) = (String.length s + String.length t)%nat.
Proof. induction s; simpl; [done|]. by f_equal. Qed.

Lemma str_len_app s t : str_len (s +:+ t) = str_len s + str_len t.
Proof. unfold str_len. rewrite str_length_app. lia. Qed.

Lemma fixed_length n z : String.length (fixed n z) = n.
Proof. revert z. induction n as [|n IH]; intros z; simpl; [done|]. rewrite str_length_app, IH. simpl. lia. Qed.

Lemma appendInt_length n z : 0 <= z < 10 ^ Z.of_nat n -> String.length (appendInt n z) = n.
Proof. intros Hz. unfold appendInt. rewrite decide_False, decide_True by lia. apply fixed_length. Qed.

(** The fields of an instant in the years 0 to 9999. *)
Definition valid_time (t : time) : Prop :=
  0 <= year t < 10000 /\ 1 <= month t <= 12 /\ 1 <= day t <= 31 /\
  0 <= hour t < 24 /\ 0 <= minute t < 60 /\ 0 <= second t < 60.

Lemma AppendFormat_length t : valid_time t -> String.length (AppendFormat t) = 26%nat.
Proof.
  intros (H1 & H2 & H3 & H4 & H5 & H6). unfold AppendFormat.
  rewrite !str_length_app, fixed_length, !appendInt_length by lia. done.
Qed.

#[export] Instance file_Write_laws fd : WriterLaws (file_Write fd).
Proof.
  intros p w w' n err. unfold file_Write. case_decide; intros [= <- <- <-]; unfold str_len; split; lia || eauto.
Qed.

(** Nothing is lost but white space at both ends. *)
Fixpoint all_space (s : string) : Prop :=
  match s with EmptyString => True | String c s => is_space c = true /\ all_space s end.

Lemma trim_left_spec s : exists l, s = l +:+ trim_left s /\ all_space l.
Proof.
  induction s as [|c s (l & Hs & Hl)]; simpl; [by exists ""|].
  destruct (is_space c) eqn:Hc; [|by exists ""]. exists (String c l).
  split; [|by split]. cbn [String.app]. exact (f_equal (String c) Hs).
Qed.

Lemma trim_right_spec s : exists r, s = trim_right s +:+ r /\ all_space r.
Proof.
  induction s as [|c s (r & Hs & Hr)]; simpl; [by exists ""|].
  case_decide as Hd.
  - destruct Hd as [He Hc]. exists (String c s). rewrite He in Hs. simpl in Hs. subst s. by split.
  - exists r. split; [|done]. exact (f_equal (String c) Hs).
Qed.

Lemma TrimSpace_spec s : exists l r, s = l +:+ TrimSpace s +:+ r /\ all_space l /\ all_space r.
Proof.
  destruct (trim_left_spec s) as (l & Hs & Hl), (trim_right_spec (trim_left s)) as (r & Ht & Hr).
  exists l, r. unfold TrimSpace. by rewrite <-Ht, <-Hs.
Qed.

(** *** Loggers over writers that record *)

(** A writer that keeps what it is given, whether it reports an error or not. *)
Definition recorder (fails : io_Writer -> option error) (id : io_Writer) : writer (list (io_Writer * string)) := fun p w =>
  (w ++ [(id, p)], (str_len p, fails id)).

Section recorder.
Context (fails : io_Writer -> option error) (EncodeEntry : EncoderConfig -> list Field -> Level -> string -> error + string).

Definition emitted (lvl : Level) (msg : string) (c : core) : option (io_Writer * string) :=
  match EncodeEntry (core_config c) (core_context c) lvl msg with inl _ => None | inr buf => Some (core_writer c, buf) end.

Lemma core_Write_recorder lvl msg c w :
  fst (core_Write (recorder fails) EncodeEntry lvl msg c w) = w ++ option_list (emitted lvl msg c).
Proof. unfold core_Write, emitted. destruct (EncodeEntry _ _ _); simpl; by rewrite ?app_nil_r. Qed.

Lemma cores_Write_recorder lvl msg cs w :
  foldl (fun w c => fst (core_Write (recorder fails) EncodeEntry lvl msg c w)) w cs = w ++ omap (emitted lvl msg) cs.
Proof.
  revert w. induction cs as [|c cs IH]; intros w; [by rewrite app_nil_r|]. cbn [foldl].
  rewrite core_Write_recorder, IH, <-app_assoc. simpl. by destruct (emitted lvl msg c).
Qed.

End recorder.

Lemma existsb_filter_nil (f : core -> bool) l :
  existsb f l = false <-> filter (fun c => f c = true) l = [].
Proof.
  induction l as [|c l IH]; [done|]. rewrite filter_cons. cbn [existsb]. destruct (decide (f c = true)) as [->|Hn].
  - done.
  - apply Bool.not_true_is_false in Hn as ->. exact IH.
Qed.

(** ** Properties *)

(** Stamped lines.  Whatever the file below, a write of the time-stamping
    writer succeeds only when the stamp, a space and the whole line have been
    written, and then reports the length of the line alone; in every other case
    it reports an error, and keeps a short write or the cause in it; the stamp of
    a valid time has the 26 bytes the buffer is made for. *)
Theorem stamped_write_exact {W} (under : writer W) now p w w' n err :
  WriterLaws under -> valid_time now -> timeStampWriter_Write under now p w = (w', (n, err)) ->
  String.length (AppendFormat now) = 26%nat /\
  exists n' err', under (AppendFormat now +:+ " " +:+ p) w = (w', (n', err')) /\
    (err = None <-> err' = None /\ n' = str_len p + 27) /\
    (err = None -> n = str_len p) /\
    (err <> None -> n = n') /\
    (forall target, (exists e, err' = Some e /\ errors_Is e target = true) -> exists e, err = Some e /\ errors_Is e target = true) /\
    (err' = None -> n' < str_len p + 27 -> exists e, err = Some e /\ errors_Is e io_ErrShortWrite = true).
Proof.
  intros HL Hv HW. pose proof (AppendFormat_length now Hv) as H26. split; [done|].
  assert (str_len (stamped_line now p) = str_len p + 27) as Hlen.
  { unfold stamped_line. rewrite !str_len_app. unfold str_len at 1 2. rewrite H26. simpl. lia. }
  unfold timeStampWriter_Write in HW. rewrite Hlen in HW. unfold stamped_line in *.
  destruct (under _ w) as [w1 [n1 err1]] eqn:EU. exists n1, err1.
  destruct (writer_n _ _ _ _ _ EU) as [Hn Hs]. rewrite Hlen in *. destruct err1 as [e|].
  - injection HW as <- <- <-. split_and!; try done; [by split; [|intros []]|]. intros target (e' & [= <-] & He). eexists. by split.
  - destruct (decide (n1 = str_len p + 27)); injection HW as <- <- <-.
    + split_and!; done || lia || naive_solver.
    + split_and!; try done; naive_solver.
Qed.

(** The writer of the null manager is a file of its own. *)
Lemma null_Writer_ok id w w' l :
  Writer (ServiceLog NullLoggingManager id) w = (w', Ok l) -> opened w = w' /\ l = Plain (next_file w).
Proof. cbn. unfold mbind, M_bind, open_null. by destruct (null_error w); intros [= <- <-]. Qed.

(** The log of one service closes the logs of all.  Every writer of the
    simple manager is the standard output itself: once any of them has been
    closed, each write to any other, of whatever service, fails and is lost,
    and so does its close.  The writers of the null manager are files of their
    own: one that is open stays open when another is closed. *)
Theorem log_close_shared a b now p w :
  (forall w1 w2 w3 la lb,
     Writer (ServiceLog SimpleLoggingManager a) w = (w1, Ok la) ->
     Writer (ServiceLog SimpleLoggingManager b) w1 = (w2, Ok lb) ->
     log_Close la w2 = (w3, None) ->
     (exists e, log_Write now lb p w3 = (w3, (0, Some e)) /\ errors_Is e "file already closed" = true) /\
     exists e, log_Close lb w3 = (w3, Some e)) /\
  (forall w1 w2 la lb, (forall fd, fd ∈ open_files w -> (fd < next_file w)%nat) ->
     Writer (ServiceLog NullLoggingManager a) w = (w1, Ok la) ->
     Writer (ServiceLog NullLoggingManager b) w1 = (w2, Ok lb) ->
     exists w3, log_Close la w2 = (w3, None) /\ snd (log_Write now lb p w3) = (str_len p, None)).
Proof.
  split.
  - intros w1 w2 w3 la lb [= <- <-] [= <- <-] HC. simpl in HC. unfold file_Close in HC.
    case_decide; [|done]. injection HC as <-.
    assert (stdout ∉ open_files w ∖ {[stdout]}) as Hn by set_solver. simpl. split.
    + unfold timeStampWriter_Write, file_Write. rewrite decide_False by done. eexists. split; [done|done].
    + unfold file_Close. simpl. rewrite decide_False by done. eauto.
  - intros w1 w2 la lb Hf [<- ->]%null_Writer_ok [<- ->]%null_Writer_ok. simpl. unfold file_Close. simpl.
    rewrite decide_True by set_solver. eexists. split; [done|]. unfold file_Write. simpl.
    rewrite decide_True by (apply elem_of_difference; split; [set_solver|rewrite elem_of_singleton; lia]). done.
Qed.

(** What a log writer delivers.  A line written at a level that does not end
    the program goes, without the white space around it, exactly once and in
    order, to every destination that takes the level and whose encoder does
    not fail, also when writing to some of them fails; the caller is told that
    all of it was written, or, when no destination takes the level, that
    nothing was and that there was no error. *)
Theorem log_writer_delivers fails EncodeEntry d dests logger lvl line w :
  ZapLogger (d :: dests) = Ok logger -> Level_num lvl < Level_num PanicLevel ->
  LogWriter_Write (recorder fails) EncodeEntry logger lvl line w =
    (w ++ omap (fun d => if Level_num (dest_level d) <=? Level_num lvl
                         then match EncodeEntry (dest_config d) [] lvl (TrimSpace line) with
                              | inl _ => None
                              | inr buf => Some (dest_writer d, buf)
                              end
                         else None) (d :: dests),
     Returned (if existsb (fun d => Level_num (dest_level d) <=? Level_num lvl) (d :: dests) then str_len line else 0, None)).
Proof.
  intros [= <-] Hl. set (ds := d :: dests). set (cs := (fun d => mkCore (dest_level d) (dest_config d) [] (dest_writer d)) <$> ds).
  assert (forall x, terminal (mkLogger x false) lvl = ANothing) as HT by (intros x; by destruct lvl).
  assert (existsb (core_Enabled lvl) cs = existsb (fun d => Level_num (dest_level d) <=? Level_num lvl) ds) as HE.
  { unfold cs. clear. induction ds as [|x ds IH]; [done|]. cbn. by rewrite IH. }
  assert (omap (emitted EncodeEntry lvl (TrimSpace line)) (filter (fun c => core_Enabled lvl c = true) cs) =
    omap (fun d => if Level_num (dest_level d) <=? Level_num lvl
                   then match EncodeEntry (dest_config d) [] lvl (TrimSpace line) with
                        | inl _ => None | inr buf => Some (dest_writer d, buf) end else None) ds) as HO.
  { unfold cs. clear. induction ds as [|x ds IH]; [done|]. rewrite fmap_cons, filter_cons.
    destruct (Level_num (dest_level x) <=? Level_num lvl) eqn:E.
    - rewrite decide_True by exact E. cbn [omap list_omap]. unfold emitted at 1. cbn [core_config core_writer].
      rewrite E. destruct (EncodeEntry _ _ _); by rewrite <-IH.
    - rewrite decide_False by (unfold core_Enabled; simpl; congruence). cbn [omap list_omap]. rewrite E. exact IH. }
  unfold LogWriter_Write, Check_. change (cores _) with cs. rewrite HT, <-HE, <-HO.
  destruct (existsb (core_Enabled lvl) cs) eqn:EB.
  - rewrite decide_False by (by intros [_ ?]).
    destruct (filter (fun c => core_Enabled lvl c = true) cs) as [|c0 rest] eqn:EF.
    { apply existsb_filter_nil in EF. congruence. }
    unfold CheckedEntry_Write. cbn [ce_level ce_message ce_cores ce_after]. by rewrite cores_Write_recorder.
  - pose proof EB as EF. apply existsb_filter_nil in EF. rewrite EF. simpl. rewrite app_nil_r. by case_decide.
Qed.

(** ** Concrete runs *)

Definition demo_time : time := mkTime 2026 3 9 7 5 4 123456789.

Definition demo_files : files := mkFiles 3 {[0%nat; 1%nat; 2%nat]} [] None.

Example demo_stamp : stamped_line demo_time "up" = "2026/03/09 07:05:04.123456 up".
Proof. by vm_compute. Qed.

Lemma stamped_write_exact_witness :
  exists w', timeStampWriter_Write (file_Write stdout) demo_time "up" demo_files = (w', (2, None)) /\
    exists n', file_Write stdout (AppendFormat demo_time +:+ " up") demo_files = (w', (n', None)) /\ n' = 29.
Proof.
  destruct (timeStampWriter_Write (file_Write stdout) demo_time "up" demo_files) as [w' [n err]] eqn:E.
  assert (n = 2 /\ err = None) as [-> ->] by (vm_compute in E; by injection E as _ <- <-).
  exists w'. split; [done|].
  destruct (stamped_write_exact (file_Write stdout) demo_time "up" demo_files w' 2 None (file_Write_laws stdout)
    ltac:(unfold valid_time; simpl; lia) E) as (_ & n' & err' & HU & H1 & _).
  destruct (proj1 H1 eq_refl) as [-> ->]. exists (2 + 27). split; [exact HU|done].
Defined.

Lemma log_close_shared_witness :
  exists w3, log_Close (TimeStamp stdout) demo_files = (w3, None) /\
    exists e, log_Write demo_time (TimeStamp stdout) "up" w3 = (w3, (0, Some e)).
Proof.
  destruct (log_Close (TimeStamp stdout) demo_files) as [w3 r] eqn:E.
  assert (r = None) as -> by (vm_compute in E; by injection E as _ <-).
  exists w3. split; [done|].
  destruct (proj1 (log_close_shared "apid" "udevd" demo_time "up" demo_files) demo_files demo_files w3
    (TimeStamp stdout) (TimeStamp stdout) eq_refl eq_refl E) as [(e & He & _) _]. exists e. exact He.
Defined.

(** The two destinations of [MakeLogger]: the service's log and the console. *)
Definition demo_dests : list LogDestination :=
  [NewLogDestination (ServiceWriter (Plain 3)) DebugLevel []; NewLogDestination StdWriter InfoLevel [WithoutTimestamp; WithoutLogLevels]].

Definition demo_encode (c : EncoderConfig) (context : list Field) (l : Level) (msg : string) : error + string :=
  inr ((match EncodeTime c with Some _ => "T " | None => "" end) +:+ msg).

Lemma log_writer_delivers_witness :
  exists logger, ZapLogger demo_dests = Ok logger /\
    LogWriter_Write (recorder (fun id => if decide (id = ServiceWriter (Plain 3)) then Some (EMsg "disk full") else None)) demo_encode
      logger InfoLevel "  started  " [] = ([(ServiceWriter (Plain 3), "T started"); (StdWriter, "started")], Returned (11, None)).
Proof.
  eexists. split; [reflexivity|].
  rewrite (log_writer_delivers (fun id => if decide (id = ServiceWriter (Plain 3)) then Some (EMsg "disk full") else None) demo_encode
    (NewLogDestination (ServiceWriter (Plain 3)) DebugLevel []) [NewLogDestination StdWriter InfoLevel [WithoutTimestamp; WithoutLogLevels]] _ InfoLevel "  started  " []
    eq_refl ltac:(simpl; lia)).
  vm_compute. reflexivity.
Defined.
