(* ===== verification/Drainer.v ===== *)
(** * The drainer: graceful shutdown of the controllers

    Models [internal/app/machined/pkg/runtime/drainer.go].  [Subscribe],
    [Cancel] and the critical sections of [Drain] are functions on the drainer;
    [dstep] interleaves them, [Cancel]'s removal and its send to [shutdown]
    being two steps. *)

From S2P Require Import Prelude.

(** ** State *)

(** A subscription is an identity; [events] holds the channels of all
    subscriptions made. *)
Record Drainer := mkDrainer {
  draining : bool;
  subscriptions : list nat;
  shutdown : chan unit;
  events : gmap nat (chan unit)
}.

Definition NewDrainer : Drainer := mkDrainer false [] (make_chan unit 1) ∅.

(** ** Operations *)

(** [s.events <- DrainEvent{}], not blocking, for each subscription. *)
Definition announce (subs : list nat) (evs : gmap nat (chan unit)) : gmap nat (chan unit) :=
  foldl (fun evs s => alter (try_send tt) s evs) evs subs.

(** The first critical section of [Drain]. *)
Definition Drain_begin (d : Drainer) : Drainer * option error :=
  if draining d then (d, Some (EMsg "already draining"))
  else (mkDrainer true (subscriptions d) (shutdown d) (announce (subscriptions d) (events d)), None).

(** [Subscribe], [s] being the new subscription; its channel is empty, so that
    the send does not block. *)
Definition Subscribe (s : nat) (d : Drainer) : Drainer :=
  let ch := make_chan unit 1 in
  let ch := if draining d then try_send tt ch else ch in
  mkDrainer (draining d) (subscriptions d ++ [s]) (shutdown d) (<[s := ch]> (events d)).

Definition EventCh (s : nat) (d : Drainer) : option (chan unit) := events d !! s.

(** [slices.Delete] of the first occurrence. *)
Fixpoint delete_first (s : nat) (l : list nat) : list nat :=
  match l with
  | [] => []
  | x :: l => if decide (x = s) then l else x :: delete_first s l
  end.

(** [Cancel]: the critical section, then the send. *)
Definition Cancel_remove (s : nat) (d : Drainer) : Drainer :=
  mkDrainer (draining d) (delete_first s (subscriptions d)) (shutdown d) (events d).

Definition Cancel_notify (d : Drainer) : Drainer :=
  mkDrainer (draining d) (subscriptions d) (try_send tt (shutdown d)) (events d).

Definition Cancel (s : nat) (d : Drainer) : Drainer := Cancel_notify (Cancel_remove s d).

(** ** Interleaving *)

(** The call of [Drain]: not called, about to look at the number of
    subscriptions, waiting in the [select], or returned. *)
Inductive drain_pc := DIdle | DCheck | DWait | DReturned (res : option error).

(** [pending]: the number of [Cancel] calls between their two steps;
    [received]: the subscriptions that have received the event. *)
Record dworld := mkDworld {
  dr : Drainer;
  pc : drain_pc;
  pending : nat;
  received : gset nat
}.

Definition init_dworld : dworld := mkDworld NewDrainer DIdle 0 ∅.

Inductive dstep (w : dworld) : dworld -> Prop :=
| ds_subscribe s :
    events (dr w) !! s = None -> dstep w (mkDworld (Subscribe s (dr w)) (pc w) (pending w) (received w))
| ds_cancel_remove s :
    dstep w (mkDworld (Cancel_remove s (dr w)) (pc w) (S (pending w)) (received w))
| ds_cancel_notify n :
    pending w = S n -> dstep w (mkDworld (Cancel_notify (dr w)) (pc w) n (received w))
| ds_receive s ch ch' :
    events (dr w) !! s = Some ch -> try_recv ch = Some (tt, ch') ->
    dstep w (mkDworld (mkDrainer (draining (dr w)) (subscriptions (dr w)) (shutdown (dr w)) (<[s := ch']> (events (dr w))))
               (pc w) (pending w) ({[s]} ∪ received w))
| ds_drain d' :
    pc w = DIdle -> Drain_begin (dr w) = (d', None) -> dstep w (mkDworld d' DCheck (pending w) (received w))
(** The loop of [Drain]. *)
| ds_check_done :
    pc w = DCheck -> length (subscriptions (dr w)) = 0%nat ->
    dstep w (mkDworld (dr w) (DReturned None) (pending w) (received w))
| ds_check_wait :
    pc w = DCheck -> length (subscriptions (dr w)) <> 0%nat ->
    dstep w (mkDworld (dr w) DWait (pending w) (received w))
| ds_woken ch' :
    pc w = DWait -> try_recv (shutdown (dr w)) = Some (tt, ch') ->
    dstep w (mkDworld (mkDrainer (draining (dr w)) (subscriptions (dr w)) ch' (events (dr w)))
               DCheck (pending w) (received w))
| ds_ctx_done e :
    pc w = DWait -> dstep w (mkDworld (dr w) (DReturned (Some e)) (pending w) (received w)).

Inductive dreach : dworld -> Prop :=
| dreach_init : dreach init_dworld
| dreach_step w w' : dreach w -> dstep w w' -> dreach w'.

(** ** Invariant *)

Record drain_ok (w : dworld) : Prop := {
  do_cap : chan_cap (shutdown (dr w)) = 1%nat;
  do_pc : draining (dr w) = false <-> pc w = DIdle;
  do_wait : pc w = DWait ->
    subscriptions (dr w) <> [] \/ chan_buf (shutdown (dr w)) <> [] \/ (0 < pending w)%nat;
  do_event : forall s, s ∈ subscriptions (dr w) -> exists ch, events (dr w) !! s = Some ch /\ (0 < chan_cap ch)%nat /\
    (draining (dr w) = true -> chan_buf ch <> [] \/ s ∈ received w)
}.

Lemma announce_lookup subs evs s ch :
  evs !! s = Some ch -> (0 < chan_cap ch)%nat ->
  exists ch', announce subs evs !! s = Some ch' /\ chan_cap ch' = chan_cap ch /\
    (s ∈ subs \/ chan_buf ch <> [] -> chan_buf ch' <> []).
Proof.
  unfold announce. revert evs ch. induction subs as [|x subs IH]; intros evs ch Hs Hc; simpl.
  { exists ch. split_and!; [done..|]. intros [?%elem_of_nil|?]; done. }
  destruct (decide (s = x)) as [->|Hne].
  - destruct (IH (alter (try_send tt) x evs) (try_send tt ch)) as (ch' & H1 & H2 & H3).
    { by rewrite lookup_alter_eq, Hs. } { unfold try_send. by case_decide. }
    exists ch'. split_and!; [done| |].
    + rewrite H2. unfold try_send. by case_decide.
    + intros _. apply H3. right. by apply try_send_nonempty.
  - destruct (IH (alter (try_send tt) x evs) ch) as (ch' & H1 & H2 & H3); [by rewrite lookup_alter_ne|done|].
    exists ch'. split_and!; [done..|]. intros [[->|?]%elem_of_cons|?]; auto.
Qed.

Lemma delete_first_subset s l x : x ∈ delete_first s l -> x ∈ l.
Proof.
  induction l as [|y l IH]; simpl; [done|]. case_decide; [by right|].
  intros [->|?]%elem_of_cons; [by left|right; auto].
Qed.

Lemma drain_ok_step w w' : drain_ok w -> dstep w w' -> drain_ok w'.
Proof.
  intros [H1 H2 H3 H4] HS. destruct HS as [s Hf|s|n Hn|s ch ch' Hs Hr|d' Hp Hb|Hp Hl|Hp Hl|ch' Hp Hr|e Hp];
    split; simpl; try done; try (by rewrite Hp in H2; split; [intros ?%H2|]).
  - intros _. left. by destruct (subscriptions (dr w)).
  - intros x [Hx| ->%list_elem_of_singleton]%elem_of_app.
    + destruct (H4 x Hx) as (ch & Hch & Hc & Hd). exists ch. split_and!; [|done|done].
      rewrite lookup_insert_ne; [done|congruence].
    + rewrite lookup_insert_eq. eexists. split; [done|]. destruct (draining (dr w)); simpl; [|split; [lia|done]].
      split; [lia|]. by left.
  - intros _. right. right. lia.
  - intros x Hx%delete_first_subset. auto.
  - unfold try_send. by case_decide.
  - intros _. right. left. apply try_send_nonempty. lia.
  - intros x Hx. destruct (H4 x Hx) as (ch0 & Hch & Hc & Hd). destruct (decide (x = s)) as [->|Hne].
    + rewrite lookup_insert_eq. exists ch'. split; [done|]. unfold try_recv in Hr.
      rewrite Hs in Hch. injection Hch as <-. destruct (chan_buf ch); [done|]. injection Hr as _ <-. simpl.
      split; [done|]. right. set_solver.
    + rewrite lookup_insert_ne by done. exists ch0. split_and!; [done..|]. intros Ht. destruct (Hd Ht); [by left|right; set_solver].
  - unfold Drain_begin in Hb. destruct (draining (dr w)); [done|]. by injection Hb as <-.
  - unfold Drain_begin in Hb. destruct (draining (dr w)); [done|]. injection Hb as <-. done.
  - unfold Drain_begin in Hb. destruct (draining (dr w)); [done|]. injection Hb as <-. simpl.
    intros s Hs. destruct (H4 s Hs) as (ch & Hch & Hc & _).
    destruct (announce_lookup (subscriptions (dr w)) _ _ _ Hch Hc) as (ch' & A & B & C).
    exists ch'. split_and!; [done|lia|]. intros _. left. apply C. by left.
  - intros _. left. by destruct (subscriptions (dr w)).
  - unfold try_recv in Hr. destruct (chan_buf (shutdown (dr w))); [done|]. by injection Hr as _ <-.
Qed.

Lemma drain_ok_reach w : dreach w -> drain_ok w.
Proof.
  induction 1 as [|w w' _ IH HS]; [|by eapply drain_ok_step].
  split; simpl; try done. by intros s ?%elem_of_nil.
Qed.

(** ** Properties *)

(** Draining cannot hang once everybody has left.  When [Drain] waits and no
    subscription is left, a wake-up is in its channel or a [Cancel] is about to
    send one; and [Drain] returns without an error only if it saw no
    subscription. *)
Theorem drain_no_lost_wakeup w :
  dreach w ->
  (pc w = DWait -> subscriptions (dr w) = [] ->
     is_Some (try_recv (shutdown (dr w))) \/ (0 < pending w)%nat) /\
  (forall w', dstep w w' -> pc w' = DReturned None -> pc w <> DReturned None -> subscriptions (dr w) = []).
Proof.
  intros HR. pose proof (drain_ok_reach w HR) as [H1 H2 H3 H4]. split.
  - intros Hp Hs. destruct (H3 Hp) as [?|[Hb|?]]; [done|left|by right].
    unfold try_recv. destruct (chan_buf (shutdown (dr w))); [done|eauto].
  - intros w' HS Hr Hn. destruct HS; simpl in *; try congruence. by apply length_zero_iff_nil.
Qed.

(** C24: every subscriber learns of the drain.  While draining, each current
    subscription, made before or after [Drain] was called, has the event in its
    channel or has received it; and a second [Drain] is refused. *)
Theorem drain_event_delivered w s :
  dreach w -> draining (dr w) = true ->
  (s ∈ subscriptions (dr w) -> s ∈ received w \/ exists ch, EventCh s (dr w) = Some ch /\ is_Some (try_recv ch)) /\
  Drain_begin (dr w) = (dr w, Some (EMsg "already draining")).
Proof.
  intros HR Hd. split; [|unfold Drain_begin; by rewrite Hd]. intros Hs.
  destruct (do_event w (drain_ok_reach w HR) s Hs) as (ch & Hch & _ & Hev).
  destruct (Hev Hd) as [Hb|?]; [right|by left]. exists ch. split; [done|].
  unfold try_recv. destruct (chan_buf ch); [done|eauto].
Qed.

(** ** Concrete runs *)

Definition demo_drained : dworld :=
  mkDworld (Cancel_remove 1 (fst (Drain_begin (Subscribe 1 NewDrainer)))) DWait 1 ∅.

Lemma demo_drained_reach : dreach demo_drained.
Proof.
  eapply dreach_step; [|apply (ds_cancel_remove (mkDworld (fst (Drain_begin (Subscribe 1 NewDrainer))) DWait 0 ∅) 1)].
  eapply dreach_step; [|apply (ds_check_wait (mkDworld (fst (Drain_begin (Subscribe 1 NewDrainer))) DCheck 0 ∅)); done].
  eapply dreach_step; [|apply (ds_drain (mkDworld (Subscribe 1 NewDrainer) DIdle 0 ∅)); done].
  eapply dreach_step; [|by apply (ds_subscribe init_dworld 1)]. constructor.
Qed.

Lemma drain_no_lost_wakeup_witness :
  is_Some (try_recv (shutdown (dr demo_drained))) \/ (0 < pending demo_drained)%nat.
Proof. apply (drain_no_lost_wakeup demo_drained); [apply demo_drained_reach|done|done]. Defined.

Lemma demo_draining_reach : dreach (mkDworld (fst (Drain_begin (Subscribe 1 NewDrainer))) DCheck 0 ∅).
Proof.
  eapply dreach_step; [|apply (ds_drain (mkDworld (Subscribe 1 NewDrainer) DIdle 0 ∅)); done].
  eapply dreach_step; [|by apply (ds_subscribe init_dworld 1)]. constructor.
Qed.

Lemma drain_event_delivered_witness :
  let w := mkDworld (fst (Drain_begin (Subscribe 1 NewDrainer))) DCheck 0 ∅ in
  1%nat ∈ received w \/ exists ch, EventCh 1 (dr w) = Some ch /\ is_Some (try_recv ch).
Proof.
  apply (drain_event_delivered (mkDworld (fst (Drain_begin (Subscribe 1 NewDrainer))) DCheck 0 ∅) 1%nat);
    [apply demo_draining_reach|done|left].
Defined.
