(* ===== verification/NetAddr.v ===== *)
(** * Addresses, prefixes and the kinds of the network resources

    The parts of Go's [net/netip] and [net] that the network code uses, the
    flags of [nethelpers], and on top of them the resources of
    [pkg/machinery/resources/network]: [Normalize] and [RouteID] of routes
    (route.go, network.go), [Convert] of resolvers (resolver.go), and
    [broadcastAddr] of the address controller. *)

From stdpp Require Import pretty.
From S2P Require Import Prelude.

(** ** net/netip *)

(** The zero [Addr], an IPv4 address, and an IPv6 address with its zone. *)
Inductive Addr :=
| AddrZero
| Addr4 (v : Z)
| Addr6 (v : Z) (zone : string).

#[export] Instance Addr_eq_dec : EqDecision Addr.
Proof. solve_decision. Defined.

Definition BitLen (a : Addr) : Z := match a with AddrZero => 0 | Addr4 _ => 32 | Addr6 _ _ => 128 end.

Definition Is4 (a : Addr) : bool := match a with Addr4 _ => true | _ => false end.

(** The [n] low bytes of [v], the most significant first. *)
Fixpoint be_bytes (n : nat) (v : Z) : list Z :=
  match n with
  | O => []
  | S n => Z.land (Z.shiftr v (8 * Z.of_nat n)) 255 :: be_bytes n v
  end.

Definition AsSlice (a : Addr) : list Z :=
  match a with AddrZero => [] | Addr4 v => be_bytes 4 v | Addr6 v _ => be_bytes 16 v end.

Definition Is4In6 (a : Addr) : bool :=
  match a with Addr6 v _ => Z.shiftr v 32 =? 65535 | _ => false end.

Definition Unmap (a : Addr) : Addr :=
  if Is4In6 a then match a with Addr6 v _ => Addr4 (Z.land v (2 ^ 32 - 1)) | _ => a end else a.

Definition IsLoopback (a : Addr) : bool :=
  match Unmap a with
  | AddrZero => false
  | Addr4 v => Z.shiftr v 24 =? 127
  | Addr6 v _ => v =? 1
  end.

(** The value an address is compared by: IPv4 addresses are kept mapped. *)
Definition addr_u128 (a : Addr) : Z :=
  match a with AddrZero => 0 | Addr4 v => 65535 * 2 ^ 32 + v | Addr6 v _ => v end.

Definition cmp_Z (c : comparison) : Z := match c with Lt => -1 | Eq => 0 | Gt => 1 end.

Definition Compare (a b : Addr) : Z :=
  match Z.compare (BitLen a) (BitLen b) with
  | Eq => match Z.compare (addr_u128 a) (addr_u128 b) with
          | Eq => match a, b with
                  | Addr6 _ za, Addr6 _ zb => cmp_Z (String.compare za zb)
                  | _, _ => 0
                  end
          | c => cmp_Z c
          end
  | c => cmp_Z c
  end.

(** *** Text *)

Definition dotted (v : Z) : string := String.concat "." (pretty <$> be_bytes 4 v).

Definition groups (v : Z) : list Z :=
  (fun i => Z.land (Z.shiftr v (16 * (7 - Z.of_nat i))) 65535) <$> seq 0 8.

Definition hex4 (n : Z) : string :=
  let d k := match String.get (Z.to_nat (Z.land (Z.shiftr n (4 * k)) 15)) "0123456789abcdef" with
             | Some c => String c EmptyString | None => EmptyString end in
  if 4096 <=? n then d 3 +:+ d 2 +:+ d 1 +:+ d 0
  else if 256 <=? n then d 2 +:+ d 1 +:+ d 0
  else if 16 <=? n then d 1 +:+ d 0
  else d 0.

(** The length of the run of zeros a list starts with. *)
Fixpoint zero_run (l : list Z) : nat :=
  match l with 0 :: l => S (zero_run l) | _ => O end.

(** The first longest run of at least two zero groups: its start and length. *)
Definition longest_zeros (l : list Z) : nat * nat :=
  foldl (fun '(s, n) i => let r := zero_run (drop i l) in
                          if decide (2 <= r /\ n < r)%nat then (i, r) else (s, n)) (255%nat, O) (seq 0 (length l)).

Definition string6 (v : Z) : string :=
  let g := groups v in
  match longest_zeros g with
  | (_, O) => String.concat ":" (hex4 <$> g)
  | (s, n) => String.concat ":" (hex4 <$> take s g) +:+ "::" +:+ String.concat ":" (hex4 <$> drop (s + n) g)
  end.

Definition addr_text (a : Addr) : string :=
  match a with
  | AddrZero => ""
  | Addr4 v => dotted v
  | Addr6 v zone =>
    (if Is4In6 a then "::ffff:" +:+ dotted (Z.land v (2 ^ 32 - 1)) else string6 v) +:+
    (if decide (zone = "") then "" else "%" +:+ zone)
  end.

(** *** Prefixes *)

(** The address of a prefix has no zone; [Bits] is one less than the number
    kept. *)
Record Prefix := mkPrefix { p_addr : Addr; bitsPlusOne : Z }.

#[export] Instance Prefix_eq_dec : EqDecision Prefix.
Proof. solve_decision. Defined.

Definition zeroPrefix : Prefix := mkPrefix AddrZero 0.

Definition Bits (p : Prefix) : Z := bitsPlusOne p - 1.
Definition IsValid (p : Prefix) : bool := 0 <? bitsPlusOne p.

Definition prefix_text (p : Prefix) : string :=
  if decide (p = zeroPrefix) then ""
  else if IsValid p then addr_text (p_addr p) +:+ "/" +:+ pretty (Bits p)
  else "invalid Prefix".

(** [netip.PrefixFrom]. *)
Definition PrefixFrom (a : Addr) (bits : Z) : Prefix :=
  mkPrefix (match a with Addr6 v _ => Addr6 v "" | _ => a end)
    (if (0 <=? bits) && (bits <=? BitLen a) && negb (bool_decide (a = AddrZero)) then bits + 1 else 0).

(** A prefix that a Go program can build. *)
Definition wf_prefix (p : Prefix) : Prop :=
  match p_addr p with
  | AddrZero => bitsPlusOne p = 0
  | Addr4 v => 0 <= v < 2 ^ 32 /\ 0 <= bitsPlusOne p <= 33
  | Addr6 v z => z = "" /\ 0 <= v < 2 ^ 128 /\ 0 <= bitsPlusOne p <= 129
  end.

(** ** net.IP *)

Definition v4InV6Prefix : list Z := [0; 0; 0; 0; 0; 0; 0; 0; 0; 0; 255; 255].

(** [ip.Equal(x)]. *)
Definition IP_Equal (ip x : list Z) : bool :=
  if decide (length ip = length x) then bool_decide (ip = x)
  else if decide (length ip = 4%nat /\ length x = 16%nat)
       then bool_decide (take 12 x = v4InV6Prefix) && bool_decide (ip = drop 12 x)
  else if decide (length ip = 16%nat /\ length x = 4%nat)
       then bool_decide (take 12 ip = v4InV6Prefix) && bool_decide (drop 12 ip = x)
  else false.

Definition To4 (ip : list Z) : list Z :=
  if decide (length ip = 4%nat) then ip
  else if decide (length ip = 16%nat /\ take 12 ip = v4InV6Prefix) then drop 12 ip
  else [].

(** [net.CIDRMask(ones, bits)]. *)
Definition CIDRMask (ones bits : Z) : list Z :=
  if decide ((bits = 32 \/ bits = 128) /\ 0 <= ones <= bits)
  then be_bytes (Z.to_nat (bits / 8)) (2 ^ bits - 2 ^ (bits - ones))
  else [].

(** [netipx.PrefixIPNet]: the address and the mask. *)
Definition PrefixIPNet (p : Prefix) : list Z * list Z :=
  if IsValid p then (AsSlice (p_addr p), CIDRMask (Bits p) (BitLen (p_addr p))) else ([], []).

(** ** nethelpers *)

Definition FamilyInet4 : Z := 2.
Definition FamilyInet6 : Z := 10.

Definition Family_String (f : Z) : string :=
  if decide (f = 2) then "inet4" else if decide (f = 10) then "inet6" else "Family(" +:+ pretty f +:+ ")".

Definition ScopeGlobal : Z := 0.
Definition ScopeLink : Z := 253.
Definition ScopeHost : Z := 254.

Definition TableMain : Z := 254.

(** [String] of a table: the tables 1 to 252 are called by their number. *)
Definition RoutingTable_String (t : Z) : string :=
  if decide (t = 0) then "unspec" else if decide (t = 253) then "default" else if decide (t = 254) then "main"
  else if decide (t = 255) then "local" else if decide (1 <= t <= 252) then pretty t
  else "RoutingTable(" +:+ pretty t +:+ ")".

(** Permanent, NoDAD, Home, ManagementTemp, NoPrefixRoute, MCAutoJoin. *)
Definition AddressFlagsManaged : Z := 2 ^ 7 + 2 ^ 1 + 2 ^ 4 + 2 ^ 8 + 2 ^ 9 + 2 ^ 10.

Definition Managed (flags : Z) : Z := Z.land flags AddressFlagsManaged.

Definition RouteFlagsMask : Z := 256 + 512 + 1024 + 2048.

Definition RouteFlags_Equal (flags other : Z) : bool :=
  Z.land flags RouteFlagsMask =? Z.land other RouteFlagsMask.

(** ** The resources *)

(** Integers at their width: [as_Family], [as_Scope] are uint8, [as_Flags]
    uint32. *)
Record AddressSpecSpec := mkAddressSpecSpec {
  as_Address : Prefix;
  as_LinkName : string;
  as_Family : Z;
  as_Scope : Z;
  as_Flags : Z
}.

#[export] Instance AddressSpecSpec_eq_dec : EqDecision AddressSpecSpec.
Proof. solve_decision. Defined.

Record RouteSpecSpec := mkRouteSpecSpec {
  rs_Family : Z;
  rs_Destination : Prefix;
  rs_Source : Addr;
  rs_Gateway : Addr;
  rs_OutLinkName : string;
  rs_Table : Z;
  rs_Priority : Z;
  rs_Scope : Z;
  rs_Type : Z;
  rs_Flags : Z;
  rs_Protocol : Z;
  rs_MTU : Z
}.

#[export] Instance RouteSpecSpec_eq_dec : EqDecision RouteSpecSpec.
Proof. solve_decision. Defined.

Definition DefaultRouteMetric : Z := 1024.

Definition zero16 : Addr := Addr6 0 "".
Definition zero4 : Addr := Addr4 0.

(** One pair of tests of [Normalize]: an unspecified address becomes the zero
    value, and says which family the route is of. *)
Definition normalize_addr (a : Addr) (family : Z) : Addr * Z :=
  let '(a, family) := if Compare a zero4 =? 0 then (AddrZero, FamilyInet4) else (a, family) in
  if Compare a zero16 =? 0 then (AddrZero, FamilyInet6) else (a, family).

Definition normalize_destination (d : Prefix) : Prefix * Z :=
  if Bits d =? 0 then
    let '(d, family) := if Compare (p_addr d) zero4 =? 0 then (zeroPrefix, FamilyInet4) else (d, 0) in
    if Compare (p_addr d) zero16 =? 0 then (zeroPrefix, FamilyInet6) else (d, family)
  else (d, 0).

Definition normalize_scope (destination : Prefix) (gateway : Addr) : Z :=
  if bool_decide (gateway = AddrZero) && negb (bool_decide (destination = zeroPrefix)) then ScopeLink
  else if IsLoopback (p_addr destination) then ScopeHost
  else ScopeGlobal.

Definition Normalize (r : RouteSpecSpec) : RouteSpecSpec * Z :=
  let '(destination, family) := normalize_destination (rs_Destination r) in
  let '(gateway, family) := normalize_addr (rs_Gateway r) family in
  let '(source, family) := normalize_addr (rs_Source r) family in
  (mkRouteSpecSpec (rs_Family r) destination source gateway (rs_OutLinkName r) (rs_Table r) (rs_Priority r)
     (normalize_scope destination gateway) (rs_Type r) (rs_Flags r) (rs_Protocol r) (rs_MTU r), family).

Definition RouteID (table family : Z) (destination : Prefix) (gateway : Addr) (priority : Z) (outLinkName : string)
    : string :=
  let prefix := if decide (table = TableMain) then "" else RoutingTable_String table +:+ "/" in
  let prefix := if decide (family = FamilyInet6) then prefix +:+ outLinkName +:+ "/" else prefix in
  prefix +:+ Family_String family +:+ "/" +:+ addr_text gateway +:+ "/" +:+ prefix_text destination +:+ "/" +:+ pretty priority.

(** *** Resolvers *)

Definition DNSProtocolDefault : Z := 0.
Definition DNSProtocolDNSOverTLS : Z := 1.
Definition DNSProtocolDNSOverHTTP : Z := 2.

Record NameServerSpec := mkNameServerSpec { ns_Addr : Addr; ns_Protocol : Z; ns_TLSServerName : string }.

Definition addr_String (a : Addr) : string := match a with AddrZero => "invalid IP" | _ => addr_text a end.

Definition NameServerSpec_String (ns : NameServerSpec) : string :=
  let a := addr_String (ns_Addr ns) in
  if decide (ns_Protocol ns = DNSProtocolDNSOverTLS) then a +:+ " (DoT, TLS Server Name: " +:+ ns_TLSServerName ns +:+ ")"
  else if decide (ns_Protocol ns = DNSProtocolDNSOverHTTP)
       then a +:+ " (DoH, TLS Server Name: " +:+ ns_TLSServerName ns +:+ ")"
  else if decide (ns_Protocol ns = DNSProtocolDefault) then a
  else a +:+ " (Unknown Protocol)".

(** Nil slices are [None]. *)
Record ResolverSpecSpec := mkResolverSpecSpec {
  DNSServers : option (list Addr);
  NameServers : option (list NameServerSpec);
  SearchDomains : option (list string)
}.

Definition Convert (s : ResolverSpecSpec) : ResolverSpecSpec :=
  match NameServers s, DNSServers s with
  | None, Some l =>
    mkResolverSpecSpec (DNSServers s) (Some ((fun a => mkNameServerSpec a DNSProtocolDefault "") <$> l)) (SearchDomains s)
  | Some l, None => mkResolverSpecSpec (Some (ns_Addr <$> l)) (NameServers s) (SearchDomains s)
  | _, _ => s
  end.

(** ** The broadcast address (address_spec.go) *)

(** The bytewise loop; [^b] is the complement of a byte. *)
Definition broadcastAddr (addr : Prefix) : list Z :=
  if negb (Is4 (p_addr addr)) then []
  else if 31 <=? Bits addr then []
  else
    let '(ip, mask) := PrefixIPNet addr in
    let ip := To4 ip in
    let mask := To4 mask in
    if decide (ip = []) then []
    else if decide (length ip <> length mask) then []
    else zip_with (fun i m => Z.lor i (Z.lxor m 255)) ip mask.

(** ** Lemmas *)

Lemma Compare_zero4 a : Compare a zero4 = 0 <-> a = zero4.
Proof.
  split; [|by intros ->]. unfold Compare, zero4. destruct a as [|v|v z]; simpl; try done.
  destruct (Z.compare_spec (65535 * 2 ^ 32 + v) (65535 * 2 ^ 32 + 0)); simpl; try done.
  intros _. f_equal. lia.
Qed.

Lemma Compare_zero16 a : Compare a zero16 = 0 <-> a = zero16.
Proof.
  split; [|by intros ->]. unfold Compare, zero16. destruct a as [|v|v z]; simpl; try done.
  destruct (Z.compare_spec v 0) as [->| |]; simpl; try done.
  destruct z; done.
Qed.

(** An address that [Normalize] clears. *)
Definition unspecified (a : Addr) : Prop := a = zero4 \/ a = zero16.

#[export] Instance unspecified_dec a : Decision (unspecified a) := _.

Lemma normalize_addr_spec a f :
  normalize_addr a f =
  if decide (a = zero4) then (AddrZero, FamilyInet4)
  else if decide (a = zero16) then (AddrZero, FamilyInet6) else (a, f).
Proof.
  unfold normalize_addr. case_decide as E1; [by subst|]. case_decide as E2; [by subst|].
  destruct (Z.eqb_spec (Compare a zero4) 0) as [H|_]; [by apply Compare_zero4 in H|].
  destruct (Z.eqb_spec (Compare a zero16) 0) as [H|_]; [by apply Compare_zero16 in H|done].
Qed.

Lemma normalize_destination_spec d :
  normalize_destination d =
  if decide (Bits d = 0 /\ p_addr d = zero4) then (zeroPrefix, FamilyInet4)
  else if decide (Bits d = 0 /\ p_addr d = zero16) then (zeroPrefix, FamilyInet6) else (d, 0).
Proof.
  unfold normalize_destination. destruct (Z.eqb_spec (Bits d) 0) as [Hb|Hb].
  2:{ by rewrite !decide_False by (by intros [? _]). }
  destruct (Z.eqb_spec (Compare (p_addr d) zero4) 0) as [H|H].
  { apply Compare_zero4 in H. by rewrite decide_True by done. }
  rewrite decide_False by (intros [_ E]; by apply H, Compare_zero4).
  destruct (Z.eqb_spec (Compare (p_addr d) zero16) 0) as [H'|H'].
  - apply Compare_zero16 in H'. by rewrite decide_True by done.
  - rewrite decide_False; [done|]. intros [_ E]. by apply H', Compare_zero16.
Qed.

(** Bytes of a disjunction. *)
Lemma be_bytes_lor n v m : be_bytes n (Z.lor v m) = zip_with Z.lor (be_bytes n v) (be_bytes n m).
Proof.
  induction n as [|n IH]; simpl; [done|]. rewrite IH. f_equal.
  rewrite Z.shiftr_lor. by rewrite Z.land_lor_distr_l.
Qed.

Lemma be_bytes_length n v : length (be_bytes n v) = n.
Proof. induction n; simpl; congruence. Qed.

Lemma be_bytes_4 v : be_bytes 4 v = [Z.land (Z.shiftr v 24) 255; Z.land (Z.shiftr v 16) 255; Z.land (Z.shiftr v 8) 255; Z.land (Z.shiftr v 0) 255].
Proof. done. Qed.

(** *** Text *)

Lemma byte_text b c : 0 <= b < 256 -> c = 46%nat \/ c = 47%nat -> lacks (Ascii.ascii_of_nat c) (pretty b) = true.
Proof.
  intros Hb. assert (forallb (fun n => lacks (Ascii.ascii_of_nat 46) (pretty (Z.of_nat n)) && lacks (Ascii.ascii_of_nat 47) (pretty (Z.of_nat n)))
    (seq 0 256) = true) as H by (by vm_compute).
  rewrite forallb_forall in H. specialize (H (Z.to_nat b)). rewrite Z2Nat.id in H by lia.
  assert (In (Z.to_nat b) (seq 0 256)) as Hin by (apply in_seq; lia). apply H, andb_true_iff in Hin as [? ?]. by intros [-> | ->].
Qed.

Lemma land_255 v : 0 <= Z.land v 255 < 256.
Proof. change 255 with (Z.ones 8). rewrite Z.land_ones by lia. apply Z.mod_pos_bound. lia. Qed.

Lemma dotted_text v :
  dotted v = pretty (Z.land (Z.shiftr v 24) 255) +:+ "." +:+ pretty (Z.land (Z.shiftr v 16) 255) +:+ "." +:+
    pretty (Z.land (Z.shiftr v 8) 255) +:+ "." +:+ pretty (Z.land (Z.shiftr v 0) 255).
Proof. done. Qed.

Lemma dotted_lacks v : lacks (Ascii.ascii_of_nat 47) (dotted v) = true.
Proof. rewrite dotted_text, !lacks_app. rewrite !byte_text by (by apply land_255 || by right). done. Qed.

Lemma dotted_inj v v' : dotted v = dotted v' -> be_bytes 4 v = be_bytes 4 v'.
Proof.
  rewrite !dotted_text, !be_bytes_4. intros HE.
  apply (str_cut (Ascii.ascii_of_nat 46)) in HE as [E1%(inj pretty) HE]; [|by apply byte_text; [apply land_255|left]..].
  apply (str_cut (Ascii.ascii_of_nat 46)) in HE as [E2%(inj pretty) HE]; [|by apply byte_text; [apply land_255|left]..].
  apply (str_cut (Ascii.ascii_of_nat 46)) in HE as [E3%(inj pretty) E4%(inj pretty)]; [|by apply byte_text; [apply land_255|left]..].
  by rewrite E1, E2, E3, E4.
Qed.

Lemma To4_id ip : length ip = 4%nat -> To4 ip = ip.
Proof. intros. unfold To4. by rewrite decide_True. Qed.

(** The complement of a mask is the mask of the host bits. *)
Lemma host_mask_bytes bits :
  0 <= bits < 31 -> (fun m => Z.lxor m 255) <$> CIDRMask bits 32 = be_bytes 4 (2 ^ (32 - bits) - 1).
Proof.
  intros Hb. assert (forallb (fun b => bool_decide ((fun m => Z.lxor m 255) <$> CIDRMask (Z.of_nat b) 32 =
    be_bytes 4 (2 ^ (32 - Z.of_nat b) - 1))) (seq 0 31) = true) as H by (by vm_compute).
  rewrite forallb_forall in H. specialize (H (Z.to_nat bits)).
  rewrite Z2Nat.id in H by lia. eapply bool_decide_eq_true_1. apply H, in_seq. lia.
Qed.

(** ** Properties *)

(** C37: the broadcast address.  For an IPv4 prefix shorter than 31 bits it is the
    address with all host bits set; for any other prefix there is none. *)
Theorem broadcast_addr_spec p :
  wf_prefix p ->
  broadcastAddr p =
  match p_addr p with
  | Addr4 v => if decide (0 <= Bits p < 31) then be_bytes 4 (Z.lor v (2 ^ (32 - Bits p) - 1)) else []
  | _ => []
  end.
Proof.
  intros Hwf. unfold broadcastAddr. destruct (p_addr p) as [|v|v z] eqn:Ha; cbn [Is4 negb]; try done.
  unfold wf_prefix in Hwf. rewrite Ha in Hwf. destruct Hwf as [Hv Hb].
  destruct (Z.leb_spec 31 (Bits p)); [rewrite decide_False by lia; done|].
  unfold PrefixIPNet, IsValid. rewrite Ha. destruct (Z.ltb_spec 0 (bitsPlusOne p)) as [Hp|Hp].
  2:{ rewrite (decide_False (P := 0 <= Bits p < 31)) by (unfold Bits; lia). done. }
  rewrite (decide_True (P := 0 <= Bits p < 31)) by (unfold Bits in *; lia).
  pose proof (host_mask_bytes (Bits p)) as HM.
  assert (length (CIDRMask (Bits p) 32) = 4%nat) as HL.
  { unfold CIDRMask. rewrite decide_True by (unfold Bits in *; lia). by rewrite be_bytes_length. }
  simpl BitLen. change (AsSlice (Addr4 v)) with (be_bytes 4 v).
  rewrite (To4_id (be_bytes 4 v)), (To4_id (CIDRMask (Bits p) 32)) by (done || apply be_bytes_length).
  rewrite decide_False by done. rewrite decide_False by (rewrite HL; simpl; lia).
  rewrite be_bytes_lor, <-HM by (unfold Bits in *; lia). rewrite zip_with_fmap_r. done.
Qed.

(** Normalizing a route.  Exactly the unspecified addresses become zero
    values (a destination only with a prefix length of 0); the scope is "link"
    without a gateway and with a destination, "host" for a loopback
    destination, and "global" otherwise; and normalizing again changes nothing
    and finds no family. *)
Theorem normalize_spec r :
  let r' := fst (Normalize r) in
  rs_Destination r' = (if decide (Bits (rs_Destination r) = 0 /\ unspecified (p_addr (rs_Destination r)))
                       then zeroPrefix else rs_Destination r) /\
  rs_Gateway r' = (if decide (unspecified (rs_Gateway r)) then AddrZero else rs_Gateway r) /\
  rs_Source r' = (if decide (unspecified (rs_Source r)) then AddrZero else rs_Source r) /\
  rs_Scope r' = normalize_scope (rs_Destination r') (rs_Gateway r') /\
  Normalize r' = (r', 0).
Proof.
  assert (forall a f, fst (normalize_addr a f) = if decide (unspecified a) then AddrZero else a) as HA.
  { intros a f. rewrite normalize_addr_spec. unfold unspecified. repeat case_decide; simpl; tauto || done. }
  assert (forall d, fst (normalize_destination d) =
    if decide (Bits d = 0 /\ unspecified (p_addr d)) then zeroPrefix else d) as HD.
  { intros d. rewrite normalize_destination_spec. unfold unspecified. repeat case_decide; simpl; tauto || done. }
  assert (forall a f, normalize_addr (fst (normalize_addr a f)) 0 = (fst (normalize_addr a f), 0)) as HA2.
  { intros a f. rewrite (normalize_addr_spec a). repeat case_decide; simpl; try done.
    rewrite normalize_addr_spec. by rewrite !decide_False. }
  assert (forall d, normalize_destination (fst (normalize_destination d)) = (fst (normalize_destination d), 0)) as HD2.
  { intros d. rewrite (normalize_destination_spec d). repeat case_decide; simpl; try done.
    rewrite normalize_destination_spec. by rewrite !decide_False. }
  unfold Normalize. specialize (HD (rs_Destination r)). specialize (HD2 (rs_Destination r)).
  destruct (normalize_destination (rs_Destination r)) as [d f1]. simpl in HD, HD2.
  pose proof (HA (rs_Gateway r) f1) as HG. pose proof (HA2 (rs_Gateway r) f1) as HG2.
  destruct (normalize_addr (rs_Gateway r) f1) as [g f2]. simpl in HG, HG2.
  pose proof (HA (rs_Source r) f2) as HS. pose proof (HA2 (rs_Source r) f2) as HS2.
  destruct (normalize_addr (rs_Source r) f2) as [s f3]. simpl in HS, HS2.
  cbn [fst rs_Destination rs_Gateway rs_Source rs_Scope rs_OutLinkName rs_Family rs_Table rs_Priority rs_Type
       rs_Flags rs_Protocol rs_MTU]. rewrite HD2, HG2, HS2. done.
Qed.

(** Converting resolvers.  Afterwards the deprecated and the new list are
    both there or both absent; the list that was there is kept; and a list of
    plain servers goes to the new form and back unchanged. *)
Theorem convert_complete s :
  (DNSServers (Convert s) = None <-> NameServers (Convert s) = None) /\
  (is_Some (DNSServers s) -> DNSServers (Convert s) = DNSServers s) /\
  (is_Some (NameServers s) -> NameServers (Convert s) = NameServers s) /\
  (DNSServers s = None \/ NameServers s = None ->
     option_map (map ns_Addr) (NameServers (Convert s)) = DNSServers (Convert s)) /\
  Convert (Convert s) = Convert s.
Proof.
  destruct s as [[d|] [n|] sd]; unfold Convert; simpl; split_and!; try done; try (by intros []); try (by intros [[=]|[=]]).
  intros _. f_equal. rewrite <-list_fmap_compose. unfold compose. simpl. by rewrite list_fmap_id.
Qed.

Lemma broadcast_addr_spec_witness :
  broadcastAddr (PrefixFrom (Addr4 3232235786) 24) = [192; 168; 1; 255].
Proof. rewrite (broadcast_addr_spec (PrefixFrom (Addr4 3232235786) 24)); [by vm_compute|]. vm_compute. done. Defined.
