(* ===== verification/AddressSpec.v ===== *)
(** * The address controller, against the kernel's address table

    Models [controllers/network/address_spec.go].  What the controller uses of
    the controller runtime and of the kernel's netlink socket are interfaces
    ([SpecStore], [AddressNetlink]) with laws that state their documented
    behaviour; the theorems hold for every implementation, and a small kernel
    instantiates them at the end. *)

From S2P Require Import Prelude NetAddr.

(** ** Netlink messages *)

(** The fields of a link the code uses. *)
Record LinkMessage := mkLinkMessage {
  lm_Type : Z;
  lm_Index : Z;
  lm_Flags : Z;
  lm_Name : string;
  lm_Address : list Z;
  lm_Broadcast : list Z;
  lm_LinkIndex : Z;
  lm_QueueDisc : string;
  lm_MTU : Z;
  lm_OperationalState : Z
}.

(** [am_Flags] is the uint8 of the header, [am_AttrFlags] the uint32 of the
    attribute. *)
Record AddressMessage := mkAddressMessage {
  am_Family : Z;
  am_PrefixLength : Z;
  am_Flags : Z;
  am_Scope : Z;
  am_Index : Z;
  am_Address : list Z;
  am_Local : list Z;
  am_Broadcast : list Z;
  am_AttrFlags : Z
}.

#[export] Instance AddressMessage_eq_dec : EqDecision AddressMessage.
Proof. solve_decision. Defined.

(** ** Interfaces *)

Inductive Phase := PhaseRunning | PhaseTearingDown.

#[export] Instance Phase_eq_dec : EqDecision Phase.
Proof. solve_decision. Defined.

(** A resource as the reader returns it. *)
Record resource (Spec : Type) := mkResource { res_ID : string; res_Phase : Phase; TypedSpec : Spec }.
Arguments mkResource {Spec} _ _ _.
Arguments res_ID {Spec} _.
Arguments res_Phase {Spec} _.
Arguments TypedSpec {Spec} _.

(** What a controller uses of the runtime for its input resources. *)
Class SpecStore (W Spec : Type) := {
  ReaderList : M W (list (resource Spec));
  AddFinalizer : string -> string -> M W unit;
  RemoveFinalizer : string -> string -> M W unit;
  finalizers : W -> string -> gset string
}.
Arguments ReaderList {W} Spec {_}.
Arguments AddFinalizer {W} Spec {_} _ _.
Arguments RemoveFinalizer {W} Spec {_} _ _.
Arguments finalizers {W} Spec {_} _ _.

(** What the controller uses of its netlink connection; [links] and [addrs]
    are the kernel's tables. *)
Class AddressNetlink (W : Type) := {
  Link_List : M W (list LinkMessage);
  Address_List : M W (list AddressMessage);
  Address_Delete : AddressMessage -> M W unit;
  Address_New : AddressMessage -> M W unit;
  links : W -> list LinkMessage;
  addrs : W -> list AddressMessage
}.

Definition os_ErrExist : string := "file already exists".

(** ** The controller *)

Section controller.
Context {W : Type} `{!SpecStore W AddressSpecSpec} `{!AddressNetlink W}.

Definition Name : string := "network.AddressSpecController".

(** Index 0 stands for "no such link". *)
Fixpoint lookup_link (ls : list LinkMessage) (linkName : string) : Z :=
  match ls with
  | [] => 0
  | l :: ls => if decide (lm_Name l = linkName) then lm_Index l else lookup_link ls linkName
  end.

Definition resolveLinkName (ls : list LinkMessage) (linkName : string) : Z :=
  if decide (linkName = "") then 0 else lookup_link ls linkName.

Definition address_found (linkIndex : Z) (ipPrefix : Prefix) (addr : AddressMessage) : bool :=
  bool_decide (am_Index addr = linkIndex) && bool_decide (am_PrefixLength addr = Bits ipPrefix) &&
  IP_Equal (am_Address addr) (AsSlice (p_addr ipPrefix)).

Fixpoint findAddress (l : list AddressMessage) (linkIndex : Z) (ipPrefix : Prefix) : option AddressMessage :=
  match l with
  | [] => None
  | addr :: l => if address_found linkIndex ipPrefix addr then Some addr else findAddress l linkIndex ipPrefix
  end.

Definition addressFlags (a : AddressMessage) : Z := Z.lor (am_AttrFlags a) (am_Flags a).

(** [existing] needs no update. *)
Definition up_to_date (spec : AddressSpecSpec) (existing : AddressMessage) : bool :=
  bool_decide (am_Scope existing = uint8 (as_Scope spec)) &&
  bool_decide (Managed (addressFlags existing) = Managed (as_Flags spec)).

(** The message the address is added with. *)
Definition new_message (linkIndex : Z) (spec : AddressSpecSpec) : AddressMessage :=
  let expectedFlags := Managed (as_Flags spec) in
  let ip := AsSlice (p_addr (as_Address spec)) in
  mkAddressMessage (uint8 (as_Family spec)) (uint8 (Bits (as_Address spec))) (uint8 expectedFlags)
    (uint8 (as_Scope spec)) linkIndex ip ip (broadcastAddr (as_Address spec)) (uint32 expectedFlags).

(** The text of an address in an error. *)
Definition where_ (spec : AddressSpecSpec) : string :=
  prefix_text (as_Address spec) +:+ " to " +:+ as_LinkName spec.

Definition add_address (linkIndex : Z) (spec : AddressSpecSpec) : M W unit :=
  r ← attempt (Address_New (new_message linkIndex spec));
  match r with
  | inl _ => mret tt
  | inr err => if errors_Is err os_ErrExist then mret tt
               else fail (EWrap ("error adding address " +:+ where_ spec +:+ ": ") err "")
  end.

Definition delete_address (existing : AddressMessage) : M W unit :=
  wrap_err "error removing address: " (Address_Delete existing).

Definition syncAddress (ls : list LinkMessage) (as_ : list AddressMessage) (address : resource AddressSpecSpec)
    : M W unit :=
  let spec := TypedSpec address in
  let linkIndex := resolveLinkName ls (as_LinkName spec) in
  let existing := findAddress as_ linkIndex (as_Address spec) in
  match res_Phase address with
  | PhaseTearingDown =>
    if linkIndex =? 0 then
      _ ← wrap_err "error removing finalizer: " (RemoveFinalizer AddressSpecSpec (res_ID address) Name);
      match existing with
      | Some e => delete_address e
      | None => mret tt
      end
    else wrap_err "error removing finalizer: " (RemoveFinalizer AddressSpecSpec (res_ID address) Name)
  | PhaseRunning =>
    if linkIndex =? 0 then mret tt
    else match existing with
         | Some e =>
           if up_to_date spec e then mret tt
           else _ ← delete_address e; add_address linkIndex spec
         | None => add_address linkIndex spec
         end
  end.

(** The finalizer of a live resource. *)
Definition hold (address : resource AddressSpecSpec) : M W unit :=
  match res_Phase address with
  | PhaseRunning => wrap_err "error adding finalizer: " (AddFinalizer AddressSpecSpec (res_ID address) Name)
  | PhaseTearingDown => mret tt
  end.

(** One turn of the loop of [Run]. *)
Definition reconcile : M W unit :=
  list ← wrap_err "error listing source network addresses: " (ReaderList AddressSpecSpec);
  _ ← for_range hold list;
  ls ← wrap_err "error listing links: " Link_List;
  as_ ← wrap_err "error listing addresses: " Address_List;
  for_range (syncAddress ls as_) list.

End controller.

(** ** What identifies an address *)

(** IPv4 addresses and their mapped form are the same. *)
Definition canon (ip : list Z) : list Z :=
  if decide (length ip = 16%nat /\ take 12 ip = v4InV6Prefix) then drop 12 ip else ip.

Definition key (a : AddressMessage) : Z * Z * list Z := (am_Index a, am_PrefixLength a, canon (am_Address a)).

Definition spec_key (ls : list LinkMessage) (spec : AddressSpecSpec) : Z * Z * list Z :=
  (resolveLinkName ls (as_LinkName spec), Bits (as_Address spec), canon (AsSlice (p_addr (as_Address spec)))).

(** The network of an address on a link: the leading bits that its prefix length
    counts. *)
Definition number (ip : list Z) : Z := foldl (fun n b => n * 256 + b) 0 ip.

Definition subnet (k : Z * Z * list Z) : Z * Z * nat * Z :=
  let '(index, bits, ip) := k in (index, bits, length ip, Z.shiftr (number ip) (8 * Z.of_nat (length ip) - bits)).

Definition network (a : AddressMessage) : Z * Z * nat * Z := subnet (key a).
Definition spec_network (ls : list LinkMessage) (spec : AddressSpecSpec) : Z * Z * nat * Z := subnet (spec_key ls spec).

(** The laws: lists are complete, and a call that fails changes nothing.  An
    address is deleted by its key; with it may go the others of its network,
    which the kernel holds as secondaries of the first one, or be promoted, with
    other flags; addresses of other networks stay as they are.  One that is
    added is reported with the key, the scope and the managed flags asked for,
    and as permanent, since it has no lifetime; adding fails with "exists" only
    if the key is taken, or, if it is not an IPv4 address, the address is. *)
Class AddressLaws (W : Type) `{!SpecStore W AddressSpecSpec} `{!AddressNetlink W} : Prop := {
  law_list w w' r : ReaderList AddressSpecSpec w = (w', r) ->
    links w' = links w /\ addrs w' = addrs w /\ finalizers AddressSpecSpec w' = finalizers AddressSpecSpec w;
  law_add_finalizer id name w w' r : AddFinalizer AddressSpecSpec id name w = (w', r) ->
    links w' = links w /\ addrs w' = addrs w;
  law_remove_finalizer id name w w' r : RemoveFinalizer AddressSpecSpec id name w = (w', r) ->
    links w' = links w /\ addrs w' = addrs w /\
    (r = Ok tt -> finalizers AddressSpecSpec w' id = finalizers AddressSpecSpec w id ∖ {[name]});
  law_links w w' r : Link_List w = (w', r) ->
    links w' = links w /\ addrs w' = addrs w /\ (forall l, r = Ok l -> l = links w);
  law_addrs w w' r : Address_List w = (w', r) ->
    links w' = links w /\ addrs w' = addrs w /\ (forall l, r = Ok l -> l = addrs w);
  law_delete m w w' r : Address_Delete m w = (w', r) ->
    links w' = links w /\
    match r with
    | Ok _ =>
      (forall a, network a <> network m -> a ∈ addrs w' <-> a ∈ addrs w) /\
      (forall a, a ∈ addrs w' -> network a = network m -> key a <> key m /\ exists b, b ∈ addrs w /\ key b = key a) /\
      ((forall a b, a ∈ addrs w -> b ∈ addrs w -> key a = key b -> a = b) ->
       forall a b, a ∈ addrs w' -> b ∈ addrs w' -> key a = key b -> a = b)
    | _ => addrs w' = addrs w
    end;
  law_new m w w' r : Address_New m w = (w', r) ->
    links w' = links w /\
    match r with
    | Ok _ => exists a, key a = key m /\ am_Scope a = am_Scope m /\
                Managed (addressFlags a) = Managed (Z.lor (am_AttrFlags m) (2 ^ 7)) /\
                forall b, b ∈ addrs w' <-> b ∈ addrs w \/ b = a
    | Err e => addrs w' = addrs w /\ (errors_Is e os_ErrExist = true -> exists a, a ∈ addrs w /\
               am_Index a = am_Index m /\ canon (am_Address a) = canon (am_Address m) /\
               (length (canon (am_Address m)) = 4%nat -> key a = key m))
    | Panic _ => addrs w' = addrs w
    end
}.

(** A kernel table: keys are unique and every address is on a link. *)
Definition table_ok (l : list AddressMessage) : Prop :=
  (forall a b, a ∈ l -> b ∈ l -> key a = key b -> a = b) /\ (forall a, a ∈ l -> am_Index a <> 0).

(** A spec as the DHCP controller writes it: of IPv4, and permanent. *)
Definition spec_ok (spec : AddressSpecSpec) : Prop :=
  Is4 (p_addr (as_Address spec)) = true /\ 0 <= Bits (as_Address spec) <= 32 /\ Z.testbit (as_Flags spec) 7 = true.

(** The spec is in effect. *)
Definition in_effect (ls : list LinkMessage) (l : list AddressMessage) (spec : AddressSpecSpec) : Prop :=
  exists a, a ∈ l /\ key a = spec_key ls spec /\ up_to_date spec a = true.

(** ** Lemmas *)

Lemma IP_Equal_canon x y : IP_Equal x y = bool_decide (canon x = canon y).
Proof.
  unfold IP_Equal, canon. case_decide as E1.
  - case_decide as Ex; case_decide as Ey; try done.
    + destruct Ex as [Lx Px], Ey as [Ly Py]. apply bool_decide_ext. split; [by intros ->|].
      intros Hd. rewrite <-(take_drop 12 x), <-(take_drop 12 y). by rewrite Px, Py, Hd.
    + apply bool_decide_ext. split; [intros ->; tauto|]. intros Hd. exfalso. destruct Ex as [Lx _].
      apply (f_equal length) in Hd. rewrite length_drop in Hd. lia.
    + apply bool_decide_ext. split; [intros ->; tauto|]. intros Hd. exfalso. destruct Ey as [Ly _].
      apply (f_equal length) in Hd. rewrite length_drop in Hd. lia.
  - case_decide as E2.
    + destruct E2 as [Lx Ly]. rewrite decide_False by lia. case_decide as Ey.
      * rewrite bool_decide_eq_true_2 by tauto. done.
      * rewrite (bool_decide_eq_false_2 (take 12 y = _)) by tauto. simpl. symmetry. apply bool_decide_eq_false_2.
        intros ->. done.
    + case_decide as E3.
      * destruct E3 as [Lx Ly]. rewrite (decide_False (P := length y = 16%nat /\ _)) by lia. case_decide as Ex.
        -- rewrite bool_decide_eq_true_2 by tauto. done.
        -- rewrite (bool_decide_eq_false_2 (take 12 x = _)) by tauto. simpl. symmetry. apply bool_decide_eq_false_2.
           intros ->. done.
      * symmetry. apply bool_decide_eq_false_2. intros Hc. apply (f_equal length) in Hc.
        repeat case_decide; rewrite ?length_drop in Hc; lia.
Qed.

Lemma address_found_key idx p a :
  address_found idx p a = true <-> key a = (idx, Bits p, canon (AsSlice (p_addr p))).
Proof.
  unfold address_found, key. rewrite IP_Equal_canon, !andb_true_iff, !bool_decide_eq_true.
  split; [intros [[-> ->] ->]; done|]. intros [= -> -> ->]. done.
Qed.

Lemma findAddress_Some l idx p a :
  findAddress l idx p = Some a -> a ∈ l /\ key a = (idx, Bits p, canon (AsSlice (p_addr p))).
Proof.
  induction l as [|b l IH]; simpl; [done|]. destruct (address_found idx p b) eqn:E.
  - intros [= ->]. split; [left|by apply address_found_key].
  - intros H. destruct (IH H). split; [by right|done].
Qed.

Lemma findAddress_None l idx p a :
  findAddress l idx p = None -> a ∈ l -> key a <> (idx, Bits p, canon (AsSlice (p_addr p))).
Proof.
  induction l as [|b l IH]; simpl; [by intros _ ?%elem_of_nil|]. destruct (address_found idx p b) eqn:E; [done|].
  intros H [->|Hin]%elem_of_cons; [|by apply IH].
  intros Hk%address_found_key. congruence.
Qed.

Lemma key_new_message idx spec :
  spec_ok spec -> key (new_message idx spec) = (idx, Bits (as_Address spec), canon (AsSlice (p_addr (as_Address spec)))).
Proof.
  intros (_ & Hb & _). unfold key, new_message. simpl. do 2 f_equal. unfold uint8. f_equal. apply wrap_u_small. lia.
Qed.

Lemma canon_new_message idx spec : spec_ok spec -> length (canon (am_Address (new_message idx spec))) = 4%nat.
Proof. intros [H4 _]. unfold new_message. cbn [am_Address]. destruct (p_addr (as_Address spec)); done. Qed.

Lemma uint32_Managed x : uint32 (Managed x) = Managed x.
Proof. unfold uint32, wrap_u, Managed. rewrite <-Z.land_ones, <-Z.land_assoc by lia. done. Qed.

(** The flags of a new message are the managed flags of the spec, and permanent
    is one of them. *)
Lemma Managed_new spec :
  spec_ok spec -> Managed (Z.lor (am_AttrFlags (new_message 0 spec)) (2 ^ 7)) = Managed (as_Flags spec).
Proof.
  intros (_ & _ & H7). simpl am_AttrFlags. rewrite uint32_Managed.
  unfold Managed. apply Z.bits_inj. intros n. rewrite !Z.land_spec, Z.lor_spec, Z.land_spec.
  destruct (decide (n = 7)) as [->|Hn]; [by rewrite H7|].
  rewrite (Z.pow2_bits_false 7 n) by congruence. rewrite orb_false_r.
  by destruct (Z.testbit (as_Flags spec) n), (Z.testbit AddressFlagsManaged n).
Qed.

Section lemmas.
Context {W : Type} `{AddressLaws W}.
Implicit Types (w : W) (spec : AddressSpecSpec).

Abbreviation fins := (finalizers AddressSpecSpec).

Lemma new_up_to_date idx spec a :
  spec_ok spec -> am_Scope a = am_Scope (new_message idx spec) ->
  Managed (addressFlags a) = Managed (Z.lor (am_AttrFlags (new_message idx spec)) (2 ^ 7)) -> up_to_date spec a = true.
Proof.
  intros Hok Hs Hf. unfold up_to_date. rewrite Hs, Hf.
  change (am_AttrFlags (new_message idx spec)) with (am_AttrFlags (new_message 0 spec)).
  rewrite Managed_new by done. simpl. by rewrite !bool_decide_eq_true_2.
Qed.

(** Adding an address whose key is free. *)
Lemma add_address_spec idx spec w w' :
  spec_ok spec -> add_address idx spec w = (w', Ok tt) ->
  (forall a, a ∈ addrs w -> key a <> key (new_message idx spec)) ->
  links w' = links w /\ exists a, key a = key (new_message idx spec) /\ up_to_date spec a = true /\
    forall b, b ∈ addrs w' <-> b ∈ addrs w \/ b = a.
Proof.
  intros Hok HR Hfree. unfold add_address in HR. apply M_bind_ok in HR as (w1 & r & HA & HR).
  apply attempt_ok in HA. destruct r as [[]|e].
  - injection HR as ->. apply law_new in HA as (HL & a & Hk & Hs & Hf & Hin). split; [done|].
    exists a. split; [done|]. split; [by eapply new_up_to_date|done].
  - exfalso. destruct (errors_Is e os_ErrExist) eqn:He; [|done].
    apply law_new in HA as (_ & _ & HE). destruct (HE He) as (a & Ha & _ & _ & Hk).
    eapply Hfree; [exact Ha|]. by apply Hk, canon_new_message.
Qed.

Lemma delete_address_spec e w w' :
  delete_address e w = (w', Ok tt) ->
  links w' = links w /\ (forall a, a ∈ addrs w' -> key a <> key e) /\
  forall a, network a <> network e -> a ∈ addrs w' <-> a ∈ addrs w.
Proof.
  intros (r0 & HD & HO)%wrap_err_ok. rewrite (HO tt eq_refl) in HD. apply law_delete in HD as (HL & H1 & H2 & _).
  split; [done|]. split; [|exact H1]. intros a Ha Hk. by destruct (H2 a Ha ltac:(unfold network; by rewrite Hk)).
Qed.

(** The kernel has the address of the spec, and not as the spec wants it. *)
Definition outdated (ls : list LinkMessage) (l : list AddressMessage) (spec : AddressSpecSpec) : Prop :=
  exists e, e ∈ l /\ key e = spec_key ls spec /\ up_to_date spec e = false.

(** What a successful step does to the kernel, [snap] being a list of the
    addresses that is accurate for the key of the spec. *)
Lemma sync_running ls snap id spec w w' :
  spec_ok spec -> table_ok snap ->
  (forall a, key a = spec_key ls spec -> a ∈ snap <-> a ∈ addrs w) ->
  syncAddress ls snap (mkResource id PhaseRunning spec) w = (w', Ok tt) ->
  links w' = links w /\
  (forall a, network a <> spec_network ls spec -> a ∈ addrs w' <-> a ∈ addrs w) /\
  (~ outdated ls snap spec -> forall a, a ∈ addrs w -> a ∈ addrs w') /\
  (resolveLinkName ls (as_LinkName spec) <> 0 -> in_effect ls (addrs w') spec).
Proof.
  intros Hok [Huniq _] Hsnap HR. unfold syncAddress in HR. cbn [res_Phase TypedSpec res_ID] in HR.
  destruct (Z.eqb_spec (resolveLinkName ls (as_LinkName spec)) 0) as [E|E]; [by injection HR as <-|].
  pose proof (key_new_message (resolveLinkName ls (as_LinkName spec)) spec Hok) as Hkn.
  fold (spec_key ls spec) in Hkn.
  assert (forall w1, (forall a, a ∈ addrs w1 -> key a <> spec_key ls spec) ->
    (forall a, network a <> spec_network ls spec -> a ∈ addrs w1 <-> a ∈ addrs w) -> links w1 = links w ->
    add_address (resolveLinkName ls (as_LinkName spec)) spec w1 = (w', Ok tt) ->
    links w' = links w /\ (forall a, a ∈ addrs w1 -> a ∈ addrs w') /\
    (forall a, network a <> spec_network ls spec -> a ∈ addrs w' <-> a ∈ addrs w) /\
    (resolveLinkName ls (as_LinkName spec) <> 0 -> in_effect ls (addrs w') spec)) as Hadd.
  { intros w1 Hfree Hoth HL HA. destruct (add_address_spec _ _ _ _ Hok HA) as (HL' & a & Hk & Hup & Hin).
    { intros a Ha. rewrite Hkn. by apply Hfree. }
    split; [congruence|]. rewrite Hkn in Hk. split; [intros b Hb; apply Hin; by left|]. split.
    - intros b Hb. rewrite Hin, <-(Hoth b Hb). split; [|by left]. intros [?| ->]; [done|].
      destruct Hb. unfold network, spec_network. by rewrite Hk.
    - intros _. exists a. split; [apply Hin; by right|done]. }
  destruct (findAddress snap _ _) as [e|] eqn:Hf.
  - apply findAddress_Some in Hf as [He Hke]. fold (spec_key ls spec) in Hke.
    destruct (up_to_date spec e) eqn:Hup.
    + injection HR as <-. split_and!; [done..|]. intros _. exists e. split; [by apply Hsnap|done].
    + apply M_bind_ok in HR as (w1 & [] & HD & HA). apply delete_address_spec in HD as (HL & HD & HO).
      destruct (Hadd w1) as (G1 & _ & G2 & G3); try done; [intros a Ha; rewrite <-Hke; by apply HD| |].
      * intros a Ha. apply HO. unfold network, spec_network in *. by rewrite Hke.
      * split_and!; [done..| |done]. intros []. by exists e.
  - destruct (Hadd w) as (G1 & G0 & G2 & G3); try done.
    intros a Ha Hk. eapply (findAddress_None _ _ _ a Hf); [by apply Hsnap|done].
Qed.

Lemma sync_teardown ls snap id spec w w' r :
  (forall a, a ∈ snap -> am_Index a <> 0) ->
  syncAddress ls snap (mkResource id PhaseTearingDown spec) w = (w', r) ->
  links w' = links w /\ addrs w' = addrs w /\ (r = Ok tt -> fins w' id = fins w id ∖ {[Name]}).
Proof.
  intros Hidx HR. unfold syncAddress in HR. cbn [res_Phase TypedSpec res_ID] in HR.
  destruct (Z.eqb_spec (resolveLinkName ls (as_LinkName spec)) 0) as [E|E].
  - destruct (findAddress snap _ _) as [e|] eqn:Hf.
    { exfalso. apply findAddress_Some in Hf as [He Hk]. apply (Hidx e He). rewrite E in Hk. by injection Hk. }
    unfold mbind, M_bind in HR. destruct (wrap_err _ _ _) as [w1 r1] eqn:HW.
    apply wrap_err_ok in HW as (r0 & HF & HO). apply law_remove_finalizer in HF as (H1 & H2 & H3).
    destruct r1 as [[]| |]; injection HR as <- <-; (split_and!; [done|done|]); [|done..].
    intros _. apply H3. by apply HO.
  - apply wrap_err_ok in HR as (r0 & HF & HO). apply law_remove_finalizer in HF as (H1 & H2 & H3).
    split_and!; [done|done|]. intros ->. apply H3. by apply HO.
Qed.

(** A spec that is in effect costs nothing. *)
Lemma sync_steady ls snap id spec w w' r :
  table_ok snap -> (resolveLinkName ls (as_LinkName spec) <> 0 -> in_effect ls snap spec) ->
  syncAddress ls snap (mkResource id PhaseRunning spec) w = (w', r) -> w' = w /\ r = Ok tt.
Proof.
  intros [Huniq _] Hin HR. unfold syncAddress in HR. cbn [res_Phase TypedSpec res_ID] in HR.
  destruct (Z.eqb_spec (resolveLinkName ls (as_LinkName spec)) 0) as [E|E]; [by injection HR as <- <-|].
  destruct (Hin E) as (a & Ha & Hk & Hup).
  destruct (findAddress snap _ _) as [e|] eqn:Hf.
  - apply findAddress_Some in Hf as [He Hke]. assert (e = a) as -> by (apply Huniq; [done|done|]; by rewrite Hke, Hk).
    rewrite Hup in HR. by injection HR as <- <-.
  - exfalso. by eapply (findAddress_None _ _ _ a Hf).
Qed.

(** The networks of the live specs of a list. *)
Definition live_networks (ls : list LinkMessage) (l : list (resource AddressSpecSpec)) : list (Z * Z * nat * Z) :=
  (fun r => spec_network ls (TypedSpec r)) <$> filter (fun r => res_Phase r = PhaseRunning) l.

Lemma sync_loop ls snap l w w' :
  Forall (fun r => spec_ok (TypedSpec r)) l -> NoDup (live_networks ls l) -> table_ok snap ->
  (forall a, network a ∈ live_networks ls l -> a ∈ snap <-> a ∈ addrs w) ->
  for_range (syncAddress ls snap) l w = (w', Ok tt) ->
  links w' = links w /\
  (forall a, network a ∉ live_networks ls l -> a ∈ addrs w' <-> a ∈ addrs w) /\
  (forall a, a ∈ addrs w -> (forall r, r ∈ l -> res_Phase r = PhaseRunning -> outdated ls snap (TypedSpec r) ->
     spec_network ls (TypedSpec r) <> network a) -> a ∈ addrs w') /\
  (forall r, r ∈ l -> res_Phase r = PhaseRunning -> resolveLinkName ls (as_LinkName (TypedSpec r)) <> 0 ->
     in_effect ls (addrs w') (TypedSpec r)).
Proof.
  revert w. induction l as [|r l IH]; intros w Hok Hnd Htab Hsnap HR.
  { injection HR as <-. split_and!; [done..|]. by intros r ?%elem_of_nil. }
  apply for_range_cons_ok in HR as (w1 & H1 & HR). apply Forall_cons in Hok as [Hr Hok].
  destruct r as [id [|] spec]; cbn [TypedSpec] in Hr.
  - unfold live_networks in Hnd, Hsnap |- *. rewrite filter_cons_True in * by done. rewrite fmap_cons in *.
    fold (live_networks ls l) in Hnd, Hsnap |- *. cbn [TypedSpec] in *. apply NoDup_cons in Hnd as [Hni Hnd].
    destruct (sync_running ls snap id spec w w1 Hr Htab) as (L1 & O1 & K1 & E1); [|done|].
    { intros a Hk. apply Hsnap. unfold network. rewrite Hk. left. }
    destruct (IH w1 Hok Hnd Htab) as (L2 & O2 & K2 & E2); [|done|].
    { intros a Ha. rewrite (Hsnap a) by (by right). symmetry. apply O1. intros Hk. by rewrite Hk in Ha. }
    split; [congruence|]. split; [|split].
    + intros a [Hk1 Hk2]%not_elem_of_cons. rewrite O2 by done. by apply O1.
    + intros a Ha Hout. apply K2; [|intros r Hin; apply Hout; by right].
      destruct (decide (network a = spec_network ls spec)) as [En|En]; [|by apply O1].
      apply K1; [|done]. intros Ho. by apply (Hout (mkResource id PhaseRunning spec)); [left|..].
    + intros r [->|Hin]%elem_of_cons; [|by apply E2]. intros _ Hx. destruct (E1 Hx) as (a & Ha & Hk & Hup).
      exists a. split; [|done]. apply O2; [unfold network; by rewrite Hk|done].
  - unfold live_networks in Hnd, Hsnap |- *. rewrite filter_cons_False in * by done. fold (live_networks ls l) in *.
    destruct (sync_teardown ls snap id spec w w1 (Ok tt) (proj2 Htab) H1) as (L1 & A1 & _).
    destruct (IH w1 Hok Hnd Htab) as (L2 & O2 & K2 & E2); [|done|].
    { intros a Ha. rewrite A1. by apply Hsnap. }
    rewrite A1 in O2, K2. split; [congruence|]. split; [done|]. split.
    + intros a Ha Hout. apply K2; [done|]. intros r Hin. apply Hout. by right.
    + intros r [->|Hin]%elem_of_cons; [done|by apply E2].
Qed.

Lemma sync_loop_steady ls snap l w w' r :
  table_ok snap ->
  (forall r, r ∈ l -> res_Phase r = PhaseRunning -> resolveLinkName ls (as_LinkName (TypedSpec r)) <> 0 ->
     in_effect ls snap (TypedSpec r)) ->
  for_range (syncAddress ls snap) l w = (w', r) -> links w' = links w /\ addrs w' = addrs w.
Proof.
  intros Htab Hin HR. assert (links w' = links w /\ addrs w' = addrs w) as X; [|done].
  apply (for_range_inv (fun w0 => links w0 = links w /\ addrs w0 = addrs w) (syncAddress ls snap) l w w' r); [|done|done].
  intros [id ph spec] w1 w2 r1 Hx [L1 A1] HS. destruct ph.
  - apply sync_steady in HS as [-> _]; [done|done|]. by apply (Hin (mkResource id PhaseRunning spec)).
  - apply sync_teardown in HS as (L2 & A2 & _); [|apply Htab]. split; congruence.
Qed.

(** The lists of the loop are those of the kernel. *)
Lemma reconcile_split w w' r :
  reconcile w = (w', r) ->
  links w' = links w /\ addrs w' = addrs w /\ r <> Ok tt \/
  exists wl l w1, ReaderList AddressSpecSpec w = (wl, Ok l) /\ links w1 = links w /\ addrs w1 = addrs w /\
    for_range (syncAddress (links w) (addrs w)) l w1 = (w', r).
Proof.
  unfold reconcile, mbind, M_bind. destruct (wrap_err _ (ReaderList AddressSpecSpec) w) as [wl rl] eqn:HL.
  apply wrap_err_ok in HL as (r0 & HL & HO). pose proof (law_list _ _ _ HL) as (L1 & A1 & _).
  destruct rl as [l| |]; [|intros [= <- <-]; by left..].
  rewrite (HO l eq_refl) in HL.
  destruct (for_range hold l wl) as [w2 r2] eqn:HF.
  assert (links w2 = links w /\ addrs w2 = addrs w) as [L2 A2].
  { eapply (for_range_inv (fun w0 => links w0 = links w /\ addrs w0 = addrs w)); [|by split|exact HF].
    intros x w3 w4 r3 _ [L3 A3] Hh. unfold hold in Hh. destruct (res_Phase x); [|by injection Hh as <- _].
    apply wrap_err_ok in Hh as (r4 & Hh & _). apply law_add_finalizer in Hh as [L4 A4]. split; congruence. }
  destruct r2 as [[]| |]; [|intros [= <- <-]; by left..].
  destruct (wrap_err _ Link_List w2) as [w3 r3] eqn:H3. apply wrap_err_ok in H3 as (r4 & H3 & HO3).
  apply law_links in H3 as (L3 & A3 & E3). destruct r3 as [ls| |];
    [|intros [= <- <-]; left; split_and!; [congruence..|done]..].
  rewrite (E3 ls (HO3 ls eq_refl)).
  destruct (wrap_err _ Address_List w3) as [w4 r5] eqn:H4. apply wrap_err_ok in H4 as (r6 & H4 & HO4).
  apply law_addrs in H4 as (L4 & A4 & E4). destruct r5 as [la| |];
    [|intros [= <- <-]; left; split_and!; [congruence..|done]..].
  rewrite (E4 la (HO4 la eq_refl)). rewrite L2, A3, A2. intros HS. right. exists wl, l, w4.
  split; [done|]. split; [congruence|]. split; [congruence|done].
Qed.

End lemmas.

(** ** Properties *)

(** Addresses converge.  After a successful reconciliation every live address
    spec whose link exists is in effect in the kernel's table, with its scope
    and managed flags, if no two live specs are of the same network of a link;
    the addresses of networks no live spec is of are untouched, and others only
    go where an address was replaced. *)
Theorem address_reconcile_converges {W} `{AddressLaws W} (w w1 wl : W) l :
  ReaderList AddressSpecSpec w = (wl, Ok l) -> reconcile w = (w1, Ok tt) -> table_ok (addrs w) ->
  Forall (fun r => spec_ok (TypedSpec r)) l -> NoDup (live_networks (links w) l) ->
  (forall r, r ∈ l -> res_Phase r = PhaseRunning ->
     resolveLinkName (links w) (as_LinkName (TypedSpec r)) <> 0 -> in_effect (links w1) (addrs w1) (TypedSpec r)) /\
  (forall a, network a ∉ live_networks (links w) l -> a ∈ addrs w1 <-> a ∈ addrs w) /\
  (forall a, a ∈ addrs w -> (forall r, r ∈ l -> res_Phase r = PhaseRunning ->
     outdated (links w) (addrs w) (TypedSpec r) -> spec_network (links w) (TypedSpec r) <> network a) -> a ∈ addrs w1).
Proof.
  intros HL HR Htab Hok Hnd. apply reconcile_split in HR as [(_ & _ & ?)|(wl' & l' & w2 & HL' & L2 & A2 & HS)]; [done|].
  rewrite HL in HL'. injection HL' as <- <-.
  destruct (sync_loop (links w) (addrs w) l w2 w1 Hok Hnd Htab) as (L & O & K & E); [|done|].
  { intros a _. by rewrite A2. }
  rewrite A2 in O, K. split; [|done]. intros r Hin Hph Hx. rewrite L, L2. by apply E.
Qed.

(** No flapping.  When all live address specs whose link exists are in
    effect, reconciling leaves the kernel's addresses alone, whatever flags the
    kernel manages itself. *)
Theorem address_reconcile_stable {W} `{AddressLaws W} (w w1 wl : W) l r :
  ReaderList AddressSpecSpec w = (wl, Ok l) -> reconcile w = (w1, r) -> table_ok (addrs w) ->
  (forall x, x ∈ l -> res_Phase x = PhaseRunning -> resolveLinkName (links w) (as_LinkName (TypedSpec x)) <> 0 ->
     in_effect (links w) (addrs w) (TypedSpec x)) ->
  addrs w1 = addrs w /\ links w1 = links w.
Proof.
  intros HL HR Htab Hin. apply reconcile_split in HR as [(L & A & _)|(wl' & l' & w2 & HL' & L2 & A2 & HS)]; [done|].
  rewrite HL in HL'. injection HL' as <- <-.
  apply sync_loop_steady in HS as [L A]; [split; congruence|done|done].
Qed.

(** A torn down address is never deleted.  Whether its link exists or not,
    the controller leaves the kernel's address table as it is and releases the
    resource by removing its finalizer. *)
Theorem address_teardown_never_deletes {W} `{AddressLaws W} (w w' : W) id spec r :
  table_ok (addrs w) ->
  syncAddress (links w) (addrs w) (mkResource id PhaseTearingDown spec) w = (w', r) ->
  addrs w' = addrs w /\
  (r = Ok tt -> finalizers AddressSpecSpec w' id = finalizers AddressSpecSpec w id ∖ {[Name]}).
Proof. intros [_ Hidx] HS. by apply sync_teardown in HS as (_ & A & F). Qed.

(** ** A kernel *)

Module Demo.

Record world := mkWorld {
  d_links : list LinkMessage;
  d_addrs : list AddressMessage;
  d_specs : list (resource AddressSpecSpec);
  d_fins : gmap string (gset string)
}.

#[export] Instance store : SpecStore world AddressSpecSpec := {|
  ReaderList w := (w, Ok (d_specs w));
  AddFinalizer id name w :=
    (mkWorld (d_links w) (d_addrs w) (d_specs w) (<[id := {[name]} ∪ default ∅ (d_fins w !! id)]> (d_fins w)), Ok tt);
  RemoveFinalizer id name w :=
    (mkWorld (d_links w) (d_addrs w) (d_specs w) (<[id := default ∅ (d_fins w !! id) ∖ {[name]}]> (d_fins w)), Ok tt);
  finalizers w id := default ∅ (d_fins w !! id)
|}.

Definition with_addrs l w := mkWorld (d_links w) l (d_specs w) (d_fins w).

(** Linux, with its default settings: the first address of a network is its
    primary, further ones are secondaries, and go with it. *)
Definition secondary (a : AddressMessage) : bool := Z.testbit (am_AttrFlags a) 0.

Definition removed (m : AddressMessage) (l : list AddressMessage) : list AddressMessage :=
  let primary := Exists (fun a => key a = key m /\ secondary a = false) l in
  filter (fun a => ~ (key a = key m \/ primary /\ network a = network m /\ secondary a = true)) l.

Definition reported (m : AddressMessage) (l : list AddressMessage) : AddressMessage :=
  let flags := Z.lor (Z.lor (am_AttrFlags m) (2 ^ 7)) (if decide (Exists (fun a => network a = network m) l) then 1 else 0) in
  mkAddressMessage (am_Family m) (am_PrefixLength m) (uint8 flags) (am_Scope m) (am_Index m) (am_Address m) (am_Local m)
    (am_Broadcast m) flags.

#[export] Instance netlink : AddressNetlink world := {|
  Link_List w := (w, Ok (d_links w));
  Address_List w := (w, Ok (d_addrs w));
  Address_Delete m w :=
    if decide (Exists (fun a => key a = key m) (d_addrs w))
    then (with_addrs (removed m (d_addrs w)) w, Ok tt)
    else (w, Err (ESentinel "cannot assign requested address"));
  Address_New m w :=
    if decide (Exists (fun a => key a = key m) (d_addrs w)) then (w, Err (ESentinel os_ErrExist))
    else (with_addrs (d_addrs w ++ [reported m (d_addrs w)]) w, Ok tt);
  links := d_links;
  addrs := d_addrs
|}.

Lemma flags_reported m l : Managed (addressFlags (reported m l)) = Managed (Z.lor (am_AttrFlags m) (2 ^ 7)).
Proof.
  unfold addressFlags. cbn [am_AttrFlags am_Flags reported]. set (x := Z.lor (am_AttrFlags m) (2 ^ 7)).
  unfold Managed, uint8, wrap_u. rewrite <-(Z.land_ones _ 8) by lia. apply Z.bits_inj. intros n.
  rewrite !Z.land_spec, Z.lor_spec, Z.land_spec, Z.lor_spec. destruct (decide (n = 0)) as [->|Hn].
  - by rewrite !andb_false_r.
  - assert (Z.testbit (if decide (Exists (fun a => network a = network m) l) then 1 else 0) n = false) as ->.
    { case_decide; [|apply Z.bits_0]. change 1 with (2 ^ 0). apply Z.pow2_bits_false. lia. }
    rewrite orb_false_r. by destruct (Z.testbit x n), (Z.testbit (Z.ones 8) n).
Qed.

Lemma removed_spec m l :
  (forall a, network a <> network m -> a ∈ removed m l <-> a ∈ l) /\
  (forall a, a ∈ removed m l -> network a = network m -> key a <> key m /\ exists b, b ∈ l /\ key b = key a) /\
  ((forall a b, a ∈ l -> b ∈ l -> key a = key b -> a = b) ->
   forall a b, a ∈ removed m l -> b ∈ removed m l -> key a = key b -> a = b).
Proof.
  unfold removed. split; [|split].
  - intros a Ha. rewrite list_elem_of_filter. split; [tauto|]. intros Hin. split; [|done].
    intros [Hk|(_ & Hn & _)]; [|done]. apply Ha. unfold network. by rewrite Hk.
  - intros a [Hn Hin]%list_elem_of_filter _. split; [tauto|eauto].
  - intros HU a b [_ Ha]%list_elem_of_filter [_ Hb]%list_elem_of_filter. by apply HU.
Qed.

Lemma taken_ipv4 m l :
  Exists (fun a => key a = key m) l -> exists a, a ∈ l /\ am_Index a = am_Index m /\
    canon (am_Address a) = canon (am_Address m) /\ (length (canon (am_Address m)) = 4%nat -> key a = key m).
Proof. intros (a & Ha & Hk)%Exists_exists. exists a. split; [done|]. pose proof Hk as [= HI _ HC]. done. Qed.

Lemma laws : AddressLaws world.
Proof.
  split.
  - by intros w w' r [= <- <-].
  - by intros id name w w' r [= <- <-].
  - intros id name w w' r [= <- <-]. split_and!; [done..|]. intros _. simpl. by rewrite lookup_insert_eq.
  - intros w w' r [= <- <-]. split_and!; [done..|]. by intros l [= <-].
  - intros w w' r [= <- <-]. split_and!; [done..|]. by intros l [= <-].
  - intros m w w' r. simpl. case_decide; intros [= <- <-]; (split; [done|]); [apply removed_spec|done].
  - intros m w w' r. simpl. case_decide as Hx; intros [= <- <-]; (split; [done|]).
    + split; [done|]. intros _. by apply taken_ipv4.
    + exists (reported m (d_addrs w)). rewrite flags_reported. split_and!; [done..|]. intros b. simpl.
      by rewrite elem_of_app, list_elem_of_singleton.
Qed.

(** A link with two addresses: one is the spec's with a wrong scope, the other
    nobody's. *)
Definition demo_link : LinkMessage := mkLinkMessage 1 2 0 "eth0" [] [] 0 "" 1500 6.
Definition demo_spec : AddressSpecSpec :=
  mkAddressSpecSpec (PrefixFrom (Addr4 3232235786) 24) "eth0" FamilyInet4 ScopeGlobal (2 ^ 7).
Definition demo_other : AddressMessage := mkAddressMessage 2 8 128 254 2 [10; 0; 0; 1] [10; 0; 0; 1] [] 128.
Definition demo_wrong : AddressMessage :=
  mkAddressMessage 2 24 128 253 2 [192; 168; 1; 10] [192; 168; 1; 10] [192; 168; 1; 255] 128.
Definition demo_world : world :=
  mkWorld [demo_link] [demo_other; demo_wrong] [mkResource "dhcp4/eth0" PhaseRunning demo_spec] ∅.

Lemma demo_table : table_ok (addrs demo_world).
Proof.
  split.
  - intros a b [->|[->|[]%elem_of_nil]%elem_of_cons]%elem_of_cons [->|[->|[]%elem_of_nil]%elem_of_cons]%elem_of_cons;
      by vm_compute.
  - intros a [->|[->|[]%elem_of_nil]%elem_of_cons]%elem_of_cons; done.
Qed.

(** The world after one reconciliation. *)
Definition demo_world1 : world := fst (reconcile demo_world).

Example demo_world1_addrs : addrs demo_world1 = [demo_other; reported (new_message 2 demo_spec) [demo_other]].
Proof. by vm_compute. Qed.

Lemma address_reconcile_converges_witness :
  in_effect (links demo_world1) (addrs demo_world1) demo_spec /\ demo_other ∈ addrs demo_world1.
Proof.
  destruct (address_reconcile_converges (H := laws) demo_world demo_world1 demo_world
    [mkResource "dhcp4/eth0" PhaseRunning demo_spec]) as (H1 & H2 & _).
  - done.
  - by vm_compute.
  - apply demo_table.
  - by repeat constructor.
  - apply NoDup_singleton.
  - split.
    + apply (H1 (mkResource "dhcp4/eth0" PhaseRunning demo_spec)); [left|done|by vm_compute].
    + apply H2; [|left]. intros [Hk|[]%elem_of_nil]%elem_of_cons. vm_compute in Hk. discriminate Hk.
Defined.

Lemma demo_table1 : table_ok (addrs demo_world1).
Proof.
  rewrite demo_world1_addrs. split.
  - intros a b [->|[->|[]%elem_of_nil]%elem_of_cons]%elem_of_cons [->|[->|[]%elem_of_nil]%elem_of_cons]%elem_of_cons;
      by vm_compute.
  - intros a [->|[->|[]%elem_of_nil]%elem_of_cons]%elem_of_cons; done.
Qed.

Lemma demo_in_effect1 : in_effect (links demo_world1) (addrs demo_world1) demo_spec.
Proof.
  rewrite demo_world1_addrs. exists (reported (new_message 2 demo_spec) [demo_other]). split_and!; [right; left|by vm_compute|by vm_compute].
Qed.

Lemma address_reconcile_stable_witness :
  addrs (fst (reconcile demo_world1)) = addrs demo_world1 /\ links (fst (reconcile demo_world1)) = links demo_world1.
Proof.
  apply (address_reconcile_stable (H := laws) demo_world1 (fst (reconcile demo_world1)) demo_world1
    [mkResource "dhcp4/eth0" PhaseRunning demo_spec] (snd (reconcile demo_world1))).
  - by vm_compute.
  - by destruct (reconcile demo_world1).
  - apply demo_table1.
  - intros x [->|[]%elem_of_nil]%elem_of_cons _ _. apply demo_in_effect1.
Defined.

Lemma address_teardown_never_deletes_witness :
  let w' := fst (syncAddress (links demo_world) (addrs demo_world) (mkResource "a" PhaseTearingDown demo_spec) demo_world) in
  addrs w' = [demo_other; demo_wrong] /\ finalizers AddressSpecSpec w' "a" = ∅.
Proof.
  destruct (address_teardown_never_deletes (H := laws) demo_world
    (fst (syncAddress (links demo_world) (addrs demo_world) (mkResource "a" PhaseTearingDown demo_spec) demo_world))
    "a" demo_spec (Ok tt)) as [H1 H2].
  - apply demo_table.
  - by vm_compute.
  - split; [exact H1|]. rewrite (H2 eq_refl). by vm_compute.
Defined.

(** Two specs of one network.  The second is outdated, and the primary of its
    network; its replacement takes the first one away, which is not added again,
    since it was still in the list when the turn began; nor is the controller
    told. *)
Definition demo_second : AddressSpecSpec :=
  mkAddressSpecSpec (PrefixFrom (Addr4 3232235787) 24) "eth0" FamilyInet4 ScopeGlobal (2 ^ 7).

Definition demo_secondary : AddressMessage := reported (new_message 2 demo_second) [demo_wrong].

Definition shared_world : world :=
  mkWorld [demo_link] [demo_wrong; demo_secondary]
    [mkResource "dhcp4/eth0" PhaseRunning demo_spec; mkResource "eth0/second" PhaseRunning demo_second] ∅.

Example secondary_lost :
  in_effect (links shared_world) (addrs shared_world) demo_second /\
  exists w, reconcile shared_world = (w, Ok tt) /\ addrs w = [reported (new_message 2 demo_spec) []].
Proof.
  split; [|eexists; by vm_compute].
  exists demo_secondary. split_and!; [right; left|by vm_compute|by vm_compute].
Qed.

End Demo.
