(* ===== verification/RouteSpec.v ===== *)
(** * The route controller, against the kernel's routing tables

    Models [controllers/network/route_spec.go], with the same interfaces as the
    address controller: the resource store of [AddressSpec], and a netlink
    connection for routes ([RouteNetlink]) whose laws say how the kernel
    reports a route it was asked to add. *)

From S2P Require Import Prelude NetAddr AddressSpec.

(** ** Netlink messages *)

(** The attributes are flattened into the message; [rm_MTU] is [None] when there
    are no metrics; [rm_Table] is the uint8 of the header, [rm_AttrTable] the
    uint32 of the attribute. *)
Record RouteMessage := mkRouteMessage {
  rm_Family : Z;
  rm_DstLength : Z;
  rm_SrcLength : Z;
  rm_Table : Z;
  rm_Protocol : Z;
  rm_Scope : Z;
  rm_Type : Z;
  rm_Flags : Z;
  rm_Dst : list Z;
  rm_Src : list Z;
  rm_Gateway : list Z;
  rm_OutIface : Z;
  rm_Priority : Z;
  rm_AttrTable : Z;
  rm_MTU : option Z
}.

#[export] Instance RouteMessage_eq_dec : EqDecision RouteMessage.
Proof. solve_decision. Defined.

Class RouteNetlink (W : Type) := {
  route_Link_List : M W (list LinkMessage);
  Route_List : M W (list RouteMessage);
  Route_Delete : RouteMessage -> M W unit;
  Route_Add : RouteMessage -> M W unit;
  route_links : W -> list LinkMessage;
  routes : W -> list RouteMessage
}.

(** ** Matching *)

Definition netipPrefixBitsCorrected (p : Prefix) : Z :=
  match AsSlice (p_addr p) with [] => 0 | _ => Bits p end.

Definition routeFamilyMatches (r : RouteMessage) (spec : RouteSpecSpec) : bool :=
  bool_decide (rm_Family r = uint8 (rs_Family spec)).

Definition routeDestionationMatches (r : RouteMessage) (spec : RouteSpecSpec) : bool :=
  if decide (rm_DstLength r <> netipPrefixBitsCorrected (rs_Destination spec)) then false
  else bool_decide (rm_DstLength r = 0) || IP_Equal (rm_Dst r) (AsSlice (p_addr (rs_Destination spec))).

Definition routeGatewayMatches (r : RouteMessage) (spec : RouteSpecSpec) : bool :=
  IP_Equal (rm_Gateway r) (AsSlice (rs_Gateway spec)).

Definition routeTableMatches (r : RouteMessage) (spec : RouteSpecSpec) : bool :=
  bool_decide (rm_Table r = rs_Table spec).

Definition routePriorityMatches (r : RouteMessage) (spec : RouteSpecSpec) : bool :=
  if decide (rm_Priority r = rs_Priority spec) then true
  else bool_decide (rs_Family spec = FamilyInet6) && bool_decide (rs_Priority spec = 0) &&
       bool_decide (rm_Priority r = DefaultRouteMetric).

Definition routeScopeMatches (r : RouteMessage) (expected : RouteSpecSpec) : bool :=
  if decide (rs_Family expected = FamilyInet6) then true
  else bool_decide (rm_Scope r = uint8 (rs_Scope expected)).

Definition linkIndexMatches (actual expected : Z) : bool :=
  bool_decide (expected = 0) || bool_decide (actual = expected).

(** The tests of [findMatchingRoutes]. *)
Definition route_matches (spec : RouteSpecSpec) (r : RouteMessage) : bool :=
  routeFamilyMatches r spec && routeDestionationMatches r spec && routeGatewayMatches r spec &&
  routeTableMatches r spec && routePriorityMatches r spec.

Fixpoint findMatchingRoutes (existingRoutes : list RouteMessage) (expected : RouteSpecSpec) : list RouteMessage :=
  match existingRoutes with
  | [] => []
  | r :: l => if route_matches expected r then r :: findMatchingRoutes l expected else findMatchingRoutes l expected
  end.

(** The existing route needs no update. *)
Definition route_up_to_date (linkIndex : Z) (spec : RouteSpecSpec) (existing : RouteMessage) : bool :=
  let existingMTU := default 0 (rm_MTU existing) in
  routeScopeMatches existing spec && RouteFlags_Equal (rm_Flags existing) (rs_Flags spec) &&
  bool_decide (rm_Protocol existing = uint8 (rs_Protocol spec)) &&
  linkIndexMatches (rm_OutIface existing) linkIndex &&
  (bool_decide (rs_Source spec = AddrZero) || IP_Equal (rm_Src existing) (AsSlice (rs_Source spec))) &&
  bool_decide (existingMTU = rs_MTU spec) && bool_decide (rm_Type existing = uint8 (rs_Type spec)).

(** The message the route is added with. *)
Definition route_message (linkIndex : Z) (spec : RouteSpecSpec) : RouteMessage :=
  mkRouteMessage (uint8 (rs_Family spec)) (uint8 (netipPrefixBitsCorrected (rs_Destination spec))) 0 0
    (uint8 (rs_Protocol spec)) (uint8 (rs_Scope spec)) (uint8 (rs_Type spec)) (uint32 (rs_Flags spec))
    (AsSlice (p_addr (rs_Destination spec))) (AsSlice (rs_Source spec)) (AsSlice (rs_Gateway spec)) linkIndex
    (rs_Priority spec) (uint32 (rs_Table spec))
    (if decide (rs_MTU spec = 0) then None else Some (rs_MTU spec)).

(** ** The controller *)

Section controller.
Context {W : Type} `{!SpecStore W RouteSpecSpec} `{!RouteNetlink W}.
(** [%+v] of the message, part of an error's text. *)
Variable show_message : RouteMessage -> string.

Definition route_Name : string := "network.RouteSpecController".

Definition delete_route (existing : RouteMessage) : M W unit :=
  wrap_err "error removing route: " (Route_Delete existing).

(** The loop over the matching routes; the result says whether one is up to
    date. *)
Fixpoint replace_routes (linkIndex : Z) (spec : RouteSpecSpec) (l : list RouteMessage) (matchFound : bool) : M W bool :=
  match l with
  | [] => mret matchFound
  | existing :: l =>
    if route_up_to_date linkIndex spec existing then replace_routes linkIndex spec l true
    else _ ← delete_route existing; replace_routes linkIndex spec l matchFound
  end.

Definition add_route (linkIndex : Z) (spec : RouteSpecSpec) : M W unit := fun w =>
  let msg := route_message linkIndex spec in
  match Route_Add msg w with
  | (w', Err e) => (w', Err (EWrap "error adding route: " e (", message " +:+ show_message msg)))
  | r => r
  end.

Definition syncRoute (ls : list LinkMessage) (rts : list RouteMessage) (route : resource RouteSpecSpec) : M W unit :=
  let spec := TypedSpec route in
  let linkIndex := resolveLinkName ls (rs_OutLinkName spec) in
  match res_Phase route with
  | PhaseTearingDown =>
    _ ← for_range delete_route (findMatchingRoutes rts spec);
    wrap_err "error removing finalizer: " (RemoveFinalizer RouteSpecSpec (res_ID route) route_Name)
  | PhaseRunning =>
    if (linkIndex =? 0) && negb (bool_decide (rs_OutLinkName spec = "")) then mret tt
    else
      matchFound ← replace_routes linkIndex spec (findMatchingRoutes rts spec) false;
      if matchFound : bool then mret tt else add_route linkIndex spec
  end.

Definition hold_route (route : resource RouteSpecSpec) : M W unit :=
  match res_Phase route with
  | PhaseRunning => wrap_err "error adding finalizer: " (AddFinalizer RouteSpecSpec (res_ID route) route_Name)
  | PhaseTearingDown => mret tt
  end.

(** One turn of the loop of [Run]. *)
Definition route_reconcile : M W unit :=
  list ← wrap_err "error listing source network routes: " (ReaderList RouteSpecSpec);
  _ ← for_range hold_route list;
  ls ← wrap_err "error listing links: " route_Link_List;
  rts ← wrap_err "error listing addresses: " Route_List;
  for_range (syncRoute ls rts) list.

End controller.

(** ** Laws *)

(** A destination without host bits.  IPv4 routes with host bits are refused,
    those of IPv6 lose them. *)
Definition no_host_bits (ip : list Z) (bits : Z) : Prop :=
  number (canon ip) `mod` 2 ^ (8 * Z.of_nat (length (canon ip)) - bits) = 0.

#[export] Instance no_host_bits_dec ip bits : Decision (no_host_bits ip bits).
Proof. unfold no_host_bits. apply _. Defined.

(** How the kernel reports a route it was asked to add: its destination as given
    if it has no host bits; tables above 255 do not fit the header, where they read as "compat" (252); IPv6 routes have no
    scope and a metric of 1024 by default; the link is resolved when none is
    asked for; the flags other than those asked for are the kernel's. *)
Definition reported_as (m r : RouteMessage) : Prop :=
  rm_Family r = rm_Family m /\ rm_DstLength r = rm_DstLength m /\
  (rm_DstLength m <> 0 -> no_host_bits (rm_Dst m) (rm_DstLength m) -> canon (rm_Dst r) = canon (rm_Dst m)) /\
  rm_Table r = (if decide (rm_AttrTable m < 256) then rm_AttrTable m else 252) /\
  rm_Protocol r = rm_Protocol m /\ rm_Type r = rm_Type m /\
  rm_Scope r = (if decide (rm_Family m = FamilyInet6) then 0 else rm_Scope m) /\
  Z.land (rm_Flags r) RouteFlagsMask = Z.land (rm_Flags m) RouteFlagsMask /\
  canon (rm_Gateway r) = canon (rm_Gateway m) /\
  (rm_OutIface m <> 0 -> rm_OutIface r = rm_OutIface m) /\
  rm_Priority r = (if decide (rm_Family m = FamilyInet6 /\ rm_Priority m = 0) then DefaultRouteMetric else rm_Priority m) /\
  (rm_Src m <> [] -> canon (rm_Src r) = canon (rm_Src m)) /\
  default 0 (rm_MTU r) = default 0 (rm_MTU m).

Class RouteLaws (W : Type) `{!SpecStore W RouteSpecSpec} `{!RouteNetlink W} : Prop := {
  law_remove_route_finalizer id name w w' r : RemoveFinalizer RouteSpecSpec id name w = (w', r) ->
    routes w' = routes w /\
    (r = Ok tt -> finalizers RouteSpecSpec w' id = finalizers RouteSpecSpec w id ∖ {[name]});
  law_route_delete m w w' r : Route_Delete m w = (w', r) ->
    finalizers RouteSpecSpec w' = finalizers RouteSpecSpec w /\
    match r with
    | Ok _ => forall x, x ∈ routes w' <-> x ∈ routes w /\ x <> m
    | _ => routes w' = routes w
    end;
  law_route_add m w w' r : Route_Add m w = (w', r) ->
    match r with
    | Ok _ => exists x, reported_as m x /\ forall y, y ∈ routes w' <-> y ∈ routes w \/ y = x
    | _ => routes w' = routes w
    end
}.

(** What is read of the kernel is what it has; lists are complete, and neither
    reads nor finalizers change the kernel. *)
Class RouteReads (W : Type) `{!SpecStore W RouteSpecSpec} `{!RouteNetlink W} : Prop := {
  read_specs w w' r : ReaderList RouteSpecSpec w = (w', r) -> routes w' = routes w /\ route_links w' = route_links w;
  read_finalizer id name w w' r : AddFinalizer RouteSpecSpec id name w = (w', r) ->
    routes w' = routes w /\ route_links w' = route_links w;
  read_links w w' r : route_Link_List w = (w', r) -> routes w' = routes w /\ (forall l, r = Ok l -> l = route_links w);
  read_routes w w' r : Route_List w = (w', r) -> routes w' = routes w /\ (forall l, r = Ok l -> l = routes w)
}.

(** The integers of a spec have their width, its table fits a header, and its
    destination has no host bits. *)
Definition route_ok (spec : RouteSpecSpec) : Prop :=
  0 <= rs_Family spec < 256 /\ 0 <= rs_Table spec < 256 /\ 0 <= rs_Flags spec < 2 ^ 32 /\
  wf_prefix (rs_Destination spec) /\ 0 <= netipPrefixBitsCorrected (rs_Destination spec) /\
  (netipPrefixBitsCorrected (rs_Destination spec) <> 0 ->
   no_host_bits (AsSlice (p_addr (rs_Destination spec))) (netipPrefixBitsCorrected (rs_Destination spec))).

(** ** Lemmas *)

Lemma findMatchingRoutes_elem l spec r : r ∈ findMatchingRoutes l spec <-> r ∈ l /\ route_matches spec r = true.
Proof.
  induction l as [|x l IH]; simpl.
  { rewrite !elem_of_nil. tauto. }
  destruct (route_matches spec x) eqn:E; rewrite !elem_of_cons, IH; split;
    intuition (subst; auto; congruence).
Qed.

Lemma corrected_range p : wf_prefix p -> netipPrefixBitsCorrected p <= 128.
Proof.
  unfold netipPrefixBitsCorrected, wf_prefix, Bits. destruct (p_addr p); simpl; lia.
Qed.

(** The route the kernel reports back is found and up to date. *)
Lemma reported_matches idx spec r :
  route_ok spec -> reported_as (route_message idx spec) r ->
  route_matches spec r = true /\ route_up_to_date idx spec r = true.
Proof.
  intros (Hf & Ht & Hfl & Hwf & Hb & Hhost) (R1 & R2 & R3 & R4 & R5 & R6 & R7 & R8 & R9 & R10 & R11 & R12 & R13).
  pose proof (corrected_range _ Hwf) as Hb2. simpl in *.
  assert (uint8 (rs_Family spec) = rs_Family spec) as E1 by (apply wrap_u_small; lia).
  assert (uint8 (netipPrefixBitsCorrected (rs_Destination spec)) = netipPrefixBitsCorrected (rs_Destination spec)) as E2
    by (apply wrap_u_small; lia).
  assert (uint32 (rs_Table spec) = rs_Table spec) as E3 by (apply wrap_u_small; lia).
  assert (uint32 (rs_Flags spec) = rs_Flags spec) as E4 by (apply wrap_u_small; lia).
  rewrite E1, E2, E3, E4 in *. split.
  - unfold route_matches, routeFamilyMatches, routeDestionationMatches, routeGatewayMatches, routeTableMatches,
      routePriorityMatches. rewrite !IP_Equal_canon, E1, R1, R2, R9. rewrite (bool_decide_eq_true_2 (canon _ = canon (AsSlice (rs_Gateway spec)))) by done.
    rewrite bool_decide_eq_true_2 by done. rewrite decide_False by (by intros []).
    rewrite decide_True in R4 by lia. rewrite R4, (bool_decide_eq_true_2 (rs_Table spec = _)) by done.
    assert (bool_decide (netipPrefixBitsCorrected (rs_Destination spec) = 0) ||
      bool_decide (canon (rm_Dst r) = canon (AsSlice (p_addr (rs_Destination spec)))) = true) as ->.
    { case_bool_decide; [done|]. simpl. apply bool_decide_eq_true_2. auto. }
    simpl. rewrite R11. destruct (decide (rs_Family spec = FamilyInet6 /\ rs_Priority spec = 0)) as [[-> ->]|Hn].
    + case_decide; [done|]. done.
    + by rewrite decide_True.
  - unfold route_up_to_date, routeScopeMatches, linkIndexMatches, RouteFlags_Equal. rewrite R5, R6, R7, R8, R13.
    rewrite (bool_decide_eq_true_2 (uint8 (rs_Protocol spec) = uint8 (rs_Protocol spec))),
      (bool_decide_eq_true_2 (uint8 (rs_Type spec) = uint8 (rs_Type spec))) by done. rewrite Z.eqb_refl.
    assert (bool_decide (idx = 0) || bool_decide (rm_OutIface r = idx) = true) as ->.
    { case_bool_decide; [done|]. simpl. apply bool_decide_eq_true_2. auto. }
    assert (bool_decide (rs_Source spec = AddrZero) || IP_Equal (rm_Src r) (AsSlice (rs_Source spec)) = true) as ->.
    { case_bool_decide as Hs; [done|]. simpl. rewrite IP_Equal_canon. apply bool_decide_eq_true_2, R12.
      by destruct (rs_Source spec). }
    assert (bool_decide (default 0 (if decide (rs_MTU spec = 0) then None else Some (rs_MTU spec)) = rs_MTU spec) = true) as ->.
    { apply bool_decide_eq_true_2. case_decide; done. }
    destruct (decide (rs_Family spec = FamilyInet6)); simpl; [done|]. by rewrite bool_decide_eq_true_2.
Qed.

Section lemmas.
Context {W : Type} `{RouteLaws W}.
Implicit Types (w : W) (spec : RouteSpecSpec).

Lemma delete_route_spec e w w' :
  delete_route e w = (w', Ok tt) ->
  finalizers RouteSpecSpec w' = finalizers RouteSpecSpec w /\ forall x, x ∈ routes w' <-> x ∈ routes w /\ x <> e.
Proof. intros (r0 & HD & HO)%wrap_err_ok. rewrite (HO tt eq_refl) in HD. by apply law_route_delete in HD. Qed.

Lemma replace_routes_spec idx spec l mf w w' b :
  replace_routes idx spec l mf w = (w', Ok b) ->
  b = mf || existsb (route_up_to_date idx spec) l /\
  (forall x, x ∈ routes w' <-> x ∈ routes w /\ ~ (x ∈ l /\ route_up_to_date idx spec x = false)).
Proof.
  revert mf w. induction l as [|e l IH]; intros mf w; cbn [replace_routes existsb].
  { intros [= <- <-]. rewrite orb_false_r. split; [done|]. intros x. rewrite elem_of_nil. tauto. }
  destruct (route_up_to_date idx spec e) eqn:E.
  - intros (-> & HX)%IH. split; [by rewrite orb_true_r|]. intros x. rewrite HX, elem_of_cons.
    split; intros [? HN]; (split; [done|]); [intros [[->|?] ?]; [congruence|tauto]|tauto].
  - intros (w1 & [] & (_ & HD)%delete_route_spec & (-> & HX)%IH)%M_bind_ok. split; [done|].
    intros x. rewrite HX, HD, elem_of_cons. split.
    + intros [[? ?] HN]. split; [done|]. intros [[->|?] ?]; [done|tauto].
    + intros [? HN]. split_and!; [done| |tauto]. intros ->. tauto.
Qed.

Lemma delete_all_spec l w w' :
  for_range delete_route l w = (w', Ok tt) ->
  finalizers RouteSpecSpec w' = finalizers RouteSpecSpec w /\ forall x, x ∈ routes w' <-> x ∈ routes w /\ x ∉ l.
Proof.
  revert w. induction l as [|e l IH]; intros w.
  { intros [= <-]. split; [done|]. intros x. rewrite elem_of_nil. tauto. }
  intros (w1 & (F1 & D1)%delete_route_spec & (F2 & D2)%IH)%for_range_cons_ok. split; [congruence|].
  intros x. rewrite D2, D1, not_elem_of_cons. tauto.
Qed.

Lemma existsb_elem (f : RouteMessage -> bool) l : existsb f l = true <-> exists x, x ∈ l /\ f x = true.
Proof. rewrite existsb_exists. by setoid_rewrite <-list_elem_of_In. Qed.

(** When nothing is to be replaced the loop does nothing. *)
Lemma replace_routes_steady idx spec l mf w :
  (forall x, x ∈ l -> route_up_to_date idx spec x = true) ->
  replace_routes idx spec l mf w = (w, Ok (mf || existsb (route_up_to_date idx spec) l)).
Proof.
  revert mf. induction l as [|e l IH]; intros mf Hl; cbn [replace_routes existsb].
  { by rewrite orb_false_r. }
  rewrite (Hl e) by left. rewrite IH; [by rewrite orb_true_r|]. intros x Hx. apply Hl. by right.
Qed.

(** A route is in place: some route of the kernel matches it, and all that do
    are up to date. *)
Definition in_place (ls : list LinkMessage) (l : list RouteMessage) (spec : RouteSpecSpec) : Prop :=
  let idx := resolveLinkName ls (rs_OutLinkName spec) in
  (exists x, x ∈ l /\ route_matches spec x = true /\ route_up_to_date idx spec x = true) /\
  (forall x, x ∈ l -> route_matches spec x = true -> route_up_to_date idx spec x = true).

(** The link of a route exists, or it names none. *)
Definition link_known (ls : list LinkMessage) (spec : RouteSpecSpec) : Prop :=
  resolveLinkName ls (rs_OutLinkName spec) <> 0 \/ rs_OutLinkName spec = "".

Lemma link_known_test ls spec :
  (resolveLinkName ls (rs_OutLinkName spec) =? 0) && negb (bool_decide (rs_OutLinkName spec = "")) = false <-> link_known ls spec.
Proof.
  unfold link_known. destruct (Z.eqb_spec (resolveLinkName ls (rs_OutLinkName spec)) 0); case_bool_decide; simpl; tauto || naive_solver.
Qed.

(** A live route, with what was listed before of the routes that match it. *)
Lemma sync_live show ls snap id spec w w' :
  route_ok spec -> (forall x, route_matches spec x = true -> x ∈ snap <-> x ∈ routes w) ->
  syncRoute show ls snap (mkResource id PhaseRunning spec) w = (w', Ok tt) ->
  (link_known ls spec -> in_place ls (routes w') spec) /\
  (forall x, route_matches spec x = false -> x ∈ routes w' <-> x ∈ routes w).
Proof.
  intros Hok Hsnap HR. unfold syncRoute in HR. cbn [res_Phase TypedSpec res_ID] in HR. unfold in_place.
  set (idx := resolveLinkName ls (rs_OutLinkName spec)) in *.
  destruct ((idx =? 0) && negb (bool_decide (rs_OutLinkName spec = ""))) eqn:Hc.
  { injection HR as <-. split; [|done]. intros Hl%link_known_test. unfold idx in Hc. congruence. }
  apply M_bind_ok in HR as (w1 & b & (Hb & HX)%replace_routes_spec & HR).
  assert (forall x, x ∈ routes w1 <-> x ∈ routes w /\ ~ (route_matches spec x = true /\ route_up_to_date idx spec x = false)) as HX'.
  { intros x. rewrite HX, findMatchingRoutes_elem. split; intros [? HN]; (split; [done|]); intros [? ?]; apply HN; [|tauto].
    split; [|done]. split; [by apply Hsnap|done]. }
  assert (forall x, x ∈ routes w1 -> route_matches spec x = true -> route_up_to_date idx spec x = true) as Hgood.
  { intros x [_ HN]%HX' Hm. destruct (route_up_to_date idx spec x); [done|]. tauto. }
  assert (forall x, route_matches spec x = false -> x ∈ routes w1 <-> x ∈ routes w) as Hother.
  { intros x Hm. rewrite HX'. split; [tauto|]. intros ?. split; [done|]. intros [? _]. congruence. }
  destruct b; simpl in Hb.
  - injection HR as <-. split; [|done]. intros _. split; [|done]. symmetry in Hb.
    apply existsb_elem in Hb as (x & [Hx Hm]%findMatchingRoutes_elem & Hu). apply (Hsnap x Hm) in Hx.
    exists x. split; [|done]. apply HX'. split; [done|]. intros [_ ?]. congruence.
  - unfold add_route in HR. destruct (Route_Add _ w1) as [w2 [[]|e|p]] eqn:HA; simplify_eq.
    apply law_route_add in HA as (x & Hrep & HY). destruct (reported_matches idx spec x Hok Hrep) as [Hm Hu]. split.
    + intros _. split; [exists x; split; [apply HY; by right|done]|]. intros y [Hy| ->]%HY Hmy; [by apply Hgood|done].
    + intros y Hy. rewrite HY, (Hother y Hy). split; [intros [?| ->]; [done|congruence]|by left].
Qed.

(** A torn down route. *)
Lemma sync_torn_down show ls snap id spec w w' :
  syncRoute show ls snap (mkResource id PhaseTearingDown spec) w = (w', Ok tt) ->
  forall x, route_matches spec x = false -> x ∈ routes w' <-> x ∈ routes w.
Proof.
  unfold syncRoute. cbn [res_Phase TypedSpec res_ID]. intros (w1 & [] & (_ & D)%delete_all_spec & HR)%M_bind_ok x Hx.
  apply wrap_err_ok in HR as (r0 & HR & _). apply law_remove_route_finalizer in HR as [-> _].
  rewrite D, findMatchingRoutes_elem. split; [tauto|]. intros ?. split; [done|]. intros [_ ?]. congruence.
Qed.

(** No route matches two of the specs. *)
Definition apart (l : list (resource RouteSpecSpec)) : Prop :=
  forall i j r r' x, l !! i = Some r -> l !! j = Some r' -> i <> j ->
    route_matches (TypedSpec r) x = true -> route_matches (TypedSpec r') x = false.

Lemma route_loop show ls snap l w w' :
  (forall r, r ∈ l -> res_Phase r = PhaseRunning -> route_ok (TypedSpec r)) -> apart l ->
  (forall r x, r ∈ l -> route_matches (TypedSpec r) x = true -> x ∈ snap <-> x ∈ routes w) ->
  for_range (syncRoute show ls snap) l w = (w', Ok tt) ->
  (forall r, r ∈ l -> res_Phase r = PhaseRunning -> link_known ls (TypedSpec r) -> in_place ls (routes w') (TypedSpec r)) /\
  (forall x, (forall r, r ∈ l -> route_matches (TypedSpec r) x = false) -> x ∈ routes w' <-> x ∈ routes w).
Proof.
  revert w. induction l as [|r l IH]; intros w Hok Hap Hsnap HR.
  { injection HR as <-. split; [|done]. by intros r ?%elem_of_nil. }
  apply for_range_cons_ok in HR as (w1 & H1 & HR).
  assert (forall r' x, r' ∈ l -> route_matches (TypedSpec r) x = true -> route_matches (TypedSpec r') x = false) as Hr.
  { intros r' x [j Hj]%list_elem_of_lookup Hm. by apply (Hap 0%nat (S j) r r' x). }
  assert ((res_Phase r = PhaseRunning -> link_known ls (TypedSpec r) -> in_place ls (routes w1) (TypedSpec r)) /\
    forall x, route_matches (TypedSpec r) x = false -> x ∈ routes w1 <-> x ∈ routes w) as [E1 O1].
  { destruct r as [id [|] spec]; cbn [res_Phase TypedSpec] in *.
    - destruct (sync_live show ls snap id spec w w1) as [? ?]; [by apply (Hok (mkResource id PhaseRunning spec)); [left|]| |done|done].
      intros x. apply (Hsnap (mkResource id PhaseRunning spec)). left.
    - split; [done|]. by apply (sync_torn_down show ls snap id). }
  destruct (IH w1) as [E2 O2]; [intros; apply Hok; [by right|done]| | |done|].
  { intros i j r1 r2 x Hi Hj Hne. apply (Hap (S i) (S j)); [done..|congruence]. }
  { intros r' x Hr' Hm. rewrite (Hsnap r' x) by (by right || done). symmetry. apply O1.
    destruct (route_matches (TypedSpec r) x) eqn:E; [|done]. rewrite (Hr r' x Hr' E) in Hm. done. }
  assert (forall x, route_matches (TypedSpec r) x = true -> x ∈ routes w' <-> x ∈ routes w1) as Hkeep.
  { intros x Hm. apply O2. intros r' Hr'. by apply Hr. }
  split.
  - intros r0 [->|Hin]%elem_of_cons; [|by apply E2]. intros HP Hl. destruct (E1 HP Hl) as [(x & Hx & Hm & Hu) Hall]. split.
    + exists x. split; [by apply Hkeep|done].
    + intros y Hy Hmy. apply Hall; [by apply Hkeep|done].
  - intros x Hx. rewrite O2 by (intros; apply Hx; by right). apply O1, Hx. left.
Qed.

(** A pass that succeeds, up to its loop. *)
Lemma route_reconcile_split `{!RouteReads W} show w w' wl l :
  ReaderList RouteSpecSpec w = (wl, Ok l) -> route_reconcile show w = (w', Ok tt) ->
  exists w1, routes w1 = routes w /\ for_range (syncRoute show (route_links w) (routes w)) l w1 = (w', Ok tt).
Proof.
  intros HL HR. unfold route_reconcile in HR. apply M_bind_ok in HR as (w1 & l1 & H1 & HR).
  apply wrap_err_ok in H1 as (r1 & H1 & E1). rewrite (E1 _ eq_refl), HL in H1. injection H1 as <- <-.
  apply read_specs in HL as [R1 L1]. apply M_bind_ok in HR as (w2 & [] & H2 & HR).
  assert (routes w2 = routes wl /\ route_links w2 = route_links wl) as [R2 L2].
  { apply (for_range_inv (fun w0 => routes w0 = routes wl /\ route_links w0 = route_links wl) _ _ _ _ _) in H2; [done| |done].
    intros x w3 w4 r3 _ [R3 L3] Hh. unfold hold_route in Hh. destruct (res_Phase x); [|by injection Hh as <- _].
    apply wrap_err_ok in Hh as (r4 & Hh & _). apply read_finalizer in Hh as [-> ->]. done. }
  apply M_bind_ok in HR as (w3 & ls & H3 & HR). apply wrap_err_ok in H3 as (r3 & H3 & E3).
  rewrite (E3 _ eq_refl) in H3. apply read_links in H3 as [R3 HL3]. rewrite (HL3 ls eq_refl) in HR.
  apply M_bind_ok in HR as (w4 & rts & H4 & HR). apply wrap_err_ok in H4 as (r4 & H4 & E4).
  rewrite (E4 _ eq_refl) in H4. apply read_routes in H4 as [R4 HL4]. rewrite (HL4 rts eq_refl) in HR.
  exists w4. rewrite L2, L1 in HR. rewrite R3, R2, R1 in HR. split; [congruence|done].
Qed.

(** A pass over the routes. *)
Lemma route_reconcile_spec `{!RouteReads W} show w w' wl l :
  ReaderList RouteSpecSpec w = (wl, Ok l) -> route_reconcile show w = (w', Ok tt) ->
  (forall r, r ∈ l -> res_Phase r = PhaseRunning -> route_ok (TypedSpec r)) -> apart l ->
  (forall r, r ∈ l -> res_Phase r = PhaseRunning -> link_known (route_links w) (TypedSpec r) ->
     in_place (route_links w) (routes w') (TypedSpec r)) /\
  (forall x, (forall r, r ∈ l -> route_matches (TypedSpec r) x = false) -> x ∈ routes w' <-> x ∈ routes w).
Proof.
  intros HL HR Hok Hap. destruct (route_reconcile_split show w w' wl l HL HR) as (w1 & R1 & HF).
  apply (route_loop show _ _ l w1 w') in HF as [HI HO]; [|done|done|by intros; rewrite R1].
  split; [done|]. intros x Hx. by rewrite (HO x Hx), R1.
Qed.

End lemmas.

(** ** Properties *)

(** Routes converge.  After a pass over the routes that succeeds, every live
    route whose link exists (or that names none) is in place: some route of the
    kernel matches it, and each that does is up to date.  Routes that match no
    spec are untouched.  This needs specs that fit the header of a message and
    of which no two match the same route. *)
Theorem route_reconcile_converges {W} `{RouteLaws W} `{!RouteReads W} show (w w' wl : W) l :
  ReaderList RouteSpecSpec w = (wl, Ok l) -> route_reconcile show w = (w', Ok tt) ->
  (forall r, r ∈ l -> res_Phase r = PhaseRunning -> route_ok (TypedSpec r)) -> apart l ->
  (forall r, r ∈ l -> res_Phase r = PhaseRunning -> link_known (route_links w) (TypedSpec r) ->
     in_place (route_links w) (routes w') (TypedSpec r)) /\
  (forall x, (forall r, r ∈ l -> route_matches (TypedSpec r) x = false) -> x ∈ routes w' <-> x ∈ routes w).
Proof. intros HL HR. by apply (route_reconcile_spec show w w' wl l). Qed.

(** A route converges.  After a live route whose link exists is synchronized,
    some route of the kernel matches it and is up to date, none that matches it
    is out of date, and routes that do not match it are untouched. *)
Theorem route_sync_converges {W} `{RouteLaws W} show ls id spec (w w' : W) :
  route_ok spec -> resolveLinkName ls (rs_OutLinkName spec) <> 0 \/ rs_OutLinkName spec = "" ->
  syncRoute show ls (routes w) (mkResource id PhaseRunning spec) w = (w', Ok tt) ->
  let idx := resolveLinkName ls (rs_OutLinkName spec) in
  (exists x, x ∈ routes w' /\ route_matches spec x = true /\ route_up_to_date idx spec x = true) /\
  (forall x, x ∈ routes w' -> route_matches spec x = true -> route_up_to_date idx spec x = true) /\
  (forall x, route_matches spec x = false -> x ∈ routes w' <-> x ∈ routes w).
Proof.
  intros Hok Hlink HR idx. destruct (sync_live show ls (routes w) id spec w w' Hok ltac:(done) HR) as [HI HO].
  destruct (HI Hlink) as [? ?]. by split_and!.
Qed.

(** Routes do not flap.  When a route is in place and nothing that matches
    it is out of date, synchronizing it makes no call that changes the kernel
    (whatever metric, scope or egress link the kernel reports for it). *)
Theorem route_sync_stable {W} `{RouteLaws W} show ls id spec (w : W) :
  let idx := resolveLinkName ls (rs_OutLinkName spec) in
  (exists x, x ∈ routes w /\ route_matches spec x = true /\ route_up_to_date idx spec x = true) ->
  (forall x, x ∈ routes w -> route_matches spec x = true -> route_up_to_date idx spec x = true) ->
  syncRoute show ls (routes w) (mkResource id PhaseRunning spec) w = (w, Ok tt).
Proof.
  intros idx (x & Hx & Hm & Hu) Hall. unfold syncRoute. cbn [res_Phase TypedSpec res_ID]. fold idx.
  destruct ((idx =? 0) && negb (bool_decide (rs_OutLinkName spec = ""))); [done|].
  unfold mbind, M_bind. rewrite replace_routes_steady.
  2:{ intros y [Hy Hmy]%findMatchingRoutes_elem. by apply Hall. }
  simpl. rewrite (proj2 (existsb_elem _ _)); [done|]. exists x. split; [by apply findMatchingRoutes_elem|done].
Qed.

(** Tearing down a route.  On success exactly the routes that match it have
    been deleted, and only then is the resource released. *)
Theorem route_teardown {W} `{RouteLaws W} show ls id spec (w w' : W) :
  syncRoute show ls (routes w) (mkResource id PhaseTearingDown spec) w = (w', Ok tt) ->
  (forall x, x ∈ routes w' <-> x ∈ routes w /\ route_matches spec x = false) /\
  finalizers RouteSpecSpec w' id = finalizers RouteSpecSpec w id ∖ {[route_Name]}.
Proof.
  intros HR. unfold syncRoute in HR. cbn [res_Phase TypedSpec res_ID] in HR.
  apply M_bind_ok in HR as (w1 & [] & (F & D)%delete_all_spec & HR).
  apply wrap_err_ok in HR as (r0 & HF & HO). apply law_remove_route_finalizer in HF as (R & FF).
  split; [|rewrite (FF (HO tt eq_refl)); by rewrite F]. intros x. rewrite R, D, findMatchingRoutes_elem.
  destruct (route_matches spec x); split; intros [? Hn]; (split; [done|]); try done; [exfalso; tauto|by intros [_ ?]].
Qed.

(** Tables above 255.  Such a table does not fit the header field the
    controller compares with, so that its routes are never found: not when they
    are in place (they are added again, which the kernel refuses), nor when
    they are torn down. *)
Theorem high_table_never_found l spec :
  Forall (fun r => 0 <= rm_Table r < 256) l -> 256 <= rs_Table spec ->
  findMatchingRoutes l spec = [].
Proof.
  intros Hl Ht. induction Hl as [|r l Hr Hl IH]; [done|]. simpl.
  assert (route_matches spec r = false) as ->; [|done].
  unfold route_matches, routeTableMatches. rewrite (bool_decide_eq_false_2 (rm_Table r = _)) by lia.
  by rewrite andb_false_r.
Qed.

(** ** A kernel *)

Module RouteDemo.

Record world := mkWorld {
  d_routes : list RouteMessage;
  d_specs : list (resource RouteSpecSpec);
  d_fins : gmap string (gset string)
}.

#[export] Instance store : SpecStore world RouteSpecSpec := {|
  ReaderList w := (w, Ok (d_specs w));
  AddFinalizer id name w := (mkWorld (d_routes w) (d_specs w) (<[id := {[name]} ∪ default ∅ (d_fins w !! id)]> (d_fins w)), Ok tt);
  RemoveFinalizer id name w := (mkWorld (d_routes w) (d_specs w) (<[id := default ∅ (d_fins w !! id) ∖ {[name]}]> (d_fins w)), Ok tt);
  finalizers w id := default ∅ (d_fins w !! id)
|}.

Definition as_reported (m : RouteMessage) : RouteMessage :=
  mkRouteMessage (rm_Family m) (rm_DstLength m) 0 (if decide (rm_AttrTable m < 256) then rm_AttrTable m else 252)
    (rm_Protocol m) (if decide (rm_Family m = FamilyInet6) then 0 else rm_Scope m) (rm_Type m)
    (rm_Flags m) (rm_Dst m) (rm_Src m) (rm_Gateway m) (if decide (rm_OutIface m = 0) then 1 else rm_OutIface m)
    (if decide (rm_Family m = FamilyInet6 /\ rm_Priority m = 0) then DefaultRouteMetric else rm_Priority m)
    (rm_AttrTable m) (rm_MTU m).

Definition demo_link : LinkMessage := mkLinkMessage 1 2 0 "eth0" [] [] 0 "" 1500 6.

#[export] Instance netlink : RouteNetlink world := {|
  route_Link_List w := (w, Ok [demo_link]);
  Route_List w := (w, Ok (d_routes w));
  Route_Delete m w :=
    if decide (m ∈ d_routes w) then (mkWorld (filter (.≠ m) (d_routes w)) (d_specs w) (d_fins w), Ok tt)
    else (w, Err (ESentinel "no such process"));
  Route_Add m w :=
    if decide (as_reported m ∈ d_routes w) then (w, Err (ESentinel os_ErrExist))
    else (mkWorld (d_routes w ++ [as_reported m]) (d_specs w) (d_fins w), Ok tt);
  route_links _ := [demo_link];
  routes := d_routes
|}.

Lemma route_reads : RouteReads world.
Proof. split; [by intros w w' r [= <- <-]|by intros id name w w' r [= <- <-]|..]; intros w w' r [= <- <-]; by split; [|intros l [= <-]]. Qed.

Lemma as_reported_ok m : reported_as m (as_reported m).
Proof. unfold reported_as, as_reported. simpl. split_and!; try done. intros ?. by rewrite decide_False. Qed.

Lemma route_laws : RouteLaws world.
Proof.
  split.
  - intros id name w w' r [= <- <-]. split; [done|]. intros _. simpl. by rewrite lookup_insert_eq.
  - intros m w w' r. simpl. case_decide; intros [= <- <-]; (split; [done|]); [|done].
    intros x. simpl. rewrite list_elem_of_filter. tauto.
  - intros m w w' r. simpl. case_decide; intros [= <- <-]; [done|]. exists (as_reported m). split.
    + apply as_reported_ok.
    + intros y. simpl. by rewrite elem_of_app, list_elem_of_singleton.
Qed.

(** The default route of a DHCP lease, and one left behind by another daemon. *)
Definition demo_spec : RouteSpecSpec :=
  mkRouteSpecSpec FamilyInet4 zeroPrefix (Addr4 3232235786) (Addr4 3232235777) "eth0" TableMain 0 ScopeGlobal 1 0 3 0.
Definition demo_stale : RouteMessage :=
  mkRouteMessage 2 0 0 254 4 0 1 0 [] [192; 168; 1; 99] [192; 168; 1; 1] 2 0 254 None.
Definition demo_world : world := mkWorld [demo_stale] [mkResource "r" PhaseRunning demo_spec] ∅.
Definition show (m : RouteMessage) : string := "".

Lemma demo_route_ok : route_ok demo_spec.
Proof. vm_compute. repeat split; discriminate. Qed.

Definition demo_world1 : world := fst (syncRoute show [demo_link] (routes demo_world) (mkResource "r" PhaseRunning demo_spec) demo_world).

Example demo_world1_routes : routes demo_world1 = [as_reported (route_message 2 demo_spec)].
Proof. by vm_compute. Qed.

Lemma route_sync_converges_witness :
  exists x, x ∈ routes demo_world1 /\ route_matches demo_spec x = true /\ route_up_to_date 2 demo_spec x = true.
Proof.
  apply (route_sync_converges (H := route_laws) show [demo_link] "r" demo_spec demo_world demo_world1).
  - apply demo_route_ok.
  - by left.
  - by vm_compute.
Defined.

Lemma route_reconcile_converges_witness :
  in_place [demo_link] (routes demo_world1) demo_spec.
Proof.
  destruct (route_reconcile_converges (H := route_laws) (RouteReads0 := route_reads) show demo_world
    (fst (route_reconcile show demo_world)) demo_world [mkResource "r" PhaseRunning demo_spec]) as [HI _].
  - done.
  - by vm_compute.
  - intros r ->%list_elem_of_singleton _. apply demo_route_ok.
  - intros i j r r' x [Hi _]%list_lookup_singleton_Some [Hj _]%list_lookup_singleton_Some Hn. congruence.
  - apply (HI (mkResource "r" PhaseRunning demo_spec)); [left|done|by left].
Defined.

Lemma route_sync_stable_witness :
  syncRoute show [demo_link] (routes demo_world1) (mkResource "r" PhaseRunning demo_spec) demo_world1 = (demo_world1, Ok tt).
Proof.
  apply (route_sync_stable (H := route_laws) show [demo_link] "r" demo_spec demo_world1).
  - exists (as_reported (route_message 2 demo_spec)). by vm_compute; repeat split; left.
  - intros x. rewrite demo_world1_routes. intros ->%list_elem_of_singleton. by vm_compute.
Defined.

Lemma route_teardown_witness :
  snd (syncRoute show [demo_link] (routes demo_world1) (mkResource "r" PhaseTearingDown demo_spec) demo_world1) = Ok tt /\
  (forall x, x ∈ routes (fst (syncRoute show [demo_link] (routes demo_world1) (mkResource "r" PhaseTearingDown demo_spec)
                          demo_world1)) <->
     x ∈ routes demo_world1 /\ route_matches demo_spec x = false).
Proof.
  split; [by vm_compute|].
  apply (route_teardown (H := route_laws) show [demo_link] "r" demo_spec demo_world1). by vm_compute.
Defined.

Lemma high_table_never_found_witness :
  findMatchingRoutes [demo_stale; as_reported (route_message 2 demo_spec)]
    (mkRouteSpecSpec FamilyInet4 zeroPrefix AddrZero (Addr4 3232235777) "eth0" 1000 0 ScopeGlobal 1 0 3 0) = [].
Proof. apply high_table_never_found; [|done]. repeat constructor; vm_compute; done. Defined.

End RouteDemo.
