(* ===== verification/Resources.v ===== *)
(** * Writing resources: what controllers use of the controller runtime

    [safe.WriterModify] and [Destroy] of the controller runtime, as an
    interface to a typed store with laws that state their documented
    behaviour: a call that succeeds has written exactly one resource, a call
    that fails has written none. *)

From S2P Require Import Prelude.

(** [zero_spec] is the Go zero value a resource starts from when it does not
    exist; [spec_of] is the store. *)
Class SpecWriter (W Spec : Type) := {
  WriterModify : string -> (Spec -> Spec) -> M W unit;
  Destroy : string -> M W unit;
  zero_spec : Spec;
  spec_of : W -> string -> option Spec
}.
Arguments WriterModify {W} Spec {_} _ _.
Arguments Destroy {W} Spec {_} _.
Arguments zero_spec {W} Spec {_}.
Arguments spec_of {W} Spec {_} _ _.

#[export] Instance result_unit_eq_dec (r : result unit) : Decision (r = Ok tt).
Proof. destruct r as [[]| |]; [by left|by right..]. Defined.

Class SpecWriterLaws (W Spec : Type) `{!SpecWriter W Spec} := {
  modify_law id f w w' r : WriterModify Spec id f w = (w', r) -> forall id',
    spec_of Spec w' id' =
    (if decide (id' = id /\ r = Ok tt) then Some (f (default (zero_spec (W := W) Spec) (spec_of Spec w id)))
     else spec_of Spec w id');
  destroy_law id w w' r : Destroy Spec id w = (w', r) -> forall id',
    spec_of Spec w' id' = (if decide (id' = id /\ r = Ok tt) then None else spec_of Spec w id')
}.

(** Writing one kind of resource leaves another kind alone. *)
Class WriterFrame (W A B : Type) `{!SpecWriter W A, !SpecWriter W B} := {
  modify_frame id f w w' r : WriterModify A id f w = (w', r) -> forall id', spec_of B w' id' = spec_of B w id'
}.

(** ** A store in memory, used to instantiate the interface *)

Abbreviation store := (gmap string).

Definition store_modify {Spec} (zero : Spec) (id : string) (f : Spec -> Spec) (s : store Spec) : store Spec :=
  <[id := f (default zero (s !! id))]> s.

Lemma store_modify_lookup {Spec} (zero : Spec) id f (s : store Spec) id' :
  store_modify zero id f s !! id' = if decide (id' = id) then Some (f (default zero (s !! id))) else s !! id'.
Proof. unfold store_modify. case_decide as E; [subst; by rewrite lookup_insert_eq|by rewrite lookup_insert_ne]. Qed.
