(* ===== verification/LinkStatus.v ===== *)
(** * The link status controller

    Models [controllers/network/link_status.go] and the resource of
    [pkg/machinery/resources/network/link_status.go].  The netlink and ethtool
    sockets and the sysfs reader are an interface ([LinkNetlink]), of which the
    proofs only use that it is not the resource store. *)

From S2P Require Import Prelude NetAddr AddressSpec Resources.

(** ** The resource *)

(** [SpeedMegabits] is an int, [Index], [LinkIndex], [Flags], [MTU] and
    [MasterIndex] are uint32, [ls_Type] is uint16. *)
Record LinkStatusSpec := mkLinkStatusSpec {
  Alias : string; AltNames : list string;
  Index : Z; ls_Type : Z; LinkIndex : Z; ls_Flags : Z;
  HardwareAddr : list Z; PermanentAddr : list Z; BroadcastAddr : list Z;
  MTU : Z; QueueDisc : string; MasterIndex : Z; OperationalState : Z;
  Kind : string; SlaveKind : string; BusPath : string; PCIID : string; Driver : string;
  DriverVersion : string; FirmwareVersion : string; ProductID : string; VendorID : string;
  Product : string; Vendor : string;
  LinkState : bool; SpeedMegabits : Z; Port : Z; Duplex : Z
}.

Definition LinkEther : Z := 1.
Definition LinkLoopbck : Z := 772.

Definition Physical (s : LinkStatusSpec) : bool :=
  bool_decide (ls_Type s = LinkEther) && bool_decide (Kind s = "").

(** ** Interfaces *)

Record DeviceInfo := mkDeviceInfo { dev_BusPath : string; dev_PCIID : string; dev_Driver : string }.

(** [set_Change] is the mask of the flags to set. *)
Record LinkSetMessage := mkLinkSetMessage {
  set_Family : Z; set_Type : Z; set_Index : Z; set_Flags : Z; set_Change : Z
}.

(** [ethtool_LinkMode] gives the speed and the duplex mode. *)
Class LinkNetlink (W : Type) := {
  conn_Link_List : M W (list LinkMessage);
  conn_Link_Set : LinkSetMessage -> M W unit;
  ethtool_LinkState : Z -> M W bool;
  ethtool_LinkInfo : Z -> M W Z;
  ethtool_LinkMode : Z -> M W (Z * Z);
  GetDeviceInfo : string -> M W (option DeviceInfo);
  LinkStatus_List : M W (list string)
}.

Definition AF_UNSPEC : Z := 0.
Definition IFF_UP : Z := 1.
Definition ethtool_Other : Z := 255.
Definition ethtool_Unknown : Z := 255.

(** ** The controller *)

Section controller.
Context {W : Type} `{!LinkNetlink W} `{!SpecWriter W LinkStatusSpec}.

(** A query whose error ends the queries after it; it is only logged. *)
Definition query {A} (go : bool) (m : M W A) : M W (option A * bool) :=
  if go then r ← attempt m; match r with inl a => mret (Some a, true) | inr _ => mret (None, false) end
  else mret (None, false).

(** The callback of [WriterModify]: every field the controller sets. *)
Definition set_status (link : LinkMessage) (ethState : option bool) (ethInfo : option Z) (ethMode : option (Z * Z))
    (deviceInfo : option DeviceInfo) (s : LinkStatusSpec) : LinkStatusSpec :=
  mkLinkStatusSpec (Alias s) (AltNames s) (lm_Index link) (lm_Type link) (lm_LinkIndex link) (lm_Flags link)
    (lm_Address link) (PermanentAddr s) (lm_Broadcast link) (lm_MTU link) (lm_QueueDisc link) (MasterIndex s)
    (lm_OperationalState link) (Kind s) (SlaveKind s)
    (match deviceInfo with Some d => dev_BusPath d | None => BusPath s end)
    (match deviceInfo with Some d => dev_PCIID d | None => PCIID s end)
    (match deviceInfo with Some d => dev_Driver d | None => Driver s end)
    (DriverVersion s) (FirmwareVersion s) (ProductID s) (VendorID s) (Product s) (Vendor s)
    (default false ethState)
    (match ethMode with Some (speed, _) => speed | None => 0 end)
    (default ethtool_Other ethInfo)
    (match ethMode with Some (_, duplex) => duplex | None => ethtool_Unknown end).

(** [ethClient] says whether the ethtool socket could be opened.  The device
    information is read inside the callback, which runs once and before the
    store is changed. *)
Definition syncLink (ethClient : bool) (link : LinkMessage) : M W unit :=
  _ ← (if decide (lm_Type link = LinkEther \/ lm_Type link = LinkLoopbck)
       then conn_Link_Set (mkLinkSetMessage AF_UNSPEC (lm_Type link) (lm_Index link) IFF_UP IFF_UP)
       else mret tt);
  '(ethState, ok) ← query ethClient (ethtool_LinkState (goint (lm_Index link)));
  '(ethInfo, ok) ← query ok (ethtool_LinkInfo (goint (lm_Index link)));
  '(ethMode, _) ← query ok (ethtool_LinkMode (goint (lm_Index link)));
  '(info, _) ← query true (GetDeviceInfo (lm_Name link));
  WriterModify LinkStatusSpec (lm_Name link) (set_status link ethState ethInfo ethMode (mjoin info)).

(** The loop over the links: what is left of [itemsToDelete]. *)
Fixpoint sync_links (ethClient : bool) (links : list LinkMessage) (itemsToDelete : gset string) : M W (gset string) :=
  match links with
  | [] => mret itemsToDelete
  | link :: links =>
    r ← attempt (syncLink ethClient link);
    sync_links ethClient links (match r with inl _ => itemsToDelete ∖ {[lm_Name link]} | inr _ => itemsToDelete end)
  end.

(** [%q] of a name of printable ASCII characters. *)
Definition quote : string := String (Ascii.ascii_of_nat 34) EmptyString.

Definition quoted (s : string) : string := quote +:+ s +:+ quote.

Definition delete_statuses : list string -> M W unit :=
  for_range (fun id => wrap_err ("error deleting link status " +:+ quoted id +:+ ": ") (Destroy LinkStatusSpec id)).

(** The map [itemsToDelete] is ranged over in some order. *)
Definition link_reconcile (ethClient : bool) : M W unit :=
  list ← wrap_err "error listing resources: " LinkStatus_List;
  links ← conn_Link_List;
  itemsToDelete ← sync_links ethClient links (list_to_set list);
  delete_statuses (elements itemsToDelete).

End controller.

(** ** Laws *)

Class LinkNetlinkLaws (W : Type) `{!LinkNetlink W, !SpecWriter W LinkStatusSpec} := {
  link_list_law w w' r : conn_Link_List w = (w', r) -> spec_of LinkStatusSpec w' = spec_of LinkStatusSpec w;
  link_set_law m w w' r : conn_Link_Set m w = (w', r) -> spec_of LinkStatusSpec w' = spec_of LinkStatusSpec w;
  eth_state_law i w w' r : ethtool_LinkState i w = (w', r) -> spec_of LinkStatusSpec w' = spec_of LinkStatusSpec w;
  eth_info_law i w w' r : ethtool_LinkInfo i w = (w', r) -> spec_of LinkStatusSpec w' = spec_of LinkStatusSpec w;
  eth_mode_law i w w' r : ethtool_LinkMode i w = (w', r) -> spec_of LinkStatusSpec w' = spec_of LinkStatusSpec w;
  device_law n w w' r : GetDeviceInfo n w = (w', r) -> spec_of LinkStatusSpec w' = spec_of LinkStatusSpec w;
  status_list_law w w' r : LinkStatus_List w = (w', r) ->
    spec_of LinkStatusSpec w' = spec_of LinkStatusSpec w /\
    match r with Ok l => forall id, id ∈ l <-> is_Some (spec_of LinkStatusSpec w id) | _ => True end;
  zero_kind : Kind (zero_spec (W := W) LinkStatusSpec) = ""
}.

(** ** Lemmas *)

Section proofs.
Context {W : Type} `{!LinkNetlink W} `{!SpecWriter W LinkStatusSpec}
  `{!LinkNetlinkLaws W} `{!SpecWriterLaws W LinkStatusSpec}.

Abbreviation st := (spec_of (W := W) LinkStatusSpec).

(** The names of the links whose turn in the loop succeeds. *)
Fixpoint synced (eth : bool) (links : list LinkMessage) (w : W) : list string :=
  match links with
  | [] => []
  | link :: links =>
    match syncLink eth link w with
    | (w', Ok _) => lm_Name link :: synced eth links w'
    | (w', _) => synced eth links w'
    end
  end.

(** The status mirrors the link. *)
Definition mirrors (link : LinkMessage) (s : LinkStatusSpec) : Prop :=
  Index s = lm_Index link /\ ls_Type s = lm_Type link /\ ls_Flags s = lm_Flags link /\
  HardwareAddr s = lm_Address link /\ MTU s = lm_MTU link /\ OperationalState s = lm_OperationalState link.

Lemma query_frame {A} go (m : M W A) w w' r :
  (forall w w' r, m w = (w', r) -> st w' = st w) -> query go m w = (w', r) -> st w' = st w.
Proof.
  intros Hm. unfold query. destruct go; [|by intros [= <- _]].
  unfold mbind, M_bind, attempt. destruct (m w) as [w1 [a|e|p]] eqn:E; intros [= <- _]; eauto.
Qed.

(** A bind whose first part does not touch the store. *)
Lemma bind_frame {A B} (m : M W A) (f : A -> M W B) w w' r :
  (forall w' r, m w = (w', r) -> st w' = st w) -> (m ≫= f) w = (w', r) ->
  st w' = st w /\ (forall b, r <> Ok b) \/ exists w1 a, m w = (w1, Ok a) /\ st w1 = st w /\ f a w1 = (w', r).
Proof.
  intros Hm. unfold mbind, M_bind. destruct (m w) as [w1 [a|e|p]] eqn:E; intros H.
  - right. exists w1, a. split_and!; [done|by eapply Hm|done].
  - injection H as <- <-. left. split; [eauto|done].
  - injection H as <- <-. left. split; [eauto|done].
Qed.

(** [syncLink] writes the link's status or nothing. *)
Lemma syncLink_spec eth link w w' r :
  syncLink eth link w = (w', r) ->
  (r = Ok tt /\ exists es ei em di, forall id, st w' id =
     if decide (id = lm_Name link)
     then Some (set_status link es ei em di (default (zero_spec (W := W) LinkStatusSpec) (st w (lm_Name link))))
     else st w id) \/
  (r <> Ok tt /\ forall id, st w' id = st w id).
Proof.
  assert (forall w w' : W, st w' = st w -> forall id, st w' id = st w id) as HE by (by intros ?? ->).
  unfold syncLink. intros H.
  apply bind_frame in H as [[? Hr]|(w1 & [] & _ & E1 & H)];
    [right; eauto| |intros ??; case_decide; [apply link_set_law|by intros [= <- _]]].
  apply bind_frame in H as [[? Hr]|(w2 & [es ok] & _ & E2 & H)];
    [right; rewrite <-E1; eauto| |intros ??; apply query_frame, eth_state_law].
  apply bind_frame in H as [[? Hr]|(w3 & [ei ok'] & _ & E3 & H)];
    [right; rewrite <-E1, <-E2; eauto| |intros ??; apply query_frame, eth_info_law].
  apply bind_frame in H as [[? Hr]|(w4 & [em ok1] & _ & E4 & H)];
    [right; rewrite <-E1, <-E2, <-E3; eauto| |intros ??; apply query_frame, eth_mode_law].
  apply bind_frame in H as [[? Hr]|(w5 & [di ok2] & _ & E5 & H)];
    [right; rewrite <-E1, <-E2, <-E3, <-E4; eauto| |intros ??; apply query_frame, device_law].
  assert (st w5 = st w) as Est by congruence.
  pose proof (modify_law _ _ _ _ _ H) as HL. rewrite Est in HL.
  destruct (decide (r = Ok tt)) as [->|Hr]; [left|right]; (split; [done|]).
  - exists es, ei, em, (mjoin di). intros id. rewrite HL. repeat case_decide; tauto || done.
  - intros id. rewrite HL, decide_False by tauto. done.
Qed.

(** The loop: the names synced are taken off the list, and their statuses
    mirror a link; a panic ends it early. *)
Lemma sync_links_spec eth links D w w' r :
  sync_links eth links D w = (w', r) ->
  exists done : list string,
    (forall D', r = Ok D' -> D' = D ∖ list_to_set done /\ done = synced eth links w) /\
    (forall id, id ∉ done -> st w' id = st w id) /\
    (forall id, id ∈ done -> exists link s, link ∈ links /\ lm_Name link = id /\ st w' id = Some s /\ mirrors link s /\
       Kind s = Kind (default (zero_spec (W := W) LinkStatusSpec) (st w id))).
Proof.
  revert D w. induction links as [|link links IH]; intros D w H.
  { injection H as <- <-. exists []. split_and!; [|done|by intros ? ?%elem_of_nil]. intros ? [= <-]. set_solver. }
  cbn [sync_links synced] in *. unfold mbind, M_bind, attempt in H.
  destruct (syncLink eth link w) as [w1 r1] eqn:E. apply syncLink_spec in E.
  destruct E as [[-> (es & ei & em & di & Hst)]|[Hr Hst]].
  - destruct (IH _ _ H) as (ok & HD & Hno & Hyes). exists (lm_Name link :: ok). split_and!.
    + intros D' HD'. destruct (HD _ HD') as [-> ->]. split; [simpl; set_solver|done].
    + intros id Hid. rewrite Hno, Hst, decide_False by set_solver. done.
    + intros id Hid. destruct (decide (id ∈ ok)) as [Hs|Hs].
      * destruct (Hyes _ Hs) as (l & s & ? & ? & ? & ? & HK). exists l, s. split_and!; [by right|done..|].
        rewrite HK, Hst. case_decide as E0; [by rewrite E0|done].
      * apply elem_of_cons in Hid as [->|]; [|done]. rewrite Hno, Hst, decide_True by done.
        eexists link, _. split_and!; [by left|done..].
  - destruct r1 as [[]|e|p]; [by destruct Hr| |].
    + destruct (IH _ _ H) as (ok & HD & Hno & Hyes). exists ok. split_and!; [done| |].
      * intros id Hid. by rewrite Hno, Hst.
      * intros id Hid. destruct (Hyes _ Hid) as (l & s & ? & ? & ? & ? & HK). exists l, s. rewrite <-Hst.
        split_and!; [by right|done..].
    + injection H as <- <-. exists []. split_and!; [done|done|by intros ? ?%elem_of_nil].
Qed.

(** The deletions. *)
Lemma delete_statuses_spec ids w w' r :
  delete_statuses ids w = (w', r) ->
  (forall id, id ∉ ids -> st w' id = st w id) /\ (forall id, st w' id = None \/ st w' id = st w id) /\
  (r = Ok tt -> forall id, id ∈ ids -> st w' id = None).
Proof.
  unfold delete_statuses. revert w. induction ids as [|i ids IH]; intros w; simpl.
  - intros [= <- <-]. split_and!; [done|by right|by intros _ ? ?%elem_of_nil].
  - unfold mbind, M_bind, wrap_err. destruct (Destroy LinkStatusSpec i w) as [w1 r1] eqn:E.
    pose proof (destroy_law _ _ _ _ E) as HL. destruct r1 as [[]|e|p].
    + intros (H1 & H2 & H3)%IH. split_and!.
      * intros id Hid. rewrite H1, HL, decide_False; [done|set_solver..].
      * intros id. destruct (H2 id) as [|Hs]; [by left|]. rewrite Hs, HL. case_decide; auto.
      * intros Hr id [->|Hid]%elem_of_cons; [|by apply H3]. destruct (H2 i) as [|Hs]; [done|].
        rewrite Hs, HL, decide_True; done.
    + intros [= <- <-]. assert (forall id, st w1 id = st w id) as Hs by (intros; rewrite HL, decide_False; naive_solver).
      split_and!; [by intros|by right|done].
    + intros [= <- <-]. assert (forall id, st w1 id = st w id) as Hs by (intros; rewrite HL, decide_False; naive_solver).
      split_and!; [by intros|by right|done].
Qed.

(** A pass: the statuses that stay are those of links that were synced, or
    were there before. *)
Lemma link_reconcile_kinds eth w w' r id s :
  link_reconcile eth w = (w', r) -> st w' id = Some s ->
  Kind s = Kind (default (zero_spec (W := W) LinkStatusSpec) (st w id)).
Proof.
  intros H Hst. unfold link_reconcile, wrap_err in H. unfold mbind, M_bind in H.
  destruct (LinkStatus_List w) as [w1 r1] eqn:E1. destruct (status_list_law _ _ _ E1) as [F1 _].
  destruct r1 as [l|e|p]; [|by injection H as <- <-; rewrite F1 in Hst; rewrite Hst..].
  destruct (conn_Link_List w1) as [w2 r2] eqn:E2. apply link_list_law in E2 as F2.
  destruct r2 as [links|e|p]; [|by injection H as <- <-; rewrite F2, F1 in Hst; rewrite Hst..].
  destruct (sync_links eth links (list_to_set l) w2) as [w3 r3] eqn:E3.
  assert (forall s, st w3 id = Some s -> Kind s = Kind (default (zero_spec (W := W) LinkStatusSpec) (st w id))) as HK.
  { clear H Hst s. intros s Hst. destruct (sync_links_spec _ _ _ _ _ _ E3) as (ok & _ & Hno & Hyes).
    destruct (decide (id ∈ ok)) as [Hid|Hid].
    - destruct (Hyes _ Hid) as (? & s' & _ & _ & Hs' & _ & HKs). rewrite Hst in Hs'. injection Hs' as <-.
      by rewrite HKs, F2, F1.
    - rewrite Hno, F2, F1 in Hst by done. by rewrite Hst. }
  destruct r3 as [D|e|p]; [|by injection H as <- <-; apply HK..].
  apply delete_statuses_spec in H as (_ & Hd & _). destruct (Hd id) as [Hn|Hs]; [by rewrite Hn in Hst|].
  rewrite Hs in Hst. by apply HK.
Qed.

(** ** Properties *)

(** A pass over the links that succeeds leaves exactly the statuses of the
    links it could sync: each of them mirrors its link (index, type, flags,
    hardware address, MTU and operational state), and every other status is
    gone, also that of a link that exists but failed to sync. *)
Theorem link_reconcile_exact eth w w' :
  link_reconcile eth w = (w', Ok tt) ->
  exists ids w1 links w2, LinkStatus_List w = (w1, Ok ids) /\ conn_Link_List w1 = (w2, Ok links) /\
    (forall id, is_Some (st w' id) <-> id ∈ synced eth links w2) /\
    (forall id s, st w' id = Some s -> exists link, link ∈ links /\ lm_Name link = id /\ mirrors link s).
Proof.
  unfold link_reconcile, wrap_err. intros H. unfold mbind, M_bind in H.
  destruct (LinkStatus_List w) as [w1 [l|e|p]] eqn:E1; try done.
  destruct (status_list_law _ _ _ E1) as [F1 HL].
  destruct (conn_Link_List w1) as [w2 [links|e|p]] eqn:E2; try done. apply link_list_law in E2 as F2.
  destruct (sync_links eth links (list_to_set l) w2) as [w3 [D|e|p]] eqn:E3; try done.
  destruct (sync_links_spec _ _ _ _ _ _ E3) as (ok & HD & Hno & Hyes).
  destruct (HD D eq_refl) as [-> ->]. apply delete_statuses_spec in H as (Hkeep & _ & Hdel). specialize (Hdel eq_refl).
  set (ok := synced eth links w2) in *.
  assert (forall id, id ∈ ok -> st w' id = st w3 id) as Hs.
  { intros id Hid. apply Hkeep. rewrite elem_of_elements. set_solver. }
  assert (forall id, id ∉ ok -> st w' id = None) as Hn.
  { intros id Hid. destruct (decide (id ∈ l)) as [Hl|Hl].
    - apply Hdel. rewrite elem_of_elements. set_solver.
    - rewrite Hkeep, Hno, F2, F1 by (done || rewrite elem_of_elements; set_solver).
      apply eq_None_not_Some. by rewrite <-HL. }
  exists l, w1, links, w2. split_and!; [done..| |].
  - intros id. split.
    + intros [s Hst]. destruct (decide (id ∈ ok)); [done|]. by rewrite Hn in Hst.
    + intros Hid. rewrite Hs by done. destruct (Hyes _ Hid) as (? & s & _ & _ & -> & _). eauto.
  - intros id s Hst. destruct (decide (id ∈ ok)) as [Hid|Hid]; [|by rewrite Hn in Hst].
    rewrite Hs in Hst by done. destruct (Hyes _ Hid) as (link & s' & ? & ? & Hst' & ? & _). naive_solver.
Qed.

(** The controller never learns the kind of a link: whatever the outcome of a
    pass, no status has a kind, so every ethernet link counts as physical,
    bridges and virtual links included. *)
Theorem ether_links_are_physical eth w w' r :
  (forall id s, st w id = Some s -> Kind s = "") ->
  link_reconcile eth w = (w', r) ->
  forall id s, st w' id = Some s -> Kind s = "" /\ Physical s = bool_decide (ls_Type s = LinkEther).
Proof.
  intros HK H id s Hst. assert (Kind s = "") as HE.
  { rewrite (link_reconcile_kinds _ _ _ _ _ _ H Hst). destruct (st w id) eqn:E; simpl; [eauto|apply zero_kind]. }
  split; [done|]. unfold Physical. by rewrite (bool_decide_eq_true_2 (Kind s = "")), andb_true_r.
Qed.

End proofs.

(** ** A small kernel, where the third link cannot be brought up *)

Module LinkDemo.

Definition zeroLinkStatus : LinkStatusSpec :=
  mkLinkStatusSpec "" [] 0 0 0 0 [] [] [] 0 "" 0 0 "" "" "" "" "" "" "" "" "" "" "" false 0 0 0.

Definition world : Type := list LinkMessage * store LinkStatusSpec.

#[export] Instance demo_writer : SpecWriter world LinkStatusSpec := {|
  WriterModify id f := fun w => ((w.1, store_modify zeroLinkStatus id f w.2), Ok tt);
  Destroy id := fun w => ((w.1, delete id w.2), Ok tt);
  zero_spec := zeroLinkStatus;
  spec_of w id := w.2 !! id
|}.

#[export] Instance demo_link_netlink : LinkNetlink world := {|
  conn_Link_List := fun w => (w, Ok w.1);
  conn_Link_Set m := fun w => (w, if decide (set_Index m = 3) then Err (EMsg "operation not permitted") else Ok tt);
  ethtool_LinkState i := fun w => (w, if decide (i = 1) then Err (EMsg "operation not supported") else Ok true);
  ethtool_LinkInfo i := fun w => (w, Ok 0);
  ethtool_LinkMode i := fun w => (w, Ok (1000, 1));
  GetDeviceInfo n := fun w => (w, Ok (Some (mkDeviceInfo "" "" "dwmac-sun8i")));
  LinkStatus_List := fun w => (w, Ok (elements (dom w.2)))
|}.

#[export] Instance demo_writer_laws : SpecWriterLaws world LinkStatusSpec.
Proof.
  split; simpl; intros.
  - injection H as <- <-. simpl. rewrite store_modify_lookup. repeat case_decide; tauto || done.
  - injection H as <- <-. simpl. case_decide as E.
    + destruct E as [-> _]. by rewrite lookup_delete_eq.
    + rewrite lookup_delete_ne by naive_solver. done.
Qed.

#[export] Instance demo_link_laws : LinkNetlinkLaws world.
Proof.
  split; simpl; try (by intros; simplify_eq).
  intros w w' r [= <- <-]. split; [done|]. intros id. by rewrite elem_of_elements, elem_of_dom.
Qed.

Definition link (type idx : Z) (name : string) : LinkMessage :=
  mkLinkMessage type idx 0 name [2; 0; 0; 0; 0; idx] [] 0 "" 1500 6.

Definition start : world :=
  ([link 772 1 "lo"; link 1 2 "eth0"; link 1 3 "eth1"],
   <["eth1" := zeroLinkStatus]> (<["wlan0" := zeroLinkStatus]> ∅)).

Definition after : world := fst (link_reconcile true start).

Lemma link_reconcile_exact_witness :
  (exists ids w1 links w2, LinkStatus_List start = (w1, Ok ids) /\ conn_Link_List w1 = (w2, Ok links) /\
    (forall id, is_Some (spec_of LinkStatusSpec after id) <-> id ∈ synced true links w2) /\
    (forall id s, spec_of LinkStatusSpec after id = Some s ->
       exists link, link ∈ links /\ lm_Name link = id /\ mirrors link s)) /\
  synced true (fst start) start = ["lo"; "eth0"].
Proof. split; [|vm_compute; done]. apply (link_reconcile_exact true start after). vm_compute. done. Defined.

Lemma ether_links_are_physical_witness :
  is_Some (spec_of LinkStatusSpec after "eth0") /\
  (forall id s, spec_of LinkStatusSpec after id = Some s -> Kind s = "" /\ Physical s = bool_decide (ls_Type s = LinkEther)).
Proof.
  split; [by vm_compute; eauto|]. apply (ether_links_are_physical true start after (Ok tt)); [|vm_compute; done].
  intros id s H. simpl in H. apply lookup_insert_Some in H as [[_ <-]|[_ H]]; [done|].
  apply lookup_insert_Some in H as [[_ <-]|[_ H]]; [done|]. by rewrite lookup_empty in H.
Defined.

End LinkDemo.
