(* ===== verification/DHCP4.v ===== *)
(** * The DHCP client controller

    Models [controllers/network/dhcp4.go] and, of the DHCP library it uses, the
    decoding of the options a lease is made of.  The client's exchanges with
    the server, the clock and the cancellation of the context are an interface
    ([DHCPClient]). *)

From S2P Require Import Prelude NetAddr AddressSpec Resources LinkStatus.

(** ** Packets *)

(** A packet: the address it assigns, and its options as bytes. *)
Record DHCPv4 := mkDHCPv4 { YourIPAddr : list Z; Options : gmap Z (list Z) }.

Definition OptionSubnetMask : Z := 1.
Definition OptionRouter : Z := 3.
Definition OptionDomainNameServer : Z := 6.
Definition OptionDomainName : Z := 15.
Definition OptionIPAddressLeaseTime : Z := 51.
Definition OptionRenewTimeValue : Z := 58.
Definition OptionRebindingTimeValue : Z := 59.
Definition OptionDNSDomainSearchList : Z := 119.

(** [GetIPs]: a non-empty option of whole addresses. *)
Fixpoint read_ips (fuel : nat) (buf : list Z) : list (list Z) * list Z :=
  match fuel with
  | O => ([], buf)
  | S fuel =>
    if decide (4 <= length buf)%nat then
      let '(ips, rest) := read_ips fuel (drop 4 buf) in (take 4 buf :: ips, rest)
    else ([], buf)
  end.

Definition GetIPs (code : Z) (o : gmap Z (list Z)) : list (list Z) :=
  match o !! code with
  | None | Some [] => []
  | Some v => let '(ips, rest) := read_ips (length v) v in if decide (rest = []) then ips else []
  end.

Definition Router (d : DHCPv4) : list (list Z) := GetIPs OptionRouter (Options d).
Definition DNS (d : DHCPv4) : list (list Z) := GetIPs OptionDomainNameServer (Options d).

(** A mask of exactly four bytes; [[]] is the nil mask. *)
Definition SubnetMask (d : DHCPv4) : list Z :=
  match Options d !! OptionSubnetMask with
  | Some v => if decide (length v = 4%nat) then v else []
  | None => []
  end.

Definition be_value (l : list Z) : Z := foldl (fun acc b => 256 * acc + b) 0 l.

Definition Second : Z := 1000000000.

Definition get_duration (code : Z) (d : DHCPv4) (def : Z) : Z :=
  match Options d !! code with
  | Some v => if decide (length v = 4%nat) then int64 (be_value v * Second) else def
  | None => def
  end.

Definition IPAddressLeaseTime := get_duration OptionIPAddressLeaseTime.
Definition IPAddressRenewalTime := get_duration OptionRenewTimeValue.
Definition IPAddressRebindingTime := get_duration OptionRebindingTimeValue.

Definition string_of_bytes (l : list Z) : string :=
  String.string_of_list_ascii ((fun b => Ascii.ascii_of_N (Z.to_N b)) <$> l).

Definition DomainName (d : DHCPv4) : string :=
  match Options d !! OptionDomainName with Some v => string_of_bytes v | None => "" end.

(** *** RFC 1035 labels *)

(** The decoder's loop, with its position, the position to go back to and
    whether a compression pointer is being followed.  [None] is an error of the
    decoder; running out of fuel is [Some None]. *)
Fixpoint labels_loop (fuel : nat) (buf : list Z) (labels : list string) (label : string)
    (pos oldPos : nat) (handlingPointer : bool) : option (option (list string)) :=
  match fuel with
  | O => Some None
  | S fuel =>
    match buf !! pos with
    | None => Some (Some (if decide (label = "") then labels else labels ++ [label]))
    | Some l =>
      let pos := S pos in
      if decide (l = 0) then
        labels_loop fuel buf (labels ++ [label]) "" (if handlingPointer then oldPos else pos) oldPos false
      else if decide (Z.land l 192 = 192) then
        if handlingPointer then None
        else match buf !! pos with
             | None => None
             | Some low => labels_loop fuel buf labels label (Z.to_nat (Z.shiftl (Z.land l 63) 8 + low)) (S pos) true
             end
      else if decide (length buf < pos + Z.to_nat l)%nat then None
      else labels_loop fuel buf labels
             ((if decide (label = "") then label else label +:+ ".") +:+ string_of_bytes (take (Z.to_nat l) (drop pos buf)))
             (pos + Z.to_nat l) oldPos handlingPointer
    end
  end.

Definition labels_fuel (buf : list Z) : nat := (length buf + 1) * (length buf + 2).

(** [None] is an error. *)
Definition labelsFromBytes (buf : list Z) : option (list string) :=
  mjoin (labels_loop (labels_fuel buf) buf [] "" 0 0 false).

Definition DomainSearch (d : DHCPv4) : option (list string) :=
  match Options d !! OptionDNSDomainSearchList with Some v => labelsFromBytes v | None => None end.

(** ** Conversions *)

(** [netip.AddrFromSlice]. *)
Definition AddrFromSlice (l : list Z) : option Addr :=
  if decide (length l = 4%nat) then Some (Addr4 (be_value l))
  else if decide (length l = 16%nat) then Some (Addr6 (be_value l) "")
  else None.

(** [netipx.FromStdIP], whose second result the code drops. *)
Definition FromStdIP (l : list Z) : option Addr := Unmap <$> AddrFromSlice l.

Definition convertIP (ip : list Z) : Addr := default AddrZero (FromStdIP ip).

(** The leading ones of a byte, shifted out one by one; what is left is 0 when
    no other bit is set. *)
Fixpoint leading_ones (fuel : nat) (v : Z) : Z * Z :=
  match fuel with
  | O => (0, v)
  | S fuel => if Z.testbit v 7 then let '(n, rest) := leading_ones fuel (uint8 (Z.shiftl v 1)) in (1 + n, rest) else (0, v)
  end.

(** [simpleMaskLength]: [-1] when the mask is not a run of ones. *)
Fixpoint simpleMaskLength_loop (n : Z) (mask : list Z) : Z :=
  match mask with
  | [] => n
  | v :: mask =>
    if decide (v = 255) then simpleMaskLength_loop (n + 8) mask
    else let '(k, rest) := leading_ones 8 v in
         if decide (rest <> 0) then -1
         else if forallb (fun b => bool_decide (b = 0)) mask then n + k else -1
  end.

(** [mask.Size()]. *)
Definition Mask_Size (mask : list Z) : Z * Z :=
  let ones := simpleMaskLength_loop 0 mask in
  if decide (ones = -1) then (0, 0) else (ones, 8 * Z.of_nat (length mask)).

(** [netipx.FromStdIPNet]. *)
Definition FromStdIPNet (ip mask : list Z) : option Prefix :=
  match FromStdIP ip with
  | None => None
  | Some a =>
    if decide (length mask <> 4%nat /\ length mask <> 16%nat) then None
    else let '(ones, bits) := Mask_Size mask in
         if decide (ones = 0 /\ bits = 0) then None else Some (PrefixFrom a ones)
  end.

(** [p.Contains(ip)]. *)
Definition Contains (p : Prefix) (ip : Addr) : bool :=
  match p_addr p, ip with
  | Addr4 v, Addr4 x => IsValid p && (uint32 (Z.shiftr (Z.lxor x v) (32 - Bits p)) =? 0)
  | Addr6 v _, Addr6 x zone =>
    IsValid p && bool_decide (zone = "") && (Z.shiftr (Z.lxor x v) (128 - Bits p) =? 0)
  | _, _ => false
  end.

(** ** Search domains *)

(** The first byte that is white space or a control character, with its
    position: what the error names. *)
Fixpoint validate_from (i : Z) (name : string) : option (Ascii.ascii * Z) :=
  match name with
  | EmptyString => None
  | String c name =>
    let v := Z.of_N (Ascii.N_of_ascii c) in
    if decide (v <= 32 \/ v = 127) then Some (c, i) else validate_from (i + 1) name
  end.

Definition validateDNSNameChars (name : string) : option (Ascii.ascii * Z) := validate_from 0 name.

(** [strings.TrimRight(s, NUL)]. *)
Fixpoint TrimRight_NUL (s : string) : string :=
  match s with
  | EmptyString => EmptyString
  | String c s =>
    let s := TrimRight_NUL s in
    if decide (s = EmptyString /\ c = Ascii.zero) then EmptyString else String c s
  end.

Definition dhcpSearchDomains (ack : DHCPv4) : list string :=
  let searchDomains :=
    match DomainSearch ack with
    | Some labels => filter (fun domain => validateDNSNameChars domain = None) labels
    | None => []
    end in
  let domainName := TrimRight_NUL (DomainName ack) in
  if decide (domainName <> "" /\ validateDNSNameChars domainName = None /\ domainName ∉ searchDomains)
  then searchDomains ++ [domainName] else searchDomains.

(** ** Interfaces *)

Record Lease := mkLease { Offer : DHCPv4; ACK : DHCPv4 }.

(** The client, the clock and the context of one link.  [nclient4_New] and
    [Request] return a value exactly when they return no error; [Renew] and
    [RequestFromOffer] return their two values as they are.  [wait_until t]
    is the [select] between the context and the timer that fires at [t]: [true]
    when the context was done. *)
Class DHCPClient (W : Type) := {
  nclient4_New : string -> M W unit;
  client_Request : M W Lease;
  client_Renew : Lease -> W -> W * (option Lease * option error);
  client_RequestFromOffer : DHCPv4 -> W -> W * (option Lease * option error);
  client_Close : W -> W;
  time_Now : W -> Z;
  wait_until : Z -> M W bool
}.

Definition TypeUnicast : Z := 1.
Definition ProtocolBoot : Z := 3.
Definition AddressPermanent : Z := 2 ^ 7.
Definition ResolverID : string := "resolvers".

(** ** The controller *)

Section controller.
Context {W : Type} `{!SpecWriter W AddressSpecSpec} `{!SpecWriter W RouteSpecSpec} `{!SpecWriter W ResolverSpecSpec}
  `{!DHCPClient W}.

Record leaseTimers := mkLeaseTimers { t1 : Z; t2 : Z; expiry : Z }.

Definition computeTimers (now : Z) (ack : DHCPv4) : leaseTimers :=
  let leaseTime := IPAddressLeaseTime ack 0 in
  let t1Dur := IPAddressRenewalTime ack 0 in
  let t2Dur := IPAddressRebindingTime ack 0 in
  mkLeaseTimers (now + t1Dur) (now + t2Dur) (now + leaseTime).

(** *** Applying a lease *)

Definition address_id (linkName : string) : string := "dhcp4/" +:+ linkName.

Definition lease_prefix (ack : DHCPv4) : Prefix := default zeroPrefix (FromStdIPNet (YourIPAddr ack) (SubnetMask ack)).

Definition lease_address (linkName : string) (ack : DHCPv4) : AddressSpecSpec :=
  mkAddressSpecSpec (lease_prefix ack) linkName FamilyInet4 ScopeGlobal AddressPermanent.

(** The default route by a router, and the route to the router itself when it is
    not in the network of the lease. *)
Definition router_routes (linkName : string) (addr : Prefix) (router : list Z) : list RouteSpecSpec :=
  let gw := convertIP router in
  mkRouteSpecSpec FamilyInet4 zeroPrefix (p_addr addr) gw linkName TableMain 0 ScopeGlobal TypeUnicast 0 ProtocolBoot 0 ::
  (if Contains addr gw then []
   else [mkRouteSpecSpec FamilyInet4 (PrefixFrom gw (BitLen gw)) (p_addr addr) AddrZero linkName TableMain 0 ScopeLink
           TypeUnicast 0 ProtocolBoot 0]).

Definition lease_routes (linkName : string) (ack : DHCPv4) : list RouteSpecSpec :=
  Router ack ≫= router_routes linkName (lease_prefix ack).

Definition route_id (r : RouteSpecSpec) : string :=
  RouteID (rs_Table r) (rs_Family r) (rs_Destination r) (rs_Gateway r) (rs_Priority r) (rs_OutLinkName r).

Definition apply_route (route : RouteSpecSpec) : M W unit :=
  let route := fst (Normalize route) in
  wrap_err "error applying spec: " (WriterModify RouteSpecSpec (route_id route) (fun _ => route)).

(** [xslices.Map] and [append] make no empty slices: they are nil. *)
Definition nil_slice {A} (l : list A) : option (list A) := match l with [] => None | _ => Some l end.

Definition set_resolver (ack : DHCPv4) (searchDomains : list string) (s : ResolverSpecSpec) : ResolverSpecSpec :=
  mkResolverSpecSpec (DNSServers s)
    (nil_slice ((fun ip => mkNameServerSpec (convertIP ip) DNSProtocolDefault "") <$> DNS ack)) (nil_slice searchDomains).

Definition applyLease (linkName : string) (ack : DHCPv4) : M W unit :=
  _ ← WriterModify AddressSpecSpec (address_id linkName) (fun _ => lease_address linkName ack);
  _ ← for_range apply_route (lease_routes linkName ack);
  let searchDomains := dhcpSearchDomains ack in
  if decide (DNS ack <> [] \/ searchDomains <> []) then
    wrap_err "error applying spec: " (WriterModify ResolverSpecSpec ResolverID (set_resolver ack searchDomains))
  else mret tt.

Definition destroy (linkName : string) : M W unit := Destroy AddressSpecSpec (address_id linkName).

(** *** The client's loop *)

Definition nil_dereference : string := "invalid memory address or nil pointer dereference".

Definition now : M W Z := fun w => (w, Ok (time_Now w)).
Definition renew (lease : Lease) : M W (option Lease * option error) :=
  fun w => let '(w', r) := client_Renew lease w in (w', Ok r).
Definition rebind (offer : DHCPv4) : M W (option Lease * option error) :=
  fun w => let '(w', r) := client_RequestFromOffer offer w in (w', Ok r).

(** The field of a lease that may be nil. *)
Definition field {A} (f : Lease -> A) (l : option Lease) : M W A :=
  match l with Some l => mret (f l) | None => panics nil_dereference end.

(** A new lease, applied, and the wait for its renewal time: the lease, its
    timers, and whether the context ended the wait. *)
Definition dhcp_bind (linkName : string) : M W (Lease * leaseTimers * bool) :=
  lease ← client_Request;
  _ ← ignore_err (applyLease linkName (ACK lease));
  t ← now;
  let t := computeTimers t (ACK lease) in
  done ← wait_until (t1 t);
  mret (lease, t, done).

(** One round of the loop: [inl ack] goes on with that acknowledgement,
    [inr tt] returns.  With an acknowledgement there is nothing to do. *)
Definition dhcp_round (linkName : string) (ack : option DHCPv4) : M W (option DHCPv4 + unit) :=
  match ack with
  | Some _ => mret (inl ack)
  | None =>
    '(lease, t, done) ← dhcp_bind linkName;
    if (done : bool) then
      _ ← ignore_err (applyLease linkName (ACK lease)); mret (inr tt)
    else
      '(lease, err) ← renew lease;
      match err with
      | None =>
        ack ← field ACK lease; _ ← ignore_err (applyLease linkName ack); mret (inl (Some ack))
      | Some _ =>
        offer ← field Offer lease;
        '(lease, err) ← rebind offer;
        match err with
        | None =>
          ack ← field ACK lease; _ ← ignore_err (applyLease linkName ack); mret (inl (Some ack))
        | Some _ =>
          done ← wait_until (expiry t);
          _ ← ignore_err (destroy linkName);
          mret (if (done : bool) then inr tt else inl None)
        end
      end
  end.

(** The loop for at most [fuel] rounds: whether it returned. *)
Fixpoint dhcp_loop (fuel : nat) (linkName : string) (ack : option DHCPv4) : M W bool :=
  match fuel with
  | O => mret false
  | S fuel =>
    r ← dhcp_round linkName ack;
    match r with inl ack => dhcp_loop fuel linkName ack | inr _ => mret true end
  end.

(** The deferred [client.Close()] comes before the test of the error; it panics
    on the nil client. *)
Definition runDHCP (fuel : nat) (linkName : string) : M W bool := fun w =>
  match nclient4_New linkName w with
  | (w, Ok _) =>
    match dhcp_loop fuel linkName None w with
    | (w, Ok false) => (w, Ok false)
    | (w, r) => (client_Close w, r)
    end
  | (w, _) => (w, Panic nil_dereference)
  end.

End controller.

(** *** The clients of the links *)

Definition wantsDHCP (ls : LinkStatusSpec) : bool := Physical ls.

(** The state of the controller: the ids with an entry in the map [state], and
    the clients started and cancelled.  An entry does not mean a client at work:
    a client that has ended (see [dhcp_loop]) keeps it until its link is
    gone. *)
Record DHCP4Controller := mkDHCP4Controller { d_state : gset string; d_started : list string; d_cancelled : list string }.

(** The first loop of [reconcile]. *)
Fixpoint start_clients (list : list (string * LinkStatusSpec)) (ctrl : DHCP4Controller) : DHCP4Controller :=
  match list with
  | [] => ctrl
  | (id, ls) :: list =>
    start_clients list
      (if decide (id ∈ d_state ctrl) then ctrl
       else if wantsDHCP ls then mkDHCP4Controller ({[id]} ∪ d_state ctrl) (d_started ctrl ++ [id]) (d_cancelled ctrl)
       else ctrl)
  end.

(** The second loop, over the map in some order; [ends id] says whether the
    goroutine of [id] ends once it is cancelled.  If it does not, the loop
    waits on [c.done] forever, and the flag is [false]. *)
Fixpoint stop_clients (ends : string -> bool) (desired : gset string) (order : list string) (ctrl : DHCP4Controller)
    : DHCP4Controller * bool :=
  match order with
  | [] => (ctrl, true)
  | id :: order =>
    if decide (id ∈ desired) then stop_clients ends desired order ctrl
    else
      let ctrl := mkDHCP4Controller (d_state ctrl) (d_started ctrl) (d_cancelled ctrl ++ [id]) in
      if ends id then
        stop_clients ends desired order (mkDHCP4Controller (d_state ctrl ∖ {[id]}) (d_started ctrl) (d_cancelled ctrl))
      else (ctrl, false)
  end.

(** [range] is the order in which Go visits the keys of the map. *)
Definition dhcp_reconcile (ends : string -> bool) (range : gset string -> list string)
    (list : list (string * LinkStatusSpec)) (ctrl : DHCP4Controller) : DHCP4Controller * bool :=
  let ctrl := start_clients list ctrl in
  stop_clients ends (list_to_set list.*1) (range (d_state ctrl)) ctrl.

(** ** Lemmas *)

(** *** The decoder of labels terminates *)

(** What the loop can still do: a round without a pointer moves on, a pointer is
    followed once per position. *)
Definition labels_measure (n pos oldPos : nat) (handlingPointer : bool) : nat :=
  if handlingPointer then (n - oldPos) * (n + 2) + (n - pos) + 1 else (n - pos) * (n + 2).

Lemma labels_loop_fuel fuel buf labels label pos oldPos h :
  (labels_measure (length buf) pos oldPos h < fuel)%nat -> labels_loop fuel buf labels label pos oldPos h <> Some None.
Proof.
  revert labels label pos oldPos h. induction fuel as [|fuel IH]; intros labels label pos oldPos h Hm; [lia|].
  cbn [labels_loop]. destruct (buf !! pos) as [l|] eqn:El; [|done].
  pose proof (lookup_lt_Some _ _ _ El) as Hlt. unfold labels_measure in Hm.
  case_decide; [|case_decide; [|case_decide; [done|]]].
  - apply IH. unfold labels_measure. destruct h; nia.
  - destruct h; [done|]. destruct (buf !! S pos) as [low|] eqn:El'; [|done].
    pose proof (lookup_lt_Some _ _ _ El') as Hlt'. apply IH. unfold labels_measure. nia.
  - apply IH. unfold labels_measure. destruct h; nia.
Qed.

(** *** Names *)

Definition clean (name : string) : Prop :=
  Forall (fun c => 32 < Z.of_N (Ascii.N_of_ascii c) /\ Z.of_N (Ascii.N_of_ascii c) <> 127) (String.list_ascii_of_string name).

Lemma validate_clean name : validateDNSNameChars name = None <-> clean name.
Proof.
  unfold validateDNSNameChars, clean. generalize 0. induction name as [|c name IH]; intros i; simpl.
  - split; [by constructor|done].
  - rewrite Forall_cons, <-(IH (i + 1)). case_decide as E; [split; [done|]; intros [? _]; lia|]. split; [|tauto].
    intros H. split; [lia|done].
Qed.

(** *** Bytes *)

Lemma be_value_app l b : be_value (l ++ [b]) = 256 * be_value l + b.
Proof. unfold be_value. by rewrite foldl_snoc. Qed.

Lemma be_value_bytes_4 v : 0 <= v < 2 ^ 32 -> be_value (be_bytes 4 v) = v.
Proof.
  intros Hv. rewrite be_bytes_4. unfold be_value. cbn [foldl]. change 255 with (Z.ones 8).
  rewrite !Z.land_ones, !Z.shiftr_div_pow2 by lia. change (2 ^ 24) with (256 * 256 * 256). change (2 ^ 16) with (256 * 256).
  change (2 ^ 8) with 256. change (2 ^ 0) with 1. rewrite <-!Z.div_div, Z.div_1_r by lia.
  assert (v / 256 / 256 / 256 < 256).
  { rewrite !Z.div_div by lia. apply Z.div_lt_upper_bound; lia. }
  pose proof (Z.div_mod v 256 ltac:(lia)). pose proof (Z.div_mod (v / 256) 256 ltac:(lia)).
  pose proof (Z.div_mod (v / 256 / 256) 256 ltac:(lia)). rewrite (Z.mod_small (v / 256 / 256 / 256)) by (split; [|done]; repeat apply Z.div_pos; lia).
  lia.
Qed.

Lemma Mask_Size_CIDR n : 0 <= n <= 32 -> Mask_Size (CIDRMask n 32) = (n, 32).
Proof.
  intros Hn. assert (forallb (fun b => bool_decide (Mask_Size (CIDRMask (Z.of_nat b) 32) = (Z.of_nat b, 32))) (seq 0 33) = true)
    as H by (by vm_compute).
  rewrite forallb_forall in H. specialize (H (Z.to_nat n)). rewrite Z2Nat.id in H by lia.
  eapply bool_decide_eq_true_1. apply H, in_seq. lia.
Qed.

(** *** Applying a lease *)

(** The resource with this id after these routes are written, one after the
    other. *)
Definition written_route (id : string) (routes : list RouteSpecSpec) (old : option RouteSpecSpec) : option RouteSpecSpec :=
  foldl (fun acc r => if decide (route_id (fst (Normalize r)) = id) then Some (fst (Normalize r)) else acc) old routes.

Section apply.
Context {W : Type} `{!SpecWriter W AddressSpecSpec} `{!SpecWriter W RouteSpecSpec} `{!SpecWriter W ResolverSpecSpec}
  `{!SpecWriterLaws W AddressSpecSpec} `{!SpecWriterLaws W RouteSpecSpec} `{!SpecWriterLaws W ResolverSpecSpec}
  `{!WriterFrame W AddressSpecSpec RouteSpecSpec} `{!WriterFrame W AddressSpecSpec ResolverSpecSpec}
  `{!WriterFrame W RouteSpecSpec AddressSpecSpec} `{!WriterFrame W RouteSpecSpec ResolverSpecSpec}
  `{!WriterFrame W ResolverSpecSpec AddressSpecSpec} `{!WriterFrame W ResolverSpecSpec RouteSpecSpec}.

Abbreviation addr_of := (spec_of (W := W) AddressSpecSpec).
Abbreviation route_of := (spec_of (W := W) RouteSpecSpec).
Abbreviation resolver_of := (spec_of (W := W) ResolverSpecSpec).

Lemma modify_ok Spec `{!SpecWriter W Spec, !SpecWriterLaws W Spec} id f (w w' : W) id' :
  WriterModify Spec id f w = (w', Ok tt) ->
  spec_of Spec w' id' = if decide (id' = id) then Some (f (default (zero_spec (W := W) Spec) (spec_of Spec w id)))
                        else spec_of Spec w id'.
Proof. intros H. rewrite (modify_law _ _ _ _ _ H). repeat case_decide; tauto || done. Qed.

Lemma apply_routes_ok routes (w w' : W) :
  for_range apply_route routes w = (w', Ok tt) ->
  (forall id, route_of w' id = written_route id routes (route_of w id)) /\
  (forall id, addr_of w' id = addr_of w id) /\ (forall id, resolver_of w' id = resolver_of w id).
Proof.
  revert w. induction routes as [|r routes IH]; intros w; cbn [for_range].
  { intros [= <-]. done. }
  unfold mbind, M_bind. destruct (apply_route r w) as [w1 [[]|e|p]] eqn:E; [|done..].
  intros (HR & HA & HS)%IH. unfold apply_route, wrap_err in E.
  destruct (WriterModify _ _ _ w) as [w2 [[]|e|p]] eqn:E2; try done. injection E as ->.
  split_and!; intros id.
  - rewrite HR. unfold written_route. cbn [foldl]. f_equal. rewrite (modify_ok _ _ _ _ _ _ E2).
    case_decide as E1; [by rewrite decide_True by auto|by rewrite decide_False by auto].
  - rewrite HA. by eapply (modify_frame _ _ _ _ _ E2).
  - rewrite HS. by eapply (modify_frame _ _ _ _ _ E2).
Qed.

(** The writes of a lease that is applied: the address, the routes, and the
    resolvers when it names any. *)
Lemma applyLease_inv linkName ack (w w' : W) :
  applyLease linkName ack w = (w', Ok tt) ->
  exists w1 w2,
    WriterModify AddressSpecSpec (address_id linkName) (fun _ => lease_address linkName ack) w = (w1, Ok tt) /\
    for_range apply_route (lease_routes linkName ack) w1 = (w2, Ok tt) /\
    if decide (DNS ack <> [] \/ dhcpSearchDomains ack <> [])
    then WriterModify ResolverSpecSpec ResolverID (set_resolver ack (dhcpSearchDomains ack)) w2 = (w', Ok tt)
    else w' = w2.
Proof.
  unfold applyLease, mbind, M_bind. intros H.
  destruct (WriterModify AddressSpecSpec _ _ w) as [w1 [[]|e|p]] eqn:E1; try done.
  destruct (for_range apply_route (lease_routes linkName ack) w1) as [w2 [[]|e|p]] eqn:E2; try done.
  exists w1, w2. split; [done|]. split; [done|]. case_decide as Hd; [|by injection H as <-].
  unfold wrap_err in H. by destruct (WriterModify ResolverSpecSpec _ _ w2) as [w3 [[]|e|p]].
Qed.

Lemma applyLease_spec linkName ack (w w' : W) :
  applyLease linkName ack w = (w', Ok tt) ->
  (forall id, addr_of w' id = if decide (id = address_id linkName) then Some (lease_address linkName ack) else addr_of w id) /\
  (forall id, route_of w' id = written_route id (lease_routes linkName ack) (route_of w id)) /\
  (forall id, resolver_of w' id =
     if decide (id = ResolverID /\ (DNS ack <> [] \/ dhcpSearchDomains ack <> []))
     then Some (set_resolver ack (dhcpSearchDomains ack) (default (zero_spec (W := W) ResolverSpecSpec) (resolver_of w ResolverID)))
     else resolver_of w id).
Proof.
  intros (w1 & w2 & E1 & E2 & H)%applyLease_inv. destruct (apply_routes_ok _ _ _ E2) as (HR & HA & HS).
  assert ((forall id, addr_of w' id = addr_of w2 id) /\ (forall id, route_of w' id = route_of w2 id) /\
    forall id, resolver_of w' id =
      if decide (id = ResolverID /\ (DNS ack <> [] \/ dhcpSearchDomains ack <> []))
      then Some (set_resolver ack (dhcpSearchDomains ack) (default (zero_spec (W := W) ResolverSpecSpec) (resolver_of w2 ResolverID)))
      else resolver_of w2 id) as (HA' & HR' & HS').
  { destruct (decide (DNS ack <> [] \/ dhcpSearchDomains ack <> [])) as [Hd|Hd].
    - split_and!; intros id; [by eapply (modify_frame _ _ _ _ _ H)..|].
      rewrite (modify_ok _ _ _ _ _ _ H). repeat case_decide; tauto || done.
    - subst w'. split_and!; [done..|]. intros id. rewrite decide_False by tauto. done. }
  split_and!; intros id.
  - rewrite HA', HA, (modify_ok _ _ _ _ _ _ E1). done.
  - rewrite HR', HR. f_equal. by eapply (modify_frame _ _ _ _ _ E1).
  - rewrite HS', !HS. assert (forall id, resolver_of w1 id = resolver_of w id) as HF by (intros; by eapply (modify_frame _ _ _ _ _ E1)).
    by rewrite !HF.
Qed.

Lemma written_route_const id l :
  (exists r, forall old, written_route id l old = Some r) \/ (forall old, written_route id l old = old).
Proof.
  unfold written_route. induction l as [|r l IH]; cbn [foldl]; [by right|]. case_decide; [|done]. left.
  destruct IH as [[r' IH]|IH]; eauto.
Qed.

(** ** Properties *)

(** A lease that is applied again, renewed or not, changes no resource. *)
Theorem lease_again_quiet linkName ack (w w' w'' : W) :
  applyLease linkName ack w = (w', Ok tt) -> applyLease linkName ack w' = (w'', Ok tt) ->
  forall id, addr_of w'' id = addr_of w' id /\ route_of w'' id = route_of w' id /\ resolver_of w'' id = resolver_of w' id.
Proof.
  intros (HA & HR & HS)%applyLease_spec (HA' & HR' & HS')%applyLease_spec id. split_and!.
  - rewrite HA', HA. by case_decide.
  - rewrite HR', HR. by destruct (written_route_const id (lease_routes linkName ack)) as [[r E]|E]; rewrite !E.
  - rewrite HS', !HS. destruct (decide (id = ResolverID /\ _)) as [[-> Hd]|]; [|done]. by rewrite decide_True.
Qed.

End apply.

(** The search domains written to the resolver are exactly the clean names the
    server sent, as domain search labels or as the domain name without its
    trailing NULs: no name with white space or a control character gets
    through, and no other name is lost. *)
Theorem search_domains_exact ack d :
  d ∈ dhcpSearchDomains ack <->
  clean d /\ ((exists labels, DomainSearch ack = Some labels /\ d ∈ labels) \/ (d = TrimRight_NUL (DomainName ack) /\ d <> "")).
Proof.
  assert (d ∈ match DomainSearch ack with
              | Some labels => filter (fun domain => validateDNSNameChars domain = None) labels | None => [] end <->
          clean d /\ exists labels, DomainSearch ack = Some labels /\ d ∈ labels) as HL.
  { destruct (DomainSearch ack) as [labels|].
    - rewrite list_elem_of_filter, validate_clean. naive_solver.
    - rewrite elem_of_nil. naive_solver. }
  unfold dhcpSearchDomains. case_decide as E.
  - rewrite elem_of_app, HL, list_elem_of_singleton. destruct E as (E1 & E2%validate_clean & _).
    split; [intros [?| ->]; tauto|]. intros [Hc [?|[? _]]]; tauto.
  - rewrite HL. split; [tauto|]. intros [Hc [?|[-> Hne]]]; [done|]. rewrite <-HL.
    apply validate_clean in Hc. destruct (decide (TrimRight_NUL (DomainName ack) ∈ match DomainSearch ack with
              | Some labels => filter (fun domain => validateDNSNameChars domain = None) labels | None => [] end)); tauto.
Qed.

(** C38: an IPv4 prefix survives the way through the server's packet: the address
    and mask of a prefix, as the standard library writes them, are converted
    back to that prefix; so a lease with such an address and mask gives an
    address spec the address controller accepts. *)
Theorem lease_prefix_roundtrip v bits opts linkName :
  0 <= v < 2 ^ 32 -> 0 <= bits <= 32 ->
  let p := PrefixFrom (Addr4 v) bits in
  let '(ip, mask) := PrefixIPNet p in
  FromStdIPNet ip mask = Some p /\
  spec_ok (lease_address linkName (mkDHCPv4 ip (<[OptionSubnetMask := mask]> opts))).
Proof.
  intros Hv Hb p. destruct (PrefixIPNet p) as [ip mask] eqn:EP.
  assert (p = mkPrefix (Addr4 v) (bits + 1)) as Hp.
  { unfold p, PrefixFrom. simpl BitLen. destruct (Z.leb_spec 0 bits), (Z.leb_spec bits 32); try lia. done. }
  assert (ip = be_bytes 4 v /\ mask = CIDRMask bits 32) as [-> ->].
  { revert EP. rewrite Hp. unfold PrefixIPNet, IsValid, Bits. cbn [bitsPlusOne p_addr BitLen].
    destruct (Z.ltb_spec 0 (bits + 1)); [|lia]. rewrite Z.add_simpl_r. intros [= <- <-]. done. }
  assert (length (CIDRMask bits 32) = 4%nat) as HL by (unfold CIDRMask; rewrite decide_True by lia; by rewrite be_bytes_length).
  assert (FromStdIPNet (be_bytes 4 v) (CIDRMask bits 32) = Some p) as HF.
  { unfold FromStdIPNet, FromStdIP, AddrFromSlice. rewrite (decide_True (P := length (be_bytes 4 v) = 4%nat)) by apply be_bytes_length.
    rewrite be_value_bytes_4 by done. cbn [fmap option_fmap option_map].
    change (Unmap (Addr4 v)) with (Addr4 v). rewrite decide_False by (rewrite HL; lia).
    rewrite Mask_Size_CIDR by done. rewrite decide_False by lia. done. }
  split; [done|]. unfold spec_ok, lease_address. cbn [as_Address as_Flags]. unfold lease_prefix. cbn [YourIPAddr].
  assert (SubnetMask (mkDHCPv4 (be_bytes 4 v) (<[OptionSubnetMask := CIDRMask bits 32]> opts)) = CIDRMask bits 32) as ->.
  { unfold SubnetMask. cbn [Options]. rewrite lookup_insert_eq, decide_True; done. }
  rewrite HF. cbn [default]. rewrite Hp. unfold Bits. simpl. split; [done|]. split; [lia|done].
Qed.

(** *** The client's loop *)

Section loop.
Context {W : Type} `{!SpecWriter W AddressSpecSpec} `{!SpecWriter W RouteSpecSpec} `{!SpecWriter W ResolverSpecSpec}
  `{!DHCPClient W}.

(** With an acknowledgement the loop only turns. *)
Lemma dhcp_loop_spins fuel linkName ack (w : W) : dhcp_loop fuel linkName (Some ack) w = (w, Ok false).
Proof. induction fuel as [|fuel IH]; [done|]. cbn [dhcp_loop dhcp_round]. apply IH. Qed.

(** What follows the first lease, for any number of rounds. *)
Definition after_bind (linkName : string) (lease : Lease) (done : bool) : M W bool :=
  if done then _ ← ignore_err (applyLease linkName (ACK lease)); mret true
  else '(lease, err) ← renew lease;
       match err, lease with
       | None, Some l => _ ← ignore_err (applyLease linkName (ACK l)); mret false
       | _, _ => panics nil_dereference
       end.

(** C12: the whole life of a DHCP client, given that a renewal that fails returns no
    lease.  However many rounds it is given, it does one request; a request
    that fails ends it; if the context ends before the renewal time it applies
    the lease once more and returns; and after the renewal time a renewal that
    succeeds is applied and is the last thing it ever does (it turns without
    returning, without renewing again and without looking at the context), and
    a renewal that fails panics.  It never rebinds, never waits for the expiry
    and never destroys a lease. *)
Theorem dhcp_client_life fuel linkName (w : W) :
  (forall l w w' r e, client_Renew l w = (w', (r, Some e)) -> r = None) ->
  dhcp_loop (S fuel) linkName None w =
  match dhcp_bind linkName w with
  | (w', Ok (lease, _, done)) => after_bind linkName lease done w'
  | (w', Err e) => (w', Err e)
  | (w', Panic p) => (w', Panic p)
  end.
Proof.
  intros Hnil. cbn [dhcp_loop dhcp_round]. unfold mbind, M_bind.
  destruct (dhcp_bind linkName w) as [w1 [[[lease t] dn]|e|p]]; [|done..].
  unfold after_bind. destruct dn.
  { unfold mbind, M_bind. destruct (ignore_err (applyLease linkName (ACK lease)) w1) as [w2 [[]|e|p]]; done. }
  unfold renew, mbind, M_bind. destruct (client_Renew lease w1) as [w2 [l [e|]]] eqn:E.
  - rewrite (Hnil _ _ _ _ _ E). done.
  - destruct l as [l|]; [|done]. simpl.
    destruct (ignore_err (applyLease linkName (ACK l)) w2) as [w3 [[]|e|p]]; [|done..]. apply dhcp_loop_spins.
Qed.

End loop.

(** *** Two links *)

Lemma written_route_cases id l old :
  (exists r, r ∈ l /\ route_id (fst (Normalize r)) = id /\ written_route id l old = Some (fst (Normalize r))) \/
  ((forall r, r ∈ l -> route_id (fst (Normalize r)) <> id) /\ written_route id l old = old).
Proof.
  revert old. induction l as [|r l IH]; intros old; [right; split; [by intros ? ?%elem_of_nil|done]|].
  unfold written_route in *. cbn [foldl]. case_decide as E.
  - left. destruct (IH (Some (fst (Normalize r)))) as [(r' & ? & ? & ?)|[_ HN]].
    + exists r'. split_and!; [by right|done..].
    + exists r. split_and!; [by left|done..].
  - destruct (IH old) as [(r' & ? & ? & ?)|[HN1 HN2]].
    + left. exists r'. split_and!; [by right|done..].
    + right. split; [|done]. intros r' [->|]%elem_of_cons; [done|by apply HN1].
Qed.

(** The same route on another link. *)
Definition relink (linkName : string) (r : RouteSpecSpec) : RouteSpecSpec :=
  mkRouteSpecSpec (rs_Family r) (rs_Destination r) (rs_Source r) (rs_Gateway r) linkName (rs_Table r)
    (rs_Priority r) (rs_Scope r) (rs_Type r) (rs_Flags r) (rs_Protocol r) (rs_MTU r).

Lemma lease_routes_relink link1 link2 ack : lease_routes link2 ack = relink link2 <$> lease_routes link1 ack.
Proof.
  unfold lease_routes. induction (Router ack) as [|router l IH]; [done|]. rewrite !bind_cons, fmap_app, IH. f_equal.
  unfold router_routes. by destruct (Contains _ _).
Qed.

Lemma lease_routes_inet4 linkName ack r :
  r ∈ lease_routes linkName ack -> rs_Family r = FamilyInet4 /\ rs_OutLinkName r = linkName.
Proof.
  unfold lease_routes. intros (router & Hr & _)%list_elem_of_bind. unfold router_routes in Hr.
  apply elem_of_cons in Hr as [->|Hr]; [done|]. destruct (Contains _ _); [by apply elem_of_nil in Hr|].
  apply list_elem_of_singleton in Hr as ->. done.
Qed.

(** Normalizing does not look at the link. *)
Lemma Normalize_relink linkName r : fst (Normalize (relink linkName r)) = relink linkName (fst (Normalize r)).
Proof.
  unfold Normalize, relink. simpl. destruct (normalize_destination _) as [d f].
  destruct (normalize_addr _ f) as [g f1]. destruct (normalize_addr _ f1) as [s f2]. done.
Qed.

Lemma Normalize_family r : rs_Family (fst (Normalize r)) = rs_Family r.
Proof.
  unfold Normalize. destruct (normalize_destination _) as [d f].
  destruct (normalize_addr _ f) as [g f1]. destruct (normalize_addr _ f1) as [s f2]. done.
Qed.

Lemma route_id_relink linkName r : rs_Family r = FamilyInet4 -> route_id (relink linkName r) = route_id r.
Proof. intros Hf. unfold route_id, relink. simpl. rewrite Hf. done. Qed.

(** Two links with the same routers share one route.  Ids of IPv4 routes do not
    name the link, so once a lease by the same routers is applied for a second
    link, no route by these routers is left for the first link: every id the
    first lease wrote holds a route of the second link. *)
Theorem second_link_takes_routes link1 link2 ack old id :
  is_Some (written_route id (lease_routes link1 ack) None) ->
  exists r, written_route id (lease_routes link2 ack) (written_route id (lease_routes link1 ack) old) = Some r /\
    rs_OutLinkName r = link2.
Proof.
  intros Hid. destruct (written_route_cases id (lease_routes link1 ack) None) as [(r0 & Hr0 & Hi0 & _)|[_ HN]].
  2:{ rewrite HN in Hid. by destruct Hid. }
  destruct (written_route_cases id (lease_routes link2 ack) (written_route id (lease_routes link1 ack) old))
    as [(r & Hr & _ & ->)|[HN _]].
  - exists (fst (Normalize r)). split; [done|]. rewrite (lease_routes_relink link1) in Hr.
    apply list_elem_of_fmap in Hr as (r1 & -> & _). by rewrite Normalize_relink.
  - exfalso. apply (HN (relink link2 r0)).
    + rewrite (lease_routes_relink link1). apply list_elem_of_fmap. eauto.
    + rewrite Normalize_relink, route_id_relink; [done|]. rewrite Normalize_family. by eapply lease_routes_inet4.
Qed.

(** *** The clients of the links *)

Lemma start_clients_spec l ctrl :
  d_state (start_clients l ctrl) =
    d_state ctrl ∪ list_to_set (filter (fun p => Physical (snd p) = true) l).*1 /\
  d_cancelled (start_clients l ctrl) = d_cancelled ctrl.
Proof.
  revert ctrl. induction l as [|[id ls] l IH]; intros ctrl; cbn [start_clients]; [split; [set_solver|done]|].
  rewrite filter_cons. cbn [snd]. unfold wantsDHCP. case_decide as E.
  - destruct (IH ctrl) as [-> ->]. split; [|done]. case_decide; cbn [fmap list_fmap fst list_to_set]; set_solver.
  - destruct (Physical ls).
    + destruct (IH (mkDHCP4Controller ({[id]} ∪ d_state ctrl) (d_started ctrl ++ [id]) (d_cancelled ctrl))) as [-> ->].
      split; [|done]. rewrite decide_True by done. simpl. set_solver.
    + destruct (IH ctrl) as [-> ->]. split; [|done]. rewrite decide_False by done. done.
Qed.

Lemma stop_clients_spec ends desired order ctrl :
  let '(ctrl', returned) := stop_clients ends desired order ctrl in
  (returned = true <-> forall id, id ∈ order -> id ∉ desired -> ends id = true) /\
  (returned = true -> d_state ctrl' = d_state ctrl ∖ list_to_set (filter (.∉ desired) order) /\
    d_cancelled ctrl' = d_cancelled ctrl ++ filter (.∉ desired) order).
Proof.
  revert ctrl. induction order as [|id order IH]; intros ctrl; cbn [stop_clients].
  { split; [split; [by intros _ ? ?%elem_of_nil|done]|]. intros _. simpl. rewrite app_nil_r. split; [set_solver|done]. }
  case_decide as E.
  - specialize (IH ctrl). destruct (stop_clients _ _ _ _) as [c' b]. destruct IH as [IH1 IH2].
    rewrite filter_cons, decide_False by (by intros ?). split; [|done]. rewrite IH1. set_solver.
  - destruct (ends id) eqn:Ee.
    + cbn [d_state d_started d_cancelled].
      specialize (IH (mkDHCP4Controller (d_state ctrl ∖ {[id]}) (d_started ctrl) (d_cancelled ctrl ++ [id]))).
      destruct (stop_clients _ _ _ _) as [c' b]. destruct IH as [IH1 IH2]. cbn [d_state d_cancelled] in *.
      rewrite filter_cons, decide_True by done. split.
      * rewrite IH1. split; [|set_solver]. intros H i [->|Hi]%elem_of_cons; [done|by apply H].
      * intros Hb. destruct (IH2 Hb) as [-> ->]. simpl. split; [set_solver|by rewrite <-app_assoc].
    + split; [|done]. split; [done|]. intros H. rewrite <-Ee. apply H; [by left|done].
Qed.

(** A pass over the links.  It returns exactly when every client whose link is
    gone ends once cancelled (one that has renewed its lease never does); it
    then has a client for the links that had one or are physical, and are
    still there, and it has cancelled exactly the clients of the links that
    are gone.  A link whose client has ended by itself keeps its entry: it
    never gets another client. *)
Theorem dhcp_reconcile_exact ends range l ctrl :
  (forall X, range X ≡ₚ elements X) ->
  let clients := d_state ctrl ∪ list_to_set (filter (fun p => Physical (snd p) = true) l).*1 in
  let '(ctrl', returned) := dhcp_reconcile ends range l ctrl in
  (returned = true <-> forall id, id ∈ d_state ctrl -> id ∉ l.*1 -> ends id = true) /\
  (returned = true ->
    d_state ctrl' = clients ∩ list_to_set l.*1 /\
    forall id, id ∈ d_cancelled ctrl' <-> id ∈ d_cancelled ctrl \/ (id ∈ d_state ctrl /\ id ∉ l.*1)).
Proof.
  intros Hrange clients. unfold dhcp_reconcile.
  destruct (start_clients_spec l ctrl) as [HS HC]. fold clients in HS.
  assert (forall id, id ∈ range (d_state (start_clients l ctrl)) <-> id ∈ clients) as Hin.
  { intros id. by rewrite Hrange, elem_of_elements, HS. }
  assert (forall id, id ∈ clients -> id ∉ l.*1 -> id ∈ d_state ctrl) as Hold.
  { intros id [|Hid]%elem_of_union Hn; [done|]. apply elem_of_list_to_set, list_elem_of_fmap in Hid as (p & -> & Hp).
    destruct Hn. apply list_elem_of_fmap. exists p. split; [done|]. by apply list_elem_of_filter in Hp as [_ ?]. }
  pose proof (stop_clients_spec ends (list_to_set l.*1) (range (d_state (start_clients l ctrl))) (start_clients l ctrl)) as H.
  destruct (stop_clients _ _ _ _) as [c' b]. destruct H as [H1 H2]. split.
  - rewrite H1. split; intros Hall id.
    + intros Hid Hn. apply Hall; [apply Hin; set_solver|by rewrite elem_of_list_to_set].
    + rewrite Hin, elem_of_list_to_set. intros Hid Hn. apply Hall; [by apply Hold|done].
  - intros Hb. destruct (H2 Hb) as [E1 E2]. split.
    + rewrite E1. apply leibniz_equiv. intros id. rewrite elem_of_difference, elem_of_list_to_set, list_elem_of_filter.
      rewrite Hin, HS, elem_of_intersection, !elem_of_list_to_set. destruct (decide (id ∈ l.*1)); tauto.
    + intros id. rewrite E2, HC, elem_of_app, list_elem_of_filter, Hin, elem_of_list_to_set.
      split; [intros [?|[? ?]]; [by left|right; split; [by apply Hold|done]]|].
      intros [?|[? ?]]; [by left|right; split; [done|]]. unfold clients. by apply elem_of_union_l.
Qed.

(** ** A server and a store *)

Module DHCPDemo.

(** The stores, and whether the server answers the renewal. *)
Record world := mkWorld {
  d_addrs : store AddressSpecSpec; d_routes : store RouteSpecSpec; d_resolvers : store ResolverSpecSpec;
  d_renews : bool
}.

Definition zeroAddress : AddressSpecSpec := mkAddressSpecSpec zeroPrefix "" 0 0 0.
Definition zeroRoute : RouteSpecSpec := mkRouteSpecSpec 0 zeroPrefix AddrZero AddrZero "" 0 0 0 0 0 0 0.
Definition zeroResolver : ResolverSpecSpec := mkResolverSpecSpec None None None.

#[export] Instance demo_addresses : SpecWriter world AddressSpecSpec := {|
  WriterModify id f := fun w => (mkWorld (store_modify zeroAddress id f (d_addrs w)) (d_routes w) (d_resolvers w) (d_renews w), Ok tt);
  Destroy id := fun w => (mkWorld (delete id (d_addrs w)) (d_routes w) (d_resolvers w) (d_renews w), Ok tt);
  zero_spec := zeroAddress; spec_of w id := d_addrs w !! id
|}.
#[export] Instance demo_routes : SpecWriter world RouteSpecSpec := {|
  WriterModify id f := fun w => (mkWorld (d_addrs w) (store_modify zeroRoute id f (d_routes w)) (d_resolvers w) (d_renews w), Ok tt);
  Destroy id := fun w => (mkWorld (d_addrs w) (delete id (d_routes w)) (d_resolvers w) (d_renews w), Ok tt);
  zero_spec := zeroRoute; spec_of w id := d_routes w !! id
|}.
#[export] Instance demo_resolvers : SpecWriter world ResolverSpecSpec := {|
  WriterModify id f := fun w => (mkWorld (d_addrs w) (d_routes w) (store_modify zeroResolver id f (d_resolvers w)) (d_renews w), Ok tt);
  Destroy id := fun w => (mkWorld (d_addrs w) (d_routes w) (delete id (d_resolvers w)) (d_renews w), Ok tt);
  zero_spec := zeroResolver; spec_of w id := d_resolvers w !! id
|}.

Ltac store_laws :=
  split; simpl; intros; simplify_eq; simpl;
  [rewrite store_modify_lookup|rewrite lookup_delete]; repeat case_decide; naive_solver.

#[export] Instance demo_addresses_laws : SpecWriterLaws world AddressSpecSpec.
Proof. store_laws. Qed.
#[export] Instance demo_routes_laws : SpecWriterLaws world RouteSpecSpec.
Proof. store_laws. Qed.
#[export] Instance demo_resolvers_laws : SpecWriterLaws world ResolverSpecSpec.
Proof. store_laws. Qed.

Ltac frame_law := split; simpl; intros; by simplify_eq.

#[export] Instance frame_ar : WriterFrame world AddressSpecSpec RouteSpecSpec.
Proof. frame_law. Qed.
#[export] Instance frame_as : WriterFrame world AddressSpecSpec ResolverSpecSpec.
Proof. frame_law. Qed.
#[export] Instance frame_ra : WriterFrame world RouteSpecSpec AddressSpecSpec.
Proof. frame_law. Qed.
#[export] Instance frame_rs : WriterFrame world RouteSpecSpec ResolverSpecSpec.
Proof. frame_law. Qed.
#[export] Instance frame_sa : WriterFrame world ResolverSpecSpec AddressSpecSpec.
Proof. frame_law. Qed.
#[export] Instance frame_sr : WriterFrame world ResolverSpecSpec RouteSpecSpec.
Proof. frame_law. Qed.

(** A lease of 192.168.1.42/24 with a router in the network and one outside,
    and the search domains "lan" and "home.lan". *)
Definition ack : DHCPv4 :=
  mkDHCPv4 [192; 168; 1; 42]
    (<[1 := [255; 255; 255; 0]]> (<[3 := [192; 168; 1; 1; 10; 0; 0; 1]]> (<[6 := [8; 8; 8; 8]]>
       (<[15 := [108; 97; 110; 0]]> (<[51 := [0; 0; 14; 16]]> (<[58 := [0; 0; 7; 8]]>
          (<[119 := [4; 104; 111; 109; 101; 3; 108; 97; 110; 0]]> ∅))))))).

#[export] Instance demo_client : DHCPClient world := {|
  nclient4_New _ := mret tt;
  client_Request := mret (mkLease ack ack);
  client_Renew l := fun w => (w, if d_renews w then (Some l, None) else (None, Some (EMsg "no response")));
  client_RequestFromOffer o := fun w => (w, (Some (mkLease o o), None));
  client_Close w := w;
  time_Now _ := 0;
  wait_until t := fun w => (w, Ok (t <? 0))
|}.

Definition fresh (renews : bool) : world := mkWorld ∅ ∅ ∅ renews.
Definition leased : world := fst (applyLease "eth0" ack (fresh true)).

Lemma lease_again_quiet_witness :
  forall id, spec_of RouteSpecSpec (fst (applyLease "eth0" ack leased)) id = spec_of RouteSpecSpec leased id.
Proof.
  intros id. assert (applyLease "eth0" ack (fresh true) = (leased, Ok tt)) as H1 by (vm_compute; reflexivity).
  assert (applyLease "eth0" ack leased = (fst (applyLease "eth0" ack leased), Ok tt)) as H2 by (vm_compute; reflexivity).
  exact (proj1 (proj2 (lease_again_quiet "eth0" ack _ _ _ H1 H2 id))).
Defined.

Lemma lease_prefix_roundtrip_witness :
  FromStdIPNet [192; 168; 1; 42] [255; 255; 255; 0] = Some (PrefixFrom (Addr4 3232235818) 24) /\
  spec_ok (lease_address "eth0" (mkDHCPv4 [192; 168; 1; 42] (<[OptionSubnetMask := [255; 255; 255; 0]]> ∅))).
Proof. apply (lease_prefix_roundtrip 3232235818 24 ∅ "eth0"); lia. Defined.

Lemma dhcp_client_life_witness :
  (forall fuel, dhcp_loop (S fuel) "eth0" None (fresh true) = (leased, Ok false)) /\
  (forall fuel, dhcp_loop (S fuel) "eth0" None (fresh false) = (fst (applyLease "eth0" ack (fresh false)), Panic nil_dereference)).
Proof.
  assert (forall l (w w' : world) r e, client_Renew l w = (w', (r, Some e)) -> r = None) as Hnil.
  { simpl. intros l w w' r e H. destruct (d_renews w); by simplify_eq. }
  split; intros fuel; (rewrite (dhcp_client_life fuel "eth0" _ Hnil); vm_compute; done).
Defined.

Lemma second_link_takes_routes_witness :
  exists r, written_route "inet4/192.168.1.1//0" (lease_routes "eth1" ack)
      (written_route "inet4/192.168.1.1//0" (lease_routes "eth0" ack) None) = Some r /\ rs_OutLinkName r = "eth1".
Proof. apply (second_link_takes_routes "eth0" "eth1" ack None "inet4/192.168.1.1//0"). vm_compute. eauto. Defined.

Definition ether : LinkStatusSpec :=
  mkLinkStatusSpec "" [] 2 LinkEther 0 0 [] [] [] 0 "" 0 0 "" "" "" "" "" "" "" "" "" "" "" true 0 0 0.

(** The link of "wlan0" is gone. *)
Definition clients : DHCP4Controller := mkDHCP4Controller {["wlan0"]} [] [].

Lemma dhcp_reconcile_exact_witness :
  let '(ctrl, returned) := dhcp_reconcile (fun _ => true) elements [("eth0", ether)] clients in
  returned = true /\ d_state ctrl = {["eth0"]}.
Proof.
  pose proof (dhcp_reconcile_exact (fun _ => true) elements [("eth0", ether)] clients (fun _ => reflexivity _)) as H.
  destruct (dhcp_reconcile _ _ _ _) as [ctrl returned]. destruct H as [Hr Hs].
  assert (returned = true) as E by (by apply Hr). destruct (Hs E) as [-> _]. split; [done|vm_compute; done].
Defined.

End DHCPDemo.
