(* ===== verification/Network.v ===== *)
(** * From a lease to the kernel

    The DHCP controller ([dhcp4.go]) and the address controller
    ([address_spec.go]) work on the same resources: the one writes address
    specs, the other reads them and changes the kernel.  This file composes
    [DHCP4.applyLease] with [AddressSpec.reconcile], over a store in which what
    is written is what is read. *)

From S2P Require Import Prelude NetAddr AddressSpec Resources DHCP4.

(** ** The store that both controllers use *)

(** The phases of the address specs. *)
Class AddressPhases (W : Type) := { phase_of : W -> string -> Phase }.

(** Writing another kind of resource does not change the kernel, nor what the
    address controller reads. *)
Class Apart (W Spec : Type) `{!SpecWriter W Spec, !AddressNetlink W, !AddressPhases W} : Prop := {
  apart_kernel id f w w' r : WriterModify Spec id f w = (w', r) -> links w' = links w /\ addrs w' = addrs w;
  apart_phase id f w w' r : WriterModify Spec id f w = (w', r) -> forall id', phase_of w' id' = phase_of w id'
}.

(** What the reader lists is what was written; a resource that is torn down
    cannot be written. *)
Class AddressStore (W : Type) `{!SpecWriter W AddressSpecSpec, !SpecStore W AddressSpecSpec, !AddressNetlink W, !AddressPhases W} : Prop := {
  store_list w w' l : ReaderList AddressSpecSpec w = (w', Ok l) ->
    NoDup (res_ID <$> l) /\
    forall r, r ∈ l <-> spec_of AddressSpecSpec w (res_ID r) = Some (TypedSpec r) /\ phase_of w (res_ID r) = res_Phase r;
  store_kernel id f w w' r : WriterModify AddressSpecSpec id f w = (w', r) -> links w' = links w /\ addrs w' = addrs w;
  store_written id f w w' : WriterModify AddressSpecSpec id f w = (w', Ok tt) ->
    forall id', phase_of w' id' = if decide (id' = id) then PhaseRunning else phase_of w id'
}.

Section Lease.
Context {W : Type} `{!SpecWriter W AddressSpecSpec} `{!SpecWriter W RouteSpecSpec} `{!SpecWriter W ResolverSpecSpec}
  `{!SpecWriterLaws W AddressSpecSpec} `{!SpecWriterLaws W RouteSpecSpec} `{!SpecWriterLaws W ResolverSpecSpec}
  `{!WriterFrame W AddressSpecSpec RouteSpecSpec} `{!WriterFrame W AddressSpecSpec ResolverSpecSpec}
  `{!WriterFrame W RouteSpecSpec AddressSpecSpec} `{!WriterFrame W RouteSpecSpec ResolverSpecSpec}
  `{!WriterFrame W ResolverSpecSpec AddressSpecSpec} `{!WriterFrame W ResolverSpecSpec RouteSpecSpec}
  `{!SpecStore W AddressSpecSpec} `{!AddressNetlink W} `{!AddressLaws W} `{!AddressPhases W}
  `{!AddressStore W} `{!Apart W RouteSpecSpec} `{!Apart W ResolverSpecSpec}.
Implicit Types w : W.

(** A lease that arrives, and the turn of the address controller that follows. *)
Definition lease_turn (linkName : string) (ack : DHCPv4) : M W unit :=
  _ ← applyLease linkName ack;
  reconcile.

(** ** Lemmas *)

Lemma routes_apart routes w w' :
  for_range apply_route routes w = (w', Ok tt) ->
  links w' = links w /\ addrs w' = addrs w /\ forall id, phase_of w' id = phase_of w id.
Proof.
  intros HR. pose (P := fun w0 => links w0 = links w /\ addrs w0 = addrs w /\ forall id, phase_of w0 id = phase_of w id).
  apply (for_range_inv P apply_route routes w w' (Ok tt)); [|done|done].
  intros r w1 w2 r1 _ (L & A & Ph) HA. unfold apply_route in HA. apply wrap_err_ok in HA as (r0 & HM & _).
  pose proof (apart_kernel _ _ _ _ _ HM) as [L2 A2]. pose proof (apart_phase _ _ _ _ _ HM) as P2.
  split_and!; [congruence..|]. intros id. by rewrite P2, Ph.
Qed.

(** What a lease that is applied leaves to the address controller. *)
Lemma applyLease_address linkName ack w w' :
  applyLease linkName ack w = (w', Ok tt) ->
  links w' = links w /\ addrs w' = addrs w /\
  (forall id, spec_of AddressSpecSpec w' id =
     if decide (id = address_id linkName) then Some (lease_address linkName ack) else spec_of AddressSpecSpec w id) /\
  (forall id, phase_of w' id = if decide (id = address_id linkName) then PhaseRunning else phase_of w id).
Proof.
  intros (w1 & w2 & E1 & E2 & E3)%applyLease_inv.
  destruct (apply_routes_ok _ _ _ E2) as (_ & HA & _). destruct (routes_apart _ _ _ E2) as (L2 & A2 & P2).
  pose proof (store_kernel _ _ _ _ _ E1) as [L1 A1]. pose proof (store_written _ _ _ _ E1) as P1.
  assert (links w' = links w2 /\ addrs w' = addrs w2 /\
    (forall id, spec_of AddressSpecSpec w' id = spec_of AddressSpecSpec w2 id) /\
    forall id, phase_of w' id = phase_of w2 id) as (L3 & A3 & S3 & P3).
  { case_decide; [|by subst w']. pose proof (apart_kernel _ _ _ _ _ E3) as [? ?].
    split_and!; [done..| |by eapply apart_phase]. intros id. by eapply (modify_frame _ _ _ _ _ E3). }
  split_and!; [congruence..| |]; intros id.
  - by rewrite S3, HA, (modify_ok _ _ _ _ _ _ E1).
  - by rewrite P3, P2, P1.
Qed.

(** A live spec of a store. *)
Definition live_spec w (id : string) (spec : AddressSpecSpec) : Prop :=
  spec_of AddressSpecSpec w id = Some spec /\ phase_of w id = PhaseRunning.

(** The live specs once a lease is applied. *)
Definition live_with (linkName : string) (ack : DHCPv4) w (id : string) (spec : AddressSpecSpec) : Prop :=
  if decide (id = address_id linkName) then spec = lease_address linkName ack else live_spec w id spec.

Lemma live_applied linkName ack w w1 id spec :
  applyLease linkName ack w = (w1, Ok tt) -> live_spec w1 id spec <-> live_with linkName ack w id spec.
Proof.
  intros HA. destruct (applyLease_address _ _ _ _ HA) as (_ & _ & S1 & P1). unfold live_spec, live_with.
  rewrite S1, P1. case_decide; naive_solver.
Qed.

(** No two of the specs of the predicate are of the same network of a link. *)
Definition networks_apart (ls : list LinkMessage) (P : string -> AddressSpecSpec -> Prop) : Prop :=
  forall id id' spec spec', P id spec -> P id' spec' -> spec_network ls spec = spec_network ls spec' -> id = id'.

Lemma NoDup_live_networks w wl l :
  ReaderList AddressSpecSpec w = (wl, Ok l) ->
  networks_apart (links w) (live_spec w) -> NoDup (live_networks (links w) l).
Proof.
  intros HL HU. destruct (store_list _ _ _ HL) as [HN Hin]. unfold live_networks.
  assert (forall r, r ∈ filter (fun r => res_Phase r = PhaseRunning) l -> live_spec w (res_ID r) (TypedSpec r)) as HF.
  { intros r [Hp Hr]%list_elem_of_filter. apply Hin in Hr as [HS HP]. split; congruence. }
  assert (NoDup (res_ID <$> filter (fun r => res_Phase r = PhaseRunning) l)) as HN'.
  { eapply sublist_NoDup; [exact HN|]. by apply fmap_sublist, sublist_filter. }
  clear HN Hin HL. set (l0 := filter _ l) in *. clearbody l0. induction l0 as [|r l' IH]; [constructor|].
  cbn in HN'. apply NoDup_cons in HN' as [Hni HN']. cbn. apply NoDup_cons. split.
  - intros (r' & HE & Hr')%list_elem_of_fmap. apply Hni. apply list_elem_of_fmap. exists r'. split; [|done].
    apply (HU _ _ (TypedSpec r) (TypedSpec r')); [apply HF; left|apply HF; by right|done].
  - apply IH; [|done]. intros x Hx. apply HF. by right.
Qed.

(** ** Properties *)

(** C9: a lease reaches the kernel.  When a lease of an IPv4 address is applied
    and the address controller then takes its turn, both without an error, the
    kernel has the leased address with the length of its network on the link of
    the lease, of global scope and permanent; and no address is lost, except one whose place a live spec
    takes, and those of the same network, which may go with it.  This needs
    specs as the DHCP controller writes them, no two live ones of the same
    network of a link, and a kernel that has no address twice. *)
Theorem lease_reaches_kernel linkName ack p w w' :
  FromStdIPNet (YourIPAddr ack) (SubnetMask ack) = Some p -> Is4 (p_addr p) = true -> 0 <= Bits p <= 32 ->
  lease_turn linkName ack w = (w', Ok tt) ->
  table_ok (addrs w) -> resolveLinkName (links w) linkName <> 0 ->
  (forall id spec, spec_of AddressSpecSpec w id = Some spec -> spec_ok spec) ->
  networks_apart (links w) (live_with linkName ack w) ->
  (exists a, a ∈ addrs w' /\ am_Index a = resolveLinkName (links w) linkName /\ am_PrefixLength a = Bits p /\
     IP_Equal (am_Address a) (AsSlice (p_addr p)) = true /\
     am_Scope a = uint8 ScopeGlobal /\ Managed (addressFlags a) = Managed AddressPermanent) /\
  (forall b, b ∈ addrs w ->
     (forall id spec, live_with linkName ack w id spec -> outdated (links w) (addrs w) spec ->
        spec_network (links w) spec <> network b) -> b ∈ addrs w').
Proof.
  intros Hp H4 Hb HT Htab Hlink Hok HU. unfold lease_turn in HT. apply M_bind_ok in HT as (w1 & [] & HA & HR).
  destruct (applyLease_address _ _ _ _ HA) as (L1 & A1 & S1 & P1).
  apply reconcile_split in HR as [(_ & _ & ?)|(wl & l & w2 & HL & L2 & A2 & HS)]; [done|].
  assert (lease_prefix ack = p) as Hlp by (unfold lease_prefix; by rewrite Hp).
  assert (forall id spec, spec_of AddressSpecSpec w1 id = Some spec -> spec_ok spec) as Hok1.
  { intros id spec. rewrite S1. case_decide; [|apply Hok]. intros [= <-].
    rewrite <-Hlp in Hb, H4. split; [exact H4|]. by split; [exact Hb|]. }
  destruct (sync_loop (links w1) (addrs w1) l w2 w') as (_ & _ & HK & HE); [| | | |exact HS|].
  - apply Forall_forall. intros r Hr. apply (proj2 (store_list _ _ _ HL)) in Hr as [Hr _]. by eapply Hok1.
  - apply (NoDup_live_networks _ _ _ HL). rewrite L1. intros id id' spec spec' H1 H2.
    apply HU; by eapply live_applied.
  - by rewrite A1.
  - intros a _. by rewrite A2.
  - split.
    + destruct (HE (mkResource (address_id linkName) PhaseRunning (lease_address linkName ack))) as (a & Ha & Hk & Hup).
      * apply (store_list _ _ _ HL). cbn [res_ID TypedSpec res_Phase]. by rewrite S1, P1, !decide_True.
      * done.
      * by rewrite L1.
      * exists a. rewrite L1 in Hk. unfold up_to_date in Hup. apply andb_true_iff in Hup as [Hs%bool_decide_eq_true Hf%bool_decide_eq_true].
        unfold key, spec_key in Hk. cbn [TypedSpec lease_address as_LinkName as_Address] in Hk. rewrite Hlp in Hk.
        injection Hk as HI HP HC. split_and!; [done..| |done|done]. rewrite IP_Equal_canon. by apply bool_decide_eq_true_2.
    + intros b Hbin Hfree. apply HK; [by rewrite A2, A1|]. intros [id ph spec] Hr Hph. cbn [res_Phase TypedSpec] in *.
      rewrite L1, A1. apply (Hfree id). eapply live_applied; [exact HA|]. apply (store_list _ _ _ HL) in Hr as [HS1 HP1].
      by split; [|subst ph].
Qed.

End Lease.

(** ** A machine with one link *)

Module NetworkDemo.

Record world := mkWorld {
  d_links : list LinkMessage; d_addrs : list AddressMessage;
  d_specs : store AddressSpecSpec; d_fins : gmap string (gset string);
  d_routes : store RouteSpecSpec; d_resolvers : store ResolverSpecSpec
}.

Definition set_specs s w := mkWorld (d_links w) (d_addrs w) s (d_fins w) (d_routes w) (d_resolvers w).
Definition set_addrs l w := mkWorld (d_links w) l (d_specs w) (d_fins w) (d_routes w) (d_resolvers w).
Definition set_fins f w := mkWorld (d_links w) (d_addrs w) (d_specs w) f (d_routes w) (d_resolvers w).
Definition set_routes s w := mkWorld (d_links w) (d_addrs w) (d_specs w) (d_fins w) s (d_resolvers w).
Definition set_resolvers s w := mkWorld (d_links w) (d_addrs w) (d_specs w) (d_fins w) (d_routes w) s.

#[export] Instance w_addresses : SpecWriter world AddressSpecSpec := {|
  WriterModify id f := fun w => (set_specs (store_modify DHCPDemo.zeroAddress id f (d_specs w)) w, Ok tt);
  Destroy id := fun w => (set_specs (delete id (d_specs w)) w, Ok tt);
  zero_spec := DHCPDemo.zeroAddress; spec_of w id := d_specs w !! id
|}.
#[export] Instance w_routes : SpecWriter world RouteSpecSpec := {|
  WriterModify id f := fun w => (set_routes (store_modify DHCPDemo.zeroRoute id f (d_routes w)) w, Ok tt);
  Destroy id := fun w => (set_routes (delete id (d_routes w)) w, Ok tt);
  zero_spec := DHCPDemo.zeroRoute; spec_of w id := d_routes w !! id
|}.
#[export] Instance w_resolvers : SpecWriter world ResolverSpecSpec := {|
  WriterModify id f := fun w => (set_resolvers (store_modify DHCPDemo.zeroResolver id f (d_resolvers w)) w, Ok tt);
  Destroy id := fun w => (set_resolvers (delete id (d_resolvers w)) w, Ok tt);
  zero_spec := DHCPDemo.zeroResolver; spec_of w id := d_resolvers w !! id
|}.

#[export] Instance w_addresses_laws : SpecWriterLaws world AddressSpecSpec.
Proof. DHCPDemo.store_laws. Qed.
#[export] Instance w_routes_laws : SpecWriterLaws world RouteSpecSpec.
Proof. DHCPDemo.store_laws. Qed.
#[export] Instance w_resolvers_laws : SpecWriterLaws world ResolverSpecSpec.
Proof. DHCPDemo.store_laws. Qed.

#[export] Instance w_ar : WriterFrame world AddressSpecSpec RouteSpecSpec.
Proof. DHCPDemo.frame_law. Qed.
#[export] Instance w_as : WriterFrame world AddressSpecSpec ResolverSpecSpec.
Proof. DHCPDemo.frame_law. Qed.
#[export] Instance w_ra : WriterFrame world RouteSpecSpec AddressSpecSpec.
Proof. DHCPDemo.frame_law. Qed.
#[export] Instance w_rs : WriterFrame world RouteSpecSpec ResolverSpecSpec.
Proof. DHCPDemo.frame_law. Qed.
#[export] Instance w_sa : WriterFrame world ResolverSpecSpec AddressSpecSpec.
Proof. DHCPDemo.frame_law. Qed.
#[export] Instance w_sr : WriterFrame world ResolverSpecSpec RouteSpecSpec.
Proof. DHCPDemo.frame_law. Qed.

(** Nothing is torn down here. *)
#[export] Instance w_phases : AddressPhases world := {| phase_of _ _ := PhaseRunning |}.

#[export] Instance w_store : SpecStore world AddressSpecSpec := {|
  ReaderList w := (w, Ok ((fun '(id, spec) => mkResource id PhaseRunning spec) <$> map_to_list (d_specs w)));
  AddFinalizer id name w := (set_fins (<[id := {[name]} ∪ default ∅ (d_fins w !! id)]> (d_fins w)) w, Ok tt);
  RemoveFinalizer id name w := (set_fins (<[id := default ∅ (d_fins w !! id) ∖ {[name]}]> (d_fins w)) w, Ok tt);
  finalizers w id := default ∅ (d_fins w !! id)
|}.

#[export] Instance w_netlink : AddressNetlink world := {|
  Link_List w := (w, Ok (d_links w));
  Address_List w := (w, Ok (d_addrs w));
  Address_Delete m w :=
    if decide (Exists (fun a => key a = key m) (d_addrs w))
    then (set_addrs (Demo.removed m (d_addrs w)) w, Ok tt)
    else (w, Err (ESentinel "cannot assign requested address"));
  Address_New m w :=
    if decide (Exists (fun a => key a = key m) (d_addrs w)) then (w, Err (ESentinel os_ErrExist))
    else (set_addrs (d_addrs w ++ [Demo.reported m (d_addrs w)]) w, Ok tt);
  links := d_links;
  addrs := d_addrs
|}.

#[export] Instance w_laws : AddressLaws world.
Proof.
  split.
  - by intros w w' r [= <- <-].
  - by intros id name w w' r [= <- <-].
  - intros id name w w' r [= <- <-]. split_and!; [done..|]. intros _. simpl. by rewrite lookup_insert_eq.
  - intros w w' r [= <- <-]. split_and!; [done..|]. by intros l [= <-].
  - intros w w' r [= <- <-]. split_and!; [done..|]. by intros l [= <-].
  - intros m w w' r. simpl. case_decide; intros [= <- <-]; (split; [done|]); [apply Demo.removed_spec|done].
  - intros m w w' r. simpl. case_decide as Hx; intros [= <- <-]; (split; [done|]).
    + split; [done|]. intros _. by apply Demo.taken_ipv4.
    + exists (Demo.reported m (d_addrs w)). rewrite Demo.flags_reported. split_and!; [done..|]. intros b. simpl.
      by rewrite elem_of_app, list_elem_of_singleton.
Qed.

#[export] Instance w_address_store : AddressStore world.
Proof.
  split.
  - intros w w' l [= <- <-]. split.
    + rewrite <-list_fmap_compose. rewrite (list_fmap_ext _ fst); [apply NoDup_fst_map_to_list|]. by intros i [].
    + intros [id ph spec]. rewrite list_elem_of_fmap. cbn. split.
      * intros ([id' spec'] & [= -> -> ->] & Hin). split; [by apply elem_of_map_to_list|done].
      * intros [Hs <-]. exists (id, spec). split; [done|]. by apply elem_of_map_to_list.
  - by intros id f w w' r [= <- <-].
  - intros id f w w' [= <-] id'. simpl. by case_decide.
Qed.

#[export] Instance w_apart_routes : Apart world RouteSpecSpec.
Proof. split; by intros id f w w' r [= <- <-]. Qed.
#[export] Instance w_apart_resolvers : Apart world ResolverSpecSpec.
Proof. split; by intros id f w w' r [= <- <-]. Qed.

(** A link with an address of its own; the lease is that of [DHCPDemo]. *)
Definition booted : world := mkWorld [Demo.demo_link] [Demo.demo_other] ∅ ∅ ∅ ∅.

(** One that has the leased address too, of another scope, and a secondary
    address of its network. *)
Definition stale : world :=
  let wrong := mkAddressMessage 2 24 128 253 2 [192; 168; 1; 42] [192; 168; 1; 42] [192; 168; 1; 255] 128 in
  mkWorld [Demo.demo_link] [Demo.demo_other; wrong; Demo.reported (new_message 2 Demo.demo_spec) [wrong]] ∅ ∅ ∅ ∅.

Definition leased : world := fst (lease_turn "eth0" DHCPDemo.ack stale).

Example leased_addrs : length (addrs leased) = 2%nat.
Proof. by vm_compute. Qed.

Lemma lease_reaches_kernel_witness :
  (exists a, a ∈ addrs leased /\ am_Index a = 2 /\ am_PrefixLength a = 24 /\
     IP_Equal (am_Address a) [192; 168; 1; 42] = true) /\ Demo.demo_other ∈ addrs leased.
Proof.
  destruct (lease_reaches_kernel "eth0" DHCPDemo.ack (PrefixFrom (Addr4 3232235818) 24) stale leased) as [HA HO].
  - by vm_compute.
  - done.
  - by vm_compute.
  - by vm_compute.
  - split.
    + intros a b Ha Hb. revert a b Ha Hb.
      by intros a b [->|[->|[->|[]%elem_of_nil]%elem_of_cons]%elem_of_cons]%elem_of_cons
        [->|[->|[->|[]%elem_of_nil]%elem_of_cons]%elem_of_cons]%elem_of_cons; vm_compute.
    + by intros a [->|[->|[->|[]%elem_of_nil]%elem_of_cons]%elem_of_cons]%elem_of_cons.
  - by vm_compute.
  - done.
  - intros id id' spec spec' H1 H2 _. unfold live_with in H1, H2.
    destruct (decide (id = _)) as [->|]; [|by destruct H1 as [? _]].
    destruct (decide (id' = _)) as [->|]; [done|by destruct H2 as [? _]].
  - split.
    + destruct HA as (a & H1 & H2 & H3 & H4 & _). exists a. split; [exact H1|]. split; [exact H2|]. split; [exact H3|exact H4].
    + apply HO; [left|]. intros id spec. unfold live_with. case_decide; [|by intros [? _]]. intros -> _. by vm_compute.
Defined.

End NetworkDemo.
