(* ===== verification/LeaseRoutes.v ===== *)
(** * From the routers of a lease to the kernel

    [Network] follows the address of a lease; this file follows its routes: the
    DHCP controller ([dhcp4.go]) writes them as route specs, and the route
    controller ([route_spec.go]) makes a pass over these. *)

From stdpp Require Import pretty.
From S2P Require Import Prelude NetAddr AddressSpec RouteSpec Resources DHCP4.

(** ** The store that both controllers use *)

Class RoutePhases (W : Type) := { route_phase : W -> string -> Phase }.

(** Writing a resource does not change the kernel, nor the phases of other
    resources. *)
Class BesideRoutes (W Spec : Type) `{!SpecWriter W Spec, !RouteNetlink W, !RoutePhases W} : Prop := {
  beside_kernel id f w w' r : WriterModify Spec id f w = (w', r) -> routes w' = routes w /\ route_links w' = route_links w;
  beside_phase id f w w' r : WriterModify Spec id f w = (w', r) -> forall id', route_phase w' id' = route_phase w id'
}.

Class RouteStore (W : Type) `{!SpecWriter W RouteSpecSpec, !SpecStore W RouteSpecSpec, !RouteNetlink W, !RoutePhases W} : Prop := {
  route_list w w' l : ReaderList RouteSpecSpec w = (w', Ok l) ->
    NoDup (res_ID <$> l) /\
    forall r, r ∈ l <-> spec_of RouteSpecSpec w (res_ID r) = Some (TypedSpec r) /\ route_phase w (res_ID r) = res_Phase r;
  route_kernel id f w w' r : WriterModify RouteSpecSpec id f w = (w', r) -> routes w' = routes w /\ route_links w' = route_links w;
  route_written id f w w' : WriterModify RouteSpecSpec id f w = (w', Ok tt) ->
    forall id', route_phase w' id' = if decide (id' = id) then PhaseRunning else route_phase w id'
}.

(** What an IPv4 route of the main table takes in the kernel: there is one for a
    destination and a metric, since routes are added with [NLM_F_EXCL]. *)
Definition slot (r : RouteMessage) : option (Z * list Z * Z) :=
  if decide (rm_Family r = FamilyInet4 /\ rm_Table r = TableMain)
  then Some (rm_DstLength r, if decide (rm_DstLength r = 0) then [] else canon (rm_Dst r), rm_Priority r)
  else None.

Lemma slot_eq x y :
  rm_Family x = rm_Family y -> rm_Table x = rm_Table y -> rm_DstLength x = rm_DstLength y -> rm_Priority x = rm_Priority y ->
  (rm_DstLength x <> 0 -> canon (rm_Dst x) = canon (rm_Dst y)) -> slot x = slot y.
Proof.
  unfold slot. intros -> -> -> -> HD. case_decide; [|done]. destruct (decide (rm_DstLength y = 0)); [done|]. by rewrite HD.
Qed.

Definition slots_ok (l : list RouteMessage) : Prop :=
  forall x y, x ∈ l -> y ∈ l -> is_Some (slot x) -> slot x = slot y -> x = y.

Class RouteExcl (W : Type) `{!RouteNetlink W} : Prop := {
  route_excl m w w' x y : Route_Add m w = (w', Ok tt) -> reported_as m y -> x ∈ routes w -> is_Some (slot y) -> slot x <> slot y
}.

(** ** The routes of a lease *)

(** The options of a packet are bytes. *)
Definition octets (ack : DHCPv4) : Prop := forall code v, Options ack !! code = Some v -> Forall (fun b => 0 <= b < 256) v.

Lemma be_value_4 l : length l = 4%nat -> Forall (fun b => 0 <= b < 256) l -> 0 <= be_value l < 2 ^ 32.
Proof.
  destruct l as [|a [|b [|c [|d [|? ?]]]]]; try done. intros _. rewrite !Forall_cons. unfold be_value. cbn [foldl]. lia.
Qed.

Lemma read_ips_ok fuel buf ip :
  Forall (fun b => 0 <= b < 256) buf -> ip ∈ fst (read_ips fuel buf) -> length ip = 4%nat /\ Forall (fun b => 0 <= b < 256) ip.
Proof.
  revert buf. induction fuel as [|fuel IH]; intros buf HF; cbn; [by intros ?%elem_of_nil|].
  destruct (decide (4 <= length buf)%nat) as [Hl|]; [|by intros ?%elem_of_nil].
  destruct (read_ips fuel (drop 4 buf)) as [ips rest] eqn:E. cbn. intros [->|Hin]%elem_of_cons.
  - split; [rewrite length_take; lia|by apply Forall_take].
  - apply (IH (drop 4 buf)); [by apply Forall_drop|by rewrite E].
Qed.

(** Routers are IPv4 addresses. *)
Lemma Router_addr ack router :
  octets ack -> router ∈ Router ack -> exists v, convertIP router = Addr4 v /\ 0 <= v < 2 ^ 32.
Proof.
  intros HO. unfold Router, GetIPs. destruct (Options ack !! OptionRouter) as [v|] eqn:Ev; [|by intros ?%elem_of_nil].
  intros Hin. assert (router ∈ fst (read_ips (length v) v)) as Hin'.
  { destruct v as [|b v]; [by apply elem_of_nil in Hin|]. destruct (read_ips _ _) as [ips rest]. cbn.
    case_decide; [done|by apply elem_of_nil in Hin]. }
  apply read_ips_ok in Hin' as [H4 HF]; [|by eapply HO]. exists (be_value router). split; [|by apply be_value_4].
  unfold convertIP, FromStdIP, AddrFromSlice. by rewrite (decide_True (P := length router = 4%nat)).
Qed.

Definition normal (r : RouteSpecSpec) : RouteSpecSpec := fst (Normalize r).

(** The two kinds of routes of a lease once normalized: by a router, and to one. *)
Definition by_router (linkName : string) (a : Addr) (src : Addr) (s : RouteSpecSpec) : Prop :=
  s = mkRouteSpecSpec FamilyInet4 zeroPrefix src a linkName TableMain 0 ScopeGlobal TypeUnicast 0 ProtocolBoot 0.
Definition to_router (linkName : string) (v : Z) (src : Addr) (s : RouteSpecSpec) : Prop :=
  s = mkRouteSpecSpec FamilyInet4 (PrefixFrom (Addr4 v) 32) src AddrZero linkName TableMain 0 ScopeLink TypeUnicast 0 ProtocolBoot 0.

(** An unspecified address is cleared. *)
Definition cleared (a : Addr) : Addr := if decide (unspecified a) then AddrZero else a.

Lemma normalize_addr_cleared a f : fst (normalize_addr a f) = cleared a.
Proof. rewrite normalize_addr_spec. unfold cleared, unspecified. repeat case_decide; naive_solver. Qed.

Lemma normal_fields r :
  normal r = mkRouteSpecSpec (rs_Family r) (fst (normalize_destination (rs_Destination r))) (cleared (rs_Source r)) (cleared (rs_Gateway r))
    (rs_OutLinkName r) (rs_Table r) (rs_Priority r)
    (normalize_scope (fst (normalize_destination (rs_Destination r))) (cleared (rs_Gateway r))) (rs_Type r) (rs_Flags r) (rs_Protocol r) (rs_MTU r).
Proof.
  unfold normal, Normalize. destruct (normalize_destination (rs_Destination r)) as [d f].
  pose proof (normalize_addr_cleared (rs_Gateway r) f) as <-. destruct (normalize_addr (rs_Gateway r) f) as [g f1].
  pose proof (normalize_addr_cleared (rs_Source r) f1) as <-. by destruct (normalize_addr (rs_Source r) f1).
Qed.

Lemma cleared_4 v : cleared (Addr4 v) = if decide (v = 0) then AddrZero else Addr4 v.
Proof. unfold cleared, unspecified, zero4, zero16. repeat case_decide; naive_solver. Qed.

Lemma default_normal linkName src v :
  by_router linkName (if decide (v = 0) then AddrZero else Addr4 v) (cleared src)
    (normal (mkRouteSpecSpec FamilyInet4 zeroPrefix src (Addr4 v) linkName TableMain 0 ScopeGlobal TypeUnicast 0 ProtocolBoot 0)).
Proof.
  rewrite normal_fields. cbn [rs_Destination rs_Gateway rs_Source rs_Family rs_OutLinkName]. rewrite cleared_4. unfold by_router.
  assert (fst (normalize_destination zeroPrefix) = zeroPrefix) as -> by (by vm_compute). f_equal. case_decide; by vm_compute.
Qed.

Lemma lease_route_kinds linkName ack r :
  octets ack -> r ∈ lease_routes linkName ack ->
  let src := cleared (p_addr (lease_prefix ack)) in
  exists v, 0 <= v < 2 ^ 32 /\
    (by_router linkName (if decide (v = 0) then AddrZero else Addr4 v) src (normal r) \/ to_router linkName v src (normal r)).
Proof.
  intros HO (router & Hr & Hin)%list_elem_of_bind src. destruct (Router_addr ack router HO Hin) as (v & Hv & Hb).
  exists v. split; [done|].
  unfold router_routes in Hr. rewrite Hv in Hr. apply elem_of_cons in Hr as [->|Hr]; [left; apply default_normal|].
  - right. rewrite normal_fields. destruct (Contains _ _); [by apply elem_of_nil in Hr|]. apply list_elem_of_singleton in Hr as ->.
    cbn [rs_Destination rs_Gateway rs_Source rs_Family]. unfold to_router.
    assert (fst (normalize_destination (PrefixFrom (Addr4 v) (BitLen (Addr4 v)))) = PrefixFrom (Addr4 v) 32) as ->.
    { rewrite normalize_destination_spec. by rewrite !decide_False by (by intros [? _]). }
    done.
Qed.

Lemma canon_4 v : canon (be_bytes 4 v) = be_bytes 4 v.
Proof. unfold canon. by rewrite decide_False by (by intros [? _]). Qed.

Lemma be_bytes_4_inj v v' : 0 <= v < 2 ^ 32 -> 0 <= v' < 2 ^ 32 -> be_bytes 4 v = be_bytes 4 v' -> v = v'.
Proof. intros Hv Hv' HE. by rewrite <-(be_value_bytes_4 v Hv), HE, be_value_bytes_4. Qed.

Lemma lease_route_ok linkName ack r : octets ack -> r ∈ lease_routes linkName ack -> route_ok (normal r).
Proof.
  intros HO (v & Hv & [-> | ->])%(lease_route_kinds _ _ _ HO); unfold route_ok; cbn [rs_Family rs_Table rs_Flags rs_Destination].
  - split_and!; by vm_compute.
  - assert (netipPrefixBitsCorrected (PrefixFrom (Addr4 v) 32) = 32) as -> by done.
    assert (wf_prefix (PrefixFrom (Addr4 v) 32)) as Hwf by (split; [exact Hv|by vm_compute]). split_and!; try done.
    intros _. unfold no_host_bits. cbn [AsSlice p_addr PrefixFrom]. rewrite canon_4, be_bytes_length. apply Z.mod_1_r.
Qed.

Lemma lease_route_link linkName ack r : r ∈ lease_routes linkName ack -> rs_OutLinkName (normal r) = linkName.
Proof. intros [_ HL]%lease_routes_inet4. rewrite normal_fields. done. Qed.

(** What a route matches by. *)
Lemma matches_fields s x :
  route_matches s x = true ->
  rm_Family x = uint8 (rs_Family s) /\ rm_Table x = rs_Table s /\ rm_DstLength x = netipPrefixBitsCorrected (rs_Destination s) /\
  (rm_DstLength x <> 0 -> canon (rm_Dst x) = canon (AsSlice (p_addr (rs_Destination s)))) /\
  canon (rm_Gateway x) = canon (AsSlice (rs_Gateway s)) /\ routePriorityMatches x s = true.
Proof.
  unfold route_matches, routeFamilyMatches, routeDestionationMatches, routeGatewayMatches, routeTableMatches.
  rewrite !andb_true_iff, !IP_Equal_canon. intros ((((HF & HD) & HG) & HT) & HP).
  apply bool_decide_eq_true in HF, HG, HT. case_decide as HL; [done|]. split_and!; try done.
  intros Hn. apply orb_true_iff in HD as [?%bool_decide_eq_true|?%bool_decide_eq_true]; done.
Qed.

(** Routes of a lease that match the same route of the kernel are the same. *)
Lemma lease_routes_same linkName ack r r' x :
  octets ack -> r ∈ lease_routes linkName ack -> r' ∈ lease_routes linkName ack ->
  route_matches (normal r) x = true -> route_matches (normal r') x = true -> normal r = normal r'.
Proof.
  intros HO Hr Hr' (_ & _ & L1 & D1 & G1 & _)%matches_fields (_ & _ & L2 & D2 & G2 & _)%matches_fields.
  destruct (lease_route_kinds _ _ _ HO Hr) as (v & Hv & K), (lease_route_kinds _ _ _ HO Hr') as (v' & Hv' & K').
  destruct K as [K|K], K' as [K'|K']; rewrite K in *; rewrite K' in *; cbn [rs_Destination rs_Gateway] in *.
  - rewrite G1 in G2. assert (v = v') as <-; [|done].
    destruct (decide (v = 0)) as [->|], (decide (v' = 0)) as [->|]; try done.
    cbn [AsSlice] in G2. rewrite !canon_4 in G2. by apply be_bytes_4_inj.
  - by rewrite L1 in L2.
  - by rewrite L1 in L2.
  - assert (rm_DstLength x <> 0) as Hn by (by rewrite L1). specialize (D1 Hn). specialize (D2 Hn). rewrite D1 in D2.
    cbn [AsSlice PrefixFrom p_addr] in D2. rewrite !canon_4 in D2. assert (v = v') as <-; [|done]. by apply be_bytes_4_inj.
Qed.

(** Their ids tell them apart. *)
Abbreviation slash := (Ascii.ascii_of_nat 47).

Lemma dotted_nonempty v : dotted v <> "".
Proof. rewrite dotted_text. by destruct (pretty (Z.land (Z.shiftr v 24) 255)). Qed.

Lemma by_router_id linkName a src s :
  by_router linkName a src s -> route_id s = "inet4" +:+ String slash (addr_text a +:+ String slash ("" +:+ String slash "0")).
Proof. by intros ->. Qed.

Lemma prefix_text_32 v : prefix_text (PrefixFrom (Addr4 v) 32) = dotted v +:+ "/" +:+ pretty 32.
Proof. unfold prefix_text. by rewrite decide_False. Qed.

Lemma to_router_id linkName v src s :
  to_router linkName v src s -> route_id s = "inet4" +:+ String slash ("" +:+ String slash (dotted v +:+ String slash ("32" +:+ String slash "0"))).
Proof.
  intros ->. unfold route_id, RouteID. cbn [rs_Table rs_Family rs_Destination rs_Gateway rs_Priority rs_OutLinkName].
  rewrite prefix_text_32, <-str_app_assoc, <-str_app_assoc. reflexivity.
Qed.

Lemma router_text v : lacks slash (addr_text (if decide (v = 0) then AddrZero else Addr4 v)) = true.
Proof. case_decide; [done|apply dotted_lacks]. Qed.

Lemma lease_routes_id linkName ack r r' :
  octets ack -> r ∈ lease_routes linkName ack -> r' ∈ lease_routes linkName ack ->
  route_id (normal r) = route_id (normal r') -> normal r = normal r'.
Proof.
  intros HO Hr Hr'. destruct (lease_route_kinds _ _ _ HO Hr) as (v & Hv & K), (lease_route_kinds _ _ _ HO Hr') as (v' & Hv' & K').
  assert (forall s s', "inet4" +:+ String slash s = "inet4" +:+ String slash s' -> s = s') as Hpre by (by intros s s' [= ->]).
  destruct K as [K|K], K' as [K'|K'].
  - rewrite (by_router_id _ _ _ _ K), (by_router_id _ _ _ _ K'). intros [HE _]%Hpre%str_cut; [|apply router_text..].
    rewrite K, K'. assert (v = v') as ->; [|done]. destruct (decide (v = 0)) as [->|], (decide (v' = 0)) as [->|]; try done.
    + by destruct (dotted_nonempty v').
    + by destruct (dotted_nonempty v).
    + apply be_bytes_4_inj; [done..|]. by apply dotted_inj.
  - rewrite (by_router_id _ _ _ _ K), (to_router_id _ _ _ _ K'). intros [_ HE]%Hpre%str_cut; [|apply router_text|done].
    apply str_cut in HE as [HE _]; [|done|apply dotted_lacks]. by destruct (dotted_nonempty v').
  - rewrite (to_router_id _ _ _ _ K), (by_router_id _ _ _ _ K'). intros [_ HE]%Hpre%str_cut; [|done|apply router_text].
    apply str_cut in HE as [HE _]; [|apply dotted_lacks|done]. by destruct (dotted_nonempty v).
  - rewrite (to_router_id _ _ _ _ K), (to_router_id _ _ _ _ K'). intros [_ HE]%Hpre%str_cut; [|done..].
    apply str_cut in HE as [HE _]; [|apply dotted_lacks..]. apply dotted_inj, be_bytes_4_inj in HE as ->; [|done..]. by rewrite K, K'.
Qed.

Section lease.
Context {W : Type} `{!SpecWriter W AddressSpecSpec} `{!SpecWriter W RouteSpecSpec} `{!SpecWriter W ResolverSpecSpec}
  `{!SpecWriterLaws W AddressSpecSpec} `{!SpecWriterLaws W RouteSpecSpec} `{!SpecWriterLaws W ResolverSpecSpec}
  `{!WriterFrame W AddressSpecSpec RouteSpecSpec} `{!WriterFrame W AddressSpecSpec ResolverSpecSpec}
  `{!WriterFrame W RouteSpecSpec AddressSpecSpec} `{!WriterFrame W RouteSpecSpec ResolverSpecSpec}
  `{!WriterFrame W ResolverSpecSpec AddressSpecSpec} `{!WriterFrame W ResolverSpecSpec RouteSpecSpec}
  `{!SpecStore W RouteSpecSpec} `{!RouteNetlink W} `{!RouteLaws W} `{!RouteReads W} `{!RoutePhases W} `{!RouteStore W}
  `{!BesideRoutes W AddressSpecSpec} `{!BesideRoutes W ResolverSpecSpec}.
Context (show : RouteMessage -> string).
Implicit Types w : W.

(** A lease that arrives, and the pass of the route controller that follows. *)
Definition lease_pass (linkName : string) (ack : DHCPv4) : M W unit :=
  _ ← applyLease linkName ack;
  route_reconcile show.

(** *** What the lease leaves *)

Definition of_lease (linkName : string) (ack : DHCPv4) (id : string) : Prop :=
  exists r, r ∈ lease_routes linkName ack /\ route_id (normal r) = id.

Lemma apply_routes_phase rts w w' :
  for_range apply_route rts w = (w', Ok tt) ->
  routes w' = routes w /\ route_links w' = route_links w /\
  (forall id, (exists r, r ∈ rts /\ route_id (normal r) = id) -> route_phase w' id = PhaseRunning) /\
  (forall id, ~ (exists r, r ∈ rts /\ route_id (normal r) = id) -> route_phase w' id = route_phase w id).
Proof.
  revert w. induction rts as [|r rts IH]; intros w.
  { intros [= <-]. split_and!; try done. by intros id (r & ?%elem_of_nil & _). }
  intros (w1 & H1 & (R2 & L2 & P2 & Q2)%IH)%for_range_cons_ok. unfold apply_route in H1.
  apply wrap_err_ok in H1 as (r0 & H1 & HO). rewrite (HO tt eq_refl) in H1.
  pose proof (route_kernel _ _ _ _ _ H1) as [R1 L1]. pose proof (route_written _ _ _ _ H1) as P1.
  split_and!; [congruence..| |]; intros id.
  - intros (r' & [->|Hr']%elem_of_cons & Hid); [|apply P2; eauto].
    destruct (decide (Exists (fun r' => route_id (normal r') = id) rts)) as [(r2 & ? & ?)%Exists_exists|HN]; [apply P2; eauto|].
    rewrite Q2 by (intros (r2 & ? & ?); apply HN, Exists_exists; eauto). rewrite P1. by rewrite decide_True by (by rewrite <-Hid).
  - intros HN. rewrite Q2 by (intros (r2 & ? & ?); apply HN; exists r2; split; [by right|done]). rewrite P1.
    rewrite decide_False; [done|]. intros ->. apply HN. exists r. split; [left|done].
Qed.

Lemma applyLease_routes linkName ack w w' :
  applyLease linkName ack w = (w', Ok tt) ->
  routes w' = routes w /\ route_links w' = route_links w /\
  (forall id, spec_of RouteSpecSpec w' id = written_route id (lease_routes linkName ack) (spec_of RouteSpecSpec w id)) /\
  (forall id, of_lease linkName ack id -> route_phase w' id = PhaseRunning).
Proof.
  intros (w1 & w2 & E1 & E2 & E3)%applyLease_inv.
  destruct (apply_routes_ok _ _ _ E2) as (HR & _ & _). destruct (apply_routes_phase _ _ _ E2) as (R2 & L2 & P2 & _).
  pose proof (beside_kernel _ _ _ _ _ E1) as [R1 L1].
  assert (forall id, spec_of RouteSpecSpec w1 id = spec_of RouteSpecSpec w id) as S1 by (intros id; by eapply (modify_frame _ _ _ _ _ E1)).
  assert (routes w' = routes w2 /\ route_links w' = route_links w2 /\
    (forall id, spec_of RouteSpecSpec w' id = spec_of RouteSpecSpec w2 id) /\ forall id, route_phase w' id = route_phase w2 id)
    as (R3 & L3 & S3 & P3).
  { case_decide; [|by subst w']. pose proof (beside_kernel _ _ _ _ _ E3) as [? ?].
    split_and!; [done..| |by eapply beside_phase]. intros id. by eapply (modify_frame _ _ _ _ _ E3). }
  split_and!; [congruence..| |]; intros id; [by rewrite S3, HR, S1|]. rewrite P3. apply P2.
Qed.

(** *** The pass *)

(** The routes that were there before and that the lease does not write are
    well-formed, and match no route of the kernel that another one or one of
    the lease matches. *)
Definition other_route linkName ack w (id : string) (s : RouteSpecSpec) : Prop :=
  spec_of RouteSpecSpec w id = Some s /\ ~ of_lease linkName ack id.

Record others_apart (linkName : string) (ack : DHCPv4) w : Prop := {
  other_ok id s : other_route linkName ack w id s -> route_ok s;
  other_other id id' s s' x : other_route linkName ack w id s -> other_route linkName ack w id' s' -> id <> id' ->
    route_matches s x = true -> route_matches s' x = false;
  other_lease id s r x : other_route linkName ack w id s -> r ∈ lease_routes linkName ack ->
    route_matches (normal r) x = true -> route_matches s x = false
}.

(** A spec of the store after the lease. *)
Lemma stored_cases linkName ack w id s :
  written_route id (lease_routes linkName ack) (spec_of RouteSpecSpec w id) = Some s ->
  (exists r, r ∈ lease_routes linkName ack /\ route_id (normal r) = id /\ s = normal r) \/ other_route linkName ack w id s.
Proof.
  intros HS. destruct (written_route_cases id (lease_routes linkName ack) (spec_of RouteSpecSpec w id)) as [(r & Hr & Hi & E)|[HN E]];
    rewrite E in HS.
  - left. injection HS as <-. eauto.
  - right. split; [done|]. intros (r & Hr & Hi). by apply (HN r).
Qed.

Lemma stored_apart linkName ack w id id' s s' x :
  octets ack -> others_apart linkName ack w ->
  written_route id (lease_routes linkName ack) (spec_of RouteSpecSpec w id) = Some s ->
  written_route id' (lease_routes linkName ack) (spec_of RouteSpecSpec w id') = Some s' -> id <> id' ->
  route_matches s x = true -> route_matches s' x = false.
Proof.
  intros HO [_ H2 H3] [(r & Hr & Hi & ->)|Ho]%stored_cases [(r' & Hr' & Hi' & ->)|Ho']%stored_cases Hne Hm.
  - apply not_true_iff_false. intros Hm'. apply Hne. rewrite <-Hi, <-Hi'. f_equal. by eapply lease_routes_same.
  - by apply (H3 id' s' r).
  - apply not_true_iff_false. intros Hm'. by rewrite (H3 id s r' x Ho Hr' Hm') in Hm.
  - by apply (H2 id id' s s').
Qed.

Lemma lease_pass_spec linkName ack w w' :
  lease_pass linkName ack w = (w', Ok tt) -> octets ack -> others_apart linkName ack w ->
  resolveLinkName (route_links w) linkName <> 0 ->
  (forall r, r ∈ lease_routes linkName ack -> in_place (route_links w) (routes w') (normal r)) /\
  (forall x, (forall id s, written_route id (lease_routes linkName ack) (spec_of RouteSpecSpec w id) = Some s -> route_matches s x = false) ->
     x ∈ routes w' <-> x ∈ routes w).
Proof.
  intros (w1 & [] & HA & HR)%M_bind_ok HO Hot Hlink. destruct (applyLease_routes _ _ _ _ HA) as (R1 & L1 & S1 & P1).
  pose proof HR as (w2 & l & HL & _)%M_bind_ok. apply wrap_err_ok in HL as (r0 & HL & E0). rewrite (E0 l eq_refl) in HL.
  destruct (route_list _ _ _ HL) as [HN Hin].
  destruct (route_reconcile_spec show w1 w' w2 l HL HR) as [HI HX].
  - intros r Hr _. apply Hin in Hr as [Hr _]. rewrite S1 in Hr.
    apply stored_cases in Hr as [(r' & Hr' & _ & ->)|Ho]; [by eapply lease_route_ok|by eapply (other_ok _ _ _ Hot)].
  - intros i j r r' x Hi Hj Hne Hm. apply (stored_apart linkName ack w (res_ID r) (res_ID r') (TypedSpec r) (TypedSpec r')); [done|done|..|done].
    + rewrite <-S1. apply Hin. by eapply list_elem_of_lookup_2.
    + rewrite <-S1. apply Hin. by eapply list_elem_of_lookup_2.
    + intros HE. apply Hne. apply (NoDup_lookup (res_ID <$> l) i j (res_ID r)); [done|by rewrite list_lookup_fmap, Hi|].
      by rewrite list_lookup_fmap, Hj, HE.
  - rewrite L1 in HI. split.
    + intros r Hr. destruct (written_route_cases (route_id (normal r)) (lease_routes linkName ack) (spec_of RouteSpecSpec w (route_id (normal r))))
        as [(r' & Hr' & Hi & E)|[HNo _]]; [|by destruct (HNo r Hr)].
      rewrite (lease_routes_id linkName ack r r') by done.
      apply (HI (mkResource (route_id (normal r)) PhaseRunning (normal r'))); [|done|].
      * apply Hin. cbn [res_ID TypedSpec res_Phase]. rewrite S1. split; [done|]. apply P1. by exists r.
      * left. cbn [TypedSpec]. by rewrite (lease_route_link linkName ack).
    + intros x Hx. rewrite <-R1. apply HX. intros r Hr. apply Hin in Hr as [Hr _]. rewrite S1 in Hr. by eapply Hx.
Qed.

(** *** One route for a destination *)

Context `{!RouteExcl W}.

Lemma slots_subset l l' : slots_ok l -> (forall x, x ∈ l' -> x ∈ l) -> slots_ok l'.
Proof. intros Hl Hs x y Hx Hy. apply Hl; by apply Hs. Qed.

Lemma slots_sync ls snap x w w' : syncRoute show ls snap x w = (w', Ok tt) -> slots_ok (routes w) -> slots_ok (routes w').
Proof.
  intros HR Hs. unfold syncRoute in HR. destruct (res_Phase x).
  - destruct (_ && _); [by injection HR as <-|]. apply M_bind_ok in HR as (w1 & b & HR & HA).
    apply replace_routes_spec in HR as [_ HR]. assert (slots_ok (routes w1)) as Hs1 by (eapply slots_subset; [exact Hs|]; intros y; rewrite HR; tauto).
    destruct b; [by injection HA as <-|]. unfold add_route in HA.
    destruct (Route_Add _ w1) as [w2 [[]|e|p]] eqn:E; [injection HA as ->|done..].
    pose proof (law_route_add _ _ _ _ E) as (y & Hy & HY).
    intros a b Ha Hb Hsl HE. apply HY in Ha as [Ha| ->], Hb as [Hb| ->]; [by apply Hs1| | |done].
    + destruct (route_excl _ _ _ a y E Hy Ha); [by rewrite <-HE|done].
    + destruct (route_excl _ _ _ b y E Hy Hb); done.
  - apply M_bind_ok in HR as (w1 & [] & HR & HF). apply delete_all_spec in HR as [_ HR].
    apply wrap_err_ok in HF as (r0 & HF & _). apply law_remove_route_finalizer in HF as [-> _].
    eapply slots_subset; [exact Hs|]. intros y. rewrite HR. tauto.
Qed.

Lemma slots_pass w w' wl l :
  ReaderList RouteSpecSpec w = (wl, Ok l) -> route_reconcile show w = (w', Ok tt) -> slots_ok (routes w) -> slots_ok (routes w').
Proof.
  intros HL HR Hs. destruct (route_reconcile_split show w w' wl l HL HR) as (w1 & R1 & HF). rewrite <-R1 in Hs. clear HL HR R1.
  revert w1 HF Hs. generalize (routes w). intros snap.
  induction l as [|x l IH]; intros w1; [by intros [= <-]|]. intros (w2 & H1 & H2)%for_range_cons_ok Hs.
  apply (IH w2 H2). by eapply slots_sync.
Qed.

(** A default route takes the slot of the default route. *)
Lemma default_slot linkName a src s x :
  by_router linkName a src s -> route_matches s x = true -> slot x = Some (0, [], 0) /\ canon (rm_Gateway x) = canon (AsSlice a).
Proof.
  intros -> (HF & HT & HL & _ & HG & HP)%matches_fields. split; [|done]. unfold slot.
  assert (rm_Priority x = 0) as ->.
  { unfold routePriorityMatches in HP. cbn [rs_Priority rs_Family] in HP. by case_decide. }
  rewrite decide_True by done. rewrite HL. by rewrite decide_True.
Qed.

Lemma default_in_lease linkName ack router v :
  router ∈ Router ack -> convertIP router = Addr4 v ->
  exists r src, r ∈ lease_routes linkName ack /\ by_router linkName (if decide (v = 0) then AddrZero else Addr4 v) src (normal r).
Proof.
  intros Hin Hv. eexists _, _. split.
  - apply list_elem_of_bind. exists router. split; [|done]. unfold router_routes. left.
  - rewrite Hv. apply default_normal.
Qed.

(** ** Properties *)

(** C10: the routes of a lease reach the kernel.  When a lease is applied and the
    route controller then makes a pass, both without an error, every route of
    the lease is in place on the link of the lease: some route of the kernel
    matches it, and each that does is up to date.  Routes of the kernel that
    match no spec are untouched. *)
Theorem lease_routes_reach_kernel linkName ack w w' :
  lease_pass linkName ack w = (w', Ok tt) -> octets ack -> others_apart linkName ack w ->
  resolveLinkName (route_links w) linkName <> 0 ->
  (forall r, r ∈ lease_routes linkName ack -> in_place (route_links w) (routes w') (normal r)) /\
  (forall x, (forall id s, written_route id (lease_routes linkName ack) (spec_of RouteSpecSpec w id) = Some s -> route_matches s x = false) ->
     x ∈ routes w' <-> x ∈ routes w).
Proof. apply lease_pass_spec. Qed.

(** C11: a lease with two routers cannot be installed.  The default routes by two
    different routers have the same metric, and the kernel, which is asked to
    create each exclusively, takes one of them only: the pass that follows
    never succeeds. *)
Theorem two_routers_refused linkName ack w router router' v v' :
  octets ack -> others_apart linkName ack w -> slots_ok (routes w) -> resolveLinkName (route_links w) linkName <> 0 ->
  router ∈ Router ack -> router' ∈ Router ack -> convertIP router = Addr4 v -> convertIP router' = Addr4 v' -> v <> v' ->
  forall w', lease_pass linkName ack w <> (w', Ok tt).
Proof.
  intros HO Hot Hs Hlink Hr Hr' Hv Hv' Hne w' HR. pose proof HR as (w1 & [] & HA & HP)%M_bind_ok.
  destruct (applyLease_routes _ _ _ _ HA) as (R1 & _ & _ & _).
  pose proof HP as (w2 & l & HL & _)%M_bind_ok. apply wrap_err_ok in HL as (r0 & HL & E0). rewrite (E0 l eq_refl) in HL.
  assert (slots_ok (routes w')) as Hs' by (eapply slots_pass; [exact HL|exact HP|by rewrite R1]).
  destruct (lease_pass_spec linkName ack w w' HR HO Hot Hlink) as [HI _].
  destruct (Router_addr ack router HO Hr) as (v0 & E0' & Hb), (Router_addr ack router' HO Hr') as (v0' & E1' & Hb').
  replace v0 with v in * by congruence. replace v0' with v' in * by congruence.
  destruct (default_in_lease linkName ack router v Hr Hv) as (r & src & Hin & K), (default_in_lease linkName ack router' v' Hr' Hv') as (r' & src' & Hin' & K').
  destruct (HI r Hin) as [(x & Hx & Hmx & _) _], (HI r' Hin') as [(y & Hy & Hmy & _) _].
  destruct (default_slot _ _ _ _ x K Hmx) as [Sx Gx], (default_slot _ _ _ _ y K' Hmy) as [Sy Gy].
  assert (x = y) as <- by (apply Hs'; [done|done|by rewrite Sx|congruence]). rewrite Gx in Gy. apply Hne.
  destruct (decide (v = 0)) as [->|], (decide (v' = 0)) as [->|]; try done.
  cbn [AsSlice] in Gy. rewrite !canon_4 in Gy. by apply be_bytes_4_inj.
Qed.

End lease.

(** ** A machine with one link *)

Module LeaseRoutesDemo.

Record world := mkWorld {
  d_kernel : list RouteMessage; d_fins : gmap string (gset string);
  d_addresses : store AddressSpecSpec; d_specs : store RouteSpecSpec; d_resolvers : store ResolverSpecSpec
}.

Definition set_kernel l w := mkWorld l (d_fins w) (d_addresses w) (d_specs w) (d_resolvers w).
Definition set_fins f w := mkWorld (d_kernel w) f (d_addresses w) (d_specs w) (d_resolvers w).
Definition set_addresses s w := mkWorld (d_kernel w) (d_fins w) s (d_specs w) (d_resolvers w).
Definition set_specs s w := mkWorld (d_kernel w) (d_fins w) (d_addresses w) s (d_resolvers w).
Definition set_resolvers s w := mkWorld (d_kernel w) (d_fins w) (d_addresses w) (d_specs w) s.

#[export] Instance w_addresses : SpecWriter world AddressSpecSpec := {|
  WriterModify id f := fun w => (set_addresses (store_modify DHCPDemo.zeroAddress id f (d_addresses w)) w, Ok tt);
  Destroy id := fun w => (set_addresses (delete id (d_addresses w)) w, Ok tt);
  zero_spec := DHCPDemo.zeroAddress; spec_of w id := d_addresses w !! id
|}.
#[export] Instance w_routes : SpecWriter world RouteSpecSpec := {|
  WriterModify id f := fun w => (set_specs (store_modify DHCPDemo.zeroRoute id f (d_specs w)) w, Ok tt);
  Destroy id := fun w => (set_specs (delete id (d_specs w)) w, Ok tt);
  zero_spec := DHCPDemo.zeroRoute; spec_of w id := d_specs w !! id
|}.
#[export] Instance w_resolvers : SpecWriter world ResolverSpecSpec := {|
  WriterModify id f := fun w => (set_resolvers (store_modify DHCPDemo.zeroResolver id f (d_resolvers w)) w, Ok tt);
  Destroy id := fun w => (set_resolvers (delete id (d_resolvers w)) w, Ok tt);
  zero_spec := DHCPDemo.zeroResolver; spec_of w id := d_resolvers w !! id
|}.

#[export] Instance w_addresses_laws : SpecWriterLaws world AddressSpecSpec.
Proof. DHCPDemo.store_laws. Qed.
#[export] Instance w_routes_laws : SpecWriterLaws world RouteSpecSpec.
Proof. DHCPDemo.store_laws. Qed.
#[export] Instance w_resolvers_laws : SpecWriterLaws world ResolverSpecSpec.
Proof. DHCPDemo.store_laws. Qed.

#[export] Instance w_ar : WriterFrame world AddressSpecSpec RouteSpecSpec.
Proof. DHCPDemo.frame_law. Qed.
#[export] Instance w_as : WriterFrame world AddressSpecSpec ResolverSpecSpec.
Proof. DHCPDemo.frame_law. Qed.
#[export] Instance w_ra : WriterFrame world RouteSpecSpec AddressSpecSpec.
Proof. DHCPDemo.frame_law. Qed.
#[export] Instance w_rs : WriterFrame world RouteSpecSpec ResolverSpecSpec.
Proof. DHCPDemo.frame_law. Qed.
#[export] Instance w_sa : WriterFrame world ResolverSpecSpec AddressSpecSpec.
Proof. DHCPDemo.frame_law. Qed.
#[export] Instance w_sr : WriterFrame world ResolverSpecSpec RouteSpecSpec.
Proof. DHCPDemo.frame_law. Qed.

#[export] Instance w_phases : RoutePhases world := {| route_phase _ _ := PhaseRunning |}.

#[export] Instance w_store : SpecStore world RouteSpecSpec := {|
  ReaderList w := (w, Ok ((fun '(id, spec) => mkResource id PhaseRunning spec) <$> map_to_list (d_specs w)));
  AddFinalizer id name w := (set_fins (<[id := {[name]} ∪ default ∅ (d_fins w !! id)]> (d_fins w)) w, Ok tt);
  RemoveFinalizer id name w := (set_fins (<[id := default ∅ (d_fins w !! id) ∖ {[name]}]> (d_fins w)) w, Ok tt);
  finalizers w id := default ∅ (d_fins w !! id)
|}.

(** The kernel takes a route when its slot is free, and its destination has no
    host bits. *)
#[export] Instance w_kernel : RouteNetlink world := {|
  route_Link_List w := (w, Ok [RouteDemo.demo_link]);
  Route_List w := (w, Ok (d_kernel w));
  Route_Delete m w :=
    if decide (m ∈ d_kernel w) then (set_kernel (filter (.≠ m) (d_kernel w)) w, Ok tt) else (w, Err (ESentinel "no such process"));
  Route_Add m w :=
    if decide (~ (rm_DstLength m <> 0 /\ ~ no_host_bits (rm_Dst m) (rm_DstLength m)) /\
               Forall (fun x => slot x <> slot (RouteDemo.as_reported m)) (d_kernel w))
    then (set_kernel (d_kernel w ++ [RouteDemo.as_reported m]) w, Ok tt) else (w, Err (ESentinel os_ErrExist));
  route_links _ := [RouteDemo.demo_link];
  routes := d_kernel
|}.

#[export] Instance w_laws : RouteLaws world.
Proof.
  split.
  - intros id name w w' r [= <- <-]. split; [done|]. intros _. simpl. by rewrite lookup_insert_eq.
  - intros m w w' r. simpl. case_decide; intros [= <- <-]; (split; [done|]); [|done].
    intros x. simpl. rewrite list_elem_of_filter. tauto.
  - intros m w w' r. simpl. case_decide; intros [= <- <-]; [|done]. exists (RouteDemo.as_reported m). split.
    + apply RouteDemo.as_reported_ok.
    + intros y. simpl. by rewrite elem_of_app, list_elem_of_singleton.
Qed.

#[export] Instance w_reads : RouteReads world.
Proof. split; [by intros w w' r [= <- <-]|by intros id name w w' r [= <- <-]|..]; intros w w' r [= <- <-]; by split; [|intros l [= <-]]. Qed.

#[export] Instance w_excl : RouteExcl world.
Proof.
  split. intros m w w' x y. simpl. case_decide as HF; [|done]. destruct HF as [HN HF]. intros _ Hy Hx _. rewrite Forall_forall in HF.
  assert (slot y = slot (RouteDemo.as_reported m)) as ->; [|by apply HF].
  pose proof (RouteDemo.as_reported_ok m) as (A1 & A2 & A3 & A4 & _ & _ & _ & _ & _ & _ & A11 & _).
  destruct Hy as (B1 & B2 & B3 & B4 & _ & _ & _ & _ & _ & _ & B11 & _).
  apply slot_eq; [congruence..|]. rewrite B2. intros Hn.
  destruct (decide (no_host_bits (rm_Dst m) (rm_DstLength m))); [|by destruct HN]. by rewrite A3, B3.
Qed.

#[export] Instance w_route_store : RouteStore world.
Proof.
  split.
  - intros w w' l [= <- <-]. split.
    + rewrite <-list_fmap_compose. rewrite (list_fmap_ext _ fst); [apply NoDup_fst_map_to_list|]. by intros i [].
    + intros [id ph spec]. rewrite list_elem_of_fmap. cbn. split.
      * intros ([id' spec'] & [= -> -> ->] & Hin). split; [by apply elem_of_map_to_list|done].
      * intros [Hs <-]. exists (id, spec). split; [done|]. by apply elem_of_map_to_list.
  - by intros id f w w' r [= <- <-].
  - intros id f w w' [= <-] id'. simpl. by case_decide.
Qed.

#[export] Instance w_beside_addresses : BesideRoutes world AddressSpecSpec.
Proof. split; by intros id f w w' r [= <- <-]. Qed.
#[export] Instance w_beside_resolvers : BesideRoutes world ResolverSpecSpec.
Proof. split; by intros id f w w' r [= <- <-]. Qed.

(** A machine with the route of another daemon, and a lease by a router that is
    not in its network. *)
Definition foreign : RouteMessage := mkRouteMessage FamilyInet4 8 0 254 3 0 1 0 [10; 0; 0; 0] [] [192; 168; 1; 9] 2 5 254 None.
Definition booted : world := mkWorld [foreign] ∅ ∅ ∅ ∅.
Definition one_router : DHCPv4 :=
  mkDHCPv4 [192; 168; 1; 42] (<[1 := [255; 255; 255; 0]]> (<[3 := [10; 0; 0; 1]]> ∅)).
Definition leased : world := fst (lease_pass RouteDemo.show "eth0" one_router booted).

Lemma no_others linkName ack : others_apart linkName ack booted.
Proof. split; [by intros id s [? _]|by intros id id' s s' x [? _]|by intros id s r x [? _]]. Qed.

Lemma octets_check (m : gmap Z (list Z)) ip :
  bool_decide (map_Forall (fun _ v => Forall (fun b => 0 <= b < 256) v) m) = true -> octets (mkDHCPv4 ip m).
Proof. intros H%bool_decide_eq_true code v Hv. by apply (H code v). Qed.

Lemma lease_routes_reach_kernel_witness :
  length (lease_routes "eth0" one_router) = 2%nat /\ length (routes leased) = 3%nat /\
  (forall r, r ∈ lease_routes "eth0" one_router -> in_place [RouteDemo.demo_link] (routes leased) (normal r)).
Proof.
  split; [by vm_compute|]. split; [by vm_compute|].
  destruct (lease_routes_reach_kernel RouteDemo.show "eth0" one_router booted leased) as [HI _].
  - by vm_compute.
  - apply octets_check. by vm_compute.
  - apply no_others.
  - by vm_compute.
  - exact HI.
Defined.

(** The lease of [DHCPDemo] names two routers: one of the default routes is
    installed, and the pass ends with an error. *)
Lemma two_routers_refused_witness :
  length (routes (fst (lease_pass RouteDemo.show "eth0" DHCPDemo.ack booted))) = 3%nat /\
  (forall w', lease_pass RouteDemo.show "eth0" DHCPDemo.ack booted <> (w', Ok tt)).
Proof.
  split; [by vm_compute|].
  apply (two_routers_refused RouteDemo.show "eth0" DHCPDemo.ack booted [192; 168; 1; 1] [10; 0; 0; 1] 3232235777 167772161).
  - apply octets_check. by vm_compute.
  - apply no_others.
  - intros x y ->%list_elem_of_singleton ->%list_elem_of_singleton. done.
  - by vm_compute.
  - vm_compute. left.
  - vm_compute. right. left.
  - by vm_compute.
  - by vm_compute.
  - done.
Defined.

End LeaseRoutesDemo.
