(* ===== verification/LeaseApplied.v ===== *)
(** * What applying a lease writes

    [DHCP4.applyLease] turns the bytes of a DHCP packet into an address spec,
    route specs and the spec of the resolvers.  Here these are given in full, as
    functions of the numbers the packet carries: the leased address, the length
    of its mask, the routers and the name servers. *)

From stdpp Require Import pretty.
From S2P Require Import Prelude NetAddr AddressSpec RouteSpec Resources DHCP4 LeaseRoutes.

(** ** The numbers a packet carries *)

(** The option [code] is the list of these IPv4 addresses; it may be absent when
    there are none. *)
Definition carries (ack : DHCPv4) (code : Z) (l : list Z) : Prop :=
  Forall (fun a => 0 <= a < 2 ^ 32) l /\ default [] (Options ack !! code) = l ≫= be_bytes 4.

(** A lease of the address [v], with a mask of [n] ones. *)
Record ipv4_lease (ack : DHCPv4) (v n : Z) (routers servers : list Z) : Prop := {
  lease_octets : octets ack;
  lease_range : 0 <= v < 2 ^ 32 /\ 0 <= n <= 32;
  lease_ip : YourIPAddr ack = be_bytes 4 v;
  lease_mask : Options ack !! OptionSubnetMask = Some (be_bytes 4 (2 ^ 32 - 2 ^ (32 - n)));
  lease_routers : carries ack OptionRouter routers;
  lease_servers : carries ack OptionDomainNameServer servers
}.

(** ** The resources of a lease *)

(** 0.0.0.0 stands for no address in a route. *)
Definition specified (a : Z) : Addr := if decide (a = 0) then AddrZero else Addr4 a.

Definition default_route (linkName : string) (v g : Z) : RouteSpecSpec := {|
  rs_Family := FamilyInet4; rs_Destination := zeroPrefix; rs_Source := specified v; rs_Gateway := specified g;
  rs_OutLinkName := linkName; rs_Table := TableMain; rs_Priority := 0; rs_Scope := ScopeGlobal;
  rs_Type := TypeUnicast; rs_Flags := 0; rs_Protocol := ProtocolBoot; rs_MTU := 0
|}.

Definition host_route (linkName : string) (v g : Z) : RouteSpecSpec := {|
  rs_Family := FamilyInet4; rs_Destination := mkPrefix (Addr4 g) 33; rs_Source := specified v; rs_Gateway := AddrZero;
  rs_OutLinkName := linkName; rs_Table := TableMain; rs_Priority := 0; rs_Scope := ScopeLink;
  rs_Type := TypeUnicast; rs_Flags := 0; rs_Protocol := ProtocolBoot; rs_MTU := 0
|}.

Definition default_id (g : Z) : string := "inet4/" +:+ (if decide (g = 0) then "" else dotted g) +:+ "//0".
Definition host_id (g : Z) : string := "inet4//" +:+ dotted g +:+ "/32/0".

(** [g] is not in the network of [v]. *)
Definition outside (v n g : Z) : Prop := v / 2 ^ (32 - n) <> g / 2 ^ (32 - n).

(** An empty slice is nil. *)
Definition made {A} (l : list A) : option (list A) := match l with [] => None | _ => Some l end.

#[export] Instance clean_dec name : Decision (clean name).
Proof. unfold clean. apply _. Defined.

(** ** Lemmas *)

Lemma read_ips_all fuel l :
  (length l <= fuel)%nat -> read_ips fuel (l ≫= be_bytes 4) = (be_bytes 4 <$> l, []).
Proof.
  revert l. induction fuel as [|fuel IH]; intros [|a l] Hl; try done; [simpl in Hl; lia|]. cbn [mbind list_bind read_ips].
  rewrite length_app, be_bytes_length, decide_True by lia.
  rewrite drop_app_length' by (by rewrite be_bytes_length). rewrite take_app_length' by (by rewrite be_bytes_length).
  rewrite IH by (simpl in Hl; lia). done.
Qed.

Lemma bytes_length l : length (l ≫= be_bytes 4) = (4 * length l)%nat.
Proof. induction l as [|a l IH]; [done|]. cbn [mbind list_bind length]. rewrite length_app, IH, be_bytes_length. lia. Qed.

Lemma carried_ips ack code l : carries ack code l -> GetIPs code (Options ack) = be_bytes 4 <$> l.
Proof.
  intros [_ HC]. unfold GetIPs. destruct (Options ack !! code) as [v|]; cbv [default from_option id] in HC.
  - destruct l as [|a l]; [by rewrite HC|]. pose proof (bytes_length (a :: l)) as HL. rewrite <-HC in HL.
    destruct v as [|b v]; [simpl in HL; lia|].
    pose proof (read_ips_all (length (b :: v)) (a :: l) ltac:(simpl in *; lia)) as HR. rewrite <-HC in HR. by rewrite HR.
  - destruct l as [|a l]; [done|]. apply (f_equal length) in HC. rewrite bytes_length in HC. simpl in HC. lia.
Qed.

Lemma convertIP_4 g : 0 <= g < 2 ^ 32 -> convertIP (be_bytes 4 g) = Addr4 g.
Proof.
  intros Hg. unfold convertIP, FromStdIP, AddrFromSlice. rewrite decide_True by apply be_bytes_length.
  by rewrite be_value_bytes_4.
Qed.

Lemma mask_ones n : 0 <= n <= 32 -> Mask_Size (be_bytes 4 (2 ^ 32 - 2 ^ (32 - n))) = (n, 32).
Proof.
  intros Hn. assert (forallb (fun b => bool_decide (Mask_Size (be_bytes 4 (2 ^ 32 - 2 ^ (32 - Z.of_nat b))) = (Z.of_nat b, 32)))
    (seq 0 33) = true) as H by (by vm_compute).
  rewrite forallb_forall in H. specialize (H (Z.to_nat n)). rewrite Z2Nat.id in H by lia.
  eapply bool_decide_eq_true_1. apply H, in_seq. lia.
Qed.

Lemma specified_4 a : cleared (Addr4 a) = specified a.
Proof. apply cleared_4. Qed.

Lemma normal_default linkName v g :
  normal (mkRouteSpecSpec FamilyInet4 zeroPrefix (Addr4 v) (Addr4 g) linkName TableMain 0 ScopeGlobal TypeUnicast 0 ProtocolBoot 0) =
  default_route linkName v g.
Proof. rewrite (default_normal linkName (Addr4 v) g : _ = _). by rewrite specified_4. Qed.

Lemma normal_host linkName v g :
  normal (mkRouteSpecSpec FamilyInet4 (PrefixFrom (Addr4 g) (BitLen (Addr4 g))) (Addr4 v) AddrZero linkName TableMain 0 ScopeLink
            TypeUnicast 0 ProtocolBoot 0) = host_route linkName v g.
Proof.
  rewrite normal_fields. cbn [rs_Destination rs_Gateway rs_Source]. rewrite specified_4.
  assert (fst (normalize_destination (PrefixFrom (Addr4 g) (BitLen (Addr4 g)))) = mkPrefix (Addr4 g) 33) as ->; [|done].
  rewrite normalize_destination_spec. by rewrite !decide_False by (by intros [? _]).
Qed.

Lemma land_lxor_distr a b c : Z.land (Z.lxor a b) c = Z.lxor (Z.land a c) (Z.land b c).
Proof.
  apply Z.bits_inj'. intros k _. rewrite !Z.land_spec, !Z.lxor_spec, !Z.land_spec.
  by destruct (Z.testbit a k), (Z.testbit b k), (Z.testbit c k).
Qed.

Section numbers.
Context {ack : DHCPv4} {v n : Z} {routers servers : list Z} (HL : ipv4_lease ack v n routers servers).

Lemma leased_prefix : lease_prefix ack = mkPrefix (Addr4 v) (n + 1).
Proof.
  destruct HL as [_ [Hv Hn] Hip Hm _ _]. unfold lease_prefix, SubnetMask. rewrite Hm, Hip.
  rewrite decide_True by apply be_bytes_length. unfold FromStdIPNet, FromStdIP, AddrFromSlice.
  rewrite decide_True by apply be_bytes_length. rewrite be_value_bytes_4 by done. cbn [fmap option_fmap option_map].
  rewrite decide_False by (rewrite be_bytes_length; lia). rewrite mask_ones by done. rewrite decide_False by lia.
  cbv [default from_option id PrefixFrom]. change (Unmap (Addr4 v)) with (Addr4 v). cbn [BitLen].
  destruct (Z.leb_spec 0 n), (Z.leb_spec n 32); (done || lia).
Qed.

Lemma in_network g : 0 <= g < 2 ^ 32 -> Contains (mkPrefix (Addr4 v) (n + 1)) (Addr4 g) = true <-> v / 2 ^ (32 - n) = g / 2 ^ (32 - n).
Proof.
  intros Hg. destruct HL as [_ [Hv Hn] _ _ _ _]. unfold Contains, IsValid, Bits. cbn [p_addr bitsPlusOne].
  rewrite (proj2 (Z.ltb_lt 0 (n + 1))) by lia. rewrite Z.add_simpl_r, Z.shiftr_lxor, andb_true_l, Z.eqb_eq.
  rewrite <-!Z.shiftr_div_pow2 by lia.
  assert (forall x, 0 <= x < 2 ^ 32 -> Z.shiftr x (32 - n) mod 2 ^ 32 = Z.shiftr x (32 - n)) as HS.
  { intros x Hx. rewrite Z.shiftr_div_pow2 by lia. apply Z.mod_small. split; [apply Z.div_pos; lia|].
    apply Z.div_lt_upper_bound; nia. }
  unfold uint32, wrap_u. rewrite <-Z.land_ones, land_lxor_distr, !Z.land_ones by lia. rewrite !HS by done.
  rewrite Z.lxor_eq_0_iff. split; congruence.
Qed.

Lemma router_given r : r ∈ Router ack <-> exists g, r = be_bytes 4 g /\ g ∈ routers.
Proof. unfold Router. rewrite (carried_ips _ _ _ (lease_routers _ _ _ _ _ HL)). apply list_elem_of_fmap. Qed.

Lemma router_range g : g ∈ routers -> 0 <= g < 2 ^ 32.
Proof. destruct (lease_routers _ _ _ _ _ HL) as [HF _]. rewrite Forall_forall in HF. apply HF. Qed.

(** The routes of a lease, once normalized. *)
Lemma lease_routes_given linkName s :
  (exists r, r ∈ lease_routes linkName ack /\ normal r = s) <->
  exists g, g ∈ routers /\ (s = default_route linkName v g \/ (outside v n g /\ s = host_route linkName v g)).
Proof.
  setoid_rewrite list_elem_of_bind. setoid_rewrite router_given. rewrite leased_prefix.
  assert (forall g r, g ∈ routers -> (r ∈ router_routes linkName (mkPrefix (Addr4 v) (n + 1)) (be_bytes 4 g) /\ normal r = s) ->
    s = default_route linkName v g \/ (outside v n g /\ s = host_route linkName v g)) as H1.
  { intros g r Hg [Hr <-]. apply router_range in Hg as Hb. unfold router_routes in Hr. rewrite convertIP_4 in Hr by done.
    apply elem_of_cons in Hr as [->|Hr]; [left; apply normal_default|right].
    destruct (Contains _ _) eqn:EC; [by apply elem_of_nil in Hr|]. apply list_elem_of_singleton in Hr as ->.
    split; [|apply normal_host]. unfold outside. intros E. by rewrite (proj2 (in_network g Hb) E) in EC. }
  split.
  - intros (r & (router & Hr & g & -> & Hg) & Hn). exists g. split; [done|]. by eapply H1.
  - intros (g & Hg & H). pose proof (router_range g Hg) as Hb.
    assert (forall r, r ∈ router_routes linkName (mkPrefix (Addr4 v) (n + 1)) (be_bytes 4 g) -> normal r = s ->
      exists r, (exists router, r ∈ router_routes linkName (mkPrefix (Addr4 v) (n + 1)) router /\
        exists g, router = be_bytes 4 g /\ g ∈ routers) /\ normal r = s) as H2 by eauto 10.
    unfold router_routes in H2 at 1. rewrite convertIP_4 in H2 by done. destruct H as [->|[Ho ->]].
    + eapply H2; [left|apply normal_default].
    + eapply H2; [right|apply normal_host]. destruct (Contains _ _) eqn:EC; [by apply in_network in EC|left].
Qed.

End numbers.

Lemma default_route_id linkName v g : route_id (default_route linkName v g) = default_id g.
Proof.
  rewrite (by_router_id linkName (specified g) (specified v)) by done. unfold default_id, specified. by case_decide.
Qed.

Lemma host_route_id linkName v g : route_id (host_route linkName v g) = host_id g.
Proof. by rewrite (to_router_id linkName g (specified v)). Qed.

(** Each route of a lease ends up under its id. *)
Lemma written_given linkName ack s old :
  octets ack -> (exists r, r ∈ lease_routes linkName ack /\ normal r = s) ->
  written_route (route_id s) (lease_routes linkName ack) old = Some s.
Proof.
  intros HO (r & Hr & <-).
  destruct (written_route_cases (route_id (normal r)) (lease_routes linkName ack) old) as [(r' & Hr' & Hi & ->)|[HN _]].
  - f_equal. by apply (lease_routes_id linkName ack).
  - by destruct (HN r Hr).
Qed.

Lemma clean_labels_prefix ack : filter clean (default [] (DomainSearch ack)) `prefix_of` dhcpSearchDomains ack.
Proof.
  assert (filter clean (default [] (DomainSearch ack)) =
    match DomainSearch ack with Some labels => filter (fun domain => validateDNSNameChars domain = None) labels | None => [] end) as ->.
  { destruct (DomainSearch ack) as [labels|]; [|done]. apply list_filter_iff. intros d. symmetry. apply validate_clean. }
  unfold dhcpSearchDomains. case_decide; [by apply prefix_app_r|done].
Qed.

Section apply.
Context {W : Type} `{!SpecWriter W AddressSpecSpec} `{!SpecWriter W RouteSpecSpec} `{!SpecWriter W ResolverSpecSpec}
  `{!SpecWriterLaws W AddressSpecSpec} `{!SpecWriterLaws W RouteSpecSpec} `{!SpecWriterLaws W ResolverSpecSpec}
  `{!WriterFrame W AddressSpecSpec RouteSpecSpec} `{!WriterFrame W AddressSpecSpec ResolverSpecSpec}
  `{!WriterFrame W RouteSpecSpec AddressSpecSpec} `{!WriterFrame W RouteSpecSpec ResolverSpecSpec}
  `{!WriterFrame W ResolverSpecSpec AddressSpecSpec} `{!WriterFrame W ResolverSpecSpec RouteSpecSpec}.

Abbreviation addr_of := (spec_of (W := W) AddressSpecSpec).
Abbreviation route_of := (spec_of (W := W) RouteSpecSpec).
Abbreviation resolver_of := (spec_of (W := W) ResolverSpecSpec).

(** The name servers and search domains of the resolvers. *)
Definition resolvers_written (servers : list Z) (domains : list string) (old : option ResolverSpecSpec) : ResolverSpecSpec := {|
  DNSServers := DNSServers (default (zero_spec (W := W) ResolverSpecSpec) old);
  NameServers := made ((fun s => mkNameServerSpec (Addr4 s) DNSProtocolDefault "") <$> servers);
  SearchDomains := made domains
|}.

Lemma servers_given ack v n routers servers s :
  ipv4_lease ack v n routers servers ->
  set_resolver ack (dhcpSearchDomains ack) (default (zero_spec (W := W) ResolverSpecSpec) s) =
  resolvers_written servers (dhcpSearchDomains ack) s.
Proof.
  intros HL. pose proof (lease_servers _ _ _ _ _ HL) as HC. unfold set_resolver, resolvers_written, DNS.
  rewrite (carried_ips _ _ _ HC), <-list_fmap_compose. f_equal.
  destruct HC as [HF _]. replace (_ <$> servers) with ((fun s => mkNameServerSpec (Addr4 s) DNSProtocolDefault "") <$> servers).
  - by destruct servers.
  - apply list_fmap_ext. intros i a Ha. unfold compose. rewrite convertIP_4; [done|]. rewrite Forall_forall in HF.
    by eapply HF, list_elem_of_lookup_2.
Qed.

Lemma routes_given ack v n routers servers linkName (w w' : W) :
  applyLease linkName ack w = (w', Ok tt) -> ipv4_lease ack v n routers servers ->
  (forall g, g ∈ routers ->
    route_of w' (default_id g) = Some (default_route linkName v g) /\
    (outside v n g -> route_of w' (host_id g) = Some (host_route linkName v g))) /\
  (forall id, (forall g, g ∈ routers -> id <> default_id g /\ (outside v n g -> id <> host_id g)) -> route_of w' id = route_of w id).
Proof.
  intros (_ & HR & _)%applyLease_spec HL. pose proof (lease_octets _ _ _ _ _ HL) as HO. split.
  - intros g Hg. rewrite !HR, <-(default_route_id linkName v g), <-(host_route_id linkName v g).
    split; [|intros Ho]; apply written_given, (lease_routes_given HL); eauto.
  - intros id Hid. rewrite HR.
    destruct (written_route_cases id (lease_routes linkName ack) (route_of w id)) as [(r & Hr & Hi & _)|[_ ->]]; [|done].
    destruct (proj1 (lease_routes_given HL linkName (normal r)) (ex_intro _ r (conj Hr eq_refl))) as (g & Hg & [E|[Ho E]]);
      unfold normal in E; rewrite E in Hi; destruct (Hid g Hg) as [H1 H2].
    + destruct H1. by rewrite <-Hi, default_route_id.
    + destruct (H2 Ho). by rewrite <-Hi, host_route_id.
Qed.

(** ** Properties *)

(** C17: applying a lease.  A lease that assigns [v] with a mask of [n] ones is
    applied, without an error, to a link.  The address spec of the link is then
    [v/n], permanent and of global scope.  Each router of the lease has a
    default route by it in the main table, from [v], and one that is not in the
    network of [v] also a route of link scope to it alone.  When the lease
    names servers or search domains, the resolvers ask its servers, in order,
    over the default protocol, and search the names without white space or
    control characters that it sent, the search list first and in order;
    otherwise they stay as they were.  No other address, route or resolver
    spec changes. *)
Theorem apply_lease_exact linkName ack v n routers servers (w w' : W) :
  applyLease linkName ack w = (w', Ok tt) -> ipv4_lease ack v n routers servers ->
  (forall id, addr_of w' id =
    if decide (id = "dhcp4/" +:+ linkName)
    then Some {| as_Address := mkPrefix (Addr4 v) (n + 1); as_LinkName := linkName; as_Family := FamilyInet4;
                 as_Scope := ScopeGlobal; as_Flags := 2 ^ 7 |}
    else addr_of w id) /\
  (forall g, g ∈ routers ->
    route_of w' (default_id g) = Some (default_route linkName v g) /\
    (outside v n g -> route_of w' (host_id g) = Some (host_route linkName v g))) /\
  (forall id, (forall g, g ∈ routers -> id <> default_id g /\ (outside v n g -> id <> host_id g)) -> route_of w' id = route_of w id) /\
  exists domains,
    (forall d, d ∈ domains <->
      clean d /\ (d ∈ default [] (DomainSearch ack) \/ (d = TrimRight_NUL (DomainName ack) /\ d <> ""))) /\
    filter clean (default [] (DomainSearch ack)) `prefix_of` domains /\
    forall id, resolver_of w' id =
      if decide (id = "resolvers" /\ (servers <> [] \/ domains <> []))
      then Some (resolvers_written servers domains (resolver_of w id)) else resolver_of w id.
Proof.
  intros HA HL. destruct (routes_given _ _ _ _ _ _ _ _ HA HL) as [HR1 HR2].
  apply applyLease_spec in HA as (HA & _ & HS). split; [|split; [done|split; [done|]]].
  - intros id. rewrite HA. unfold lease_address. by rewrite (leased_prefix HL).
  - exists (dhcpSearchDomains ack). split; [|split; [apply clean_labels_prefix|]].
    + intros d. rewrite search_domains_exact.
      assert ((exists labels, DomainSearch ack = Some labels /\ d ∈ labels) <-> d ∈ default [] (DomainSearch ack)) as ->; [|done].
      destruct (DomainSearch ack) as [labels|]; [|rewrite elem_of_nil]; naive_solver.
    + intros id. rewrite HS, (servers_given _ _ _ _ _ _ HL). unfold DNS. rewrite (carried_ips _ _ _ (lease_servers _ _ _ _ _ HL)).
      assert (be_bytes 4 <$> servers <> [] <-> servers <> []) as Hn by (by destruct servers).
      destruct (decide (id = "resolvers" /\ _)) as [[-> Hd]|Hd]; [by rewrite decide_True by tauto|].
      by rewrite decide_False by (unfold ResolverID; tauto).
Qed.

End apply.

(** ** A lease *)

Module LeaseAppliedDemo.
Import DHCPDemo.

(** The lease of [DHCPDemo]: 192.168.1.42/24, by 192.168.1.1 and 10.0.0.1. *)
Lemma ack_numbers : ipv4_lease ack 3232235818 24 [3232235777; 167772161] [134744072].
Proof.
  split.
  - apply LeaseRoutesDemo.octets_check. vm_compute. reflexivity.
  - lia.
  - vm_compute. reflexivity.
  - vm_compute. reflexivity.
  - split; [repeat (constructor; [lia|]); constructor|vm_compute; reflexivity].
  - split; [repeat (constructor; [lia|]); constructor|vm_compute; reflexivity].
Qed.

Lemma apply_lease_exact_witness :
  spec_of AddressSpecSpec leased "dhcp4/eth0" =
    Some (mkAddressSpecSpec (mkPrefix (Addr4 3232235818) 25) "eth0" FamilyInet4 ScopeGlobal 128) /\
  spec_of RouteSpecSpec leased "inet4/192.168.1.1//0" = Some (default_route "eth0" 3232235818 3232235777) /\
  spec_of RouteSpecSpec leased "inet4/10.0.0.1//0" = Some (default_route "eth0" 3232235818 167772161) /\
  spec_of RouteSpecSpec leased "inet4//10.0.0.1/32/0" = Some (host_route "eth0" 3232235818 167772161) /\
  spec_of RouteSpecSpec leased "inet4//192.168.1.1/32/0" = None.
Proof.
  assert (applyLease "eth0" ack (fresh true) = (leased, Ok tt)) as HA by (vm_compute; reflexivity).
  destruct (apply_lease_exact "eth0" ack _ _ _ _ _ _ HA ack_numbers) as (H1 & H2 & H3 & _). split_and!.
  - apply (H1 "dhcp4/eth0").
  - exact (proj1 (H2 3232235777 ltac:(left))).
  - exact (proj1 (H2 167772161 ltac:(right; left))).
  - exact (proj2 (H2 167772161 ltac:(right; left)) ltac:(vm_compute; discriminate)).
  - rewrite H3; [done|]. intros g Hg. apply elem_of_cons in Hg as [-> | ->%list_elem_of_singleton]; (split; [vm_compute; discriminate|]).
    + intros Ho. destruct Ho. vm_compute. reflexivity.
    + intros _. vm_compute. discriminate.
Defined.

End LeaseAppliedDemo.
