(* ===== verification/ServiceController.v ===== *)
(** * The service controller: service events become resources

    Models [controllers/v1alpha1/service.go]: the callback that turns the
    events of the runtime's stream into [v1alpha1.Service] resources.  The
    decoding of a payload is the function [json_Unmarshal]; the theorem is
    about the messages it gives. *)

From S2P Require Import Prelude Health ServiceEvents Resources.

(** [pkg/machinery/resources/v1alpha1/service.go]. *)
Record ServiceSpec := mkServiceSpec { Running : bool; svc_Healthy : bool; Unknown : bool }.

#[export] Instance ServiceSpec_eq_dec : EqDecision ServiceSpec.
Proof. solve_decision. Defined.

(** A writer whose calls only fail for a reason of the resource itself: a
    [Destroy] of what is not there. *)
Class ReliableWriter (W Spec : Type) `{!SpecWriter W Spec} := {
  modify_total id f w : snd (WriterModify Spec id f w) = Ok tt;
  destroy_total id w : match snd (Destroy Spec id w) with
                       | Ok _ => is_Some (spec_of Spec w id)
                       | Err _ => spec_of Spec w id = None
                       | Panic _ => False
                       end
}.

Section controller.
Context {W Payload : Type} `{!SpecWriter W ServiceSpec}.
Context (json_Unmarshal : Payload -> option ServiceStateEvent).

(** One event.  Failed writes are only logged; the health of a running service
    is read through its pointer. *)
Definition handle_event (payload : Payload) : M W unit :=
  match json_Unmarshal payload with
  | None => mret tt
  | Some msg =>
    if decide (sse_Action msg = ServiceStateEvent_RUNNING) then
      match sse_Health msg with
      | None => panics "invalid memory address or nil pointer dereference"
      | Some h =>
        ignore_err (WriterModify ServiceSpec (sse_Service msg) (fun _ => mkServiceSpec true (sh_Healthy h) (sh_Unknown h)))
      end
    else ignore_err (Destroy ServiceSpec (sse_Service msg))
  end.

(** The loop over the channel. *)
Definition handle_events : list Payload -> M W unit := for_range handle_event.

(** [Run]: the watch of the stream, with what the callback receives until the
    channel is closed or the context is done. *)
Definition ServiceController_Run (Watch : result unit) (received : list Payload) : M W unit :=
  _ ← (fun w => (w, Watch)) : M W unit;
  handle_events received.

(** ** Lemmas *)

Context `{!SpecWriterLaws W ServiceSpec} `{!ReliableWriter W ServiceSpec}.

(** The resource a message leaves behind. *)
Definition resource_of (msg : ServiceStateEvent) : option ServiceSpec :=
  if decide (sse_Action msg = ServiceStateEvent_RUNNING)
  then h ← sse_Health msg; Some (mkServiceSpec true (sh_Healthy h) (sh_Unknown h))
  else None.

(** A message the controller can read: a running service has a health. *)
Definition readable (msg : ServiceStateEvent) : Prop :=
  sse_Action msg = ServiceStateEvent_RUNNING -> is_Some (sse_Health msg).

Lemma AsProto_readable service ev : readable (ServiceEvent_AsProto service ev).
Proof. intros _. simpl. eauto. Qed.

Lemma handle_event_spec payload msg w :
  json_Unmarshal payload = Some msg -> readable msg ->
  exists w', handle_event payload w = (w', Ok tt) /\
    forall id, spec_of ServiceSpec w' id = if decide (id = sse_Service msg) then resource_of msg else spec_of ServiceSpec w id.
Proof.
  intros HJ HR. unfold handle_event, resource_of. rewrite HJ. case_decide as HA.
  - destruct (HR HA) as [h ->]. unfold ignore_err. set (f := fun _ : ServiceSpec => _).
    pose proof (modify_total (sse_Service msg) f w) as HT.
    destruct (WriterModify _ _ f w) as [w' r] eqn:E. simpl in HT. subst r. exists w'. split; [done|].
    intros id. rewrite (modify_law _ _ _ _ _ E). repeat case_decide; tauto || done.
  - unfold ignore_err. pose proof (destroy_total (sse_Service msg) w) as HT.
    destruct (Destroy _ _ w) as [w' r] eqn:E. simpl in HT. pose proof (destroy_law _ _ _ _ E) as HL.
    exists w'. destruct r as [[]|e|p]; [|split; [done|]|done].
    + split; [done|]. intros id. rewrite HL. repeat case_decide; tauto || done.
    + intros id. rewrite HL, decide_False by naive_solver. case_decide; congruence.
Qed.

(** ** Properties *)

(** The resources mirror the services.  After any sequence of events, a
    service has a resource exactly when its last event says it is running, and
    the resource carries the health of that event; a service without an event
    keeps what it had.  Payloads that do not decode are passed over, and no
    event makes the controller stop or panic. *)
Theorem service_resources_mirror payloads w :
  Forall readable (omap json_Unmarshal payloads) ->
  exists w', handle_events payloads w = (w', Ok tt) /\
    forall id, spec_of ServiceSpec w' id =
      match last (filter (fun msg => sse_Service msg = id) (omap json_Unmarshal payloads)) with
      | Some msg => resource_of msg
      | None => spec_of ServiceSpec w id
      end.
Proof.
  revert w. induction payloads as [|p payloads IH]; intros w; cbn [omap list_omap]; [intros _; by exists w|].
  unfold handle_events. destruct (json_Unmarshal p) as [msg|] eqn:E.
  - intros [Hr HF]%Forall_cons. destruct (handle_event_spec p msg w E Hr) as (w1 & H1 & HS).
    destruct (IH w1 HF) as (w' & H' & HS'). exists w'. split.
    { cbn [for_range]. unfold mbind, M_bind. by rewrite H1. }
    intros id. rewrite HS', HS, filter_cons. destruct (decide (sse_Service msg = id)) as [<-|Hne].
    + rewrite decide_True by done. rewrite last_cons. by destruct (last _).
    + rewrite decide_False by auto. done.
  - intros HF. destruct (IH w HF) as (w' & H' & HS'). exists w'. split; [|done].
    cbn [for_range]. unfold mbind, M_bind, handle_event. by rewrite E.
Qed.

End controller.

(** ** A store in memory *)

Module ServiceDemo.

#[export] Instance demo_services : SpecWriter (store ServiceSpec) ServiceSpec := {|
  WriterModify id f := fun w => (store_modify (mkServiceSpec false false false) id f w, Ok tt);
  Destroy id := fun w => match w !! id with Some _ => (delete id w, Ok tt) | None => (w, Err (EMsg "doesn't exist")) end;
  zero_spec := mkServiceSpec false false false;
  spec_of w id := w !! id
|}.

#[export] Instance demo_laws : SpecWriterLaws (store ServiceSpec) ServiceSpec.
Proof.
  split; simpl; intros id.
  - intros f w w' r [= <- <-] id'. rewrite store_modify_lookup. repeat case_decide; naive_solver.
  - intros w w' r H id'. destruct (w !! id) eqn:E; simplify_eq.
    + rewrite lookup_delete. repeat case_decide; naive_solver.
    + rewrite decide_False; naive_solver.
Qed.

#[export] Instance demo_reliable : ReliableWriter (store ServiceSpec) ServiceSpec.
Proof. split; simpl; [done|]. intros id w. destruct (w !! id) eqn:E; simpl; eauto. Qed.

(** udevd runs and becomes healthy, apid runs and stops; one payload is
    garbage. *)
Definition msg (service : string) (action : Z) (healthy : bool) : option ServiceStateEvent :=
  Some (mkServiceStateEvent service action "" (Some (mkServiceHealth false healthy))).

Definition payloads : list (option ServiceStateEvent) :=
  [msg "udevd" 1 false; msg "udevd" 3 false; msg "apid" 3 true; None; msg "apid" 4 true; msg "udevd" 3 true].

Lemma service_resources_mirror_witness :
  exists w', handle_events (fun p => p) payloads (∅ : store ServiceSpec) = (w', Ok tt) /\
    w' !! "udevd" = Some (mkServiceSpec true true false) /\ w' !! "apid" = None.
Proof.
  destruct (service_resources_mirror (fun p => p) payloads (∅ : store ServiceSpec)) as (w' & H & HS).
  - repeat constructor; intros _; simpl; eauto.
  - exists w'. split_and!; [done| |]; [apply (HS "udevd")|apply (HS "apid")].
Defined.

End ServiceDemo.
