(* ===== verification/RuntimeControllers.v ===== *)
(** * Bringing the system up: the controllers of [controllers/runtime]

    Models [device_status.go], [udev_service.go], [apid_service.go] and
    [utils.go].  One iteration of each controller's loop is a definition; the
    answers of the services subsystem and of the store are arguments of an
    iteration.  The transition system interleaves the iterations of the three
    controllers with the changes of the service resources. *)

From S2P Require Import Prelude Resources ServiceController.

(** ** Starting a service (udev_service.go, apid_service.go) *)

(** The calls to the services subsystem, in order. *)
Inductive call := CLoad (id : string) | CIsRunning (id : string) | CStart (id : string) | CWait (id : string).

#[export] Instance call_eq_dec : EqDecision call.
Proof. solve_decision. Defined.

(** What the subsystem answers during one iteration. *)
Record answers := mkAnswers {
  ans_IsRunning : bool + error;
  ans_Start : option error;
  ans_Wait : option error
}.

(** A service controller: the flag it keeps and the calls it made. *)
Record ServiceStarter := mkServiceStarter { started : bool; calls : list call }.

(** [name] is how the error messages call the service. *)
Definition ensureStarted (id name : string) (ans : answers) (ctrl : ServiceStarter) : ServiceStarter * result unit :=
  if started ctrl then (ctrl, Ok tt)
  else
    let log c := mkServiceStarter false (calls ctrl ++ c) in
    match ans_IsRunning ans with
    | inr err => (log [CLoad id; CIsRunning id], Err (EWrap ("failed to check " +:+ name +:+ " service state: ") err ""))
    | inl running =>
      let start := if running : bool then [] else [CStart id] in
      match (if running then None else ans_Start ans) with
      | Some err =>
        (log ([CLoad id; CIsRunning id] ++ start), Err (EWrap ("failed to start " +:+ name +:+ " service: ") err ""))
      | None =>
        let c := [CLoad id; CIsRunning id] ++ start ++ [CWait id] in
        match ans_Wait ans with
        | Some err => (log c, Err (EWrap ("failed waiting for " +:+ name +:+ " service: ") err ""))
        | None => (mkServiceStarter true (calls ctrl ++ c), Ok tt)
        end
      end
    end.

Definition udev_ensureStarted := ensureStarted "udevd" "udevd".
Definition apid_ensureStarted := ensureStarted "apid" "aipd".

(** ** Iterations *)

Definition DevicesID : string := "devices".

(** The outcome of an iteration: the loop goes on, or the controller returns. *)
Inductive turn := Continue | Return (r : result unit).

(** A read of the store: the resource, nothing, or an error. *)
Definition read (A : Type) : Type := option A + error.

(** [apid_service.go]: [None] in the read is "not found". *)
Definition apid_iteration (status : read bool) (ans : answers) (ctrl : ServiceStarter) : ServiceStarter * turn :=
  match status with
  | inr err => (ctrl, Return (Err err))
  | inl None | inl (Some false) => (ctrl, Continue)
  | inl (Some true) =>
    match apid_ensureStarted ans ctrl with
    | (ctrl, Ok _) => (ctrl, Continue)
    | (ctrl, r) => (ctrl, Return r)
    end
  end.

Definition udev_iteration (ans : answers) (ctrl : ServiceStarter) : ServiceStarter * turn :=
  match udev_ensureStarted ans ctrl with
  | (ctrl, Ok _) => (ctrl, Continue)
  | (ctrl, r) => (ctrl, Return r)
  end.

(** [device_status.go]: [write] is the answer to the write of [Ready]; the
    result says whether [Ready] was written. *)
Definition device_iteration (service : read ServiceSpec) (write : option error) : bool * turn :=
  match service with
  | inr err => (false, Return (Err err))
  | inl None => (false, Continue)
  | inl (Some s) =>
    if Running s && svc_Healthy s then
      match write with Some err => (false, Return (Err err)) | None => (true, Return (Ok tt)) end
    else (false, Continue)
  end.

(** ** WaitForDevicesReady (utils.go) *)

(** What it uses of the controller runtime: [next] is the [select] between the
    context, whose error it gives, and an event. *)
Class WaitRuntime (W : Type) := {
  UpdateInputs : list string -> M W unit;
  next : M W (option error);
  read_ready : M W (option bool);
  QueueReconcile : W -> W
}.

Section wait.
Context {W : Type} `{!WaitRuntime W}.

(** [false]: out of fuel, still waiting. *)
Fixpoint wait_loop (fuel : nat) : M W bool :=
  match fuel with
  | O => mret false
  | S fuel =>
    d ← next;
    match d with
    | Some err => fail err
    | None => r ← read_ready; match r with Some true => mret true | _ => wait_loop fuel end
    end
  end.

Definition queue_reconcile : M W bool := fun w => (QueueReconcile w, Ok true).

Definition WaitForDevicesReady (fuel : nat) (nextInputs : list string) : M W bool :=
  _ ← UpdateInputs [DevicesID];
  ready ← wait_loop fuel;
  if (ready : bool) then _ ← UpdateInputs nextInputs; queue_reconcile
  else mret false.

Lemma wait_loop_ready fuel w w' :
  wait_loop fuel w = (w', Ok true) -> exists w1, read_ready w1 = (w', Ok (Some true)).
Proof.
  revert w. induction fuel as [|fuel IH]; intros w; cbn [wait_loop]; [done|].
  intros (w1 & [err|] & _ & H)%M_bind_ok; [done|]. apply M_bind_ok in H as (w2 & r & Hr & H).
  destruct r as [[]|]; [injection H as <-; by exists w1|by eapply IH..].
Qed.

(** It returns without an error only once the devices were read as ready, and
    then the inputs are the caller's and a reconciliation is queued. *)
Lemma WaitForDevicesReady_ready fuel nextInputs w w' :
  WaitForDevicesReady fuel nextInputs w = (w', Ok true) ->
  exists w1 w2 w3, read_ready w1 = (w2, Ok (Some true)) /\ UpdateInputs nextInputs w2 = (w3, Ok tt) /\
    w' = QueueReconcile w3.
Proof.
  unfold WaitForDevicesReady. intros (w1 & [] & _ & H)%M_bind_ok. apply M_bind_ok in H as (w2 & ready & H2 & H).
  destruct ready; [|done]. apply M_bind_ok in H as (w3 & [] & H3 & H). injection H as <-. destruct (wait_loop_ready _ _ _ H2) as [w0 H0]. eauto 6.
Qed.

End wait.

(** ** The system *)

(** The store of the two resources, the three controllers, and whether the
    device status controller is done. *)
Record boot := mkBoot {
  udevd_service : option ServiceSpec;
  devices_ready : option bool;
  udev : ServiceStarter;
  apid : ServiceStarter;
  devices_done : bool
}.

Definition boot0 : boot := mkBoot None None (mkServiceStarter false []) (mkServiceStarter false []) false.

(** A controller that returns an error is run again by the controller runtime;
    a controller that returns nothing is not.  A read may fail. *)
Inductive boot_step : boot -> boot -> Prop :=
| step_service b s :
    boot_step b (mkBoot s (devices_ready b) (udev b) (apid b) (devices_done b))
| step_udev b ans :
    boot_step b (mkBoot (udevd_service b) (devices_ready b) (fst (udev_iteration ans (udev b))) (apid b) (devices_done b))
| step_apid b (status : read bool) ans :
    status = inl (devices_ready b) \/ (exists err, status = inr err) ->
    boot_step b (mkBoot (udevd_service b) (devices_ready b) (udev b) (fst (apid_iteration status ans (apid b))) (devices_done b))
| step_devices b (service : read ServiceSpec) write wrote turn :
    devices_done b = false -> service = inl (udevd_service b) \/ (exists err, service = inr err) ->
    device_iteration service write = (wrote, turn) ->
    boot_step b (mkBoot (udevd_service b) (if wrote : bool then Some true else devices_ready b) (udev b) (apid b)
                  (match turn with Return (Ok _) => true | _ => false end)).

(** Udevd runs and is healthy. *)
Definition udevd_up (b : boot) : Prop :=
  exists s, udevd_service b = Some s /\ Running s = true /\ svc_Healthy s = true.

(** A run, with the states it passes through, latest first. *)
Inductive boot_run : list boot -> Prop :=
| run_init : boot_run [boot0]
| run_step b b' past : boot_run (b :: past) -> boot_step b b' -> boot_run (b' :: b :: past).

(** ** Lemmas *)

Lemma ensureStarted_calls id name ans ctrl c :
  c ∈ calls (fst (ensureStarted id name ans ctrl)) ->
  c ∈ calls ctrl \/ c ∈ [CLoad id; CIsRunning id; CStart id; CWait id].
Proof.
  unfold ensureStarted. destruct (started ctrl); [by left|].
  destruct (ans_IsRunning ans) as [[]|]; simpl; [| |set_solver]; [destruct (ans_Wait ans); set_solver|].
  destruct (ans_Start ans); [set_solver|]. destruct (ans_Wait ans); set_solver.
Qed.

Lemma apid_iteration_calls status ans ctrl c :
  c ∈ calls (fst (apid_iteration status ans ctrl)) -> c ∈ calls ctrl \/ status = inl (Some true).
Proof.
  unfold apid_iteration. destruct status as [[[]|]|err]; auto.
Qed.

Lemma device_iteration_wrote service write turn :
  device_iteration service write = (true, turn) ->
  exists s, service = inl (Some s) /\ Running s = true /\ svc_Healthy s = true.
Proof.
  unfold device_iteration. destruct service as [[s|]|err]; try done.
  destruct (Running s) eqn:E1, (svc_Healthy s) eqn:E2; simpl; try done. eauto.
Qed.

(** The devices are ready only after udevd was up, and apid is touched only
    after the devices were ready. *)
Lemma boot_run_inv run :
  boot_run run -> exists b past, run = b :: past /\
    (devices_ready b <> None -> devices_ready b = Some true /\ Exists udevd_up run) /\
    (calls (apid b) <> [] -> devices_ready b = Some true).
Proof.
  induction 1 as [|b b' past Hrun (b0 & past0 & [= <- <-] & HR & HC) Hstep].
  { exists boot0, []. done. }
  exists b', (b :: past). split; [done|].
  assert (devices_ready b <> None -> devices_ready b = Some true /\ Exists udevd_up (b' :: b :: past)) as HR'.
  { intros H. destruct (HR H). split; [done|by right]. }
  destruct Hstep; cbn [devices_ready apid udevd_service] in *; try by (split; auto).
  - split; [auto|]. intros Hne. destruct (calls (fst (apid_iteration status ans (apid b)))) as [|c l] eqn:E; [done|].
    destruct (apid_iteration_calls status ans (apid b) c) as [Hc|Hs].
    + rewrite E. by left.
    + apply HC. intros E0. rewrite E0 in Hc. by apply elem_of_nil in Hc.
    + subst status. match goal with H : _ \/ _ |- _ => destruct H as [[= ->]|[? ?]] end; done.
  - destruct wrote.
    + split; [|done]. intros _. split; [done|]. right. left.
      match goal with H : device_iteration _ _ = _ |- _ => destruct (device_iteration_wrote _ _ _ H) as (s & -> & ? & ?) end.
      match goal with H : _ \/ _ |- _ => destruct H as [[= H]|[? ?]]; [|done] end.
      exists s. split_and!; [by symmetry|done..].
    + split; [auto|done].
Qed.

(** ** Properties *)

(** The order of the boot.  In every interleaving of the controllers, with any
    answers and failures, the services subsystem is asked to load, start or
    wait for apid only after the devices were marked ready, and they are
    marked ready only after udevd was running and healthy. *)
Theorem apid_after_devices run b past :
  boot_run run -> run = b :: past -> calls (apid b) <> [] ->
  devices_ready b = Some true /\ Exists udevd_up run.
Proof.
  intros Hrun -> Hc. destruct (boot_run_inv _ Hrun) as (b0 & past0 & [= <- <-] & HR & HC).
  specialize (HC Hc). destruct HR as [_ HE]; [by rewrite HC|]. done.
Qed.

(** Starting a service.  Until an iteration goes through without an error the
    controller tries again, and afterwards it never calls the services
    subsystem again; it starts the service only when it is not running, and
    never waits for a service it failed to start. *)
Theorem ensure_started_exact id name ans ctrl :
  let '(ctrl', r) := ensureStarted id name ans ctrl in
  (started ctrl' = true <-> r = Ok tt) /\
  (started ctrl = true -> ctrl' = ctrl) /\
  (started ctrl = false ->
    exists c, calls ctrl' = calls ctrl ++ c /\
      (CStart id ∈ c <-> ans_IsRunning ans = inl false) /\
      (CWait id ∈ c <-> ans_IsRunning ans = inl true \/ (ans_IsRunning ans = inl false /\ ans_Start ans = None)) /\
      (r = Ok tt <-> CWait id ∈ c /\ ans_Wait ans = None)).
Proof.
  unfold ensureStarted. destruct (started ctrl) eqn:E; [rewrite E; done|].
  destruct ans as [[[]|err] st wt]; simpl; [destruct wt|destruct st; [|destruct wt]|];
    (split; [done|split; [done|]]; intros _; eexists; split; [done|]);
    rewrite ?elem_of_cons, ?elem_of_nil; naive_solver.
Qed.

(** ** Runs *)

Definition up : ServiceSpec := mkServiceSpec true true false.
Definition all_well : answers := mkAnswers (inl false) None None.

Definition b1 : boot := mkBoot None None (fst (udev_iteration all_well (udev boot0))) (apid boot0) false.
Definition b2 : boot := mkBoot (Some up) None (udev b1) (apid b1) false.
Definition b3 : boot := mkBoot (Some up) (Some true) (udev b2) (apid b2) true.
Definition b4 : boot := mkBoot (Some up) (Some true) (udev b3) (fst (apid_iteration (inl (Some true)) all_well (apid b3))) true.
Definition booted : list boot := [b4; b3; b2; b1; boot0].

Lemma booted_run : boot_run booted.
Proof.
  unfold booted. apply run_step; [apply run_step; [apply run_step; [apply run_step; [apply run_init|]|]|]|].
  - exact (step_udev boot0 all_well).
  - exact (step_service b1 (Some up)).
  - refine (step_devices b2 (inl (Some up)) None true (Return (Ok tt)) _ _ _); [done|by left|done].
  - refine (step_apid b3 (inl (Some true)) all_well _). by left.
Qed.

Lemma apid_after_devices_witness :
  (devices_ready b4 = Some true /\ Exists udevd_up booted) /\ CStart "apid" ∈ calls (apid b4).
Proof.
  split; [apply (apid_after_devices booted b4 (tl booted) booted_run); done|]. vm_compute. right. right. left.
Defined.
