(* ===== verification/ServiceMirror.v ===== *)
(** * From the service runners to the resources

    Service runners ([service_runner.go]) build an event under their mutex and
    publish it after the unlock; the event stream ([v1alpha1_events.go]) passes
    it to the service controller ([controllers/v1alpha1/service.go]), which
    writes the resource of the service.  This file puts [ServiceRunner],
    [EventStream] and [ServiceController] together, in every interleaving of
    the goroutines that report, of the publications and of the watch. *)

From stdpp Require Import relations.
From S2P Require Import Prelude EventStream Health ServiceEvents ServiceRunner.
From S2P Require Import Resources ServiceController RuntimeControllers.

(** ** JSON *)

(** [json.Marshal] and [json.Unmarshal] of a [machine.ServiceStateEvent]; a nil
    result is an error. *)
Class JSON := {
  json_Marshal : ServiceStateEvent -> option string;
  json_Unmarshal : string -> option ServiceStateEvent
}.

(** What the controller looks at. *)
Definition seen (msg : ServiceStateEvent) : string * Z * option ServiceHealth :=
  (sse_Service msg, sse_Action msg, sse_Health msg).

(** The text of ASCII letters is kept; others may be replaced. *)
Definition ascii_only (s : string) : Prop := Forall (fun c => (Ascii.nat_of_ascii c < 128)%nat) (String.list_ascii_of_string s).

Class JSONLaws `{!JSON} : Prop := {
  json_law msg : ascii_only (sse_Service msg) ->
    exists data msg', json_Marshal msg = Some data /\ json_Unmarshal data = Some msg' /\ seen msg' = seen msg
}.

(** ** The machine *)

(** [unpublished]: what a goroutine has built and not yet published.  [built] is
    history: what was built, in the order of the mutexes.  [notifyCh]: the
    channel of the health changes of the service's run.  [watcher]: the
    consumer of the service controller. *)
Record mirror (W : Type) := mkMirror {
  runners : gmap string ServiceRunner;
  notifyCh : gmap string (chan StateChange);
  unpublished : gmap nat ServiceStateEvent;
  built : list ServiceStateEvent;
  stream : EventStream.world;
  watcher : option nat;
  services : W
}.
Arguments mkMirror {W} _ _ _ _ _ _ _.
Arguments runners {W} _.
Arguments notifyCh {W} _.
Arguments unpublished {W} _.
Arguments built {W} _.
Arguments stream {W} _.
Arguments watcher {W} _.
Arguments services {W} _.

Section machine.
Context {W : Type} `{!SpecWriter W ServiceSpec} `{!JSON}.
Implicit Types w : mirror W.

Definition set_runner (r : ServiceRunner) w : mirror W :=
  mkMirror (<[ServiceRunner.id r := r]> (runners w)) (notifyCh w) (unpublished w) (built w) (stream w) (watcher w) (services w).
Definition set_notifyCh (m : gmap string (chan StateChange)) w : mirror W :=
  mkMirror (runners w) m (unpublished w) (built w) (stream w) (watcher w) (services w).

(** An event that the goroutine [t] built, with the runner after the unlock;
    without a runtime it is not published. *)
Definition build (t : nat) (r : ServiceRunner) (ev : ServiceEvent) w : mirror W :=
  let msg := ServiceEvent_AsProto (ServiceRunner.id r) ev in
  mkMirror (<[ServiceRunner.id r := r]> (runners w)) (notifyCh w)
    (if has_runtime r then <[t := msg]> (unpublished w) else unpublished w)
    (built w ++ [msg]) (stream w) (watcher w) (services w).

(** The service controller reads the payload of an event. *)
Definition decode (payload : option string) : option ServiceStateEvent := payload ≫= json_Unmarshal.

(** The names of the services are ASCII. *)
Inductive mstep : mirror W -> mirror W -> Prop :=
| m_Load w id b :
    runners w !! id = None -> ascii_only id -> mstep w (set_runner (NewServiceRunner id b true) w)
(** The beginning of [run] for a service with health checks. *)
| m_run w id r :
    runners w !! id = Some r -> mstep w (set_notifyCh (<[id := make_chan StateChange 2]> (notifyCh w)) w)
(** The beginning of [health.Run], and an [Update] of the health. *)
| m_Init w id r now :
    runners w !! id = Some r -> mstep w (set_runner (set_health (Health.Init now (healthState r)) r) w)
| m_Update w id r healthy message now h ch notify :
    runners w !! id = Some r ->
    Update_locked healthy message now (healthState r) = (h, ch, notify) ->
    mstep w (set_runner (set_health h r)
      (if notify : bool then set_notifyCh (alter (try_send ch) id (notifyCh w)) w else w))
| m_UpdateState w t id r newstate message now r' ev :
    unpublished w !! t = None -> runners w !! id = Some r ->
    UpdateState_locked newstate message now r = Some (r', ev) ->
    mstep w (build t r' ev w)
| m_healthUpdate w t id r c c' change now r' oev :
    unpublished w !! t = None -> runners w !! id = Some r ->
    notifyCh w !! id = Some c -> try_recv c = Some (change, c') ->
    healthUpdate_locked change now r = Some (r', oev) ->
    mstep w (let w := set_notifyCh (<[id := c']> (notifyCh w)) w in
             match oev with Some ev => build t r' ev w | None => set_runner r' w end)
| m_Publish w t msg data id actor s :
    unpublished w !! t = Some msg -> json_Marshal msg = Some data ->
    estep (stream w) (SPublish (NewEvent id (Some data) actor)) = Some s ->
    mstep w (mkMirror (runners w) (notifyCh w) (delete t (unpublished w)) (built w) s (watcher w) (services w))
| m_unencodable w t msg :
    unpublished w !! t = Some msg -> json_Marshal msg = None ->
    mstep w (mkMirror (runners w) (notifyCh w) (delete t (unpublished w)) (built w) (stream w) (watcher w) (services w))
| m_Watch w opts now s :
    watcher w = None -> apply_options zeroWatchOptions [WithTailEvents (-1)] = Ok opts ->
    estep (stream w) (SWatch opts now) = Some s ->
    mstep w (mkMirror (runners w) (notifyCh w) (unpublished w) (built w) s (Some (length (w_consumers (stream w)))) (services w))
(** The goroutines of the watches; other watches begin, receive and end. *)
| m_stream w l s :
    (forall ev, l <> SPublish ev) -> (forall i, watcher w = Some i -> l <> SDeliver i) ->
    estep (stream w) l = Some s ->
    mstep w (mkMirror (runners w) (notifyCh w) (unpublished w) (built w) s (watcher w) (services w))
(** The callback of the service controller. *)
| m_deliver w i c info s svcs r :
    watcher w = Some i -> w_consumers (stream w) !! i = Some c -> c_status c = CSend info ->
    estep (stream w) (SDeliver i) = Some s ->
    handle_event decode (Payload (info_Event info)) (services w) = (svcs, r) ->
    mstep w (mkMirror (runners w) (notifyCh w) (unpublished w) (built w) s (watcher w) svcs).

(** The beginning: [v1alpha1.NewEvents], no service, and a store. *)
Definition beginning (e : Events) (store : W) : mirror W := mkMirror ∅ ∅ ∅ [] (mkWorld e [] []) None store.

(** Nothing is left to do: everything built is published, and the consumer of
    the controller sleeps. *)
Definition mirrored (i : nat) (c : consumer) w : Prop :=
  unpublished w = ∅ /\ watcher w = Some i /\ w_consumers (stream w) !! i = Some c /\ c_status c = CWaiting.

(** A service reports alone: what is built of it is published before more is
    built. *)
Definition alone (id : string) w : Prop := forall t msg, unpublished w !! t = Some msg -> sse_Service msg <> id.

Definition mstep_alone w w' : Prop :=
  mstep w w' /\ forall msg, built w' = built w ++ [msg] -> alone (sse_Service msg) w.

(** ** Lemmas on the calls *)

Lemma UpdateState_locked_ok newstate message now r r' ev :
  UpdateState_locked newstate message now r = Some (r', ev) ->
  ServiceRunner.id r' = ServiceRunner.id r /\ has_runtime r' = has_runtime r /\ state r' = newstate /\ EvState ev = newstate.
Proof. unfold UpdateState_locked. intros (h & _ & [= <- <-])%bind_Some. done. Qed.

Lemma healthUpdate_locked_ok change now r r' oev :
  healthUpdate_locked change now r = Some (r', oev) ->
  ServiceRunner.id r' = ServiceRunner.id r /\ has_runtime r' = has_runtime r /\ state r' = state r /\
  forall ev, oev = Some ev -> EvState ev = state r.
Proof.
  unfold healthUpdate_locked. destruct (state r) eqn:E; try (intros [= <- <-]; done).
  intros (h & _ & (e & _ & [= <- <-])%bind_Some)%bind_Some. split_and!; [done..|]. by intros ev [= <-].
Qed.

Lemma AsProto_action id ev : sse_Action (ServiceEvent_AsProto id ev) = ServiceState_value (EvState ev).
Proof. cbn. by destruct (EvState ev). Qed.

Lemma decode_Payload id data actor : decode (Payload (NewEvent id (Some data) actor)) = json_Unmarshal data.
Proof. done. Qed.

(** ** The runners *)

(** What was built of a service. *)
Abbreviation of_service id := (filter (fun msg => sse_Service msg = id)).

(** The last event built of a service says what state it is in. *)
Definition last_built (msgs : list ServiceStateEvent) (id : string) (r : ServiceRunner) : Prop :=
  match last (of_service id msgs) with
  | Some msg => sse_Action msg = ServiceState_value (state r) /\ readable msg
  | None => state r = StateInitialized
  end.

Record runners_ok w : Prop := {
  ok_runner id r : runners w !! id = Some r ->
    ServiceRunner.id r = id /\ ascii_only id /\ has_runtime r = true /\ last_built (built w) id r;
  ok_pending t msg : unpublished w !! t = Some msg -> readable msg /\ ascii_only (sse_Service msg);
  ok_built msg : msg ∈ built w -> is_Some (runners w !! sse_Service msg)
}.

Lemma set_runner_ok r r' w :
  runners_ok w -> runners w !! ServiceRunner.id r = Some r -> ServiceRunner.id r' = ServiceRunner.id r ->
  has_runtime r' = has_runtime r -> state r' = state r -> runners_ok (set_runner r' w).
Proof.
  intros [Hr Hp Hb] Hl Hi Hh Hs. split; [|done|].
  - intros id r0. cbn. intros [[<- <-]|[_ HR]]%lookup_insert_Some; [|by apply Hr].
    destruct (Hr _ _ Hl) as (_ & H1 & H2 & H3). unfold last_built. by rewrite Hi, Hh, Hs.
  - intros msg Hm. cbn. apply lookup_insert_is_Some'. right. by apply Hb.
Qed.

Lemma build_ok t r r' ev w :
  runners_ok w -> runners w !! ServiceRunner.id r = Some r -> ServiceRunner.id r' = ServiceRunner.id r ->
  has_runtime r' = has_runtime r -> EvState ev = state r' -> runners_ok (build t r' ev w).
Proof.
  intros [Hr Hp Hb] Hl Hi Hh He. destruct (Hr _ _ Hl) as (_ & H1 & H2 & H3). rewrite <-Hh in H2. split.
  - intros id r0. cbn. rewrite Hi. intros [[<- <-]|[Hne HR]]%lookup_insert_Some.
    + split_and!; [done..|]. unfold last_built. rewrite filter_app, filter_cons, filter_nil, decide_True, last_snoc by done.
      split; [rewrite AsProto_action; by rewrite He|apply AsProto_readable].
    + destruct (Hr _ _ HR) as (E1 & E2 & E3 & E4). split_and!; [done..|]. unfold last_built.
      rewrite filter_app, filter_cons, filter_nil, decide_False by done. by rewrite app_nil_r.
  - intros t' msg. cbn. rewrite H2. intros [[_ <-]|[_ HP]]%lookup_insert_Some; [|by eapply Hp].
    split; [apply AsProto_readable|]. cbn. by rewrite Hi.
  - intros msg. cbn. intros [Hm| ->%list_elem_of_singleton]%elem_of_app; apply lookup_insert_is_Some'; [right; by apply Hb|by left].
Qed.

Lemma same_runners_ok w w' :
  runners_ok w -> runners w' = runners w -> built w' = built w -> unpublished w' ⊆ unpublished w -> runners_ok w'.
Proof.
  intros [Hr Hp Hb] HR HB HU. split.
  - intros id r. rewrite HR, HB. apply Hr.
  - intros t' msg HT. eapply Hp, lookup_weaken; [exact HT|done].
  - intros msg. rewrite HR, HB. apply Hb.
Qed.

Lemma runners_ok_step w w' : mstep w w' -> runners_ok w -> runners_ok w'.
Proof.
  intros HS Hok. destruct HS as [w id b HN HA|w id r HL|w id r now HL|w id r he msg now h ch nt HL HU|
    w t id r ns msg now r' ev HT HL HU|w t id r c c' ch now r' oev HT HL HC HV HU|w t msg data id ac s HT HM HE|
    w t msg HT HM|w opts now s HW HO HE|w l s HP HD HE|w i c info s svcs r HW HC HI HE HH];
    try (assert (ServiceRunner.id r = id) as <- by (by apply (ok_runner _ Hok id r)));
    try (apply (same_runners_ok w); [done|done|done|cbn; try done; apply delete_subseteq]).
  - destruct Hok as [Hr Hp Hb]. split; [|done|intros m Hm; cbn; apply lookup_insert_is_Some'; right; by apply Hb].
    intros id' r. cbn. intros [[<- <-]|[_ HR]]%lookup_insert_Some; [|by apply Hr].
    split_and!; [done..|]. unfold last_built. destruct (last _) as [m|] eqn:E; [|done]. exfalso.
    apply last_Some_elem_of, list_elem_of_filter in E as [<- E]. destruct (Hb _ E) as [? E']. congruence.
  - by eapply set_runner_ok.
  - eapply (set_runner_ok r); [|by destruct nt|done..]. destruct nt; [|done]. by apply (same_runners_ok w).
  - apply UpdateState_locked_ok in HU as (H1 & H2 & H3 & H4). apply (build_ok t r); [done..|congruence].
  - apply healthUpdate_locked_ok in HU as (H1 & H2 & H3 & H4).
    assert (runners_ok (set_notifyCh (<[ServiceRunner.id r := c']> (notifyCh w)) w)) as Hok' by (by apply (same_runners_ok w)).
    destruct oev as [ev|]; [apply (build_ok t r); [done..|rewrite (H4 ev eq_refl); congruence]|by apply (set_runner_ok r)].
Qed.

(** ** The stream *)

(** A consumer keeps its filter, and receives only by a delivery. *)
Lemma watcher_step s l s' i c :
  estep s l = Some s' -> w_consumers s !! i = Some c ->
  exists c', w_consumers s' !! i = Some c' /\ c_actor c' = c_actor c /\ c_start c' = c_start c /\
    ((l <> SDeliver i /\ c_got c' = c_got c) \/
     (l = SDeliver i /\ exists info, c_status c = CSend info /\ c_got c' = c_got c ++ [info])).
Proof.
  intros [(ev & e' & -> & _ & ->)|[(opts & now & -> & ->)|(j & c0 & c1 & Hl & Hj & HC & ->)]]%estep_inv Hi; cbn.
  - exists (wake c). rewrite list_lookup_fmap, Hi. unfold wake. split; [done|]. destruct (c_status c); cbn; auto.
  - exists c. split; [by apply lookup_app_l_Some|]. auto.
  - destruct (decide (i = j)) as [->|Hne].
    + replace c0 with c in * by congruence. exists c1. split; [by apply list_lookup_insert_eq; eapply lookup_lt_Some|].
      unfold consumer_step in HC. destruct l as [| |k|k|k|k|k]; try done; injection Hl as ->; destruct (c_status c) eqn:Es; try done;
        repeat case_match; simplify_eq/=; try (by eauto 8);
        unfold consumer_fetch; repeat (case_match; cbn; try (by eauto 8)).
    + exists c. rewrite list_lookup_insert_ne by done. split_and!; [done..|]. left. split; [|done]. intros ->. by injection Hl as ->.
Qed.

(** What the events say. *)
Definition messages (evs : list Event) : list ServiceStateEvent := omap (fun ev => decode (Payload ev)) evs.

Lemma messages_app a b : messages (a ++ b) = messages a ++ messages b.
Proof. apply omap_app. Qed.

(** The resource of a service after some messages. *)
Definition resource_after (store : W) (msgs : list ServiceStateEvent) (id : string) : option ServiceSpec :=
  match last (of_service id msgs) with Some msg => resource_of msg | None => spec_of ServiceSpec store id end.

Definition decodes (ev : Event) : Prop := exists msg, decode (Payload ev) = Some msg /\ readable msg.

Context `{!SpecWriterLaws W ServiceSpec} `{!ReliableWriter W ServiceSpec} `{!JSONLaws}.

(** The callback keeps the resources in step with what it received. *)
Lemma handle_event_after store evs ev svcs :
  decodes ev -> (forall id, spec_of ServiceSpec svcs id = resource_after store (messages evs) id) ->
  exists svcs', handle_event decode (Payload ev) svcs = (svcs', Ok tt) /\
    forall id, spec_of ServiceSpec svcs' id = resource_after store (messages (evs ++ [ev])) id.
Proof.
  intros (msg & HD & HR) HS. destruct (handle_event_spec decode (Payload ev) msg svcs HD HR) as (svcs' & HH & HS').
  exists svcs'. split; [done|]. intros id. rewrite HS', messages_app. unfold resource_after, messages at 2. cbn. rewrite HD.
  rewrite filter_app, filter_cons, filter_nil. destruct (decide (sse_Service msg = id)) as [<-|Hne].
  - by rewrite decide_True, last_snoc.
  - rewrite decide_False by done. rewrite app_nil_r. apply HS.
Qed.

Record stream_ok (capacity g : Z) (store : W) w : Prop := {
  ok_reach : EventStream.reachable capacity g (stream w);
  ok_log : Forall decodes (w_log (stream w));
  ok_services : match watcher w with
                | None => services w = store
                | Some i => exists c, w_consumers (stream w) !! i = Some c /\ c_actor c = "" /\
                    forall id, spec_of ServiceSpec (services w) id = resource_after store (messages (info_Event <$> c_got c)) id
                end
}.

(** What a consumer without a filter holds is of the log. *)
Lemma sent_in_log capacity g s i c info :
  capacity < 2 ^ 31 -> 0 <= g -> EventStream.reachable capacity g s -> Z.of_nat (length (w_log s)) < 2 ^ 63 ->
  w_consumers s !! i = Some c -> c_status c = CSend info -> info_Event info ∈ w_log s.
Proof.
  intros Hc Hg HR Hlen Hi Hs. destruct (reachable_consumer _ _ _ _ _ Hc Hg HR Hlen Hi) as (_ & _ & _ & _ & HT & _).
  destruct HT as [HT|HT]; [congruence|]. assert (info_Event info ∈ taken c) as Hin.
  { unfold taken. rewrite Hs. apply elem_of_app. right. by apply list_elem_of_singleton. }
  rewrite HT in Hin. apply list_elem_of_filter in Hin as [_ Hin]. unfold segment in Hin.
  apply list_elem_of_lookup in Hin as [k Hk]. assert (k < length (take (Z.to_nat (c_pos c - c_start c)) (drop (Z.to_nat (c_start c)) (w_log s))))%nat as Hlt
    by (by eapply lookup_lt_Some). rewrite length_take in Hlt. rewrite lookup_take_lt, lookup_drop in Hk by lia. by eapply list_elem_of_lookup_2.
Qed.

Lemma stream_ok_step capacity g store w w' :
  capacity < 2 ^ 31 -> 0 <= g -> mstep w w' -> runners_ok w -> Z.of_nat (length (w_log (stream w))) < 2 ^ 63 ->
  stream_ok capacity g store w -> stream_ok capacity g store w'.
Proof.
  intros Hc Hg HS Hr Hlen [HR HL HV].
  assert (forall l s, estep (stream w) l = Some s -> EventStream.reachable capacity g s) as Hreach by (intros; by eapply EventStream.reach_step).
  assert (forall l s, (forall ev, l <> SPublish ev) -> estep (stream w) l = Some s -> w_log s = w_log (stream w)) as Hsame.
  { intros l s Hl [(ev & e' & -> & _)|[(opts & now & _ & ->)|(j & c0 & c1 & _ & _ & _ & ->)]]%estep_inv; [by destruct (Hl ev)|done..]. }
  assert (forall l s, (forall i, watcher w = Some i -> l <> SDeliver i) -> estep (stream w) l = Some s ->
    match watcher w with
    | None => services w = store
    | Some i => exists c, w_consumers s !! i = Some c /\ c_actor c = "" /\
        forall id, spec_of ServiceSpec (services w) id = resource_after store (messages (info_Event <$> c_got c)) id
    end) as Hkeep.
  { intros l s Hl HE. destruct (watcher w) as [i|]; [|done]. destruct HV as (c & Hi & Ha & HV).
    destruct (watcher_step _ _ _ _ _ HE Hi) as (c' & Hi' & Ha' & _ & [[_ Hgot]|[-> _]]); [|by destruct (Hl i)].
    exists c'. rewrite Ha', Hgot. done. }
  destruct HS as [w id b HN HA|w id r HLk|w id r now HLk|w id r he msg now h ch nt HLk HU|
    w t id r ns msg now r' ev HT HLk HU|w t id r c c' ch now r' oev HT HLk HC HV' HU|w t msg data id ac s HT HM HE|
    w t msg HT HM|w opts now s HW HO HE|w l s HP HD HE|w i c info s svcs r HW HC HI HE HH]; try done.
  - destruct nt; done.
  - destruct oev; done.
  - split; cbn; [by eapply Hreach| |by eapply (Hkeep (SPublish _))].
    apply estep_inv in HE as [(ev & e' & [= <-] & _ & ->)|[(? & ? & ? & _)|(? & ? & ? & ? & _)]]; [|done..]. cbn.
    apply Forall_app_2; [done|]. apply Forall_singleton. destruct (ok_pending _ Hr _ _ HT) as [Hrd Has].
    destruct (json_law msg Has) as (data' & msg' & HM' & HU & HSn). rewrite HM in HM'. injection HM' as <-.
    exists msg'. rewrite decode_Payload. split; [done|]. unfold readable, seen in *. injection HSn as _ -> ->. done.
  - split; cbn; [by eapply Hreach|by rewrite (Hsame (SWatch opts now))|].
    apply estep_inv in HE as [(? & ? & ? & _)|[(o & n & [= <- <-] & ->)|(? & ? & ? & ? & _)]]; [done| |done]. cbn.
    eexists. rewrite lookup_app_r, Nat.sub_diag by lia. split_and!; [done|injection HO as <-; done|]. intros id. rewrite HW in HV. by rewrite HV.
  - split; cbn; [by eapply Hreach|by rewrite (Hsame l)|by eapply Hkeep].
  - split; cbn; [by eapply Hreach|by rewrite (Hsame (SDeliver i))|]. rewrite HW in HV |- *. destruct HV as (c0 & Hi & Ha & HV).
    replace c0 with c in * by congruence.
    destruct (watcher_step _ _ _ _ _ HE Hi) as (c' & Hi' & Ha' & _ & [[Hn _]|(_ & info' & HI' & Hgot)]); [done|].
    replace info' with info in * by congruence. exists c'. split_and!; [done|congruence|].
    destruct (handle_event_after store (info_Event <$> c_got c) (info_Event info) (services w)) as (svcs' & HH' & HA'); [|done|].
    + rewrite Forall_forall in HL. apply HL. by eapply sent_in_log.
    + rewrite HH in HH'. injection HH' as <- ->. intros id. by rewrite HA', Hgot, fmap_app.
Qed.

(** ** Order *)

(** What was said of a service. *)
Definition said (id : string) (msgs : list ServiceStateEvent) : list (string * Z * option ServiceHealth) :=
  seen <$> of_service id msgs.

Lemma said_app id a b : said id (a ++ b) = said id a ++ said id b.
Proof. unfold said. by rewrite filter_app, fmap_app. Qed.

Lemma said_one id msg : said id [msg] = if decide (sse_Service msg = id) then [seen msg] else [].
Proof. unfold said. rewrite filter_cons, filter_nil. by case_decide. Qed.

(** What is not yet published of a service is the last that was built. *)
Definition order_ok w : Prop := forall id, exists p,
  said id (built w) = said id (messages (w_log (stream w))) ++ p /\
  (forall t msg, unpublished w !! t = Some msg -> sse_Service msg = id ->
     p = [seen msg] /\ forall t' msg', unpublished w !! t' = Some msg' -> sse_Service msg' = id -> t' = t) /\
  (p = [] \/ exists t msg, unpublished w !! t = Some msg /\ sse_Service msg = id).

Lemma order_ok_same w w' :
  order_ok w -> built w' = built w -> unpublished w' = unpublished w -> w_log (stream w') = w_log (stream w) -> order_ok w'.
Proof. intros HO HB HU HL id. unfold order_ok in HO. rewrite HB, HU, HL. apply HO. Qed.

Lemma order_ok_build t r ev w :
  order_ok w -> has_runtime r = true -> unpublished w !! t = None -> alone (ServiceRunner.id r) w -> order_ok (build t r ev w).
Proof.
  intros HO HR HT HA id. destruct (HO id) as (p & HE & HP & HN). unfold build. cbn [built unpublished stream]. rewrite HR, said_app, HE, said_one. cbn [sse_Service ServiceEvent_AsProto].
  destruct (decide (ServiceRunner.id r = id)) as [<-|Hne].
  - assert (p = []) as -> by (destruct HN as [|(t' & m & H1 & H2)]; [done|by destruct (HA t' m)]).
    eexists. rewrite app_nil_r. split; [done|]. split; [|right; eexists t, _; by rewrite lookup_insert_eq].
    intros t' m [[<- <-]|[_ H1]]%lookup_insert_Some H2; [|by destruct (HA t' m)]. split; [done|].
    intros t2 m2 [[<- _]|[_ H3]]%lookup_insert_Some H4; [done|by destruct (HA t2 m2)].
  - exists p. rewrite app_nil_r. split; [done|]. split.
    + intros t' m [[_ <-]|[Hn H1]]%lookup_insert_Some H2; [by destruct Hne|]. destruct (HP t' m H1 H2) as [-> HU]. split; [done|].
      intros t2 m2 [[_ <-]|[_ H3]]%lookup_insert_Some H4; [by destruct Hne|by eapply HU].
    + destruct HN as [|(t' & m & H1 & H2)]; [by left|right]. exists t', m. rewrite lookup_insert_ne by congruence. done.
Qed.

Lemma order_ok_publish t msg w s w' :
  order_ok w -> unpublished w !! t = Some msg ->
  (forall id, said id (messages (w_log s)) = said id (messages (w_log (stream w))) ++ said id [msg]) ->
  built w' = built w -> unpublished w' = delete t (unpublished w) -> stream w' = s -> order_ok w'.
Proof.
  intros HO HT HL HB HU HW id. destruct (HO id) as (p & HE & HP & HN). rewrite HB, HU, HW, HL, HE, said_one.
  destruct (decide (sse_Service msg = id)) as [Hs|Hne].
  - destruct (HP t msg HT Hs) as [-> HQ]. exists []. rewrite app_nil_r. split; [done|]. split; [|by left].
    intros t' m [Hn H1]%lookup_delete_Some H2. by destruct Hn; rewrite (HQ t' m).
  - exists p. rewrite app_nil_r. split; [done|]. split.
    + intros t' m [Hn H1]%lookup_delete_Some H2. destruct (HP t' m H1 H2) as [-> HQ]. split; [done|].
      intros t2 m2 [_ H3]%lookup_delete_Some H4. by eapply HQ.
    + destruct HN as [|(t' & m & H1 & H2)]; [by left|right]. exists t', m. split; [|done].
      rewrite lookup_delete_ne; [done|]. intros ->. congruence.
Qed.

Lemma order_ok_step w w' : mstep_alone w w' -> runners_ok w -> order_ok w -> order_ok w'.
Proof.
  intros [HS HA] Hr HO.
  assert (forall l s, (forall ev, l <> SPublish ev) -> estep (stream w) l = Some s -> w_log s = w_log (stream w)) as Hsame.
  { intros l s Hl [(ev & e' & -> & _)|[(opts & now & _ & ->)|(j & c0 & c1 & _ & _ & _ & ->)]]%estep_inv; [by destruct (Hl ev)|done..]. }
  destruct HS as [w id b HN HAs|w id r HL|w id r now HL|w id r he msg now h ch nt HL HU|
    w t id r ns msg now r' ev HT HL HU|w t id r c c' ch now r' oev HT HL HC HV HU|w t msg data id ac s HT HM HE|
    w t msg HT HM|w opts now s HW HOp HE|w l s HP HD HE|w i c info s svcs r HW HC HI HE HH];
    try (by apply (order_ok_same w)); try (destruct (ok_runner _ Hr _ _ HL) as (<- & _ & Hrt & _)).
  - apply (order_ok_same w); by destruct nt.
  - apply UpdateState_locked_ok in HU as (H1 & H2 & _). apply order_ok_build; [done|congruence|done|]. exact (HA _ eq_refl).
  - apply healthUpdate_locked_ok in HU as (H1 & H2 & _). destruct oev as [ev|]; [|by apply (order_ok_same w)].
    apply order_ok_build; [by apply (order_ok_same w)|congruence|done|]. exact (HA _ eq_refl).
  - eapply (order_ok_publish t msg); [exact HO|exact HT| |done..]. intros id'.
    destruct (ok_pending _ Hr _ _ HT) as [_ Has]. destruct (json_law msg Has) as (data' & msg' & HM' & HU & HSn).
    rewrite HM in HM'. injection HM' as <-.
    apply estep_inv in HE as [(ev & e' & [= <-] & _ & ->)|[(? & ? & ? & _)|(? & ? & ? & ? & _)]]; [|done..]. cbn [stream w_log].
    rewrite messages_app, said_app. f_equal. unfold messages. cbn [omap list_omap]. rewrite decode_Payload, HU. rewrite !said_one, HSn.
    unfold seen in HSn. by injection HSn as -> _ _.
  - destruct (ok_pending _ Hr _ _ HT) as [_ Has]. destruct (json_law msg Has) as (data' & msg' & HM' & _). congruence.
  - apply (order_ok_same w); [done..|]. by apply (Hsame (SWatch opts now)).
  - apply (order_ok_same w); [done..|]. by apply (Hsame l).
  - apply (order_ok_same w); [done..|]. by apply (Hsame (SDeliver i)).
Qed.

(** ** A schedule *)

Inductive action :=
| ALoad (id : string) (supports_health : bool)
| ARun (id : string)
| AInit (id : string) (now : Z)
| AUpdate (id : string) (healthy : bool) (message : string) (now : Z)
| AUpdateState (t : nat) (id : string) (newstate : ServiceState) (message : string) (now : Z)
| AHealthUpdate (t : nat) (id : string) (now : Z)
| APublish (t : nat) (id : Z) (actor : string)
| AWatch (now : Z)
| AStream (l : label)
| ADeliver.

Definition act (a : action) w : option (mirror W) :=
  match a with
  | ALoad id b =>
    if decide (runners w !! id = None /\ ascii_only id) then Some (set_runner (NewServiceRunner id b true) w) else None
  | ARun id => _ ← runners w !! id; Some (set_notifyCh (<[id := make_chan StateChange 2]> (notifyCh w)) w)
  | AInit id now => r ← runners w !! id; Some (set_runner (set_health (Health.Init now (healthState r)) r) w)
  | AUpdate id healthy message now =>
    r ← runners w !! id;
    let '(h, ch, notify) := Update_locked healthy message now (healthState r) in
    Some (set_runner (set_health h r) (if notify : bool then set_notifyCh (alter (try_send ch) id (notifyCh w)) w else w))
  | AUpdateState t id newstate message now =>
    if decide (unpublished w !! t = None) then
      r ← runners w !! id;
      '(r', ev) ← UpdateState_locked newstate message now r;
      Some (build t r' ev w)
    else None
  | AHealthUpdate t id now =>
    if decide (unpublished w !! t = None) then
      r ← runners w !! id;
      c ← notifyCh w !! id;
      '(change, c') ← try_recv c;
      '(r', oev) ← healthUpdate_locked change now r;
      let w := set_notifyCh (<[id := c']> (notifyCh w)) w in
      Some (match oev with Some ev => build t r' ev w | None => set_runner r' w end)
    else None
  | APublish t id actor =>
    msg ← unpublished w !! t;
    data ← json_Marshal msg;
    s ← estep (stream w) (SPublish (NewEvent id (Some data) actor));
    Some (mkMirror (runners w) (notifyCh w) (delete t (unpublished w)) (built w) s (watcher w) (services w))
  | AWatch now =>
    match watcher w, apply_options zeroWatchOptions [WithTailEvents (-1)] with
    | None, Ok opts =>
      s ← estep (stream w) (SWatch opts now);
      Some (mkMirror (runners w) (notifyCh w) (unpublished w) (built w) s (Some (length (w_consumers (stream w)))) (services w))
    | _, _ => None
    end
  | AStream l =>
    match l with
    | SPublish _ | SDeliver _ => None
    | _ => s ← estep (stream w) l; Some (mkMirror (runners w) (notifyCh w) (unpublished w) (built w) s (watcher w) (services w))
    end
  | ADeliver =>
    i ← watcher w;
    c ← w_consumers (stream w) !! i;
    match c_status c with
    | CSend info =>
      s ← estep (stream w) (SDeliver i);
      Some (mkMirror (runners w) (notifyCh w) (unpublished w) (built w) s (watcher w)
              (fst (handle_event decode (Payload (info_Event info)) (services w))))
    | _ => None
    end
  end.

Lemma act_step a w w' : act a w = Some w' -> mstep w w'.
Proof.
  destruct a as [id b|id|id now|id he msg now|t id ns msg now|t id now|t id actor|now|l|]; cbn [act].
  - case_decide as Hd; [|done]. destruct Hd. intros [= <-]. by apply m_Load.
  - intros (r & HL & [= <-])%bind_Some. by eapply m_run.
  - intros (r & HL & [= <-])%bind_Some. by eapply m_Init.
  - intros (r & HL & HU)%bind_Some. destruct (Update_locked _ _ _ _) as [[h ch] nt] eqn:E. injection HU as <-. by eapply m_Update.
  - case_decide; [|done]. intros (r & HL & ([r' ev] & HU & [= <-])%bind_Some)%bind_Some. by eapply m_UpdateState.
  - case_decide; [|done]. intros (r & HL & (c & HC & ([ch c'] & HR & ([r' oev] & HU & [= <-])%bind_Some)%bind_Some)%bind_Some)%bind_Some.
    by eapply m_healthUpdate.
  - intros (msg & HT & (data & HM & (s & HE & [= <-])%bind_Some)%bind_Some)%bind_Some. by eapply m_Publish.
  - destruct (watcher w) eqn:HW; [done|]. intros (s & HE & [= <-])%bind_Some. by eapply m_Watch.
  - destruct l; try done; intros (s & HE & [= <-])%bind_Some; by (eapply m_stream; [| |exact HE]).
  - intros (i & HW & (c & HC & HB)%bind_Some)%bind_Some. destruct (c_status c) as [| | |info| |] eqn:HS; try done.
    apply bind_Some in HB as (s & HE & [= <-]). destruct (handle_event decode _ _) as [svcs r] eqn:HH. by eapply m_deliver.
Qed.

(** The same, while nothing else is built and not yet published. *)
Definition act_alone (a : action) w : option (mirror W) :=
  w' ← act a w; if decide (unpublished w = ∅ \/ built w' = built w) then Some w' else None.

Lemma act_alone_step a w w' : act_alone a w = Some w' -> mstep_alone w w'.
Proof.
  unfold act_alone. intros (w1 & HA & HD)%bind_Some. case_decide as Hd; [|done]. injection HD as ->.
  split; [by apply (act_step a)|]. intros msg HB t m HT. destruct Hd as [Hd|Hd]; [by rewrite Hd in HT|].
  rewrite Hd in HB. apply (f_equal length) in HB. rewrite length_app in HB. simpl in HB. lia.
Qed.

Definition acts (f : action -> mirror W -> option (mirror W)) (l : list action) w : option (mirror W) :=
  foldl (fun ow a => ow ≫= f a) (Some w) l.

Lemma acts_steps (R : relation (mirror W)) f l w w' :
  (forall a w1 w2, f a w1 = Some w2 -> R w1 w2) -> acts f l w = Some w' -> rtc R w w'.
Proof.
  intros HR. unfold acts. revert w. induction l as [|a l IH]; intros w; cbn; [by intros [= <-]|].
  destruct (f a w) as [w1|] eqn:E; [intros HA; eapply rtc_l; [by apply (HR a)|by apply IH]|].
  assert (foldl (fun ow a => ow ≫= f a) None l = None) as -> by (clear; by induction l). done.
Qed.

(** ** The machine from its beginning *)

Section beginning.
Context (capacity g : Z) (e : Events) (store : W).
Context (Hcap : capacity < 2 ^ 31) (Hgap : 0 <= g) (Hnew : NewEvents capacity g = Ok e).

Lemma beginning_ok : runners_ok (beginning e store) /\ stream_ok capacity g store (beginning e store) /\ order_ok (beginning e store).
Proof.
  split_and!.
  - by split; [intros id r|intros t m|intros m ?%elem_of_nil].
  - split; [by constructor|constructor|done].
  - intros id. exists []. split; [done|]. split; [done|by left].
Qed.

Lemma mstep_log w w' : mstep w w' -> (length (w_log (stream w)) <= length (w_log (stream w')))%nat.
Proof.
  destruct 1 as [| | |? ? ? ? ? ? ? ? nt| |? ? ? ? ? ? ? ? ? oev|? ? ? ? ? ? ? ? ? HE| |? ? ? ? ? ? HE|? ? ? ? ? HE|? ? ? ? ? ? ? ? ? ? HE];
    try done; [by destruct nt|by destruct oev|by eapply estep_log..].
Qed.

Lemma machine_ok w :
  rtc mstep (beginning e store) w -> Z.of_nat (length (w_log (stream w))) < 2 ^ 63 ->
  runners_ok w /\ stream_ok capacity g store w.
Proof.
  intros HR. pattern w. revert w HR. apply rtc_ind_r; [split; apply beginning_ok|]. intros w w' HR HS IH Hlen.
  pose proof (mstep_log _ _ HS). destruct IH as [Hr Hs]; [lia|].
  split; [by eapply runners_ok_step|eapply stream_ok_step; [done..|lia|done]].
Qed.

Lemma alone_ok w : rtc mstep_alone (beginning e store) w -> rtc mstep (beginning e store) w /\ order_ok w.
Proof.
  intros HR. assert (rtc mstep (beginning e store) w /\ runners_ok w /\ order_ok w) as (? & _ & ?); [|done].
  pattern w. revert w HR. apply rtc_ind_r; [split; [done|split; apply beginning_ok]|].
  intros w w' HR HS (IH1 & IH2 & IH3). pose proof HS as [HM _]. split; [by eapply rtc_r|]. split; [by eapply runners_ok_step|by eapply order_ok_step].
Qed.

(** What the controller of a machine at rest has received. *)
Lemma mirrored_got w i c :
  rtc mstep (beginning e store) w -> Z.of_nat (length (w_log (stream w))) < 2 ^ 63 -> mirrored i c w ->
  info_Event <$> c_got c = segment (w_log (stream w)) (c_start c) (Z.of_nat (length (w_log (stream w)))) /\
  forall id, spec_of ServiceSpec (services w) id = resource_after store (messages (info_Event <$> c_got c)) id.
Proof.
  intros HR Hlen (_ & HW & Hi & Hs). destruct (machine_ok w HR Hlen) as [_ [HE _ HV]]. rewrite HW in HV.
  destruct HV as (c0 & Hi0 & Ha & HV). replace c0 with c in * by congruence. split; [|done].
  destruct (reachable_consumer _ _ _ _ _ Hcap Hgap HE Hlen Hi) as (_ & _ & _ & HP & HT & _).
  destruct (reachable_ok _ _ _ Hcap Hgap HE Hlen) as [HK _]. destruct HT as [HT|HT]; [congruence|].
  rewrite taken_got in HT by (intros ?; congruence). rewrite HT, (HP Hs), (ring_pos _ _ HK). apply filter_all.
  apply Forall_forall. intros ev _. unfold wanted. by rewrite Ha.
Qed.

Lemma resource_of_seen msg msg' : seen msg = seen msg' -> resource_of msg = resource_of msg'.
Proof. unfold seen, resource_of. by intros [= _ -> ->]. Qed.

Lemma said_resource a b id :
  said id a = said id b -> last (of_service id a) ≫= resource_of = last (of_service id b) ≫= resource_of.
Proof.
  unfold said. intros HE. assert (seen <$> last (of_service id a) = seen <$> last (of_service id b)) as HL by (by rewrite <-!fmap_last, HE).
  destruct (last (of_service id a)) as [m|], (last (of_service id b)) as [m'|]; try done. apply (inj Some) in HL.
  by apply resource_of_seen.
Qed.

(** What the services that report alone have said last. *)
Lemma mirrored_resource w i c id :
  rtc mstep_alone (beginning e store) w -> Z.of_nat (length (w_log (stream w))) < 2 ^ 63 -> mirrored i c w ->
  c_start c = 0 -> (forall id, spec_of ServiceSpec store id = None) ->
  spec_of ServiceSpec (services w) id = last (of_service id (built w)) ≫= resource_of.
Proof.
  intros [HR HO]%alone_ok Hlen Hm Hs Hstore. destruct (mirrored_got w i c HR Hlen Hm) as [Hgot HV]. rewrite Hs in Hgot.
  rewrite HV, Hgot. unfold segment. rewrite Z.sub_0_r, Nat2Z.id, drop_0, firstn_all.
  destruct (HO id) as (p & HB & _ & HP). destruct Hm as (Hu & _). rewrite Hu in HP.
  assert (p = []) as -> by (by destruct HP as [|(t & m & HT & _)]). rewrite app_nil_r in HB.
  rewrite (said_resource _ _ _ HB). unfold resource_after. destruct (last _); [done|apply Hstore].
Qed.

(** ** Properties *)

(** The resources follow the stream.  However reports, health checks,
    publications and the goroutines of the watches interleave: once everything
    built is published and the controller's consumer sleeps, the resource of
    every service is the one of the last event published of it since the
    controller began to watch. *)
Theorem service_resources_at_rest w i c id :
  rtc mstep (beginning e store) w -> Z.of_nat (length (w_log (stream w))) < 2 ^ 63 -> mirrored i c w ->
  spec_of ServiceSpec (services w) id =
    resource_after store (messages (segment (w_log (stream w)) (c_start c) (Z.of_nat (length (w_log (stream w)))))) id.
Proof. intros HR Hlen Hm. destruct (mirrored_got w i c HR Hlen Hm) as [<- HV]. apply HV. Qed.

(** C28: services that report alone are mirrored.  If every event of a service is
    published before the next is built, and the controller began to watch
    while the stream still had all events, then at rest a service has a resource
    exactly when its runner is in the state running, with the health of the
    last event that was built. *)
Theorem service_resources_mirror_runners w i c id :
  rtc mstep_alone (beginning e store) w -> Z.of_nat (length (w_log (stream w))) < 2 ^ 63 -> mirrored i c w ->
  c_start c = 0 -> (forall id, spec_of ServiceSpec store id = None) ->
  spec_of ServiceSpec (services w) id = last (of_service id (built w)) ≫= resource_of /\
  (is_Some (spec_of ServiceSpec (services w) id) <-> exists r, runners w !! id = Some r /\ state r = StateRunning).
Proof.
  intros HR Hlen Hm Hs Hstore. pose proof (mirrored_resource w i c id HR Hlen Hm Hs Hstore) as HE.
  destruct (machine_ok w (proj1 (alone_ok w HR)) Hlen) as [Hr _].
  split; [done|]. rewrite HE. destruct (last (of_service id (built w))) as [msg|] eqn:EL.
  - pose proof EL as [Hid Hin]%last_Some_elem_of%list_elem_of_filter. destruct (ok_built _ Hr _ Hin) as [r HRr]. rewrite Hid in HRr.
    destruct (ok_runner _ Hr _ _ HRr) as (_ & _ & _ & HL). unfold last_built in HL. rewrite EL in HL. destruct HL as [HA Hrd].
    cbn. unfold resource_of. rewrite HA. case_decide as Hd.
    + destruct (Hrd ltac:(congruence)) as [h ->]. split; [|by eauto]. intros _. exists r. split; [done|]. by destruct (state r).
    + split; [by intros []|]. intros (r' & HR' & HS'). destruct Hd. replace r with r' by congruence. by rewrite HS'.
  - split; [by intros []|]. intros (r & HRr & HS'). destruct (ok_runner _ Hr _ _ HRr) as (_ & _ & _ & HL).
    unfold last_built in HL. rewrite EL in HL. congruence.
Qed.

End beginning.

End machine.

(** ** A machine with one service *)

Module MirrorDemo.
Import ServiceDemo.

(** An encoding that keeps everything: the digits of a number. *)
Fixpoint digits (p : positive) : string :=
  match p with xH => "" | xO p => String.String (Ascii.ascii_of_nat 48) (digits p) | xI p => String.String (Ascii.ascii_of_nat 49) (digits p) end.

Fixpoint undigits (s : string) : positive :=
  match s with
  | "" => xH
  | String.String c s => if decide (Ascii.nat_of_ascii c = 48%nat) then xO (undigits s) else xI (undigits s)
  end.

Lemma undigits_digits p : undigits (digits p) = p.
Proof. induction p as [p IH|p IH|]; [exact (f_equal xI IH)|exact (f_equal xO IH)|done]. Qed.

Definition fields (msg : ServiceStateEvent) : string * Z * string * option (bool * bool) :=
  (sse_Service msg, sse_Action msg, sse_Message msg, (fun h => (sh_Unknown h, sh_Healthy h)) <$> sse_Health msg).

Definition of_fields (f : string * Z * string * option (bool * bool)) : ServiceStateEvent :=
  let '(s, a, m, h) := f in mkServiceStateEvent s a m ((fun '(u, h) => mkServiceHealth u h) <$> h).

#[export] Instance demo_json : JSON := {|
  json_Marshal msg := Some (digits (countable.encode (fields msg)));
  json_Unmarshal data := of_fields <$> countable.decode (undigits data)
|}.

#[export] Instance demo_json_laws : JSONLaws.
Proof.
  split. intros msg _. eexists _, msg. split; [done|]. split; [|done]. cbn. rewrite undigits_digits, decode_encode. cbn.
  by destruct msg as [s a m [[]|]].
Qed.

(** The stream of [main]. *)
Definition events : Events := match NewEvents 1000 10 with Ok e => e | _ => mkEvents [] 0 0 0 end.

Definition start : mirror (store ServiceSpec) := beginning events ∅.

Lemma started : NewEvents 1000 10 = Ok events.
Proof. done. Qed.

(** The controller watches, and udevd starts. *)
Definition starts : list action := [AWatch 0; AStream (SFetch 0); ALoad "udevd" true; ARun "udevd"; AInit "udevd" 0].

Definition running : action := AUpdateState 1 "udevd" StateRunning "Process Process([/sbin/udevd]) started" 1.
Definition checked : list action := [AUpdate "udevd" true "" 2; AHealthUpdate 2 "udevd" 3].
Definition received : list action := [AStream (SWake 0); ADeliver; AStream (SFetch 0); ADeliver; AStream (SFetch 0)].

(** Every event is published before the next is built. *)
Definition in_turn : mirror (store ServiceSpec) :=
  default start (acts act_alone (starts ++ [running; APublish 1 1 ""] ++ checked ++ [APublish 2 2 ""] ++ received) start).

(** The runner's goroutine has built its event and not yet published it when
    that of the health publishes the first success. *)
Definition overtaken : mirror (store ServiceSpec) :=
  default start (acts act (starts ++ [running] ++ checked ++ [APublish 2 1 ""; APublish 1 2 ""] ++ received) start).

Definition controller (w : mirror (store ServiceSpec)) : consumer :=
  default (mkConsumer 0 "" CClosed false 0 []) (w_consumers (stream w) !! 0%nat).

Lemma in_turn_reached : rtc mstep_alone start in_turn.
Proof.
  eapply (acts_steps _ act_alone); [intros a w1 w2; apply act_alone_step|].
  instantiate (1 := starts ++ [running; APublish 1 1 ""] ++ checked ++ [APublish 2 2 ""] ++ received). by vm_compute.
Qed.

Lemma overtaken_reached : rtc mstep start overtaken.
Proof.
  eapply (acts_steps _ act); [intros a w1 w2; apply act_step|].
  instantiate (1 := starts ++ [running] ++ checked ++ [APublish 2 1 ""; APublish 1 2 ""] ++ received). by vm_compute.
Qed.

Lemma service_resources_at_rest_witness :
  length (messages (w_log (stream overtaken))) = 2%nat /\
  spec_of ServiceSpec (services overtaken) "udevd" = resource_after ∅ (messages (w_log (stream overtaken))) "udevd".
Proof.
  split; [by vm_compute|].
  refine (service_resources_at_rest 1000 10 events ∅ _ _ started overtaken 0 (controller overtaken) "udevd" overtaken_reached _ _).
  - lia.
  - lia.
  - by vm_compute.
  - split; [by vm_compute|]. split; [by vm_compute|]. split; by vm_compute.
Defined.

Lemma service_resources_mirror_runners_witness :
  (exists r, runners in_turn !! "udevd" = Some r /\ state r = StateRunning) /\
  is_Some (spec_of ServiceSpec (services in_turn) "udevd") /\
  services in_turn !! "udevd" = Some (mkServiceSpec true true false).
Proof.
  assert (exists r, runners in_turn !! "udevd" = Some r /\ state r = StateRunning) as Hr by (eexists; by vm_compute).
  split; [exact Hr|]. split; [|by vm_compute].
  apply (service_resources_mirror_runners 1000 10 events ∅ ltac:(lia) ltac:(lia) started in_turn 0 (controller in_turn) "udevd").
  - exact in_turn_reached.
  - by vm_compute.
  - split; [by vm_compute|]. split; [by vm_compute|]. split; by vm_compute.
  - by vm_compute.
  - done.
  - exact Hr.
Defined.

(** An overtaken event stays in the resource.  The machine can come to rest
    with udevd running and healthy, up for everyone who waits for it, while its
    resource says that its health is not known; the device status controller
    then goes on waiting. *)
Theorem overtaken_event_stays :
  exists w c r s, rtc mstep start w /\ mirrored 0 c w /\ runners w !! "udevd" = Some r /\ state r = StateRunning /\
    Healthy (Health.Get (healthState r)) = Some true /\ inStateLocked StateEventUp r = Some true /\
    spec_of ServiceSpec (services w) "udevd" = Some s /\ s = mkServiceSpec true false true /\
    forall write, device_iteration (inl (Some s)) write = (false, Continue).
Proof.
  exists overtaken, (controller overtaken).
  destruct (runners overtaken !! "udevd") as [r|] eqn:E; [|by vm_compute in E].
  exists r, (mkServiceSpec true false true). split; [exact overtaken_reached|].
  vm_compute in E. injection E as <-. split; [split; [by vm_compute|]; split; [by vm_compute|]; split; by vm_compute|].
  split_and!; by vm_compute.
Qed.

End MirrorDemo.
