(* ===== verification/Boot.v ===== *)
(** * The boot: the service controllers on the services singleton

    Composes [RuntimeControllers] with [Services]: the controllers of
    [udev_service.go] and [apid_service.go] are the callers of the singleton of
    [system.go].  A call of a controller takes the lock of the singleton like any
    other; between its calls everything else goes on, the other controller, the
    goroutines of the services, stops and the shutdown. *)

From stdpp Require Import functions.
From S2P Require Import Prelude ServiceRunner Services ServiceController RuntimeControllers.

(** ** The controllers *)

Inductive owner := UdevController | ApidController.

#[export] Instance owner_eq_dec : EqDecision owner.
Proof. solve_decision. Defined.

Definition service_id (o : owner) : string := match o with UdevController => "udevd" | ApidController => "apid" end.

(** Where [ensureStarted] stands. *)
Inductive place := Outside | Loaded | Checked (running : bool) | Starting | Waiting.

(** A controller: its flag [started] and its place. *)
Record manager := mkManager { m_started : bool; m_place : place }.

(** The singleton, the resources of udevd and of the devices, whether the
    device status controller is done, and the two controllers. *)
Record system := mkSystem {
  services : singleton;
  udevd_resource : option ServiceSpec;
  ready : option bool;
  devices_over : bool;
  managers : owner -> manager
}.

Definition system0 : system := mkSystem newServices None None false (fun _ => mkManager false Outside).

Definition move (o : owner) (m : manager) (sv : singleton) (s : system) : system :=
  mkSystem sv (udevd_resource s) (ready s) (devices_over s) (<[o := m]> (managers s)).

(** What is not done by a controller: no service is loaded, and no [Start]
    begins or ends. *)
Definition internal (sv sv' : singleton) : Prop :=
  sstep sv sv' /\ dom (svcs sv') = dom (svcs sv) /\ (starting sv' = None <-> starting sv = None).

(** One step.  The calls need the lock, which a [Start] in progress holds;
    [Load] and [Start] do nothing, without an error, while the singleton
    terminates; the wait for the service ends in any way. *)
Inductive bstep (s : system) : system -> Prop :=
| b_internal sv :
    internal (services s) sv -> bstep s (mkSystem sv (udevd_resource s) (ready s) (devices_over s) (managers s))
| b_load o :
    starting (services s) = None -> managers s o = mkManager false Outside ->
    (o = ApidController -> ready s = Some true) ->
    bstep s (move o (mkManager false Loaded) (snd (Load [(service_id o, true)] (services s))) s)
| b_check o :
    starting (services s) = None -> managers s o = mkManager false Loaded ->
    bstep s (move o (mkManager false (match IsRunning (service_id o) (services s) with Ok b => Checked b | _ => Outside end))
               (services s) s)
| b_running o :
    managers s o = mkManager false (Checked true) -> bstep s (move o (mkManager false Waiting) (services s) s)
| b_start o :
    starting (services s) = None -> managers s o = mkManager false (Checked false) ->
    terminating (services s) || denyNewServices (services s) = false ->
    bstep s (move o (mkManager false Starting) (set_starting (Some (mkStart [service_id o] None None)) (services s)) s)
| b_refused o :
    starting (services s) = None -> managers s o = mkManager false (Checked false) ->
    terminating (services s) || denyNewServices (services s) = true ->
    bstep s (move o (mkManager false Waiting) (services s) s)
| b_start_end o err :
    managers s o = mkManager false Starting -> starting (services s) = Some (mkStart [] None err) ->
    bstep s (move o (mkManager false (match err with None => Waiting | Some _ => Outside end)) (set_starting None (services s)) s)
| b_wait o (ok : bool) :
    managers s o = mkManager false Waiting -> bstep s (move o (mkManager ok Outside) (services s) s)
| b_resource v :
    bstep s (mkSystem (services s) v (ready s) (devices_over s) (managers s))
| b_devices write wrote turn :
    devices_over s = false -> device_iteration (inl (udevd_resource s)) write = (wrote, turn) ->
    bstep s (mkSystem (services s) (udevd_resource s) (if wrote : bool then Some true else ready s)
               (match turn with Return (Ok _) => true | _ => false end) (managers s)).

(** A run, with the states it passes through, latest first. *)
Inductive brun : list system -> Prop :=
| brun_init : brun [system0]
| brun_step s s' past : brun (s :: past) -> bstep s s' -> brun (s' :: s :: past).

(** ** Lemmas *)

Definition spawned (sv : singleton) : list string := g_id <$> gs sv.

Lemma spawned_set k g g' (l : list goroutine) :
  l !! k = Some g -> g_id g' = g_id g -> g_id <$> <[k := g']> l = g_id <$> l.
Proof. intros Hk HE. rewrite list_fmap_insert, HE. apply list_insert_id. by rewrite list_lookup_fmap, Hk. Qed.

(** The ids of the services still to be started by the [Start] in progress. *)
Definition todo (sv : singleton) : list string := match starting sv with Some c => sc_todo c | None => [] end.

(** Only the [Start] in progress spawns goroutines, and only of its services. *)
Lemma sstep_spawned sv sv' :
  internal sv sv' ->
  (spawned sv' = spawned sv \/ exists id, id ∈ todo sv /\ spawned sv' = spawned sv ++ [id]) /\
  (forall id, id ∈ todo sv' -> id ∈ todo sv).
Proof.
  intros (HS & _ & HI). unfold spawned, todo in *.
  destruct HS as [svs H|H|ids H _|id td err H|td k g err H _ _|err H|k id b r now r' ev H|k id b r st msg now r' ev H|
    k id r c' H|k id b res H|k id b res H|k id b res r now r' ev H|svs H|H|j td wt c id r H|j wt c id r H|j wt H];
    cbn [gs starting set_starting report set_svcs set_g begin_stop DenyNewServices set_stops] in *;
    try (rewrite (spawned_set _ _ _ _ H) by done); try (split; [by left|done]).
  - destruct (Load_spec svs sv) as (_ & _ & -> & -> & _). split; [by left|done].
  - discriminate (proj2 HI H).
  - rewrite H. cbn [sc_todo]. unfold Start_one. destruct (svcs sv !! id) as [r|]; [case_decide|]; cbn [gs set_starting starting sc_todo];
      (split; [|intros x Hx; by right]); [by left| |by left].
    right. exists id. split; [left|]. by rewrite fmap_app.
  - rewrite H. split; [by left|done].
  - specialize (proj1 HI eq_refl). congruence.
Qed.

Lemma steps_snoc s1 s2 s3 : steps s1 s2 -> sstep s2 s3 -> steps s1 s3.
Proof. induction 1; eauto using steps. Qed.

Lemma Load_dom id b sv : dom (svcs (snd (Load [(id, b)] sv))) ⊆ {[id]} ∪ dom (svcs sv).
Proof.
  unfold Load. destruct (_ || _); cbn [snd]; [set_solver|]. cbn [foldl]. unfold Load_one. cbn [fst snd].
  destruct (svcs sv !! id) as [r|]; cbn [svcs set_svcs]; set_solver.
Qed.

(** A step of the system is a step of the singleton, or none. *)
Lemma bstep_services s s' : bstep s s' -> services s' = services s \/ sstep (services s) (services s').
Proof.
  intros HS. destruct HS as [sv (HI & _)|o Hl|o|o|o Hl _ Hd|o|o err _ Hs|o ok|v|write wrote tn]; cbn; auto.
  - right. by apply ss_load.
  - right. by apply ss_start.
  - right. by eapply ss_start_end.
Qed.

(** What is loaded is one of the two services, and apid only when the devices
    are ready. *)
Lemma bstep_loaded s s' id :
  bstep s s' -> id ∈ dom (svcs (services s')) ->
  id ∈ dom (svcs (services s)) \/ exists o, id = service_id o /\ (o = ApidController -> ready s = Some true).
Proof.
  intros HS. destruct HS as [sv (_ & HD & _)|o _ _ Hr|o|o|o|o|o err|o ok|v|write wrote tn]; cbn; auto.
  - rewrite HD. auto.
  - intros Hin. apply Load_dom in Hin. apply elem_of_union in Hin as [->%elem_of_singleton|?]; [|by left]. right. by exists o.
Qed.

(** The managers move only themselves, and no more once they are done. *)
Lemma bstep_managers s s' o :
  bstep s s' -> managers s' o = managers s o \/ m_started (managers s o) = false.
Proof.
  intros HS. destruct HS as [sv ?|o' ? Hm|o' ? Hm|o' Hm|o' ? Hm|o' ? Hm|o' err Hm|o' ok Hm|v|write wrote tn]; cbn; auto;
    (destruct (decide (o' = o)) as [<-|]; [right; by rewrite Hm|left; by rewrite fn_lookup_insert_ne]).
Qed.

(** The services of the [Start] in progress are those of a manager that waits
    for it. *)
Definition start_owned (s : system) : Prop :=
  forall id, id ∈ todo (services s) -> exists o, service_id o = id /\ m_place (managers s o) = Starting.

Lemma owned_move s o m m0 sv :
  start_owned s -> managers s o = m0 -> m_place m0 <> Starting -> (forall id, id ∈ todo sv -> id ∈ todo (services s)) ->
  start_owned (move o m sv s).
Proof.
  intros HO Hm Hp Ht id Hid. destruct (HO id (Ht id Hid)) as (o' & <- & HP). exists o'. split; [done|].
  cbn [managers move]. rewrite fn_lookup_insert_ne; [done|]. intros ->. by rewrite Hm in HP.
Qed.

Lemma bstep_owned s s' : bstep s s' -> start_owned s -> start_owned s'.
Proof.
  intros HS HO. destruct HS as [sv HI|o Hs Hm _|o _ Hm|o Hm|o Hs Hm _|o _ Hm _|o err Hm Hs|o ok Hm|v|write wrote tn];
    try (by apply (owned_move _ _ _ _ _ HO Hm)); try exact HO.
  - intros id Hid. cbn [services] in Hid. apply HO. by apply (sstep_spawned _ _ HI).
  - apply (owned_move _ _ _ _ _ HO Hm); [done|]. intros id Hid. unfold todo in *.
    destruct (Load_spec [(service_id o, true)] (services s)) as (_ & _ & _ & HE & _). cbn zeta in HE. by rewrite HE in Hid.
  - intros id Hid. cbn in Hid. apply list_elem_of_singleton in Hid as ->. exists o. split; [done|].
    cbn [managers move]. by rewrite fn_lookup_insert.
  - intros id Hid. by apply elem_of_nil in Hid.
Qed.

(** A step spawns at most a goroutine of a manager that waits for its start. *)
Lemma bstep_spawned s s' :
  bstep s s' -> start_owned s ->
  spawned (services s') = spawned (services s) \/
  exists o, spawned (services s') = spawned (services s) ++ [service_id o] /\ m_place (managers s o) = Starting.
Proof.
  intros HS HO. destruct HS as [sv HI|o|o|o|o|o|o err|o ok|v|write wrote tn]; try (by left).
  - destruct (proj1 (sstep_spawned _ _ HI)) as [?|(id & Hid & HE)]; [by left|]. right.
    destruct (HO id Hid) as (o & <- & HP). by exists o.
  - left. cbn. unfold spawned. destruct (Load_spec [(service_id o, true)] (services s)) as (_ & _ & -> & _). done.
Qed.

Lemma bstep_ready s s' :
  bstep s s' -> ready s' = ready s \/ ready s' = Some true /\
    exists v, udevd_resource s = Some v /\ Running v = true /\ svc_Healthy v = true.
Proof.
  intros HS. destruct HS as [sv HI|o|o|o|o|o|o err|o ok|v|write wrote tn _ HD]; try (by left). cbn [ready].
  destruct wrote; [|by left]. right. split; [done|].
  destruct (device_iteration_wrote _ _ _ HD) as (v & [= Hv] & ? & ?). eauto.
Qed.

Lemma bstep_started s s' :
  bstep s s' -> (forall o, m_started (managers s o) = true -> m_place (managers s o) = Outside) ->
  forall o, m_started (managers s' o) = true -> m_place (managers s' o) = Outside.
Proof.
  intros HS HO o. destruct HS as [sv HI|o'|o'|o'|o'|o'|o' err|o' ok|v|write wrote tn]; cbn [managers move]; auto;
    (destruct (decide (o' = o)) as [<-|]; [by rewrite fn_lookup_insert|rewrite fn_lookup_insert_ne by done; auto]).
Qed.

(** udevd was up: its resource says that it runs and is healthy. *)
Definition udevd_was_up (s : system) : Prop :=
  exists v, udevd_resource s = Some v /\ Running v = true /\ svc_Healthy v = true.

Record boot_ok (s : system) (run : list system) : Prop := {
  bo_reachable : reachable (services s);
  bo_loaded id : id ∈ dom (svcs (services s)) -> exists o, id = service_id o /\ (o = ApidController -> ready s = Some true);
  bo_ready : ready s <> None -> ready s = Some true /\ Exists udevd_was_up run;
  bo_owned : start_owned s;
  bo_started o : m_started (managers s o) = true -> m_place (managers s o) = Outside
}.

Lemma brun_ok run s past : brun run -> run = s :: past -> boot_ok s run.
Proof.
  intros HR. revert s past. induction HR as [|s s' past HR IH HS]; intros s0 past0 [= <- <-].
  - split; [apply steps_refl| |done| |done].
    + intros id. cbn. by rewrite dom_empty_L, elem_of_empty.
    + intros id Hid. by apply elem_of_nil in Hid.
  - destruct (IH s past eq_refl) as [H1 H2 H3 H4 H5]. split.
    + destruct (bstep_services _ _ HS) as [->|HS']; [done|]. by eapply steps_snoc.
    + intros id Hid. assert (ready s = Some true -> ready s' = Some true) as Hk
        by (destruct (bstep_ready _ _ HS) as [->|[-> _]]; auto).
      destruct (bstep_loaded _ _ _ HS Hid) as [(o & -> & Ho)%H2|(o & -> & Ho)]; exists o; auto.
    + intros Hne. destruct (bstep_ready _ _ HS) as [HE|[HE Hup]]; rewrite HE in *.
      * destruct (H3 Hne). split; [done|by right].
      * split; [done|]. right. by left.
    + by eapply bstep_owned.
    + by eapply bstep_started.
Qed.

(** What was spawned is loaded. *)
Lemma spawned_loaded s id : reachable s -> id ∈ spawned s -> id ∈ dom (svcs s).
Proof.
  intros HR (g & -> & (k & Hk)%list_elem_of_lookup)%list_elem_of_fmap. apply elem_of_dom.
  by apply (so_defined _ (services_ok_steps newServices s services_ok_init HR) k).
Qed.

Definition spawned_of (o : owner) (s : system) : list string := filter (fun id => id = service_id o) (spawned (services s)).

Lemma service_id_inj o o' : service_id o = service_id o' -> o = o'.
Proof. by destruct o, o'. Qed.

Lemma done_step o s s' run :
  boot_ok s run -> bstep s s' -> m_started (managers s o) = true ->
  managers s' o = managers s o /\ spawned_of o s' = spawned_of o s.
Proof.
  intros [_ _ _ HO HP] HS Hm. split.
  - destruct (bstep_managers _ _ o HS) as [?|?]; [done|congruence].
  - unfold spawned_of. destruct (bstep_spawned _ _ HS HO) as [->|(o' & -> & Hw)]; [done|].
    rewrite filter_app, filter_cons_False, app_nil_r; [done|]. intros ->%service_id_inj.
    rewrite (HP _ Hm) in Hw. done.
Qed.

(** A manager that is done stays so, and its service is not started again. *)
Lemma done_stays o run s past later s' :
  brun run -> run = s :: past -> m_started (managers s o) = true ->
  brun (s' :: later ++ run) \/ s' = s /\ later = [] ->
  managers s' o = managers s o /\ spawned_of o s' = spawned_of o s.
Proof.
  intros HR0 -> Hm. revert s'. induction later as [|s1 later IH]; intros s' [HR|[-> HE]]; try done.
  - inversion HR as [|? ? ? HR1 HS]; subst.
    exact (done_step o _ _ _ (brun_ok _ _ _ HR1 eq_refl) HS Hm).
  - inversion HR as [|? ? ? HR1 HS]; subst. destruct (IH s1) as [H1 H2]; [by left|].
    rewrite <-H1 in Hm. destruct (done_step o _ _ _ (brun_ok _ _ _ HR1 eq_refl) HS Hm) as [H3 H4]. split; congruence.
Qed.

(** ** Properties *)

(** C25: the boot on the singleton.  In every interleaving of the two service
    controllers with the goroutines of the services, the stops and the
    shutdown: the singleton holds no service but udevd and apid; apid is
    loaded, and run, only when the devices were marked ready, and thus after
    udevd was running and healthy; each is run at most once at a time; and
    once a controller is done, its service is never started again. *)
Theorem boot_services run s past :
  brun run -> run = s :: past ->
  (forall id, id ∈ dom (svcs (services s)) -> id = "udevd" \/ id = "apid") /\
  ("apid" ∈ dom (svcs (services s)) \/ "apid" ∈ spawned (services s) -> ready s = Some true /\ Exists udevd_was_up run) /\
  (forall id, (length (runs_of id (services s)) <= 1)%nat) /\
  (forall o later s', m_started (managers s o) = true -> brun (s' :: later ++ run) -> spawned_of o s' = spawned_of o s).
Proof.
  intros HR HE. pose proof (brun_ok run s past HR HE) as HB. destruct HB as [H1 H2 H3 _ _]. split_and!.
  - intros id (o & -> & _)%H2. destruct o; auto.
  - intros Ha. assert ("apid" ∈ dom (svcs (services s))) as (o & Ho & Hr)%H2
      by (destruct Ha; [done|by apply spawned_loaded]).
    apply H3. by rewrite Hr by by destruct o.
  - intros id. rewrite (so_runs _ (services_ok_steps newServices _ services_ok_init H1)). case_decide; lia.
  - intros o later s' Hm HR'. by apply (done_stays o run s past later s'); auto.
Qed.

(** ** A boot *)

Definition up : ServiceSpec := mkServiceSpec true true false.
Definition r1 : system := mkSystem newServices (Some up) None false (managers system0).
Definition r2 : system := mkSystem newServices (Some up) (Some true) true (managers system0).
Definition r3 : system := move ApidController (mkManager false Loaded) (snd (Load [("apid", true)] newServices)) r2.
Definition r4 : system := move ApidController (mkManager false (Checked false)) (services r3) r3.
Definition r5 : system :=
  move ApidController (mkManager false Starting) (set_starting (Some (mkStart ["apid"] None None)) (services r4)) r4.
Definition r6 : system := mkSystem (Start_one "apid" [] None (services r5)) (Some up) (Some true) true (managers r5).

Lemma booting : brun [r6; r5; r4; r3; r2; r1; system0].
Proof.
  repeat (eapply brun_step; [|shelve]). apply brun_init.
  Unshelve.
  - apply (b_internal r5). split; [by apply (ss_start_next _ "apid" [])|]. by vm_compute.
  - by apply (b_start r4 ApidController).
  - by apply (b_check r3 ApidController).
  - by apply (b_load r2 ApidController).
  - by apply (b_devices r1 None true (Return (Ok tt))).
  - apply (b_resource system0).
Qed.

Lemma boot_services_witness :
  ready r6 = Some true /\ spawned (services r6) = ["apid"] /\ (length (runs_of "apid" (services r6)) <= 1)%nat.
Proof.
  destruct (boot_services _ r6 _ booting eq_refl) as (_ & H2 & H3 & _). split_and!; [|done|apply H3].
  apply H2. right. left.
Defined.
