(* ===== verification/Tsosctl.v ===== *)
(** * The command line client

    Models [cmd/tsosctl]: the resolution of a resource type by name or alias,
    [tsosctl get] ([cmd/tsos/get.go]), the YAML output ([cmd/tsos/output]) and
    the exit of the program ([cmd/root.go], [main.go]).  The connection to the
    node, cobra's parsing of the command line and the encoding of YAML are
    parameters. *)

From S2P Require Import Prelude Runners.

(** ** strings.EqualFold *)

(** Of ASCII text: the letters are compared without their case. *)
Fixpoint EqualFold (s t : string) : bool :=
  match s, t with
  | EmptyString, EmptyString => true
  | String a s, String b t => bool_decide (lower_byte a = lower_byte b) && EqualFold s t
  | _, _ => false
  end.

(** ** Resource definitions *)

Record ResourceDefinition := mkRD {
  rd_ID : string;
  rd_Type : string;
  DefaultNamespace : string;
  AllAliases : list string
}.

(** The inner loop over the aliases, with its [break]. *)
Fixpoint match_alias (resourceType : string) (aliases : list string) : bool :=
  match aliases with
  | [] => false
  | alias :: aliases => if EqualFold alias resourceType then true else match_alias resourceType aliases
  end.

(** The outer loop, with its [continue]. *)
Fixpoint match_loop (resourceType : string) (rds matched : list ResourceDefinition) : list ResourceDefinition :=
  match rds with
  | [] => matched
  | rd :: rds =>
    if EqualFold (rd_ID rd) resourceType then match_loop resourceType rds (matched ++ [rd])
    else if match_alias resourceType (AllAliases rd) then match_loop resourceType rds (matched ++ [rd])
    else match_loop resourceType rds matched
  end.

(** [status.Errorf(code, ...)], as it prints. *)
Definition status_error (code desc : string) : error :=
  EMsg ("rpc error: code = " +:+ code +:+ " desc = " +:+ desc).

(** [%v] of a slice of strings. *)
Definition print_list (l : list string) : string := "[" +:+ String.concat " " l +:+ "]".

(** ** Output (output.go, yaml.go) *)

(** [NewWriter]: the one format there is. *)
Inductive format := FormatYAML.

Definition NewWriter (name : string) : result format :=
  if decide (name = "yaml") then Ok FormatYAML
  else Err (EMsg ("output format " +:+ quote name +:+ " is not supported")).

Definition newline : string := String (Ascii.ascii_of_nat 10) EmptyString.
Definition dashes : string := "---" +:+ newline.

(** [YAML]: whether a separator is needed, and its writer. *)
Record YAML (W : Type) := mkYAML { needDashes : bool; out : W }.
Arguments mkYAML {W} _ _.
Arguments needDashes {W} _.
Arguments out {W} _.

Definition NewYAML {W} (w : W) : YAML W := mkYAML false w.

(** ** The client *)

(** The state of the node ([COSI]), for resources of a type [R]: the calls are
    numbered by the world [N]. *)
Class Node (N R : Type) := {
  StateListAll : N -> N * (error + list ResourceDefinition);
  COSI_List : string -> string -> N -> N * (error + list R);
  COSI_Get : string -> string -> string -> N -> N * (error + R);
  conn_new : string -> N -> N * option error
}.

(** The encoding of a resource, and what the encoder writes. *)
Class Encoding (W R : Type) := {
  doc : Type;
  MarshalYAML : R -> error + doc;
  Fprint : string -> W -> W;
  Encode : doc -> W -> W * option error
}.

(** The process: its flags, the node and its standard output. *)
Record process (W N : Type) := mkProcess { flag_namespace : string; flag_node : string; flag_output : string; node : N; stdout : YAML W }.
Arguments mkProcess {W N} _ _ _ _ _.
Arguments flag_namespace {W N} _.
Arguments flag_node {W N} _.
Arguments flag_output {W N} _.
Arguments node {W N} _.
Arguments stdout {W N} _.

Section Client.
Context {W N R : Type} `{Node N R} `{Encoding W R}.
Implicit Types p : process W N.

Definition set_node (n : N) p := mkProcess (flag_namespace p) (flag_node p) (flag_output p) n (stdout p).
Definition set_namespace (s : string) p := mkProcess s (flag_node p) (flag_output p) (node p) (stdout p).
Definition set_stdout (y : YAML W) p := mkProcess (flag_namespace p) (flag_node p) (flag_output p) (node p) y.

(** [WriteResource]; the error of [Fprintln] is not looked at. *)
Definition WriteResource (r : R) (y : YAML W) : YAML W * option error :=
  match MarshalYAML r with
  | inl err => (y, Some err)
  | inr d =>
    let w := if needDashes y then Fprint dashes (out y) else out y in
    let '(w, err) := Encode d w in (mkYAML true w, err)
  end.

(** A call of the node. *)
Definition call {A} (f : N -> N * (error + A)) : M (process W N) A := fun p =>
  match f (node p) with
  | (n, inl err) => (set_node n p, Err err)
  | (n, inr a) => (set_node n p, Ok a)
  end.

(** The [switch] on the matches; the namespace is a pointer to the flag. *)
Definition select_kind (resourceType : string) (matched : list ResourceDefinition) : M (process W N) ResourceDefinition :=
  fun p =>
    match matched with
    | [rd] => (if decide (flag_namespace p = "") then set_namespace (DefaultNamespace rd) p else p, Ok rd)
    | [] => (p, Err (status_error "NotFound" ("resource " +:+ quote resourceType +:+ " is not registered")))
    | _ =>
      (p, Err (status_error "InvalidArgument"
                 ("resource type " +:+ quote resourceType +:+ " is ambiguous: " +:+ print_list (rd_ID <$> matched))))
    end.

Definition resolveResourceKind (resourceType : string) : M (process W N) ResourceDefinition :=
  registeredResources ← call StateListAll;
  select_kind resourceType (match_loop resourceType registeredResources []).

(** [writer.WriteResource(r)], its result not looked at. *)
Definition write_ignored (r : R) : M (process W N) unit := fun p =>
  (set_stdout (fst (WriteResource r (stdout p))) p, Ok tt).

Definition get_namespace : M (process W N) string := fun p => (p, Ok (flag_namespace p)).

Definition listResources (rd : ResourceDefinition) (resourceID : string) : M (process W N) unit :=
  let resourceType := rd_Type rd in
  namespace ← get_namespace;
  if decide (resourceID = "")
  then items ← call (COSI_List namespace resourceType); for_range write_ignored items
  else r ← call (COSI_Get namespace resourceType resourceID); write_ignored r.

Definition fresh_writer : M (process W N) unit := fun p => (set_stdout (NewYAML (out (stdout p))) p, Ok tt).

Definition getResources (args : list string) : M (process W N) unit :=
  match args with
  | [] => panics "runtime error: index out of range [0] with length 0"
  | resourceType :: rest =>
    let resourceID := match rest with [id] => id | _ => "" end in
    rd ← resolveResourceKind resourceType;
    match NewWriter "yaml" with
    | Ok FormatYAML => _ ← fresh_writer; listResources rd resourceID
    | Err e => fail e
    | Panic m => panics m
    end
  end.

(** The command [get]; cobra has checked the number of arguments. *)
Definition NewClient (target : string) : M (process W N) unit := fun p =>
  match conn_new target (node p) with
  | (n, Some err) => (set_node n p, Err err)
  | (n, None) => (set_node n p, Ok tt)
  end.

Definition get_node : M (process W N) string := fun p => (p, Ok (flag_node p)).

Definition getCmd_RunE (args : list string) : M (process W N) unit :=
  target ← get_node;
  _ ← NewClient target;
  getResources args.

End Client.

(** ** The program (root.go, main.go) *)

(** [Execute] and [main], of a root command that ends with an error or not: the
    lines on the standard error, and the exit code. *)
Definition Execute (err : option error) : list string * option error :=
  match err with Some e => ([Error e], Some e) | None => ([], None) end.

Definition main (err : option error) : list string * Z :=
  let '(stderr, err) := Execute err in (stderr, match err with Some _ => 1 | None => 0 end).

(** ** Lemmas *)

Lemma EqualFold_spec s t : EqualFold s t = true <-> ToLower s = ToLower t.
Proof.
  revert t. induction s as [|a s IH]; intros [|b t]; simpl; try done.
  rewrite andb_true_iff, bool_decide_eq_true, IH. split; [by intros [-> ->]|by intros [= -> ->]].
Qed.

(** What the resolution looks for. *)
Definition named (resourceType : string) (rd : ResourceDefinition) : Prop :=
  exists name, name ∈ rd_ID rd :: AllAliases rd /\ ToLower name = ToLower resourceType.

Lemma match_alias_spec t l : match_alias t l = true <-> exists a, a ∈ l /\ ToLower a = ToLower t.
Proof.
  induction l as [|a l IH]; simpl.
  - split; [done|]. by intros (? & ?%elem_of_nil & _).
  - destruct (EqualFold a t) eqn:E.
    + apply EqualFold_spec in E. split; [|done]. intros _. exists a. split; [left|done].
    + rewrite IH. split; intros (b & Hb & Hf).
      * exists b. split; [by right|done].
      * apply elem_of_cons in Hb as [->|Hb]; [|eauto]. apply EqualFold_spec in Hf. congruence.
Qed.

#[export] Instance named_dec t rd : Decision (named t rd).
Proof.
  refine (cast_if (decide (match_alias t (rd_ID rd :: AllAliases rd) = true))); unfold named; rewrite <-match_alias_spec; done.
Defined.

Lemma match_loop_spec t rds m : match_loop t rds m = m ++ filter (named t) rds.
Proof.
  revert m. induction rds as [|rd rds IH]; intros m; [by rewrite app_nil_r|]. cbn [match_loop].
  assert ((if EqualFold (rd_ID rd) t then true else match_alias t (AllAliases rd)) = true <-> named t rd) as HN
    by (unfold named; by rewrite <-match_alias_spec).
  rewrite filter_cons. destruct (decide (named t rd)) as [Hd|Hd].
  - apply HN in Hd. rewrite !IH, <-!app_assoc. destruct (EqualFold (rd_ID rd) t); [done|]. by rewrite Hd.
  - destruct (EqualFold (rd_ID rd) t); [by destruct Hd; apply HN|].
    destruct (match_alias t (AllAliases rd)); [by destruct Hd; apply HN|]. apply IH.
Qed.

(** *** Output on a record of what is written *)

Definition separated (l : list string) : list string :=
  match l with [] => [] | d :: l => d :: flat_map (fun d => [dashes; d]) l end.

Section documents.
Context {N R : Type} (marshal : R -> error + string).

(** An encoding whose documents are strings, and a standard output that keeps
    what is written. *)
#[local] Instance recording : Encoding (list string) R :=
  {| doc := string; MarshalYAML := marshal; Fprint s w := w ++ [s]; Encode d w := (w ++ [d], None) |}.

Definition documents (items : list R) : list string :=
  omap (fun r => match marshal r with inr d => Some d | inl _ => None end) items.

Lemma write_all (items : list R) (p : process (list string) N) :
  exists p', for_range write_ignored items p = (p', Ok tt) /\ node p' = node p /\
    flag_namespace p' = flag_namespace p /\
    out (stdout p') = out (stdout p) ++ (if needDashes (stdout p) then flat_map (fun d => [dashes; d]) (documents items)
                                         else separated (documents items)).
Proof.
  revert p. induction items as [|r items IH]; intros p.
  { exists p. split_and!; try done. by destruct (needDashes _); rewrite app_nil_r. }
  cbn [for_range]. unfold mbind, M_bind. cbn [write_ignored].
  set (p1 := set_stdout (fst (WriteResource r (stdout p))) p).
  destruct (IH p1) as (p' & H1 & H2 & H3 & H4). exists p'. unfold write_ignored at 1. split; [exact H1|].
  rewrite H2, H3, H4. split; [done|]. split; [done|]. unfold p1, documents. cbn [set_stdout stdout]. unfold WriteResource.
  cbn [MarshalYAML recording omap list_omap]. destruct (marshal r) as [e|d]; [done|].
  cbn [Encode Fprint recording fst needDashes out]. rewrite <-app_assoc. destruct (needDashes (stdout p)); [|done].
  by rewrite <-app_assoc.
Qed.

End documents.

Lemma resolve_run {W N R} `{Node N R} t (p : process W N) n rds :
  StateListAll (node p) = (n, inr rds) ->
  resolveResourceKind t p = select_kind t (filter (named t) rds) (set_node n p).
Proof. intros HL. unfold resolveResourceKind, mbind, M_bind, call. by rewrite HL, match_loop_spec. Qed.

(** ** Properties *)

(** The resolution of a type.  A resource type is resolved to the one
    definition whose id or one of whose aliases it is, without regard to case,
    and only then the default namespace replaces an empty one; no such
    definition and several of them are errors, which name the type and what it
    is ambiguous between; resolution does not depend on the case of the
    argument. *)
Theorem resolve_exact {W N R} `{Node N R} t (p : process W N) n rds :
  StateListAll (node p) = (n, inr rds) ->
  exists p' r, resolveResourceKind t p = (p', r) /\ node p' = n /\ stdout p' = stdout p /\
    (forall rd, filter (named t) rds = [rd] ->
       r = Ok rd /\ flag_namespace p' = if decide (flag_namespace p = "") then DefaultNamespace rd else flag_namespace p) /\
    (filter (named t) rds = [] ->
       r = Err (status_error "NotFound" ("resource " +:+ quote t +:+ " is not registered"))) /\
    ((2 <= length (filter (named t) rds))%nat ->
       r = Err (status_error "InvalidArgument" ("resource type " +:+ quote t +:+ " is ambiguous: "
                 +:+ print_list (rd_ID <$> filter (named t) rds)))) /\
    (length (filter (named t) rds) <> 1%nat -> flag_namespace p' = flag_namespace p) /\
    (forall t' rd, ToLower t' = ToLower t -> (named t' rd <-> named t rd)).
Proof.
  intros HL. rewrite (resolve_run _ _ _ _ HL).
  destruct (select_kind t (filter (named t) rds) (set_node n p)) as [p' r] eqn:E. exists p', r. split; [done|].
  assert (forall t' rd, ToLower t' = ToLower t -> (named t' rd <-> named t rd)) as HF
    by (intros t' rd Hf; unfold named; by rewrite Hf).
  unfold select_kind in E. destruct (filter (named t) rds) as [|rd [|rd' l]].
  - injection E as <- <-. split_and!; try done. simpl. lia.
  - cbn [flag_namespace set_node] in E. case_decide; injection E as <- <-;
      (split_and!; [done|done| |done|simpl; lia|by intros []|done]); by intros ? [= <-].
  - injection E as <- <-. split_and!; try done.
Qed.

(** The program: the command's error decides the exit code; a panic is 2. *)
Definition program {W N R} `{Node N R} `{Encoding W R} (args : list string) (p : process W N)
    : process W N * (list string * Z) :=
  match getCmd_RunE args p with
  | (p, Ok _) => (p, main None)
  | (p, Err e) => (p, main (Some e))
  | (p, Panic m) => (p, (["panic: " +:+ m], 2))
  end.

(** What [tsosctl get] prints.  Once the node is reached and the type is
    resolved, the documents of the resources of the flag's namespace, or of the
    type's default one, are printed in the order of the node with one separator
    between two of them; a single resource is printed alone; the exit code
    is 0, also when some or all of the resources could not be encoded, whose
    documents are left out; and an error of the node is printed on the standard
    error only, with exit code 1. *)
Theorem get_prints {N R} `{Node N R} (marshal : R -> error + string) t (p : process (list string) N) n1 n2 rds rd :
  let _ := recording marshal in
  conn_new (flag_node p) (node p) = (n1, None) -> StateListAll n1 = (n2, inr rds) -> filter (named t) rds = [rd] ->
  let ns := if decide (flag_namespace p = "") then DefaultNamespace rd else flag_namespace p in
  (forall n3 items, COSI_List ns (rd_Type rd) n2 = (n3, inr items) ->
     exists p', program [t] p = (p', ([], 0)) /\
       out (stdout p') = out (stdout p) ++ separated (documents marshal items)) /\
  (forall n3 e, COSI_List ns (rd_Type rd) n2 = (n3, inl e) ->
     exists p', program [t] p = (p', ([Error e], 1)) /\ out (stdout p') = out (stdout p)) /\
  (forall id n3 r, id <> "" -> COSI_Get ns (rd_Type rd) id n2 = (n3, inr r) ->
     exists p', program [t; id] p = (p', ([], 0)) /\ out (stdout p') = out (stdout p) ++ documents marshal [r]) /\
  (forall id n3 e, id <> "" -> COSI_Get ns (rd_Type rd) id n2 = (n3, inl e) ->
     exists p', program [t; id] p = (p', ([Error e], 1)) /\ out (stdout p') = out (stdout p)).
Proof.
  intros enc HC HL HF ns. set (p1 := set_stdout (NewYAML (out (stdout p))) (set_namespace ns (set_node n2 (set_node n1 p)))).
  assert (forall rest, getCmd_RunE (t :: rest) p = listResources rd (match rest with [id] => id | _ => "" end) p1) as HG.
  { intros rest. unfold getCmd_RunE, get_node, NewClient, getResources, resolveResourceKind, mbind, M_bind, call.
    rewrite HC. cbn [node set_node]. rewrite HL, match_loop_spec. cbn [app]. rewrite HF.
    unfold select_kind. cbn [flag_namespace set_node]. unfold NewWriter. rewrite decide_True by done.
    unfold fresh_writer, p1, ns. by case_decide. }
  unfold program. split_and!.
  - intros n3 items HI. rewrite HG. unfold listResources, get_namespace, mbind, M_bind, call. rewrite decide_True by done.
    cbn [flag_namespace set_stdout set_namespace p1 node set_node]. rewrite HI. fold p1. subst enc.
    destruct (write_all marshal items (set_node n3 p1)) as (p' & -> & _ & _ & HO). exists p'. split; [done|]. exact HO.
  - intros n3 e HI. rewrite HG. unfold listResources, get_namespace, mbind, M_bind, call. rewrite decide_True by done.
    cbn [flag_namespace set_stdout set_namespace p1 node set_node]. rewrite HI. eexists. by split.
  - intros id n3 r Hid HI. rewrite HG. unfold listResources, get_namespace, mbind, M_bind, call. rewrite decide_False by done.
    cbn [flag_namespace set_stdout set_namespace p1 node set_node]. rewrite HI. eexists. split; [done|].
    unfold documents, WriteResource. cbn. destruct (marshal r); [by rewrite app_nil_r|done].
  - intros id n3 e Hid HI. rewrite HG. unfold listResources, get_namespace, mbind, M_bind, call. rewrite decide_False by done.
    cbn [flag_namespace set_stdout set_namespace p1 node set_node]. rewrite HI. eexists. by split.
Qed.

(** ** Concrete runs *)

Definition demo_rds : list ResourceDefinition :=
  [mkRD "addressspecs.net.tsos.dev" "AddressSpecs.net.tsos.dev" "network" ["addressspec"; "as"];
   mkRD "services.v1alpha1.tsos.dev" "Services.v1alpha1.tsos.dev" "runtime" ["svc"; "services"];
   mkRD "linkstatuses.net.tsos.dev" "LinkStatuses.net.tsos.dev" "network" ["link"; "as"]].

#[local] Instance demo_node : Node nat string := {|
  StateListAll n := (S n, inr demo_rds);
  COSI_List ns ty n := (S n, if decide (ns = "runtime") then inr ["apid"; "!"; "udevd"] else inl (EMsg "no such namespace"));
  COSI_Get ns ty id n := (S n, inl (EMsg "not found"));
  conn_new _ n := (S n, None)
|}.

Definition demo_process : process (list string) nat := mkProcess "" "10.0.0.2:6666" "yaml" 0%nat (mkYAML false []).

Definition demo_marshal (r : string) : error + string :=
  if decide (r = "!") then inl (EMsg "cannot encode") else inr r.

Lemma resolve_exact_witness :
  exists p', resolveResourceKind (W := list string) (R := string) "AS" demo_process =
    (p', Err (status_error "InvalidArgument" ("resource type " +:+ quote "AS"
            +:+ " is ambiguous: [addressspecs.net.tsos.dev linkstatuses.net.tsos.dev]"))).
Proof.
  destruct (resolve_exact (W := list string) (H := demo_node) "AS" demo_process 1%nat demo_rds eq_refl)
    as (p' & r & HR & _ & _ & _ & _ & H2 & _). exists p'. rewrite HR, H2 by (vm_compute; lia). by vm_compute.
Defined.

(** The second resource cannot be encoded. *)
Lemma get_prints_witness :
  exists p', @program (list string) nat string _ (recording demo_marshal) ["SVC"] demo_process = (p', ([], 0)) /\
    out (stdout p') = ["apid"; dashes; "udevd"].
Proof.
  apply (proj1 (get_prints (H := demo_node) demo_marshal "SVC" demo_process 1%nat 2%nat demo_rds
    (mkRD "services.v1alpha1.tsos.dev" "Services.v1alpha1.tsos.dev" "runtime" ["svc"; "services"])
    eq_refl eq_refl ltac:(by vm_compute)) 3%nat ["apid"; "!"; "udevd"] eq_refl).
Defined.
