(* ===== verification/Registration.v ===== *)
(** * Registration: resource definitions, the state and the controllers

    Models how the program is put together: the resource definitions of
    [pkg/machinery/resources], [NewState] of
    [internal/app/machined/pkg/runtime/v1alpha1/v1alpha1_state.go], which
    registers them, the inputs and outputs that the controllers declare, and
    [Controller.Run] of [controller.go], which registers the controllers.  The
    checks are those of the vendored controller runtime
    ([pkg/resource/meta/spec/resource_definition.go], [pkg/state/registry],
    [pkg/controller/runtime]); its grammar of plurals is a parameter. *)

From S2P Require Import Prelude Runners Tsosctl.

(** ** Resource definitions *)

Record PrintColumn := mkColumn { col_Name : string; JSONPath : string }.

Inductive Sensitivity := NonSensitive | Sensitive | OtherSensitivity (s : string).

Record ResourceDefinitionSpec := mkRDSpec {
  Type_ : string;
  DisplayType : string;
  rds_DefaultNamespace : string;
  Aliases : list string;
  rds_AllAliases : list string;
  SkipAutomaticAliases : bool;
  PrintColumns : list PrintColumn;
  sensitivity : Sensitivity
}.

(** A literal with the fields the program sets. *)
Definition definition (ty ns : string) (aliases : list string) (columns : list PrintColumn) : ResourceDefinitionSpec :=
  mkRDSpec ty "" ns aliases [] false columns NonSensitive.

Definition network_NamespaceName : string := "network".
Definition runtime_NamespaceName : string := "runtime".
Definition v1alpha1_NamespaceName : string := "runtime".
Definition meta_NamespaceName : string := "meta".

Definition AddressSpecType : string := "Addresses.net.tsos.dev".
Definition LinkStatusType : string := "LinkStatuses.net.tsos.dev".
Definition ResolverSpecType : string := "ResolverSpecs.net.tsos.dev".
Definition RouteSpecType : string := "RouteSpecs.net.tsos.dev".
Definition DevicesStatusType : string := "DevicesStatuses.runtime.tsos.dev".
Definition ServiceType : string := "Services.v1alpha1.tsos.dev".

Definition AddressSpec_RD : ResourceDefinitionSpec := definition AddressSpecType network_NamespaceName [] [].

Definition LinkStatus_RD : ResourceDefinitionSpec :=
  definition LinkStatusType network_NamespaceName ["link"; "links"]
    [mkColumn "Alias" "{.alias}"; mkColumn "Type" "{.type}"; mkColumn "Kind" "{.kind}"; mkColumn "Hw Addr" "{.hardwareAddr}";
     mkColumn "Oper State" "{.operationalState}"; mkColumn "Link State" "{.linkState}"].

Definition ResolverSpec_RD : ResourceDefinitionSpec :=
  definition ResolverSpecType network_NamespaceName []
    [mkColumn "Layer" "{.layer}"; mkColumn "Resolvers" "{.dnsServers}"; mkColumn "Search Domains" "{.searchDomains}"].

Definition RouteSpec_RD : ResourceDefinitionSpec := definition RouteSpecType network_NamespaceName [] [].

Definition DevicesStatus_RD : ResourceDefinitionSpec :=
  definition DevicesStatusType runtime_NamespaceName [] [mkColumn "Ready" "{.ready}"].

Definition Service_RD : ResourceDefinitionSpec :=
  definition ServiceType v1alpha1_NamespaceName ["svc"]
    [mkColumn "Running" "{.running}"; mkColumn "Healthy" "{.healthy}"; mkColumn "Health Unknown" "{.unknown}"].

(** Of the controller runtime. *)
Definition ResourceDefinition_RD : ResourceDefinitionSpec :=
  definition "ResourceDefinitions.meta.cosi.dev" meta_NamespaceName ["api-resources"] [mkColumn "Aliases" "{.aliases[:]}"].
Definition Namespace_RD : ResourceDefinitionSpec := definition "Namespaces.meta.cosi.dev" meta_NamespaceName ["ns"] [].

(** *** Fill (resource_definition.go of the controller runtime) *)

(** go-pluralize. *)
Class Pluralize := { IsPlural : string -> bool; Singular : string -> string }.

Definition dot : Ascii.ascii := Ascii.ascii_of_nat 46.
Definition dash : Ascii.ascii := Ascii.ascii_of_nat 45.
Definition letter_S : Ascii.ascii := Ascii.ascii_of_nat 83.

(** [strings.SplitN(s, ".", 2)]: [None] when there is no dot. *)
Fixpoint cut_dot (s : string) : option (string * string) :=
  match s with
  | EmptyString => None
  | String c s =>
    if decide (c = dot) then Some ("", s)
    else '(a, b) ← cut_dot s; Some (String c a, b)
  end.

(** [strings.Split(s, ".")]. *)
Fixpoint split_dots (s : string) : list string :=
  match s with
  | EmptyString => [""]
  | String c s =>
    if decide (c = dot) then "" :: split_dots s
    else match split_dots s with
         | p :: ps => String c p :: ps
         | [] => [String c EmptyString]
         end
  end.

Definition in_range (lo hi : nat) (c : Ascii.ascii) : bool :=
  let n := Ascii.nat_of_ascii c in ((lo <=? n) && (n <=? hi))%nat.

Definition is_upper : Ascii.ascii -> bool := in_range 65 90.
Definition is_lower : Ascii.ascii -> bool := in_range 97 122.
Definition is_digit : Ascii.ascii -> bool := in_range 48 57.
Definition is_dash (c : Ascii.ascii) : bool := bool_decide (c = dash).

Fixpoint all_chars (f : Ascii.ascii -> bool) (s : string) : bool :=
  match s with EmptyString => true | String c s => f c && all_chars f s end.

(** [^[A-Z][A-Za-z0-9-]+$] *)
Definition nameRegexp (s : string) : bool :=
  match s with
  | String c (String _ _ as rest) => is_upper c && all_chars (fun c => is_upper c || is_lower c || is_digit c || is_dash c) rest
  | _ => false
  end.

(** [^[a-z][a-z0-9-]+(\.[a-z][a-z0-9-]+)*$] *)
Definition suffixRegexp (s : string) : bool :=
  forallb (fun part =>
    match part with
    | String c (String _ _ as rest) => is_lower c && all_chars (fun c => is_lower c || is_digit c || is_dash c) rest
    | _ => false
    end) (split_dots s).

(** [strings.Map] that keeps the upper case letters. *)
Fixpoint upper_letters (s : string) : string :=
  match s with
  | EmptyString => EmptyString
  | String c s => if is_upper c then String c (upper_letters s) else upper_letters s
  end.

Fixpoint last_char (s : string) : option Ascii.ascii :=
  match s with
  | EmptyString => None
  | String c EmptyString => Some c
  | String _ s => last_char s
  end.

(** The names the type gets by itself: aliases, and names that only match. *)
Definition automatic_aliases (singular name suffix : string) : list string * list string :=
  let elements := split_dots suffix in
  let all := ToLower name ::
    ((fun i => String.concat "." (ToLower name :: take i elements)) <$> seq 1 (length elements - 1)) in
  let upper := upper_letters name in
  let short := if decide (1 < String.length upper)%nat
               then ToLower upper :: (if decide (last_char upper = Some letter_S) then [] else [ToLower (upper +:+ "s")])
               else [] in
  (ToLower singular :: short, all).

Definition Fill `{Pluralize} (spec : ResourceDefinitionSpec) : error + ResourceDefinitionSpec :=
  match cut_dot (Type_ spec) with
  | None => inl (EMsg "missing suffix")
  | Some (name, suffix) =>
    if decide (name = "") then inl (EMsg "name is empty")
    else if decide (suffix = "") then inl (EMsg "suffix is empty")
    else if decide (ToLower name = name) then inl (EMsg "name should be in CamelCase")
    else if negb (nameRegexp name) then inl (EMsg ("name doesn't match " +:+ quote "^[A-Z][A-Za-z0-9-]+$"))
    else if negb (suffixRegexp suffix)
    then inl (EMsg ("suffix doesn't match " +:+ quote "^[a-z][a-z0-9-]+(\.[a-z][a-z0-9-]+)*$"))
    else if negb (IsPlural name) then inl (EMsg "name should be plural")
    else
      let (aliases, all) :=
        if SkipAutomaticAliases spec then ([], []) else automatic_aliases (Singular name) name suffix in
      let aliases := Aliases spec ++ aliases in
      match sensitivity spec with
      | OtherSensitivity s => inl (EMsg ("unknown sensitivity " +:+ quote s))
      | _ => inr (mkRDSpec (Type_ spec) (Singular name) (rds_DefaultNamespace spec) aliases
                    (rds_AllAliases spec ++ all ++ aliases) (SkipAutomaticAliases spec) (PrintColumns spec) (sensitivity spec))
      end
  end.

(** The resource of a definition, as [tsosctl] sees it. *)
Definition to_RD (spec : ResourceDefinitionSpec) : ResourceDefinition :=
  mkRD (ToLower (Type_ spec)) (Type_ spec) (rds_DefaultNamespace spec) (rds_AllAliases spec).

(** ** The state (v1alpha1_state.go) *)

(** The namespaces, with their descriptions, and the definitions, in the order
    of their creation. *)
Record store := mkStore { namespaces : list (string * string); definitions : list ResourceDefinitionSpec }.

Definition exists_error (ty id : string) : error :=
  EMsg ("resource " +:+ ty +:+ "(meta/" +:+ id +:+ "@undefined) already exists").

(** [NamespaceRegistry.Register] and [ResourceRegistry.Register]: [Create]
    refuses what is there. *)
Definition Register_namespace (ns description : string) : M store unit := fun s =>
  if decide (ns ∈ (fst <$> namespaces s)) then (s, Err (exists_error "Namespaces.meta.cosi.dev" ns))
  else (mkStore (namespaces s ++ [(ns, description)]) (definitions s), Ok tt).

Definition Register_resource `{Pluralize} (spec : ResourceDefinitionSpec) : M store unit := fun s =>
  match Fill spec with
  | inl err =>
    (s, Err (EWrap "error registering resource <nil>: "
               (EWrap ("error validating resource definition " +:+ quote (Type_ spec) +:+ ": ") err "") ""))
  | inr spec =>
    let id := ToLower (Type_ spec) in
    if decide (id ∈ ((fun d => ToLower (Type_ d)) <$> definitions s))
    then (s, Err (exists_error "ResourceDefinitions.meta.cosi.dev" id))
    else (mkStore (namespaces s) (definitions s ++ [spec]), Ok tt)
  end.

Definition RegisterDefault_namespaces : M store unit :=
  Register_namespace meta_NamespaceName "Metadata namespace which contains resource and namespace definitions.".

Definition RegisterDefault_resources `{Pluralize} : M store unit :=
  for_range Register_resource [ResourceDefinition_RD; Namespace_RD].

Definition os_namespaces : list (string * string) :=
  [(v1alpha1_NamespaceName, "Tailscale OS v1alpha1 subsystems glue resources.")].

Definition os_resources : list ResourceDefinitionSpec :=
  [AddressSpec_RD; LinkStatus_RD; ResolverSpec_RD; RouteSpec_RD; DevicesStatus_RD; Service_RD].

(** [NewState], from the empty store. *)
Definition NewState `{Pluralize} : M store unit :=
  _ ← RegisterDefault_namespaces;
  _ ← RegisterDefault_resources;
  _ ← for_range (fun ns => Register_namespace (fst ns) (snd ns)) os_namespaces;
  for_range Register_resource os_resources.

Definition empty_store : store := mkStore [] [].

(** ** Controllers *)

Inductive InputKind := InputWeak | InputStrong | InputDestroyReady | InputQ.
Inductive OutputKind := OutputExclusive | OutputShared.

#[export] Instance OutputKind_eq_dec : EqDecision OutputKind.
Proof. solve_decision. Defined.

Record Input := mkInput { in_Namespace : string; in_Type : string; in_ID : option string; in_Kind : InputKind }.
Record Output := mkOutput { out_Type : string; out_Kind : OutputKind }.

Record controller := mkController { Name : string; Inputs : list Input; Outputs : list Output }.

Definition AddressSpecController : controller :=
  mkController "network.AddressSpecController" [mkInput network_NamespaceName AddressSpecType None InputStrong] [].
Definition LinkStatusController : controller :=
  mkController "network.LinkStatusController" [] [mkOutput LinkStatusType OutputExclusive].
Definition DHCP4Controller : controller :=
  mkController "network.DHCP4Controller" [mkInput network_NamespaceName LinkStatusType None InputWeak]
    [mkOutput AddressSpecType OutputShared; mkOutput RouteSpecType OutputShared; mkOutput ResolverSpecType OutputShared].
Definition RouteSpecController : controller :=
  mkController "network.RouteSpecController" [mkInput network_NamespaceName RouteSpecType None InputStrong] [].
Definition ApidServiceController : controller :=
  mkController "runtime.ApidServiceController" [mkInput runtime_NamespaceName DevicesStatusType None InputStrong] [].
Definition DeviceStatusController : controller :=
  mkController "runtime.DeviceStatusController" [mkInput v1alpha1_NamespaceName ServiceType (Some "udevd") InputWeak]
    [mkOutput DevicesStatusType OutputExclusive].
Definition UdevServiceController : controller := mkController "runtime.UdevServiceController" [] [].
Definition ServiceController : controller :=
  mkController "v1alpha1.ServiceController" [] [mkOutput ServiceType OutputExclusive].

(** The list of [Controller.Run]. *)
Definition os_controllers : list controller :=
  [AddressSpecController; LinkStatusController; DHCP4Controller; RouteSpecController; ApidServiceController;
   DeviceStatusController; UdevServiceController; ServiceController].

(** *** The dependency database of the controller runtime *)

Record database := mkDatabase {
  exclusiveOutputs : gmap string string;
  sharedOutputs : gmap string (list string);
  controllerInputs : gmap string (list Input);
  registered : list string
}.

Definition empty_database : database := mkDatabase ∅ ∅ ∅ [].

Definition AddControllerOutput (name : string) (o : Output) : M database unit := fun db =>
  match exclusiveOutputs db !! out_Type o with
  | Some by_ =>
    (db, Err (EMsg ("resource " +:+ quote (out_Type o) +:+ " is already managed in exclusive mode by " +:+ quote by_)))
  | None =>
    match out_Kind o, sharedOutputs db !! out_Type o with
    | OutputExclusive, Some l =>
      (db, Err (EMsg ("resource " +:+ quote (out_Type o) +:+ " is already managed in shared mode by " +:+ quote (default "" (head l)))))
    | OutputExclusive, None =>
      (mkDatabase (<[out_Type o := name]> (exclusiveOutputs db)) (sharedOutputs db) (controllerInputs db) (registered db), Ok tt)
    | OutputShared, l =>
      if decide (name ∈ default [] l)
      then (db, Err (EMsg ("duplicate shared controller output: " +:+ quote (out_Type o) +:+ " -> " +:+ quote name)))
      else (mkDatabase (exclusiveOutputs db) (<[out_Type o := default [] l ++ [name]]> (sharedOutputs db))
              (controllerInputs db) (registered db), Ok tt)
    end
  end.

(** [Input.EqualKeys]. *)
Definition EqualKeys (a b : Input) : Prop :=
  in_Namespace a = in_Namespace b /\ in_Type a = in_Type b /\ in_ID a = in_ID b.

#[export] Instance EqualKeys_dec : RelDecision EqualKeys.
Proof. intros a b. unfold EqualKeys. apply _. Defined.

Definition AddControllerInput (name : string) (dep : Input) : M database unit := fun db =>
  let l := default [] (controllerInputs db !! name) in
  if existsb (fun d => bool_decide (EqualKeys d dep)) l
  then (db, Err (EMsg ("duplicate controller input: " +:+ quote name)))
  else (mkDatabase (exclusiveOutputs db) (sharedOutputs db) (<[name := l ++ [dep]]> (controllerInputs db)) (registered db), Ok tt).

(** The initial [UpdateInputs]: kinds of queue controllers are refused. *)
Definition update_input (name : string) (dep : Input) : M database unit :=
  match in_Kind dep with
  | InputQ => fail (EMsg ("invalid input kind for controller " +:+ quote name))
  | _ => AddControllerInput name dep
  end.

Definition is_registered (name : string) : M database bool := fun db => (db, Ok (bool_decide (name ∈ registered db))).
Definition add_controller (name : string) : M database unit := fun db =>
  (mkDatabase (exclusiveOutputs db) (sharedOutputs db) (controllerInputs db) (registered db ++ [name]), Ok tt).

(** [RegisterController], with [NewAdapter]. *)
Definition RegisterController (c : controller) : M database unit :=
  known ← is_registered (Name c);
  if known : bool then fail (EMsg ("controller " +:+ quote (Name c) +:+ " already registered"))
  else
    _ ← wrap_err ("error initializing controller " +:+ quote (Name c) +:+ " adapter: ")
          (_ ← wrap_err "error registering in dependency database: " (for_range (AddControllerOutput (Name c)) (Outputs c));
           wrap_err "error registering initial inputs: " (for_range (update_input (Name c)) (Inputs c)));
    add_controller (Name c).

(** [Controller.Run] up to the start of the controller runtime. *)
Definition Controller_Run (controllers : list controller) : M database unit := for_range RegisterController controllers.

(** ** Lemmas on the state *)

(** The plurals the program relies on. *)
Definition plurals : list (string * string) :=
  [("ResourceDefinitions", "ResourceDefinition"); ("Namespaces", "Namespace"); ("Addresses", "Address");
   ("LinkStatuses", "LinkStatus"); ("ResolverSpecs", "ResolverSpec"); ("RouteSpecs", "RouteSpec");
   ("DevicesStatuses", "DevicesStatus"); ("Services", "Service")].

Class PluralizeLaws `{Pluralize} : Prop :=
  plural_of : Forall (fun p => IsPlural (fst p) = true /\ Singular (fst p) = snd p) plurals.

(** An instance that knows these. *)
Definition table_singular (s : string) : option string :=
  snd <$> head (filter (fun p => fst p = s) plurals).

#[local] Instance table : Pluralize :=
  {| IsPlural s := bool_decide (is_Some (table_singular s)); Singular s := default s (table_singular s) |}.

#[local] Instance table_laws : PluralizeLaws.
Proof. repeat constructor; by vm_compute. Qed.

Lemma plural_table `{HP : PluralizeLaws} name :
  name ∈ fst <$> plurals -> IsPlural name = @IsPlural table name /\ Singular name = @Singular table name.
Proof.
  intros ((n, s) & -> & Hin)%list_elem_of_fmap. simpl fst.
  pose proof plural_of as HA. rewrite Forall_forall in HA.
  pose proof (@plural_of table table_laws) as HB. rewrite Forall_forall in HB.
  destruct (HA _ Hin) as [HA1 HA2], (HB _ Hin) as [HB1 HB2]. cbn [fst snd] in *.
  by rewrite HA1, HA2, HB1, HB2.
Qed.

(** The definitions the program registers. *)
Definition registered_specs : list ResourceDefinitionSpec := [ResourceDefinition_RD; Namespace_RD] ++ os_resources.

Lemma Fill_table `{HP : PluralizeLaws} spec : spec ∈ registered_specs -> Fill spec = @Fill table spec.
Proof.
  intros Hin. assert (forallb (fun spec => match cut_dot (Type_ spec) with
    | Some (name, _) => bool_decide (name ∈ fst <$> plurals) | None => false end) registered_specs = true) as HF by (by vm_compute).
  rewrite forallb_forall in HF. specialize (HF _ (proj1 (list_elem_of_In _ _) Hin)). unfold Fill.
  destruct (cut_dot (Type_ spec)) as [[name suffix]|]; [|done].
  apply bool_decide_eq_true in HF. by destruct (plural_table name HF) as [-> ->].
Qed.

Lemma for_range_ext {W A} (f g : A -> M W unit) l w :
  (forall x w, x ∈ l -> f x w = g x w) -> for_range f l w = for_range g l w.
Proof.
  intros HE. revert w. induction l as [|x l IH]; intros w; [done|]. cbn [for_range]. unfold mbind, M_bind.
  rewrite HE by left. destruct (g x w) as [w' [[]|e|m]]; [|done|done]. apply IH. intros y w0 Hy. apply HE. by right.
Qed.

Lemma Register_table `{HP : PluralizeLaws} spec s : spec ∈ registered_specs -> Register_resource spec s = @Register_resource table spec s.
Proof. intros Hin. unfold Register_resource. by rewrite Fill_table. Qed.

Lemma NewState_table `{HP : PluralizeLaws} s : NewState s = @NewState table s.
Proof.
  unfold NewState, RegisterDefault_resources, mbind, M_bind.
  destruct (RegisterDefault_namespaces s) as [s1 [[]|e|m]]; [|done|done].
  rewrite (for_range_ext Register_resource (@Register_resource table)).
  2:{ intros x w Hx. apply Register_table. apply elem_of_app. by left. }
  destruct (for_range (@Register_resource table) _ s1) as [s2 [[]|e|m]]; [|done|done].
  destruct (for_range _ os_namespaces s2) as [s3 [[]|e|m]]; [|done|done].
  apply for_range_ext. intros x w Hx. apply Register_table. apply elem_of_app. by right.
Qed.

(** The state that results. *)
Definition the_state : store := fst (@NewState table empty_store).

Definition the_RDs : list ResourceDefinition := to_RD <$> definitions the_state.

Lemma NewState_the_state `{HP : PluralizeLaws} : NewState empty_store = (the_state, Ok tt).
Proof. rewrite NewState_table. by vm_compute. Qed.

(** The names by which a definition can be found. *)
Definition names_of (rd : ResourceDefinition) : list string := rd_ID rd :: AllAliases rd.

(** The one name that several definitions share. *)
Definition shared_name : string := "rs".

#[local] Instance ResourceDefinition_eq_dec : EqDecision ResourceDefinition.
Proof. solve_decision. Defined.

Lemma names_checked :
  forallb (fun rd => forallb (fun name =>
    bool_decide (ToLower name = name) &&
    (bool_decide (name = shared_name) || bool_decide (filter (named name) the_RDs = [rd]))) (names_of rd)) the_RDs = true.
Proof. by vm_compute. Qed.

Lemma names_unique rd name :
  rd ∈ the_RDs -> name ∈ names_of rd -> name <> shared_name ->
  ToLower name = name /\ filter (named name) the_RDs = [rd].
Proof.
  intros Hrd Hn Hs. pose proof names_checked as HC. rewrite forallb_forall in HC.
  specialize (HC rd). rewrite forallb_forall in HC. specialize (HC (proj1 (list_elem_of_In _ _) Hrd) name).
  specialize (HC (proj1 (list_elem_of_In _ _) Hn)). apply andb_true_iff in HC as [HL HC].
  split; [by apply bool_decide_eq_true in HL|].
  apply orb_true_iff in HC as [HC|HC]; apply bool_decide_eq_true in HC; done.
Qed.

Lemma named_fold t t' rd : ToLower t = ToLower t' -> named t rd <-> named t' rd.
Proof. intros E. unfold named. by rewrite E. Qed.

(** ** Lemmas on the registration of controllers *)

(** The outputs in a database are those of [S]. *)
Record recorded (S : string -> Output -> Prop) (db : database) : Prop := {
  rec_exclusive t n : exclusiveOutputs db !! t = Some n <-> S n (mkOutput t OutputExclusive);
  rec_shared t n : n ∈ default [] (sharedOutputs db !! t) <-> S n (mkOutput t OutputShared);
  rec_nonempty t l : sharedOutputs db !! t = Some l -> l <> []
}.

(** An output that goes with the others. *)
Definition compatible (S : string -> Output -> Prop) (name : string) (o : Output) : Prop :=
  forall n o', S n o' -> out_Type o' = out_Type o -> out_Kind o' = OutputShared /\ out_Kind o = OutputShared /\ n <> name.

Lemma recorded_iff (S S' : string -> Output -> Prop) db : (forall n o, S n o <-> S' n o) -> recorded S db -> recorded S' db.
Proof. intros HS [H1 H2 H3]. split; [intros; by rewrite <-HS..|done]. Qed.

Lemma AddControllerOutput_ok S name o db :
  recorded S db -> compatible S name o ->
  exists db', AddControllerOutput name o db = (db', Ok tt) /\
    recorded (fun n o' => S n o' \/ n = name /\ o' = o) db' /\
    controllerInputs db' = controllerInputs db /\ registered db' = registered db.
Proof.
  intros [H1 H2 H3] HC. unfold AddControllerOutput. destruct o as [t k]. cbn [out_Type out_Kind].
  destruct (exclusiveOutputs db !! t) as [n|] eqn:EE.
  { apply H1 in EE. destruct (HC _ _ EE eq_refl) as [? _]. done. }
  assert (forall n, ~ S n (mkOutput t OutputExclusive)) as HX by (intros n Hn%H1; congruence).
  destruct k.
  - assert (forall n, ~ S n (mkOutput t OutputShared)) as HS by (intros n Hn; destruct (HC _ _ Hn eq_refl) as (_ & ? & _); done).
    destruct (sharedOutputs db !! t) as [[|n l]|] eqn:ES.
    { by apply H3 in ES. }
    { exfalso. apply (HS n). apply H2. rewrite ES. left. }
    eexists. split; [done|]. split; [|done]. split; cbn [exclusiveOutputs sharedOutputs]; [|naive_solver|done].
    intros t' n. rewrite lookup_insert_Some, H1. naive_solver.
  - case_decide as Hin.
    { apply H2 in Hin. destruct (HC _ _ Hin eq_refl) as (_ & _ & ?). done. }
    eexists. split; [done|]. split; [|done]. split; cbn [exclusiveOutputs sharedOutputs].
    + intros t' n. rewrite H1. naive_solver.
    + intros t' n. destruct (decide (t = t')) as [->|Hne].
      * rewrite lookup_insert_eq. cbn [default from_option]. unfold id. rewrite elem_of_app, list_elem_of_singleton, H2. naive_solver.
      * rewrite lookup_insert_ne, H2 by done. naive_solver.
    + intros t' l. rewrite lookup_insert_Some. intros [[_ <-]|[_ Hl]]; [by destruct (default [] _)|eauto].
Qed.

Lemma AddOutputs_ok S name os db :
  recorded S db -> Forall (compatible S name) os -> NoDup (out_Type <$> os) ->
  exists db', for_range (AddControllerOutput name) os db = (db', Ok tt) /\
    recorded (fun n o => S n o \/ n = name /\ o ∈ os) db' /\
    controllerInputs db' = controllerInputs db /\ registered db' = registered db.
Proof.
  revert S db. induction os as [|o os IH]; intros S db HR HC HN; cbn [for_range].
  { exists db. split_and!; try done. eapply recorded_iff; [|exact HR]. intros n o. rewrite elem_of_nil. naive_solver. }
  apply Forall_cons in HC as [HC HCs]. apply NoDup_cons in HN as [Hni HN].
  destruct (AddControllerOutput_ok S name o db HR HC) as (db1 & H1 & HR1 & I1 & G1).
  destruct (IH _ db1 HR1) as (db2 & H2 & HR2 & I2 & G2); [|done|].
  - apply Forall_forall. intros o' Ho' n o2 [HS|[-> ->]] Ht.
    + rewrite Forall_forall in HCs. by apply (HCs o' Ho').
    + exfalso. apply Hni. rewrite Ht. by apply list_elem_of_fmap_2.
  - unfold mbind, M_bind. rewrite H1. exists db2. split; [exact H2|]. split; [|split; congruence].
    eapply recorded_iff; [|exact HR2]. intros n o'. cbn beta. rewrite elem_of_cons. naive_solver.
Qed.

(** Inputs with distinct keys. *)
Fixpoint inputs_ok (l : list Input) : bool :=
  match l with
  | [] => true
  | d :: l => negb (existsb (fun d' => bool_decide (EqualKeys d d')) l) && (match in_Kind d with InputQ => false | _ => true end) && inputs_ok l
  end.

Lemma AddInputs_ok name l done_ db :
  controllerInputs db !! name = (match done_ with [] => None | _ => Some done_ end) ->
  inputs_ok l = true -> (forall d d', d ∈ done_ -> d' ∈ l -> ~ EqualKeys d d') ->
  exists db', for_range (update_input name) l db = (db', Ok tt) /\
    exclusiveOutputs db' = exclusiveOutputs db /\ sharedOutputs db' = sharedOutputs db /\ registered db' = registered db /\
    (forall n, n <> name -> controllerInputs db' !! n = controllerInputs db !! n) /\
    default [] (controllerInputs db' !! name) = done_ ++ l.
Proof.
  revert done_ db. induction l as [|d l IH]; intros done_ db Hdb HO HD; cbn [for_range].
  { exists db. split_and!; try done. rewrite app_nil_r, Hdb. by destruct done_. }
  apply andb_true_iff in HO as [[HO1 HO2]%andb_true_iff HO3]. apply negb_true_iff in HO1.
  assert (default [] (controllerInputs db !! name) = done_) as Hd by (rewrite Hdb; by destruct done_).
  assert (update_input name d db = (mkDatabase (exclusiveOutputs db) (sharedOutputs db)
    (<[name := done_ ++ [d]]> (controllerInputs db)) (registered db), Ok tt)) as HU.
  { assert (existsb (fun d0 => bool_decide (EqualKeys d0 d)) done_ = false) as HX.
    { apply Bool.not_true_is_false. intros (x & Hx%list_elem_of_In & HE%bool_decide_eq_true)%existsb_exists.
      apply (HD x d); [done|left|done]. }
    unfold update_input, AddControllerInput. by destruct (in_Kind d); try done; cbv beta zeta; rewrite Hd, HX. }
  unfold mbind, M_bind. rewrite HU. destruct (IH (done_ ++ [d]) (mkDatabase (exclusiveOutputs db) (sharedOutputs db)
    (<[name := done_ ++ [d]]> (controllerInputs db)) (registered db))) as (db' & H1 & H2 & H3 & H4 & H5 & H6).
  - simpl. rewrite lookup_insert_eq. by destruct done_.
  - done.
  - intros x y [Hx|Hx%list_elem_of_singleton]%elem_of_app Hy; [apply HD; [done|by right]|]. subst x. intros HE.
    assert (existsb (fun d' => bool_decide (EqualKeys d d')) l = true) as HX; [|congruence].
    apply existsb_exists. exists y. split; [by apply list_elem_of_In|by apply bool_decide_eq_true].
  - exists db'. split_and!; try done.
    + intros n Hn. rewrite H5 by done. simpl. by rewrite lookup_insert_ne.
    + by rewrite H6, <-app_assoc.
Qed.

(** What makes a set of controllers registrable, in any order. *)
Record registrable (l : list controller) : Prop := {
  rg_names : NoDup (Name <$> l);
  rg_outputs c c' o o' : c ∈ l -> c' ∈ l -> Name c <> Name c' -> o ∈ Outputs c -> o' ∈ Outputs c' ->
    out_Type o = out_Type o' -> out_Kind o = OutputShared /\ out_Kind o' = OutputShared;
  rg_types c : c ∈ l -> NoDup (out_Type <$> Outputs c);
  rg_inputs c : c ∈ l -> inputs_ok (Inputs c) = true
}.

Definition outputs_of (l : list controller) (n : string) (o : Output) : Prop :=
  exists c, c ∈ l /\ Name c = n /\ o ∈ Outputs c.

Lemma outputs_of_snoc l c n o : outputs_of (l ++ [c]) n o <-> outputs_of l n o \/ n = Name c /\ o ∈ Outputs c.
Proof.
  unfold outputs_of. split.
  - intros (c' & [Hc|Hc%list_elem_of_singleton]%elem_of_app & <- & Ho); [left; eauto|right; by subst].
  - intros [(c' & ? & ? & ?)|[-> ?]]; [exists c'|exists c]; (split; [apply elem_of_app|done]); [by left|right; left].
Qed.

(** The controllers of [l] are in the database. *)
Record registered_all (l : list controller) (db : database) : Prop := {
  ra_recorded : recorded (outputs_of l) db;
  ra_names : registered db = Name <$> l;
  ra_inputs c : c ∈ l -> default [] (controllerInputs db !! Name c) = Inputs c;
  ra_others n : n ∉ Name <$> l -> controllerInputs db !! n = None
}.

Lemma RegisterController_ok l c db :
  registrable (l ++ [c]) -> registered_all l db ->
  exists db', RegisterController c db = (db', Ok tt) /\ registered_all (l ++ [c]) db'.
Proof.
  intros HG [H1 H2 H3 H4].
  assert (Name c ∉ Name <$> l) as Hnew.
  { pose proof (rg_names _ HG) as HN. rewrite fmap_app in HN. apply NoDup_app in HN as (_ & HN & _).
    intros Hin. apply (HN _ Hin). left. }
  assert (c ∈ l ++ [c]) as Hc by (apply elem_of_app; right; left).
  assert (forall c', c' ∈ l -> c' ∈ l ++ [c]) as Hl by (intros; apply elem_of_app; by left).
  destruct (AddOutputs_ok (outputs_of l) (Name c) (Outputs c) db H1) as (db1 & E1 & R1 & I1 & G1).
  { apply Forall_forall. intros o Ho n o' (c' & Hc' & <- & Ho') Ht.
    assert (Name c' <> Name c) as Hne by (intros E; apply Hnew; rewrite <-E; by apply list_elem_of_fmap_2).
    destruct (rg_outputs _ HG c' c o' o (Hl _ Hc') Hc Hne Ho' Ho Ht). done. }
  { by apply (rg_types _ HG). }
  destruct (AddInputs_ok (Name c) (Inputs c) [] db1) as (db2 & E2 & X2 & S2 & G2 & O2 & I2).
  { rewrite I1. by apply H4. } { by apply (rg_inputs _ HG). } { by intros ? ? ?%elem_of_nil. }
  unfold RegisterController, is_registered, mbind, M_bind. rewrite bool_decide_eq_false_2 by (by rewrite H2).
  unfold wrap_err. rewrite E1, E2. eexists. split; [done|]. split; simpl.
  - assert (recorded (fun n o => outputs_of l n o \/ n = Name c /\ o ∈ Outputs c) db2) as R2.
    { destruct R1 as [A1 A2 A3]. rewrite <-X2 in A1. rewrite <-S2 in A2, A3. by split. }
    destruct R2 as [A1 A2 A3]. split; cbn [exclusiveOutputs sharedOutputs]; [intros; by rewrite A1, outputs_of_snoc|
      intros; by rewrite A2, outputs_of_snoc|done].
  - by rewrite G2, G1, H2, fmap_app.
  - intros c' [Hc'|Hc'%list_elem_of_singleton]%elem_of_app; [|by subst].
    rewrite O2, I1 by (intros E; apply Hnew; rewrite <-E; by apply list_elem_of_fmap_2). by apply H3.
  - intros n Hn. rewrite fmap_app in Hn. apply not_elem_of_app in Hn as [Hn Hn']. rewrite O2, I1 by (intros ->; apply Hn'; left). by apply H4.
Qed.

Lemma registrable_prefix l k : registrable (l ++ k) -> registrable l.
Proof.
  intros [H1 H2 H3 H4]. assert (forall c, c ∈ l -> c ∈ l ++ k) as Hl by (intros; apply elem_of_app; by left).
  split; [|intros c c' o o' ? ?; apply H2; auto|auto..]. rewrite fmap_app in H1. by apply NoDup_app in H1 as (? & _).
Qed.

Lemma Controller_Run_ok l k db :
  registrable (l ++ k) -> registered_all l db ->
  exists db', for_range RegisterController k db = (db', Ok tt) /\ registered_all (l ++ k) db'.
Proof.
  revert l db. induction k as [|c k IH]; intros l db HG HA; cbn [for_range].
  { exists db. by rewrite app_nil_r. }
  rewrite cons_middle, app_assoc in HG. destruct (RegisterController_ok l c db (registrable_prefix _ _ HG) HA) as (db1 & E1 & HA1).
  destruct (IH (l ++ [c]) db1 HG HA1) as (db2 & E2 & HA2). rewrite <-app_assoc in HA2.
  exists db2. unfold mbind, M_bind. rewrite E1. done.
Qed.

Lemma registrable_perm l l' : l ≡ₚ l' -> registrable l -> registrable l'.
Proof.
  intros HP [H1 H2 H3 H4]. assert (forall c, c ∈ l' -> c ∈ l) as Hl by (intros c; by rewrite HP).
  split; [by rewrite <-HP|intros c c' o o' ? ?; apply H2; auto|auto..].
Qed.

#[local] Instance InputKind_eq_dec : EqDecision InputKind.
Proof. solve_decision. Defined.
#[local] Instance Input_eq_dec : EqDecision Input.
Proof. solve_decision. Defined.
#[local] Instance Output_eq_dec : EqDecision Output.
Proof. solve_decision. Defined.
#[local] Instance controller_eq_dec : EqDecision controller.
Proof. solve_decision. Defined.

Lemma os_registrable : registrable os_controllers.
Proof.
  split.
  - compute_done.
  - intros c c' o o' Hc Hc' Hne Ho Ho' Ht.
    assert (forallb (fun c => forallb (fun c' => bool_decide (Name c = Name c') ||
      forallb (fun o => forallb (fun o' => negb (bool_decide (out_Type o = out_Type o')) ||
        (bool_decide (out_Kind o = OutputShared) && bool_decide (out_Kind o' = OutputShared))) (Outputs c')) (Outputs c))
      os_controllers) os_controllers = true) as HF by (by vm_compute).
    rewrite forallb_forall in HF. specialize (HF c (proj1 (list_elem_of_In _ _) Hc)).
    rewrite forallb_forall in HF. specialize (HF c' (proj1 (list_elem_of_In _ _) Hc')).
    rewrite bool_decide_eq_false_2 in HF by done. simpl in HF.
    rewrite forallb_forall in HF. specialize (HF o (proj1 (list_elem_of_In _ _) Ho)).
    rewrite forallb_forall in HF. specialize (HF o' (proj1 (list_elem_of_In _ _) Ho')).
    rewrite bool_decide_eq_true_2 in HF by done. simpl in HF.
    apply andb_true_iff in HF as [?%bool_decide_eq_true ?%bool_decide_eq_true]. done.
  - intros c Hc. assert (Forall (fun c => NoDup (out_Type <$> Outputs c)) os_controllers) as HF
      by compute_done.
    rewrite Forall_forall in HF. auto.
  - intros c Hc. assert (Forall (fun c => inputs_ok (Inputs c) = true) os_controllers) as HF
      by compute_done.
    rewrite Forall_forall in HF. auto.
Qed.

Lemma Fill_the_state `{HP : PluralizeLaws} : Forall2 (fun spec d => Fill spec = inr d) registered_specs (definitions the_state).
Proof.
  assert ((@Fill table <$> registered_specs) = (inr <$> definitions the_state)) as HF by (by vm_compute).
  apply Forall2_same_length_lookup. split; [by rewrite <-(length_fmap (@Fill table)), HF, length_fmap|].
  intros i spec d H1 H2. rewrite Fill_table by (by eapply list_elem_of_lookup_2).
  apply (f_equal (lookup i)) in HF. rewrite !list_lookup_fmap, H1, H2 in HF. by injection HF.
Qed.

Lemma filter_listed t l :
  l ≡ₚ the_RDs -> filter (named t) l ≡ₚ filter (named t) the_RDs.
Proof. intros HP. by rewrite HP. Qed.

Lemma filter_fold t t' (l : list ResourceDefinition) : ToLower t = ToLower t' -> filter (named t) l = filter (named t') l.
Proof. intros HE. apply list_filter_iff. intros rd. by apply named_fold. Qed.

Lemma empty_registered : registered_all [] empty_database.
Proof.
  split; [split|done|by intros ? ?%elem_of_nil|done].
  - intros t n. split; [done|]. by intros (c & ?%elem_of_nil & _).
  - intros t n. cbn. split; [by intros ?%elem_of_nil|]. by intros (c & ?%elem_of_nil & _).
  - done.
Qed.

(** What every controller reads is registered, and written by another one. *)
Lemma inputs_wired c d :
  c ∈ os_controllers -> d ∈ Inputs c ->
  (exists spec, spec ∈ definitions the_state /\ Type_ spec = in_Type d /\ rds_DefaultNamespace spec = in_Namespace d) /\
  (exists c' o, c' ∈ os_controllers /\ Name c' <> Name c /\ o ∈ Outputs c' /\ out_Type o = in_Type d) /\
  in_Type d <> ResolverSpecType.
Proof.
  intros Hc Hd.
  assert (Forall (fun c => Forall (fun d =>
    Exists (fun spec => Type_ spec = in_Type d /\ rds_DefaultNamespace spec = in_Namespace d) (definitions the_state) /\
    Exists (fun c' => Name c' <> Name c /\ Exists (fun o => out_Type o = in_Type d) (Outputs c')) os_controllers /\
    in_Type d <> ResolverSpecType) (Inputs c)) os_controllers) as HF by compute_done.
  rewrite Forall_forall in HF. specialize (HF c Hc). rewrite Forall_forall in HF. destruct (HF d Hd) as (HA & HB & HC).
  apply Exists_exists in HA as (spec & ? & ? & ?). apply Exists_exists in HB as (c' & ? & ? & (o & ? & ?)%Exists_exists).
  split; [by exists spec|]. split; [by exists c', o|done].
Qed.

Lemma outputs_wired c o :
  c ∈ os_controllers -> o ∈ Outputs c -> exists spec, spec ∈ definitions the_state /\ Type_ spec = out_Type o.
Proof.
  intros Hc Ho.
  assert (Forall (fun c => Forall (fun o => Exists (fun spec => Type_ spec = out_Type o) (definitions the_state)) (Outputs c))
    os_controllers) as HF by compute_done.
  rewrite Forall_forall in HF. specialize (HF c Hc). rewrite Forall_forall in HF. specialize (HF o Ho). by apply Exists_exists in HF.
Qed.

(** ** Properties *)

(** The state of the node.  From the empty store [NewState] succeeds: the
    namespaces are [meta] and [runtime] (and not [network], in which the
    network resources live), the definitions are the eight of the program, in
    order, each completed with its aliases and with an id of its own; to
    register any of them, or any namespace, again is an error that changes
    nothing. *)
Theorem new_state_exact `{HP : PluralizeLaws} :
  exists s, NewState empty_store = (s, Ok tt) /\
    fst <$> namespaces s = [meta_NamespaceName; runtime_NamespaceName] /\
    ~ (network_NamespaceName ∈ (fst <$> namespaces s)) /\
    Forall2 (fun spec d => Fill spec = inr d) registered_specs (definitions s) /\
    NoDup (rd_ID <$> (to_RD <$> definitions s)) /\
    (forall spec, spec ∈ registered_specs -> exists err, Register_resource spec s = (s, Err err)) /\
    (forall ns text, ns ∈ (fst <$> namespaces s) -> exists err, Register_namespace ns text s = (s, Err err)).
Proof.
  exists the_state. split; [apply NewState_the_state|]. split; [by vm_compute|]. split; [compute_done|].
  assert (Forall2 (fun spec d => Fill spec = inr d) registered_specs (definitions the_state)) as HF by apply Fill_the_state.
  split; [done|]. split; [compute_done|]. split.
  - intros spec Hin. apply list_elem_of_lookup in Hin as [i Hi].
    destruct (Forall2_lookup_l _ _ _ _ _ HF Hi) as (d & Hd & HE). unfold Register_resource. rewrite HE.
    rewrite decide_True; [by eexists|]. apply list_elem_of_fmap. exists d. split; [done|]. by eapply list_elem_of_lookup_2.
  - intros ns text Hin. unfold Register_namespace. rewrite decide_True by done. by eexists.
Qed.

Lemma new_state_exact_witness : exists s, @NewState table empty_store = (s, Ok tt) /\ length (definitions s) = 8%nat.
Proof.
  destruct (@new_state_exact table table_laws) as (s & HE & _ & _ & HF & _). exists s. split; [exact HE|].
  by rewrite <-(Forall2_length _ _ _ HF).
Defined.

(** C30: Names and definitions together.  When the node lists, in any order,
    the definitions that [NewState] has registered, the client resolves every
    name of every one of them (its id, its aliases and the automatic ones) to
    it, whatever the case, and takes its default namespace; the one exception
    is [rs], which is ambiguous between the resolver and the route specs; a
    text that is no name of any definition is not found. *)
Theorem names_resolve {W N R} `{Node N R} `{HP : PluralizeLaws} (p : process W N) n s rds t :
  NewState empty_store = (s, Ok tt) ->
  StateListAll (node p) = (n, inr rds) ->
  rds ≡ₚ to_RD <$> definitions s ->
  exists p' r, resolveResourceKind t p = (p', r) /\
    (forall rd name, rd ∈ to_RD <$> definitions s -> name ∈ names_of rd -> name <> shared_name -> ToLower t = ToLower name ->
       r = Ok rd /\ (flag_namespace p = "" -> flag_namespace p' = DefaultNamespace rd)) /\
    (ToLower t = shared_name -> exists ids, ids ≡ₚ [ToLower ResolverSpecType; ToLower RouteSpecType] /\
       r = Err (status_error "InvalidArgument" ("resource type " +:+ quote t +:+ " is ambiguous: " +:+ print_list ids))) /\
    ((forall rd name, rd ∈ to_RD <$> definitions s -> name ∈ names_of rd -> ToLower t <> ToLower name) ->
       r = Err (status_error "NotFound" ("resource " +:+ quote t +:+ " is not registered"))).
Proof.
  intros HS HL HR. rewrite NewState_the_state in HS. apply (f_equal fst) in HS. cbn [fst] in HS.
  subst s. fold the_RDs in HR |- *. clear HP.
  rewrite (resolve_run _ _ _ _ HL). pose proof (filter_listed t rds HR) as HF.
  destruct (select_kind t (filter (named t) rds) (set_node n p)) as [p' r] eqn:E. exists p', r. split; [done|]. split_and!.
  - intros rd name Hrd Hn Hs Ht. destruct (names_unique _ _ Hrd Hn Hs) as [_ HU].
    rewrite (filter_fold t name the_RDs), HU in HF by done. apply Permutation_singleton_r in HF. rewrite HF in E.
    cbn [select_kind flag_namespace set_node] in E.
    destruct (decide (flag_namespace p = "")) as [Hns|Hns]; injection E as <- <-; split; [reflexivity|reflexivity|reflexivity|].
    intros Hn'. by destruct Hns.
  - intros Ht. rewrite (filter_fold t shared_name the_RDs) in HF by done.
    exists (rd_ID <$> filter (named t) rds). split; [etrans; [exact (fmap_Permutation rd_ID _ _ HF)|by vm_compute]|].
    pose proof (Permutation_length HF) as Hlen. change (length (filter (named shared_name) the_RDs)) with 2%nat in Hlen.
    destruct (filter (named t) rds) as [|x [|y l]]; [done..|]. by injection E as _ <-.
  - intros HN. destruct (filter (named t) rds) as [|rd l] eqn:HE; [by injection E as _ <-|].
    assert (rd ∈ filter (named t) the_RDs) as [(name & Hn & Ht) Hrd]%list_elem_of_filter by (rewrite <-HF; left).
    by destruct (HN rd name Hrd Hn).
Qed.

#[local] Instance demo_node : Node nat string := {|
  StateListAll n := (S n, inr (rev the_RDs));
  COSI_List ns ty n := (S n, inr []);
  COSI_Get ns ty id n := (S n, inl (EMsg "not found"));
  conn_new _ n := (S n, None)
|}.

Definition demo_process : process (list string) nat := mkProcess "" "10.0.0.2:6666" "yaml" 0%nat (mkYAML false []).

Lemma names_resolve_witness :
  (exists p rd, resolveResourceKind "LinkStatus" demo_process = (p, Ok rd) /\ rd_Type rd = LinkStatusType /\
     flag_namespace p = "network") /\
  (exists p ids, resolveResourceKind "RS" demo_process = (p, Err (status_error "InvalidArgument"
     ("resource type " +:+ quote "RS" +:+ " is ambiguous: " +:+ print_list ids))) /\ length ids = 2%nat).
Proof.
  assert (rev the_RDs ≡ₚ the_RDs) as HP by (symmetry; apply Permutation_rev).
  split.
  - destruct (names_resolve (HP := table_laws) (H := demo_node) demo_process 1%nat the_state (rev the_RDs) "LinkStatus"
      NewState_the_state eq_refl HP) as (p & r & HE & HN & _).
    pose (rd := mkRD "linkstatuses.net.tsos.dev" LinkStatusType "network"
      ["linkstatuses"; "linkstatuses.net"; "linkstatuses.net.tsos"; "link"; "links"; "linkstatus"; "ls"]).
    assert (rd ∈ the_RDs) as Hrd by (apply (list_elem_of_lookup_2 _ 3); by vm_compute).
    assert ("linkstatus" ∈ names_of rd) as Hn by compute_done.
    destruct (HN rd "linkstatus" Hrd Hn ltac:(done) eq_refl) as [-> HF].
    exists p, rd. split; [exact HE|]. split; [reflexivity|]. exact (HF eq_refl).
  - destruct (names_resolve (HP := table_laws) (H := demo_node) demo_process 1%nat the_state (rev the_RDs) "RS"
      NewState_the_state eq_refl HP) as (p & r & HE & _ & HS & _).
    destruct (HS eq_refl) as (ids & HI & ->). exists p, ids. split; [exact HE|]. by rewrite HI.
Defined.

(** The registration of the controllers.  In whatever order they are
    listed, the controllers of the program all register: no error, no
    exclusive output with two owners and no shared one that is also
    exclusive; the database then holds exactly the outputs and inputs that the
    controllers declare. *)
Theorem controllers_register l :
  l ≡ₚ os_controllers ->
  exists db, Controller_Run l empty_database = (db, Ok tt) /\
    registered db = Name <$> l /\
    (forall t n, exclusiveOutputs db !! t = Some n <-> exists c, c ∈ l /\ Name c = n /\ mkOutput t OutputExclusive ∈ Outputs c) /\
    (forall t n, n ∈ default [] (sharedOutputs db !! t) <-> exists c, c ∈ l /\ Name c = n /\ mkOutput t OutputShared ∈ Outputs c) /\
    (forall c, c ∈ l -> default [] (controllerInputs db !! Name c) = Inputs c) /\
    (forall c, c ∈ l -> exists e, RegisterController c db = (db, Err e)).
Proof.
  intros HP. pose proof (registrable_perm os_controllers l ltac:(by symmetry) os_registrable) as HG.
  destruct (Controller_Run_ok [] l empty_database HG empty_registered) as (db & HE & [[H1 H2 _] H3 H4 _]).
  exists db. split; [done|]. split; [done|]. split; [exact H1|]. split; [exact H2|]. split; [exact H4|].
  intros c Hc. unfold RegisterController, is_registered, mbind, M_bind.
  rewrite bool_decide_eq_true_2 by (rewrite H3; by apply list_elem_of_fmap_2). by eexists.
Qed.

Lemma controllers_register_witness :
  exists db, Controller_Run (rev os_controllers) empty_database = (db, Ok tt) /\
    exclusiveOutputs db !! LinkStatusType = Some "network.LinkStatusController".
Proof.
  destruct (controllers_register (rev os_controllers) ltac:(symmetry; apply Permutation_rev)) as (db & HE & _ & HX & _).
  exists db. split; [exact HE|]. apply HX. exists LinkStatusController. split; [|split; [reflexivity|left]].
  apply (list_elem_of_lookup_2 _ 6). reflexivity.
Defined.

(** C29: The types of the wiring.  With the state and the controllers of the
    program, what a controller reads is a registered resource, in the namespace
    the resource lives in, and some other registered controller writes it;
    what a controller writes is a registered resource; and nobody reads the
    resolver specs. *)
Theorem controllers_wired `{HP : PluralizeLaws} s db :
  NewState empty_store = (s, Ok tt) ->
  Controller_Run os_controllers empty_database = (db, Ok tt) ->
  (forall n d, n ∈ registered db -> d ∈ default [] (controllerInputs db !! n) ->
     (exists spec, spec ∈ definitions s /\ Type_ spec = in_Type d /\ rds_DefaultNamespace spec = in_Namespace d) /\
     (exists n', n' <> n /\ n' ∈ registered db /\
        (exclusiveOutputs db !! in_Type d = Some n' \/ n' ∈ default [] (sharedOutputs db !! in_Type d))) /\
     in_Type d <> ResolverSpecType) /\
  (forall t n, exclusiveOutputs db !! t = Some n \/ n ∈ default [] (sharedOutputs db !! t) ->
     n ∈ registered db /\ exists spec, spec ∈ definitions s /\ Type_ spec = t).
Proof.
  intros HS HR. rewrite NewState_the_state in HS. apply (f_equal fst) in HS. cbn [fst] in HS. subst s. clear HP.
  destruct (Controller_Run_ok [] os_controllers empty_database os_registrable empty_registered)
    as (db' & HE & [[H1 H2 _] H3 H4 _]).
  unfold Controller_Run in HR. cbn [app] in *. rewrite HR in HE. apply (f_equal fst) in HE. cbn [fst] in HE.
  subst db'. clear HR. rewrite H3. split.
  - intros n d (c & -> & Hc)%list_elem_of_fmap Hd. rewrite H4 in Hd by done.
    destruct (inputs_wired c d Hc Hd) as (Hspec & (c' & o & Hc' & Hne & Ho & Ht) & Hres). split; [done|]. split; [|done].
    exists (Name c'). split; [done|]. split; [by apply list_elem_of_fmap_2|]. destruct o as [t k]. cbn [out_Type] in Ht. subst t.
    destruct k; [left; apply H1|right; apply H2]; by exists c'.
  - intros t n HO. assert (exists c k, c ∈ os_controllers /\ Name c = n /\ mkOutput t k ∈ Outputs c) as (c & k & Hc & <- & Ho).
    { destruct HO as [(c & ? & ? & ?)%H1|(c & ? & ? & ?)%H2]; [exists c, OutputExclusive|exists c, OutputShared]; done. }
    split; [by apply list_elem_of_fmap_2|]. exact (outputs_wired c _ Hc Ho).
Qed.

Lemma controllers_wired_witness :
  exists db, Controller_Run os_controllers empty_database = (db, Ok tt) /\
    exclusiveOutputs db !! ServiceType = Some "v1alpha1.ServiceController" /\
    "v1alpha1.ServiceController" ∈ registered db.
Proof.
  pose (db := fst (Controller_Run os_controllers empty_database)). exists db.
  assert (Controller_Run os_controllers empty_database = (db, Ok tt)) as HR by (by vm_compute).
  assert (exclusiveOutputs db !! ServiceType = Some "v1alpha1.ServiceController") as HX by (by vm_compute).
  split; [exact HR|]. split; [exact HX|].
  exact (proj1 (proj2 (controllers_wired (HP := table_laws) the_state db NewState_the_state HR)
    ServiceType "v1alpha1.ServiceController" (or_introl HX))).
Defined.
