(* ===== verification/ResourceTypes.v ===== *)
(** * The typed resources

    The constructors of [pkg/machinery/resources] and the [init] functions of
    its packages, which register the encoding of each type with the vendored
    [pkg/resource/protobuf]; whether [protoenc] can encode a spec is a
    parameter. *)

From S2P Require Import Prelude NetAddr AddressSpec LinkStatus.
From S2P Require Import RuntimeControllers ServiceController Tsosctl Registration.

(** ** Resources *)

(** [resource.Metadata]: a new resource has no version and is running. *)
Record Metadata := mkMetadata { md_ns : string; md_typ : string; md_id : string; md_ver : option Z; md_phase : Phase }.

Record typed_Resource (Spec : Type) := mkTyped { typed_md : Metadata; typed_spec : Spec }.
Arguments mkTyped {Spec} _ _.
Arguments typed_md {Spec} _.
Arguments typed_spec {Spec} _.

Definition NewMetadata (ns typ id : string) (ver : option Z) : Metadata := mkMetadata ns typ id ver PhaseRunning.
Definition VersionUndefined : option Z := None.
Definition NewResource {Spec} (md : Metadata) (spec : Spec) : typed_Resource Spec := mkTyped md spec.

Definition DevicesID : string := "devices".

Definition NewAddressSpec (namespace id : string) : typed_Resource AddressSpecSpec :=
  NewResource (NewMetadata namespace AddressSpecType id VersionUndefined) (mkAddressSpecSpec zeroPrefix "" 0 0 0).
Definition NewRouteSpec (namespace id : string) : typed_Resource RouteSpecSpec :=
  NewResource (NewMetadata namespace RouteSpecType id VersionUndefined) (mkRouteSpecSpec 0 zeroPrefix AddrZero AddrZero "" 0 0 0 0 0 0 0).
Definition NewResolverSpec (namespace id : string) : typed_Resource ResolverSpecSpec :=
  NewResource (NewMetadata namespace ResolverSpecType id VersionUndefined) (mkResolverSpecSpec None None None).
Definition NewLinkStatus (namespace id : string) : typed_Resource LinkStatusSpec :=
  NewResource (NewMetadata namespace LinkStatusType id VersionUndefined)
    (mkLinkStatusSpec "" [] 0 0 0 0 [] [] [] 0 "" 0 0 "" "" "" "" "" "" "" "" "" "" "" false 0 0 0).
(** [DevicesStatusSpec] has the one field [Ready]. *)
Definition NewDevicesStatus (namespace id : string) : typed_Resource bool :=
  NewResource (NewMetadata namespace DevicesStatusType id VersionUndefined) false.
Definition NewService (id : string) : typed_Resource ServiceSpec :=
  NewResource (NewMetadata v1alpha1_NamespaceName ServiceType id VersionUndefined) (mkServiceSpec false false false).

(** ** The encodings *)

(** [protoenc.Marshal] of the zero spec of a type: its error. *)
Class Protoenc := { protoenc_Marshal : string -> option error }.

(** The types with a generated encoding, and those with an encoding by tags. *)
Record resourceRegistry := mkRegistry { registry : gset string; encoders : gset string }.

Definition empty_registry : resourceRegistry := mkRegistry ∅ ∅.

Section registry.
Context `{!Protoenc}.

Definition RegisterDynamic (resourceType : string) : M resourceRegistry unit := fun r =>
  match protoenc_Marshal resourceType with
  | Some err => (r, Err (EWrap ("cannot register " +:+ (resourceType +:+ ": ")) err ""))
  | None =>
    if decide (resourceType ∈ registry r) then (r, Err (EMsg ("cannot register " +:+ resourceType +:+ " resource in dynamic and static versions")))
    else if decide (resourceType ∈ encoders r) then (r, Err (EMsg ("dynamic resource type " +:+ quoted resourceType +:+ " is already registered")))
    else (mkRegistry (registry r) ({[resourceType]} ∪ encoders r), Ok tt)
  end.

(** The [init] of the file of a type. *)
Definition init (resourceType : string) : M resourceRegistry unit := fun r =>
  match RegisterDynamic resourceType r with
  | (r', Err err) => (r', Panic (Error err))
  | x => x
  end.

Definition os_types : list string :=
  [AddressSpecType; LinkStatusType; ResolverSpecType; RouteSpecType; DevicesStatusType; ServiceType].

(** The inits of the packages, in the order the linker chose. *)
Definition inits : list string -> M resourceRegistry unit := for_range init.

Lemma init_ok ty r :
  protoenc_Marshal ty = None -> ty ∉ registry r -> ty ∉ encoders r -> init ty r = (mkRegistry (registry r) ({[ty]} ∪ encoders r), Ok tt).
Proof. intros HM HR HE. unfold init, RegisterDynamic. by rewrite HM, !decide_False. Qed.

Lemma inits_ok l r :
  (forall ty, ty ∈ l -> protoenc_Marshal ty = None) -> (forall ty, ty ∈ l -> (ty ∉ registry r) /\ (ty ∉ encoders r)) -> NoDup l ->
  inits l r = (mkRegistry (registry r) (encoders r ∪ list_to_set l), Ok tt).
Proof.
  revert r. induction l as [|ty l IH]; intros r HM HN HD.
  { destruct r as [a b]. unfold inits. cbn. by rewrite union_empty_r_L. }
  apply NoDup_cons in HD as [Hni HD]. destruct (HN ty) as [H1 H2]; [left|]. unfold inits in *. cbn [for_range]. unfold mbind, M_bind.
  rewrite init_ok; [|apply HM; left|done|done]. rewrite IH; [|intros t Ht; apply HM; by right| |done].
  - cbn [registry encoders list_to_set]. f_equal. f_equal. by rewrite (union_comm_L {[ty]}), union_assoc_L.
  - intros t Ht. destruct (HN t) as [H3 H4]; [by right|]. split; [done|]. cbn. set_solver.
Qed.

End registry.

(** ** Properties *)

(** What the constructors of the program make: the metadata. *)
Definition created (namespace id : string) : list Metadata :=
  [typed_md (NewAddressSpec namespace id); typed_md (NewLinkStatus namespace id); typed_md (NewResolverSpec namespace id);
   typed_md (NewRouteSpec namespace id); typed_md (NewDevicesStatus namespace id); typed_md (NewService id)].

(** Resources have a definition and an encoding.  Whatever the order in which
    the packages are initialized, no init panics if the specs can be encoded;
    afterwards every resource that the program constructs has an encoding of
    its type, and once the state is set up a definition of it; a package that
    registered its type a second time would panic. *)
Theorem resources_registered `{!Protoenc} `{HP : PluralizeLaws} l s :
  l ≡ₚ os_types -> (forall ty, ty ∈ l -> protoenc_Marshal ty = None) -> NewState empty_store = (s, Ok tt) ->
  exists r, inits l empty_registry = (r, Ok tt) /\
    (forall ns id md, md ∈ created ns id ->
       md_typ md ∈ encoders r /\ md_ver md = None /\ md_phase md = PhaseRunning /\
       exists spec, spec ∈ definitions s /\ Type_ spec = md_typ md) /\
    (forall ty, ty ∈ l -> exists msg, init ty r = (r, Panic msg)).
Proof.
  intros HL HM HS. rewrite NewState_the_state in HS. apply (f_equal fst) in HS. cbn [fst] in HS. subst s.
  assert (NoDup l) as HD by (rewrite HL; compute_done).
  eexists. split; [apply inits_ok; [done|by intros; split; apply not_elem_of_empty|done]|]. cbn [encoders registry empty_registry]. split.
  - intros ns id md Hmd.
    assert (md_ver md = None /\ md_phase md = PhaseRunning /\ md_typ md ∈ os_types) as (H1 & H2 & H3).
    { unfold created in Hmd. rewrite !elem_of_cons, elem_of_nil in Hmd.
      destruct Hmd as [->|[->|[->|[->|[->|[->|[]]]]]]]; (split; [done|]; split; [done|]; compute_done). }
    assert (exists spec, spec ∈ definitions the_state /\ Type_ spec = md_typ md) as H4.
    { assert (os_types ⊆ Type_ <$> definitions the_state) as Hsub by compute_done.
      apply Hsub, list_elem_of_fmap in H3 as (spec & HE & Hin). by exists spec. }
    split_and!; [|done..]. apply elem_of_union_r, elem_of_list_to_set. by rewrite HL.
  - intros ty Hty. unfold init, RegisterDynamic. rewrite (HM ty Hty). cbn [registry encoders]. rewrite decide_False by apply not_elem_of_empty.
    rewrite decide_True; [eauto|]. apply elem_of_union_r. by apply elem_of_list_to_set.
Qed.

(** Specs that can all be encoded. *)
#[local] Instance demo_protoenc : Protoenc := {| protoenc_Marshal _ := None |}.

Lemma resources_registered_witness :
  exists r, inits (rev os_types) empty_registry = (r, Ok tt) /\ ServiceType ∈ encoders r.
Proof.
  destruct (resources_registered (HP := table_laws) (rev os_types) the_state) as (r & HR & HC & _).
  - by rewrite <-Permutation_rev.
  - done.
  - exact (NewState_the_state (HP := table_laws)).
  - exists r. split; [exact HR|]. destruct (HC "runtime" "udevd" (typed_md (NewService "udevd"))) as [HE _]; [|exact HE].
    unfold created. do 5 right. left.
Defined.
