(* ===== verification/ControllerLoop.v ===== *)
(** * The loop of a controller

    The [Run] of a controller of [pkg/controllers] has one shape: it sets up
    what it needs, and then takes an event, makes a turn, and takes the next.
    This file models that shape, and what the adapter of the controller runtime
    makes of it ([vendor/github.com/cosi-project/runtime/pkg/controller/runtime],
    [internal/rruntime]): the channel for one event, the inputs, the restart
    after an error, and the way from a changed resource to the event.  The
    controllers themselves are in [ControllerRuns].

    A turn is one step.  What others change while it goes on counts as changed
    after it: a controller reads its inputs once, at the beginning. *)

From Stdlib Require Import Relation_Operators Wellfounded.Lexicographic_Product.
From stdpp Require Import relations.
From S2P Require Import Prelude.

(** ** controller.Runtime, as a controller sees it *)

(** [rt_interval] is the current interval of the exponential backoff. *)
Record runtime := mkRuntime {
  rt_inputs : gset string;
  rt_ch : chan unit;
  rt_interval : Z
}.

(** [backoff.DefaultInitialInterval] and [DefaultMaxInterval], in nanoseconds. *)
Definition InitialInterval : Z := 500000000.
Definition MaxInterval : Z := 60000000000.

(** [incrementCurrentInterval], with [DefaultMultiplier] 1.5; the products are
    exact in a float64. *)
Definition incrementCurrentInterval (currentInterval : Z) : Z :=
  if decide (MaxInterval * 2 <= currentInterval * 3) then MaxInterval else currentInterval * 3 / 2.

(** The values of [getRandomValueFromInterval] with [DefaultRandomizationFactor]
    0.5: the integral part of a number from half the interval to less than one
    and a half of it plus one. *)
Definition next_backoff (currentInterval d : Z) : Prop :=
  currentInterval - 1 <= 2 * d <= currentInterval * 3 + 1.

Section ops.
Context {W : Type}.

(** A call of something else than the runtime. *)
Definition outside {A} (m : M W A) : M (runtime * W) A := fun '(r, w) => let (w', x) := m w in ((r, w'), x).

Definition triggerReconcile (r : runtime) : runtime :=
  mkRuntime (rt_inputs r) (try_send tt (rt_ch r)) (rt_interval r).

Definition QueueReconcile : M (runtime * W) unit := fun '(r, w) => ((triggerReconcile r, w), Ok tt).

Definition ResetRestartBackoff : M (runtime * W) unit := fun '(r, w) =>
  ((mkRuntime (rt_inputs r) (rt_ch r) InitialInterval, w), Ok tt).

Definition set_inputs (deps : gset string) : M (runtime * W) unit := fun '(r, w) =>
  ((mkRuntime deps (rt_ch r) (rt_interval r), w), Ok tt).

(** [UpdateInputs], up to the inputs it sets: registering the watch of a new
    input may fail ([watch]). *)
Definition UpdateInputs (watch : M W unit) (deps : gset string) : M (runtime * W) unit :=
  _ ← outside watch; set_inputs deps.

End ops.

(** ** The shape of Run *)

(** After a turn: another [select], in some part of the controller, a
    [return nil], or nothing, when the turn waits for what never comes. *)
Inductive verdict (Mode : Type) := Loop (m : Mode) | Finish | Hang.
Arguments Loop {Mode} m.
Arguments Finish {Mode}.
Arguments Hang {Mode}.

Record loop (W Mode : Type) := mkLoop {
  enter : M (runtime * W) Mode;
  turn : Mode -> M (runtime * W) (verdict Mode)
}.
Arguments mkLoop {W Mode} _ _.
Arguments enter {W Mode} _.
Arguments turn {W Mode} _ _.

(** What [runOnce] makes of the end of [Run]: a panic is an error, and
    [context.Canceled] is none. *)
Definition runOnce {A} (r : result A) : option error :=
  match r with
  | Ok _ => None
  | Err e => if errors_Is e context_Canceled then None else Some e
  | Panic p => Some (EMsg ("controller panicked: " +:+ p))
  end.

(** ** The resources that are watched *)

(** The kinds of resources there are, and whether two worlds have the same
    resources of a kind. *)
Class Watched (W : Type) := {
  kinds : gset string;
  same : string -> W -> W -> Prop;
  same_dec k w w' :: Decision (same k w w');
  same_equiv k :: Equivalence (same k)
}.

(** The kinds whose resources differ: writing a resource that stays equal to
    what it was makes no event. *)
Definition changes {W} `{!Watched W} (w w' : W) : gset string := filter (fun k => ~ same k w w') kinds.

(** ** The adapter *)

(** Where the goroutine of the adapter is: about to call [Run], in a [select] of
    [Run], waiting for a restart, done because [Run] returned nil, done
    because a context was cancelled, or in a turn that hangs. *)
Inductive place (Mode : Type) :=
| Entering
| Selecting (m : Mode)
| Sleeping (delay : Z)
| Finished
| Stopped
| Hung.
Arguments Entering {Mode}.
Arguments Selecting {Mode} m.
Arguments Sleeping {Mode} delay.
Arguments Finished {Mode}.
Arguments Stopped {Mode}.
Arguments Hung {Mode}.

(** [s_flight]: the changed resources on their way through the watch, its
    deduplication and the delivery. *)
Record system (W Mode : Type) := mkSystem {
  s_rt : runtime;
  s_world : W;
  s_place : place Mode;
  s_flight : gset string
}.
Arguments mkSystem {W Mode} _ _ _ _.
Arguments s_rt {W Mode} _.
Arguments s_world {W Mode} _.
Arguments s_place {W Mode} _.
Arguments s_flight {W Mode} _.

(** [NewAdapter]: the initial reconcile is scheduled. *)
Definition NewAdapter {W Mode} (inputs : gset string) (w : W) : system W Mode :=
  mkSystem (triggerReconcile (mkRuntime inputs (make_chan unit 1) InitialInterval)) w Entering ∅.

(** An event of a kind at the controllers that depend on it. *)
Definition WatchTrigger (k : string) (r : runtime) : runtime :=
  if decide (k ∈ rt_inputs r) then triggerReconcile r else r.

Section adapter.
Context {W Mode : Type} `{!Watched W}.
Context (ctrl : loop W Mode).
(** What others do to the world in one step. *)
Context (disturb : W -> W -> Prop).


(** The adapter after a [Run] that ended. *)
Inductive ended {A} (r : runtime) (res : result A) : runtime -> place Mode -> Prop :=
| ended_stopped : runOnce res = None -> ended r res r Stopped
| ended_failed e d :
    runOnce res = Some e -> next_backoff (rt_interval r) d ->
    ended r res (mkRuntime (rt_inputs r) (rt_ch r) (incrementCurrentInterval (rt_interval r))) (Sleeping d).

(** The steps of the controller and of the runtime. *)
Inductive own : system W Mode -> system W Mode -> Prop :=
| s_deliver r w p fl k :
    k ∈ fl -> own (mkSystem r w p fl) (mkSystem (WatchTrigger k r) w p (fl ∖ {[k]}))
| s_enter r w fl r' w' m :
    enter ctrl (r, w) = ((r', w'), Ok m) ->
    own (mkSystem r w Entering fl) (mkSystem r' w' (Selecting m) (fl ∪ changes w w'))
| s_enter_ended r w fl r' w' res r2 p :
    enter ctrl (r, w) = ((r', w'), res) -> (forall m, res <> Ok m) -> ended r' res r2 p ->
    own (mkSystem r w Entering fl) (mkSystem r2 w' p (fl ∪ changes w w'))
| s_turn r w m fl c r' w' m' :
    try_recv (rt_ch r) = Some (tt, c) ->
    turn ctrl m (mkRuntime (rt_inputs r) c (rt_interval r), w) = ((r', w'), Ok (Loop m')) ->
    own (mkSystem r w (Selecting m) fl) (mkSystem r' w' (Selecting m') (fl ∪ changes w w'))
| s_turn_finish r w m fl c r' w' :
    try_recv (rt_ch r) = Some (tt, c) ->
    turn ctrl m (mkRuntime (rt_inputs r) c (rt_interval r), w) = ((r', w'), Ok Finish) ->
    own (mkSystem r w (Selecting m) fl) (mkSystem r' w' Finished (fl ∪ changes w w'))
| s_turn_hang r w m fl c r' w' :
    try_recv (rt_ch r) = Some (tt, c) ->
    turn ctrl m (mkRuntime (rt_inputs r) c (rt_interval r), w) = ((r', w'), Ok Hang) ->
    own (mkSystem r w (Selecting m) fl) (mkSystem r' w' Hung (fl ∪ changes w w'))
| s_turn_ended r w m fl c r' w' res r2 p :
    try_recv (rt_ch r) = Some (tt, c) ->
    turn ctrl m (mkRuntime (rt_inputs r) c (rt_interval r), w) = ((r', w'), res) ->
    (forall v, res <> Ok v) -> ended r' res r2 p ->
    own (mkSystem r w (Selecting m) fl) (mkSystem r2 w' p (fl ∪ changes w w'))
| s_wake r w d fl :
    own (mkSystem r w (Sleeping d) fl) (mkSystem (triggerReconcile r) w Entering fl).

(** The others, and the cancellation of the runtime's context. *)
Inductive lstep : system W Mode -> system W Mode -> Prop :=
| s_own s s' : own s s' -> lstep s s'
| s_disturb r w p fl w' :
    disturb w w' -> lstep (mkSystem r w p fl) (mkSystem r w' p (fl ∪ changes w w'))
| s_cancel r w p fl : p <> Finished -> p <> Hung -> lstep (mkSystem r w p fl) (mkSystem r w Stopped fl).

(** The states from the registration of the controller on. *)
Definition reachable (inputs : gset string) (w0 : W) (s : system W Mode) : Prop := rtc lstep (NewAdapter inputs w0) s.

End adapter.

(** ** What a Run keeps to *)

Definition queued (r : runtime) : Prop := chan_buf (rt_ch r) <> [].

Record rt_ok (r : runtime) : Prop := {
  rt_cap : chan_cap (rt_ch r) = 1%nat;
  rt_len : (length (chan_buf (rt_ch r)) <= 1)%nat;
  rt_range : InitialInterval <= rt_interval r <= MaxInterval
}.

(** Calls of the runtime never take an event that is queued. *)
Definition keeps (r r' : runtime) : Prop := rt_ok r -> rt_ok r' /\ (queued r -> queued r').

#[export] Instance keeps_preorder : PreOrder keeps.
Proof. split; [by intros r|]. intros r1 r2 r3 H1 H2 H. destruct (H1 H) as [H' ?], (H2 H') as [? ?]. auto. Qed.

Definition op_keeps {W A} (m : M (runtime * W) A) : Prop :=
  forall r w r' w' x, m (r, w) = ((r', w'), x) -> keeps r r'.

(** [reads]: the inputs in a part of the controller; [ok_inputs]: the inputs the
    controller may have at any time; [I]: what holds of the world.  A turn that
    ends in another part has queued an event, for that part to look at its
    inputs. *)
Class LoopLaws {W Mode} `{!Watched W} (ctrl : loop W Mode) (disturb : W -> W -> Prop)
    (reads : Mode -> gset string) (ok_inputs : gset string -> Prop) (I : W -> Prop) : Prop := {
  enter_law r w r' w' x :
    enter ctrl (r, w) = ((r', w'), x) -> ok_inputs (rt_inputs r) -> I w ->
    keeps r r' /\ ok_inputs (rt_inputs r') /\ I w' /\ (forall m, x = Ok m -> rt_inputs r' = reads m);
  turn_law m r w r' w' x :
    turn ctrl m (r, w) = ((r', w'), x) -> rt_inputs r = reads m -> ok_inputs (rt_inputs r) -> I w ->
    keeps r r' /\ ok_inputs (rt_inputs r') /\ I w' /\
    (forall m', x = Ok (Loop m') -> rt_inputs r' = reads m' /\ (m' <> m -> rt_ok r -> queued r'));
  disturb_law w w' : disturb w w' -> I w -> I w';
  reads_kinds m : reads m ⊆ kinds
}.

(** ** Lemmas on the calls *)

Lemma keeps_trigger r : keeps r (triggerReconcile r).
Proof.
  intros [H1 H2 H3]. unfold triggerReconcile, queued, try_send. cbn [rt_ch rt_inputs rt_interval].
  case_decide as E; [|done]. split; [|by destruct (chan_buf (rt_ch r))].
  split; cbn [chan_cap chan_buf rt_ch rt_interval]; [done| |done]. rewrite length_app. simpl. lia.
Qed.

Lemma trigger_queued r : rt_ok r -> queued (triggerReconcile r).
Proof.
  intros [H1 H2 _]. unfold queued, triggerReconcile, try_send. cbn [rt_ch]. case_decide as E.
  - cbn [chan_buf]. by destruct (chan_buf (rt_ch r)).
  - rewrite H1 in E. intros HE. rewrite HE in E. simpl in E. lia.
Qed.

Lemma keeps_WatchTrigger k r : keeps r (WatchTrigger k r).
Proof. unfold WatchTrigger. case_decide; [apply keeps_trigger|done]. Qed.

Lemma WatchTrigger_inputs k r : rt_inputs (WatchTrigger k r) = rt_inputs r.
Proof. unfold WatchTrigger. by case_decide. Qed.

Section keeping.
Context {W : Type}.

Lemma keeps_ret {A} (a : A) : op_keeps (W := W) (mret a).
Proof. by intros r w r' w' x [= -> -> _]. Qed.

Lemma keeps_fail {A} e : op_keeps (W := W) (fail (A := A) e).
Proof. by intros r w r' w' x [= -> -> _]. Qed.

Lemma keeps_bind {A B} (m : M (runtime * W) A) (f : A -> M (runtime * W) B) :
  op_keeps m -> (forall a, op_keeps (f a)) -> op_keeps (mbind f m).
Proof.
  intros Hm Hf r w r' w' x. unfold mbind, M_bind. destruct (m (r, w)) as [[r1 w1] [a|e|p]] eqn:E.
  - intros H. etrans; [by eapply Hm|by eapply Hf].
  - intros [= -> -> _]. by eapply Hm.
  - intros [= -> -> _]. by eapply Hm.
Qed.

Lemma keeps_wrap {A} pre (m : M (runtime * W) A) : op_keeps m -> op_keeps (wrap_err pre m).
Proof.
  intros Hm r w r' w' x. unfold wrap_err. destruct (m (r, w)) as [[r1 w1] [a|e|p]] eqn:E; intros [= -> -> _]; by eapply Hm.
Qed.

Lemma keeps_outside {A} (m : M W A) : op_keeps (outside m).
Proof. intros r w r' w' x. unfold outside. destruct (m w). by intros [= -> _ _]. Qed.

Lemma keeps_queue : op_keeps (W := W) QueueReconcile.
Proof. intros r w r' w' x [= <- _ _]. apply keeps_trigger. Qed.

Lemma keeps_reset : op_keeps (W := W) ResetRestartBackoff.
Proof. intros r w r' w' x [= <- _ _] [H1 H2 H3]. split; [|done]. split; [done..|]. cbn. unfold InitialInterval, MaxInterval. lia. Qed.

Lemma keeps_set_inputs deps : op_keeps (W := W) (set_inputs deps).
Proof. intros r w r' w' x [= <- _ _] [H1 H2 H3]. done. Qed.

Lemma keeps_inputs watch deps : op_keeps (W := W) (UpdateInputs watch deps).
Proof. apply keeps_bind; [apply keeps_outside|]. intros ?. apply keeps_set_inputs. Qed.

End keeping.

Create HintDb keeping.
#[export] Hint Resolve keeps_ret keeps_fail keeps_bind keeps_wrap keeps_outside keeps_queue keeps_reset keeps_inputs : keeping.

(** The runtime's part of a sequence of calls. *)
Ltac keeping := repeat first
  [ apply keeps_ret | apply keeps_fail | apply keeps_outside | apply keeps_queue | apply keeps_reset | apply keeps_inputs
  | apply keeps_wrap | apply keeps_bind; [|intros ?] | match goal with |- op_keeps (match ?x with _ => _ end) => destruct x end ].

(** ** The invariant *)

Section laws.
Context {W Mode : Type} `{!Watched W} `{!EqDecision Mode} (ctrl : loop W Mode) (disturb : W -> W -> Prop)
  (reads : Mode -> gset string) (ok_inputs : gset string -> Prop) (I : W -> Prop)
  {HL : LoopLaws ctrl disturb reads ok_inputs I}.
Implicit Types s : system W Mode.

(** The last turn has dealt with the inputs as they are: it began and ended
    with the same resources that there are now, and since then only others
    have acted. *)
Definition settled (m : Mode) (w : W) : Prop :=
  exists r0 w0 r1 w1, I w0 /\ rt_inputs r0 = reads m /\ turn ctrl m (r0, w0) = ((r1, w1), Ok (Loop m)) /\
    (forall k, k ∈ reads m -> same k w0 w1 /\ same k w1 w) /\ rtc disturb w1 w.

(** Run returned nil. *)
Definition finished (w : W) : Prop :=
  exists m r0 w0 r1 w1, I w0 /\ rt_inputs r0 = reads m /\ turn ctrl m (r0, w0) = ((r1, w1), Ok Finish) /\ rtc disturb w1 w.

Definition place_ok s : Prop :=
  match s_place s with
  | Entering => queued (s_rt s)
  | Selecting m =>
    rt_inputs (s_rt s) = reads m /\
    (queued (s_rt s) \/ (exists k, k ∈ s_flight s /\ k ∈ reads m) \/ settled m (s_world s))
  | Sleeping d => 250000000 <= d <= 90000000000
  | Finished => finished (s_world s)
  | Stopped | Hung => True
  end.

Record sys_ok s : Prop := {
  so_rt : rt_ok (s_rt s);
  so_inputs : ok_inputs (rt_inputs (s_rt s));
  so_world : I (s_world s);
  so_place : place_ok s
}.

Lemma changes_elem (w w' : W) k : k ∈ changes w w' <-> k ∈ kinds /\ ~ same k w w'.
Proof. unfold changes. rewrite elem_of_filter. tauto. Qed.

(** A change to what a controller reads is on its way, or there is none. *)
Lemma changes_or (w w' : W) (ks : gset string) :
  ks ⊆ kinds -> (exists k, k ∈ changes w w' /\ k ∈ ks) \/ (forall k, k ∈ ks -> same k w w').
Proof.
  intros Hk. destruct (decide (set_Exists (fun k => k ∈ changes w w') ks)) as [(k & H1 & H2)|Hn]; [left; eauto|].
  right. intros k Hin. destruct (decide (same k w w')) as [|Hs]; [done|]. destruct Hn. exists k. split; [done|].
  apply changes_elem. auto.
Qed.

Lemma increment_range i : InitialInterval <= i <= MaxInterval -> InitialInterval <= incrementCurrentInterval i <= MaxInterval.
Proof.
  unfold incrementCurrentInterval, InitialInterval, MaxInterval. intros Hi. case_decide as E; [lia|].
  pose proof (Z.div_mod (i * 3) 2). pose proof (Z.mod_pos_bound (i * 3) 2). lia.
Qed.

(** An end of Run leaves the adapter stopped, or asleep for a while. *)
Lemma ended_ok {A} r (res : result A) r2 (p : place Mode) w fl :
  ended r res r2 p -> rt_ok r -> ok_inputs (rt_inputs r) -> I w -> sys_ok (mkSystem r2 w p fl).
Proof.
  intros [HN|e d _ Hd] Hr Hi Hw; split; try done; destruct Hr as [H1 H2 H3].
  - split; [done..|]. by apply increment_range.
  - cbn. unfold next_backoff, InitialInterval, MaxInterval in *. lia.
Qed.

Lemma take_rt_ok r c : rt_ok r -> try_recv (rt_ch r) = Some (tt, c) -> rt_ok (mkRuntime (rt_inputs r) c (rt_interval r)).
Proof.
  intros [H1 H2 H3] H. unfold try_recv in H. destruct (chan_buf (rt_ch r)) as [|[] b] eqn:E; [done|]. injection H as <-.
  split; cbn [rt_ch chan_cap chan_buf rt_interval]; [done| |done]. simpl in H2. lia.
Qed.

Lemma take_unqueued r c : rt_ok r -> try_recv (rt_ch r) = Some (tt, c) -> ~ queued (mkRuntime (rt_inputs r) c (rt_interval r)).
Proof.
  intros [_ H2 _] H. unfold try_recv, queued in *. destruct (chan_buf (rt_ch r)) as [|[] b]; [done|]. injection H as <-.
  simpl in *. destruct b; [tauto|simpl in H2; lia].
Qed.

(** A token, an event on its way, or a settled turn is left after a step that
    only others take part in. *)
Lemma settled_disturb m w w' : disturb w w' -> (forall k, k ∈ reads m -> same k w w') -> settled m w -> settled m w'.
Proof.
  intros HD HS (r0 & w0 & r1 & w1 & HI & Hr & HT & Hk & HR). exists r0, w0, r1, w1. split_and!; try done.
  - intros k Hin. destruct (Hk k Hin) as [? ?]. split; [done|]. etrans; [done|]. by apply HS.
  - by eapply rtc_r.
Qed.

Lemma sys_ok_turn m r w r' w' m' fl :
  turn ctrl m (r, w) = ((r', w'), Ok (Loop m')) ->
  rt_inputs r = reads m -> rt_ok r -> ok_inputs (rt_inputs r) -> I w ->
  sys_ok (mkSystem r' w' (Selecting m') (fl ∪ changes w w')).
Proof.
  intros HT Hr Hrt Hin Hw. destruct (turn_law _ _ _ _ _ _ HT Hr Hin Hw) as (HK & Hin' & Hw' & Hm).
  destruct (Hm m' eq_refl) as [Hr' Hq]. destruct (HK Hrt) as [Hrt' _]. split; try done. cbn. split; [done|].
  destruct (decide (m' = m)) as [->|Hne]; [|left; auto]. right.
  destruct (changes_or w w' (reads m) (reads_kinds m)) as [(k & H1 & H2)|Hs]; [left; exists k; set_solver|].
  right. exists r, w, r', w'. split_and!; try done. intros k Hk. split; [auto|done].
Qed.

Lemma sys_ok_own s s' : own ctrl s s' -> sys_ok s -> sys_ok s'.
Proof.
  intros HS [Hrt Hin Hw Hp]. destruct HS as [r w p fl k Hk|r w fl r' w' m HE|r w fl r' w' res r2 p HE HN HD|
    r w m fl c r' w' m' HT HE|r w m fl c r' w' HT HE|r w m fl c r' w' HT HE|r w m fl c r' w' res r2 p HT HE HN HD|r w d fl];
    cbn [s_rt s_world s_place s_flight] in *.
  - destruct (keeps_WatchTrigger k r Hrt) as [Hrt' Hq]. split; cbn; try done; [by rewrite WatchTrigger_inputs|].
    destruct p as [|m|d| | |]; cbn in *; [auto| |done..]. destruct Hp as [Hr Hor]. rewrite WatchTrigger_inputs.
    split; [done|]. destruct Hor as [?|[(k' & H1 & H2)|?]]; [left; auto| |by right; right].
    destruct (decide (k' = k)) as [->|]; [left|right; left; exists k'; set_solver].
    unfold WatchTrigger. rewrite decide_True by congruence. by apply trigger_queued.
  - destruct (enter_law _ _ _ _ _ HE Hin Hw) as (HK & Hin' & Hw' & Hm). destruct (HK Hrt) as [Hrt' Hq].
    split; try done. cbn. split; [auto|]. left. auto.
  - destruct (enter_law _ _ _ _ _ HE Hin Hw) as (HK & Hin' & Hw' & _). destruct (HK Hrt) as [Hrt' _].
    by eapply ended_ok.
  - destruct Hp as [Hr _]. eapply sys_ok_turn; [exact HE|done| |done..]. by apply take_rt_ok.
  - destruct Hp as [Hr _]. destruct (turn_law _ _ _ _ _ _ HE Hr Hin Hw) as (HK & Hin' & Hw' & _).
    destruct (HK (take_rt_ok _ _ Hrt HT)) as [Hrt' _]. split; try done. cbn. by exists m, (mkRuntime (rt_inputs r) c (rt_interval r)), w, r', w'.
  - destruct Hp as [Hr _]. destruct (turn_law _ _ _ _ _ _ HE Hr Hin Hw) as (HK & Hin' & Hw' & _).
    by destruct (HK (take_rt_ok _ _ Hrt HT)) as [Hrt' _].
  - destruct Hp as [Hr _]. destruct (turn_law _ _ _ _ _ _ HE Hr Hin Hw) as (HK & Hin' & Hw' & _).
    destruct (HK (take_rt_ok _ _ Hrt HT)) as [Hrt' _]. by eapply ended_ok.
  - destruct (keeps_trigger r Hrt) as [Hrt' _]. split; try done. cbn. by apply trigger_queued.
Qed.

Lemma sys_ok_step s s' : lstep ctrl disturb s s' -> sys_ok s -> sys_ok s'.
Proof.
  intros [s1 s2 HS|r w p fl w' HD|r w p fl Hn Hh] Hok; [by eapply sys_ok_own| |].
  - destruct Hok as [Hrt Hin Hw Hp]. cbn in *. split; cbn; try done; [by eapply disturb_law|].
    destruct p as [|m|d| | |]; cbn in *; try done.
    + destruct Hp as [Hr Hor]. split; [done|]. destruct Hor as [?|[(k & H1 & H2)|Hs]]; [by left|right; left; exists k; set_solver|].
      destruct (changes_or w w' (reads m) (reads_kinds m)) as [(k & H1 & H2)|He]; [right; left; exists k; set_solver|].
      right. right. by eapply settled_disturb.
    + destruct Hp as (m & r0 & w0 & r1 & w1 & ? & ? & ? & ?). exists m, r0, w0, r1, w1. split_and!; try done. by eapply rtc_r.
  - destruct Hok as [Hrt Hin Hw Hp]. by split.
Qed.

Lemma sys_ok_new inputs w : ok_inputs inputs -> I w -> sys_ok (NewAdapter (Mode := Mode) inputs w).
Proof.
  intros Hin Hw. assert (rt_ok (mkRuntime inputs (make_chan unit 1) InitialInterval)) as Hrt.
  { split; cbn; [done|lia|]. unfold InitialInterval, MaxInterval. lia. }
  destruct (keeps_trigger _ Hrt) as [Hrt' _]. split; [exact Hrt'|done..|]. by apply trigger_queued.
Qed.

Lemma sys_reachable_ok inputs w s : ok_inputs inputs -> I w -> reachable ctrl disturb inputs w s -> sys_ok s.
Proof.
  intros Hin Hw HR. pose proof (sys_ok_new inputs w Hin Hw) as H0. unfold reachable in HR. revert H0.
  induction HR as [s|s1 s2 s3 HS HR IH]; intros H0; [done|]. apply IH. by eapply sys_ok_step.
Qed.

(** Nothing is under way for the controller. *)
Definition at_rest s (m : Mode) : Prop :=
  s_place s = Selecting m /\ ~ queued (s_rt s) /\ s_flight s ## reads m.

(** No change is lost: a controller that waits with nothing on its way to it
    has made a turn without an error on the inputs as they are. *)
Lemma rest_settled s m : sys_ok s -> at_rest s m -> settled m (s_world s).
Proof.
  intros [_ _ _ Hp] (HP & Hq & Hf). unfold place_ok in Hp. rewrite HP in Hp. destruct Hp as [_ [?|[(k & H1 & H2)|?]]]; [done| |done].
  set_solver.
Qed.

(** ** Coming to rest *)

(** No step of the controller or of the runtime is left. *)
Definition idle s : Prop :=
  s_flight s = ∅ /\
  ((exists m, s_place s = Selecting m /\ ~ queued (s_rt s)) \/ s_place s = Finished \/ s_place s = Stopped \/ s_place s = Hung).

Lemma ended_exists {A} r (res : result A) : rt_ok r -> exists r2 p, ended (Mode := Mode) r res r2 p.
Proof.
  intros [_ _ H]. destruct (runOnce res) as [e|] eqn:E; [|by eexists _, _; apply ended_stopped].
  eexists _, _. eapply (ended_failed _ _ e (rt_interval r)); [done|]. unfold next_backoff, InitialInterval in *. lia.
Qed.

Lemma own_progress s : sys_ok s -> idle s \/ exists s', own ctrl s s'.
Proof.
  intros Hok. pose proof Hok as [Hrt Hin Hw Hp]. destruct s as [r w p fl]. cbn in *.
  destruct (decide (fl = ∅)) as [->|[k Hk]%set_choose_L]; [|right; eexists; by apply (s_deliver _ _ _ _ _ k)].
  destruct p as [|m|d| | |]; [| |right; eexists; apply s_wake|left; split; auto 6..].
  - right. destruct (enter ctrl (r, w)) as [[r' w'] x] eqn:E.
    destruct (enter_law _ _ _ _ _ E Hin Hw) as (HK & _). destruct (HK Hrt) as [Hrt' _].
    destruct x as [m|e|q]; [eexists; by eapply s_enter| |];
      (match type of E with _ = (_, ?x) => destruct (ended_exists r' x Hrt') as (r2 & p2 & HE) end; eexists; eapply s_enter_ended; [exact E|done|exact HE]).
  - destruct (chan_buf (rt_ch r)) as [|[] b] eqn:Eb.
    { left. split; [done|]. left. exists m. split; [done|]. unfold queued. cbn. rewrite Eb. tauto. }
    right. assert (try_recv (rt_ch r) = Some (tt, mk_chan (chan_cap (rt_ch r)) b)) as HT by (unfold try_recv; by rewrite Eb).
    set (c := mk_chan _ b) in *. destruct (turn ctrl m (mkRuntime (rt_inputs r) c (rt_interval r), w)) as [[r' w'] x] eqn:E.
    destruct Hp as [Hr _]. destruct (turn_law _ _ _ _ _ _ E Hr Hin Hw) as (HK & _).
    destruct (HK (take_rt_ok _ _ Hrt HT)) as [Hrt' _].
    destruct x as [[m'| |]|e|q]; [eexists; by eapply s_turn|eexists; by eapply s_turn_finish|eexists; by eapply s_turn_hang| |];
      (match type of E with _ = (_, ?x) => destruct (ended_exists r' x Hrt') as (r2 & p2 & HE) end; eexists; eapply s_turn_ended; [exact HT|exact E|done|exact HE]).
Qed.

(** In the worlds [J], which calls do not leave, no call fails, and a turn that
    writes, moves on or queues an event brings the controller closer to a goal
    ([pot]). *)
Record calm (J : W -> Prop) (pot : place Mode -> W -> nat) : Prop := {
  calm_enter r w r' w' x :
    enter ctrl (r, w) = ((r', w'), x) -> ok_inputs (rt_inputs r) -> I w -> J w ->
    exists m, x = Ok m /\ J w' /\ (pot (Selecting m) w' < pot Entering w)%nat;
  calm_turn m r w r' w' x :
    turn ctrl m (r, w) = ((r', w'), x) -> rt_inputs r = reads m -> ok_inputs (rt_inputs r) -> I w -> J w -> ~ queued r ->
    J w' /\
    match x with
    | Ok (Loop m') =>
      (pot (Selecting m') w' < pot (Selecting m) w)%nat \/
      (pot (Selecting m') w' <= pot (Selecting m) w)%nat /\ changes w w' = ∅ /\ ~ queued r'
    | Ok Finish => (pot Finished w' < pot (Selecting m) w)%nat
    | _ => False
    end;
  calm_wake d w : (pot Entering w < pot (Sleeping d) w)%nat
}.

(** The goal, the events on their way, and the event that is queued. *)
Definition rank (pot : place Mode -> W -> nat) s : nat * (nat * nat) :=
  (pot (s_place s) (s_world s), (size (s_flight s), length (chan_buf (rt_ch (s_rt s))))).

Definition rank_lt : nat * (nat * nat) -> nat * (nat * nat) -> Prop := slexprod _ _ lt (slexprod _ _ lt lt).

Lemma rank_wf : well_founded rank_lt.
Proof. apply wf_slexprod; [|apply wf_slexprod]; apply lt_wf. Qed.

Lemma rank_le pot s1 s2 :
  (pot (s_place s2) (s_world s2) <= pot (s_place s1) (s_world s1))%nat ->
  slexprod _ _ lt lt (rank pot s2).2 (rank pot s1).2 -> rank_lt (rank pot s2) (rank pot s1).
Proof.
  unfold rank_lt, rank. cbn [snd]. intros [Hlt|Heq]%Nat.lt_eq_cases Hr; [by left|]. rewrite Heq. by right.
Qed.

(** Such a controller gets closer, and does not stop or hang by itself. *)
Definition over (p : place Mode) : Prop := p = Stopped \/ p = Hung.

Lemma own_calm J pot s s' :
  calm J pot -> sys_ok s -> J (s_world s) -> own ctrl s s' ->
  J (s_world s') /\ rank_lt (rank pot s') (rank pot s) /\ (over (s_place s') -> over (s_place s)).
Proof.
  intros [CE CT CW] [Hrt Hin Hw Hp] HJ HS.
  destruct HS as [r w p fl k Hk|r w fl r' w' m HE|r w fl r' w' res r2 p HE HN HD|
    r w m fl c r' w' m' HT HE|r w m fl c r' w' HT HE|r w m fl c r' w' HT HE|r w m fl c r' w' res r2 p HT HE HN HD|r w d fl];
    cbn [s_rt s_world s_place s_flight] in *;
    try (destruct Hp as [Hr _]; cbn in Hr; pose proof (take_unqueued _ _ Hrt HT) as Hq;
         destruct (CT _ _ _ _ _ _ HE Hr Hin Hw HJ Hq) as [HJ' HC]).
  - split_and!; [done| |done]. apply rank_le; [done|]. left. unfold rank. cbn.
    rewrite size_difference by set_solver. rewrite size_singleton.
    assert (size fl <> 0%nat); [|lia]. intros ?%size_empty_inv%leibniz_equiv. set_solver.
  - destruct (CE _ _ _ _ _ HE Hin Hw HJ) as (m0 & [= <-] & HJ' & Hlt). split_and!; [done|by left|by intros []].
  - destruct (CE _ _ _ _ _ HE Hin Hw HJ) as (m0 & -> & _). by destruct (HN m0).
  - split_and!; [done| |by intros []]. destruct HC as [Hlt|(Hle & Hch & Hq')]; [by left|]. apply rank_le; [done|].
    unfold rank. cbn. rewrite Hch, union_empty_r_L. right. unfold queued in Hq'. unfold try_recv in HT.
    destruct (chan_buf (rt_ch r')); [|by destruct Hq']. destruct (chan_buf (rt_ch r)); [done|]. simpl. lia.
  - split_and!; [done|by left|by intros []].
  - done.
  - destruct res as [v| |]; [by destruct (HN v)|done..].
  - split_and!; [done| |by intros []]. left. apply CW.
Qed.

(** The controller comes to rest: it cannot go on forever by itself. *)
Lemma own_terminates J pot s : calm J pot -> sys_ok s -> J (s_world s) -> Acc (fun s2 s1 => own ctrl s1 s2) s.
Proof.
  intros HC. remember (rank pot s) as k eqn:Ek. revert s Ek.
  induction (rank_wf k) as [k _ IH]. intros s -> Hok HJ. constructor. intros s' HS.
  destruct (own_calm J pot s s' HC Hok HJ HS) as (HJ' & Hlt & _).
  apply (IH (rank pot s')); [done|done|by eapply sys_ok_own|done].
Qed.

Lemma comes_to_rest J pot s :
  calm J pot -> sys_ok s -> J (s_world s) ->
  exists s', rtc (own ctrl) s s' /\ sys_ok s' /\ idle s' /\ (over (s_place s') -> over (s_place s)).
Proof.
  intros HC Hok HJ. pose proof (own_terminates J pot s HC Hok HJ) as HA. revert Hok HJ. induction HA as [s _ IH]. intros Hok HJ.
  destruct (own_progress s Hok) as [Hi|[s1 HS]]; [by exists s|].
  destruct (own_calm J pot s s1 HC Hok HJ HS) as (HJ' & _ & Ho1).
  destruct (IH s1 HS) as (s' & HR & ? & ? & Ho); [by eapply sys_ok_own|done|]. exists s'. split_and!; [by eapply rtc_l|done..|]. auto.
Qed.

Lemma idle_rest s m : idle s -> s_place s = Selecting m -> at_rest s m.
Proof.
  intros [Hf [(m' & HP & Hq)|[HP|[HP|HP]]]] HE; rewrite HE in HP; try done. split_and!; [done..|]. rewrite Hf. set_solver.
Qed.

End laws.

(** ** A loop of one part *)

Lemma outside_ok {W A} (m : M W A) r w r' w' x : outside m (r, w) = ((r', w'), x) -> r' = r /\ m w = (w', x).
Proof. unfold outside. destruct (m w). by intros [= -> -> ->]. Qed.

(** A turn of calls to others than the runtime, and whether it resets the
    backoff. *)
Definition part {W Mode} (f : M W (verdict Mode * bool)) : M (runtime * W) (verdict Mode) :=
  x ← outside f;
  _ ← (if snd x : bool then ResetRestartBackoff else mret tt);
  mret (fst x).

(** Most turns are a call, and then the next [select]. *)
Definition again {W Mode} (m : M W unit) (next : Mode) : M W (verdict Mode * bool) := _ ← m; mret (Loop next, true).

Lemma part_spec {W Mode} (f : M W (verdict Mode * bool)) r w r' w' x :
  part f (r, w) = ((r', w'), x) ->
  keeps r r' /\ rt_inputs r' = rt_inputs r /\ rt_ch r' = rt_ch r /\
  match x with Ok v => exists b, f w = (w', Ok (v, b)) | Err e => f w = (w', Err e) | Panic p => f w = (w', Panic p) end.
Proof.
  intros H. split; [revert H; apply (keeps_bind (outside f)); [apply keeps_outside|intros [v []]; keeping]|].
  unfold part, mbind, M_bind, outside in H. destruct (f w) as [w1 [[v []]|e|p]]; injection H as <- <- <-; eauto.
Qed.

Lemma again_ok {W Mode} (m : M W unit) (next : Mode) w w' v b :
  again m next w = (w', Ok (v, b)) -> v = Loop next /\ m w = (w', Ok tt).
Proof. unfold again. intros (w1 & [] & HM & HE)%M_bind_ok. by injection HE as <- <- <-. Qed.

Lemma again_world {W Mode} (m : M W unit) (next : Mode) w w' x :
  again m next w = (w', x) -> exists y, m w = (w', y).
Proof. unfold again, mbind, M_bind. destruct (m w) as [w1 [[]|e|p]]; intros [= <- _]; eauto. Qed.

(** The select takes one set of inputs. *)
Definition only (inputs : gset string) : unit -> gset string := fun _ => inputs.

Section plain.
Context {W : Type} `{!Watched W} (setup : M W unit) (f : M W (verdict unit * bool)) (disturb : W -> W -> Prop)
  (inputs : gset string) (I : W -> Prop).

Definition plain_loop : loop W unit := mkLoop (outside setup) (fun _ => part f).

Lemma plain_laws :
  inputs ⊆ kinds -> (forall w w', disturb w w' -> I w -> I w') ->
  (forall w w' x, setup w = (w', x) -> I w -> I w') -> (forall w w' x, f w = (w', x) -> I w -> I w') ->
  LoopLaws plain_loop disturb (only inputs) (eq inputs) I.
Proof.
  intros Hk Hd Hs Hb. split; [| |done|done].
  - intros r w r' w' x [-> HE]%outside_ok Hin Hw. split_and!; [done..|by eapply Hs|done].
  - intros m r w r' w' x HE Hr Hin Hw. destruct (part_spec _ _ _ _ _ _ HE) as (HK & Hi & _ & HX).
    split_and!; [done|by rewrite Hi|destruct x as [v|e|p]; [destruct HX as [b HX]| |]; by eapply Hb|].
    intros m' ->. destruct m, m'. by rewrite Hi.
Qed.

Context {HL : LoopLaws plain_loop disturb (only inputs) (eq inputs) I}.

(** At rest, such a controller has made a turn on its inputs as they are. *)
Lemma plain_rest w s :
  I w -> reachable plain_loop disturb inputs w s -> at_rest (only inputs) s tt ->
  exists w0 w1 b, I w0 /\ f w0 = (w1, Ok (Loop tt, b)) /\
    (forall k, k ∈ inputs -> same k w0 w1 /\ same k w1 (s_world s)) /\ rtc disturb w1 (s_world s).
Proof.
  intros Hw HR Hrest. assert (sys_ok plain_loop disturb (only inputs) (eq inputs) I s) as Hok by (by eapply sys_reachable_ok).
  assert (settled plain_loop disturb (only inputs) I tt (s_world s)) as (r0 & w0 & r1 & w1 & HI & _ & HT & Hk & HRr)
    by (by eapply rest_settled).
  destruct (part_spec _ _ _ _ _ _ HT) as (_ & _ & _ & b & HB). by exists w0, w1, b.
Qed.

(** Once it is finished, it has made the turn that finishes it. *)
Lemma plain_finished w s :
  I w -> reachable plain_loop disturb inputs w s -> s_place s = Finished ->
  exists w0 w1 b, I w0 /\ f w0 = (w1, Ok (Finish, b)) /\ rtc disturb w1 (s_world s).
Proof.
  intros Hw HR HP. assert (sys_ok plain_loop disturb (only inputs) (eq inputs) I s) as Hok by (by eapply sys_reachable_ok).
  destruct Hok as [_ _ _ Hp]. unfold place_ok in Hp. rewrite HP in Hp. destruct Hp as (m & r0 & w0 & r1 & w1 & HI & _ & HT & HRr).
  destruct (part_spec _ _ _ _ _ _ HT) as (_ & _ & _ & b & HB). by exists w0, w1, b.
Qed.

(** When no call fails, and a turn that writes something comes closer to a
    goal, the controller comes to rest. *)
Definition place_rank (p : place unit) : nat :=
  match p with Sleeping _ => 3 | Entering => 2 | Selecting _ => 1 | _ => 0 end.

(** What makes a controller come to rest: in the worlds [J], which calls do not
    leave, no call fails, and a turn that writes something gets closer to a
    goal. *)
Definition setup_calm (J : W -> Prop) (goal : W -> nat) : Prop := forall w w' x,
  setup w = (w', x) -> I w -> J w -> x = Ok tt /\ J w' /\ (goal w' <= goal w)%nat.

Definition turn_calm (J : W -> Prop) (goal : W -> nat) : Prop := forall w w' x,
  f w = (w', x) -> I w -> J w ->
  exists v b, x = Ok (v, b) /\ v <> Hang /\ J w' /\
    ((goal w' < goal w)%nat \/ (goal w' <= goal w)%nat /\ (v = Finish \/ changes w w' = ∅)).

Lemma plain_calm J goal :
  setup_calm J goal -> turn_calm J goal ->
  calm plain_loop (only inputs) (eq inputs) I J (fun p w => goal w + place_rank p)%nat.
Proof.
  intros Hs Hf. split.
  - intros r w r' w' x [_ HE]%outside_ok _ Hw HJ. destruct (Hs _ _ _ HE Hw HJ) as (-> & ? & ?). exists tt. split_and!; [done..|]. simpl. lia.
  - intros [] r w r' w' x HE _ _ Hw HJ Hq. destruct (part_spec _ _ _ _ _ _ HE) as (_ & _ & Hch & HX).
    destruct x as [v|e|p]; [destruct HX as [b HX]| |]; destruct (Hf _ _ _ HX Hw HJ) as (v' & b' & HE' & Hh & HJ' & HC); [|done..].
    injection HE' as <- <-. split; [done|]. destruct v as [[]| |]; [|simpl; lia|done].
    destruct HC as [?|[? [?|?]]]; [left; simpl; lia|done|].
    right. split_and!; [simpl; lia|done|]. unfold queued in *. by rewrite Hch.
  - intros d w. simpl. lia.
Qed.

Lemma plain_settles J goal w s :
  setup_calm J goal -> turn_calm J goal ->
  I w -> reachable plain_loop disturb inputs w s -> J (s_world s) ->
  Acc (fun s2 s1 => own plain_loop s1 s2) s /\
  exists s', rtc (own plain_loop) s s' /\ idle s' /\ (over (s_place s') -> over (s_place s)) /\
    reachable plain_loop disturb inputs w s'.
Proof.
  intros Hs Hf Hw HR HJ. assert (sys_ok plain_loop disturb (only inputs) (eq inputs) I s) as Hok by (by eapply sys_reachable_ok).
  pose proof (plain_calm J goal Hs Hf) as HC. split; [by eapply own_terminates|].
  destruct (comes_to_rest _ _ _ _ _ _ _ s HC Hok HJ) as (s' & HO & _ & Hi & Ho). exists s'. split_and!; [done..|].
  unfold reachable. etrans; [exact HR|]. eapply rtc_subrel; [|exact HO]. intros s1 s2. apply s_own.
Qed.

End plain.

(** What a controller keeps for itself is no resource. *)
#[export] Instance same_own_equiv {C W} `{!Watched W} k : Equivalence (fun a b : C * W => same k (snd a) (snd b)).
Proof. split; [by intros a|by intros a b ?|]. intros a b c ? ?. by etrans. Qed.

#[export] Instance watched_own {C W} `{!Watched W} : Watched (C * W) := {|
  kinds := kinds;
  same k a b := same k (snd a) (snd b);
  same_dec k a b := same_dec k (snd a) (snd b);
  same_equiv k := same_own_equiv k
|}.

(** Others do not touch it either. *)
Definition others_only {C W} (disturb : W -> W -> Prop) (a b : C * W) : Prop := fst b = fst a /\ disturb (snd a) (snd b).

Lemma rtc_others_only {C W} (disturb : W -> W -> Prop) (a b : C * W) :
  rtc (others_only disturb) a b -> fst b = fst a /\ rtc disturb (snd a) (snd b).
Proof. induction 1 as [a|a b c [HE HD] _ [HE' HD']]; [done|]. split; [congruence|by eapply rtc_l]. Qed.

(** ** A schedule *)

Section schedule.
Context {W Mode : Type} `{!Watched W} (ctrl : loop W Mode).

(** A step of the controller or of the runtime when nothing fails, if one is
    left: a [select] takes an event that is queued before others are
    delivered. *)
Definition next (s : system W Mode) : option (system W Mode) :=
  let deliver := match elements (s_flight s) with
                 | k :: _ => Some (mkSystem (WatchTrigger k (s_rt s)) (s_world s) (s_place s) (s_flight s ∖ {[k]}))
                 | [] => None
                 end in
  match s_place s with
  | Entering =>
    match enter ctrl (s_rt s, s_world s) with
    | ((r', w'), Ok m) => Some (mkSystem r' w' (Selecting m) (s_flight s ∪ changes (s_world s) w'))
    | _ => None
    end
  | Selecting m =>
    match try_recv (rt_ch (s_rt s)) with
    | Some (_, c) =>
      match turn ctrl m (mkRuntime (rt_inputs (s_rt s)) c (rt_interval (s_rt s)), s_world s) with
      | ((r', w'), Ok (Loop m')) => Some (mkSystem r' w' (Selecting m') (s_flight s ∪ changes (s_world s) w'))
      | ((r', w'), Ok Finish) => Some (mkSystem r' w' Finished (s_flight s ∪ changes (s_world s) w'))
      | _ => None
      end
    | None => deliver
    end
  | _ => deliver
  end.

Fixpoint run_for (n : nat) (s : system W Mode) : system W Mode :=
  match n with
  | O => s
  | S n => match next s with Some s' => run_for n s' | None => s end
  end.

Lemma next_own s s' : next s = Some s' -> own ctrl s s'.
Proof.
  assert (forall r w p fl, match elements fl with
            | k :: _ => Some (mkSystem (WatchTrigger k r) w p (fl ∖ {[k]}))
            | [] => None
            end = Some s' -> own ctrl (mkSystem r w p fl) s') as Hdel.
  { intros r w p fl. destruct (elements fl) as [|k l] eqn:E; [done|]. intros [= <-]. apply s_deliver.
    apply elem_of_elements. rewrite E. left. }
  destruct s as [r w p fl]. unfold next. cbn [s_rt s_world s_place s_flight]. destruct p as [|m|d| | |]; try apply Hdel.
  - destruct (enter ctrl (r, w)) as [[r' w'] [m|e|q]] eqn:E; intros [= <-]. by apply s_enter.
  - destruct (try_recv (rt_ch r)) as [[[] c]|] eqn:ET; [|apply Hdel].
    destruct (turn ctrl m _) as [[r' w'] [[m'| |]|e|q]] eqn:E; intros [= <-]; [by eapply s_turn|by eapply s_turn_finish].
Qed.

Lemma run_for_own n s : rtc (own ctrl) s (run_for n s).
Proof.
  revert s. induction n as [|n IH]; intros s; [done|]. cbn. destruct (next s) as [s'|] eqn:E; [|done].
  eapply rtc_l; [by apply next_own|apply IH].
Qed.

Lemma run_for_steps disturb n s s' : run_for n s = s' -> rtc (lstep ctrl disturb) s s'.
Proof. intros <-. eapply rtc_subrel; [|apply run_for_own]. intros s1 s2. apply s_own. Qed.

(** What others do between. *)
Definition disturbed (s : system W Mode) (w' : W) : system W Mode :=
  mkSystem (s_rt s) w' (s_place s) (s_flight s ∪ changes (s_world s) w').

Lemma disturbed_step (disturb : W -> W -> Prop) s w' : disturb (s_world s) w' -> lstep ctrl disturb s (disturbed s w').
Proof. destruct s as [r w p fl]. apply s_disturb. Qed.

End schedule.
