(* ===== verification/ControllerRuns.v ===== *)
(** * The controllers at work

    The [Run] of each controller of [pkg/controllers] as a [loop] of
    [ControllerLoop], and what that makes of their turns: a controller that has
    come to rest has dealt with its inputs as they are.  The connections to
    netlink and ethtool, which are dialed at the beginning and closed at the
    end, are calls that may fail. *)

From stdpp Require Import relations.
From S2P Require Import Prelude NetAddr AddressSpec RouteSpec Resources LinkStatus DHCP4.
From S2P Require Import Network ServiceController RuntimeControllers Registration ControllerLoop.

(** ** The Run of each controller *)

(** *** network.AddressSpecController and network.RouteSpecController *)

Definition AddressSpec_Run {W} `{!SpecStore W AddressSpecSpec, !AddressNetlink W} (rtnetlink_Dial : M W unit) : loop W unit :=
  plain_loop (wrap_err "error dialing rtnetlink socket: " rtnetlink_Dial) (again reconcile tt).

Definition RouteSpec_Run {W} `{!SpecStore W RouteSpecSpec, !RouteNetlink W} (show_message : RouteMessage -> string)
    (rtnetlink_Dial : M W unit) : loop W unit :=
  plain_loop (wrap_err "error dialing rtnetlink socket: " rtnetlink_Dial) (again (route_reconcile show_message) tt).

(** *** network.DHCP4Controller *)

(** The controller's state is kept when it is run again.  A pass that waits for
    a client that does not end hangs. *)
Definition DHCP4_turn {W} (LinkStatus_ReaderList : M W (list (string * LinkStatusSpec))) (ends : W -> string -> bool)
    (range : gset string -> list string) : M (DHCP4.DHCP4Controller * W) (verdict unit * bool) := fun '(ctrl, w) =>
  match LinkStatus_ReaderList w with
  | (w, Ok l) =>
    let (ctrl, returned) := dhcp_reconcile (ends w) range l ctrl in
    ((ctrl, w), Ok (if returned : bool then Loop tt else Hang, returned))
  | (w, Err e) => ((ctrl, w), Err e)
  | (w, Panic p) => ((ctrl, w), Panic p)
  end.

Definition DHCP4_Run {W} (LinkStatus_ReaderList : M W (list (string * LinkStatusSpec))) (ends : W -> string -> bool)
    (range : gset string -> list string) : loop (DHCP4.DHCP4Controller * W) unit :=
  plain_loop (mret tt) (DHCP4_turn LinkStatus_ReaderList ends range).

(** *** network.LinkStatusController *)

(** It first waits for the devices ([WaitForDevicesReady]), with the status of
    the devices as its input, and then serves without any input. *)
Inductive link_part := WaitingForDevices | Serving (ethClient : bool).

#[export] Instance link_part_eq_dec : EqDecision link_part.
Proof. solve_decision. Defined.

Definition LinkStatus_inputs (m : link_part) : gset string :=
  match m with WaitingForDevices => {[DevicesStatusType]} | Serving _ => ∅ end.

(** [ReaderGetByID] of the status of the devices: [None] is not found.  An error
    of the ethtool socket is only logged. *)
Definition LinkStatus_Run {W} `{!LinkNetlink W, !SpecWriter W LinkStatusSpec} (watch : gset string -> M W unit)
    (DevicesStatus_Get : M W (option bool)) (rtnetlink_Dial ethtool_New : M W unit) : loop W link_part := mkLoop
  (_ ← UpdateInputs (watch (LinkStatus_inputs WaitingForDevices)) (LinkStatus_inputs WaitingForDevices);
   mret WaitingForDevices)
  (fun m =>
    match m with
    | WaitingForDevices =>
      status ← outside DevicesStatus_Get;
      match status with
      | Some true =>
        _ ← UpdateInputs (watch ∅) ∅;
        _ ← QueueReconcile;
        _ ← outside (wrap_err "error dialing rtnetlink socket: " rtnetlink_Dial);
        eth ← outside (attempt ethtool_New);
        mret (Loop (Serving (match eth with inl _ => true | inr _ => false end)))
      | _ => mret (Loop WaitingForDevices)
      end
    | Serving ethClient => part (again (link_reconcile ethClient) (Serving ethClient))
    end).

(** *** runtime.UdevServiceController, ApidServiceController and DeviceStatusController *)

(** The services subsystem as [ensureStarted] uses it, and the resources the
    three controllers read and write. *)
Class BootWorld (W : Type) := {
  consult : string -> W -> W * answers;
  Service_Get : W -> W * read ServiceSpec;
  DevicesStatus_Get : W -> W * read bool;
  DevicesStatus_Ready : W -> W * option error
}.

Definition verdict_of (t : RuntimeControllers.turn) : result (verdict unit) :=
  match t with
  | Continue => Ok (Loop tt)
  | Return (Ok _) => Ok Finish
  | Return (Err e) => Err e
  | Return (Panic p) => Panic p
  end.

Definition with_reset (b : bool) (r : result (verdict unit)) : result (verdict unit * bool) :=
  match r with Ok v => Ok (v, b) | Err e => Err e | Panic p => Panic p end.

Section boot.
Context {W : Type} `{!BootWorld W}.

(** A controller that has started its service asks nothing. *)
Definition unasked : answers := mkAnswers (inl false) None None.

(** The flag [started] is kept when the controller is run again. *)
Definition udev_turn : M (ServiceStarter * W) (verdict unit * bool) := fun '(ctrl, w) =>
  let (w, ans) := if started ctrl then (w, unasked) else consult "udevd" w in
  let (ctrl, t) := udev_iteration ans ctrl in
  ((ctrl, w), with_reset true (verdict_of t)).

(** The backoff is not reset by a turn that finds the devices not ready. *)
Definition apid_turn : M (ServiceStarter * W) (verdict unit * bool) := fun '(ctrl, w) =>
  let (w, status) := DevicesStatus_Get w in
  let (w, ans) := match status with
                  | inl (Some true) => if started ctrl then (w, unasked) else consult "apid" w
                  | _ => (w, unasked)
                  end in
  let (ctrl, t) := apid_iteration status ans ctrl in
  ((ctrl, w), with_reset (match status with inl (Some true) => true | _ => false end) (verdict_of t)).

Definition device_turn : M W (verdict unit * bool) := fun w =>
  let (w, service) := Service_Get w in
  let (w, write) := match service with
                    | inl (Some s) => if Running s && svc_Healthy s then DevicesStatus_Ready w else (w, None)
                    | _ => (w, None)
                    end in
  (w, with_reset false (verdict_of (snd (device_iteration service write)))).

Definition Udev_Run : loop (ServiceStarter * W) unit := plain_loop (mret tt) udev_turn.
Definition Apid_Run : loop (ServiceStarter * W) unit := plain_loop (mret tt) apid_turn.
Definition DeviceStatus_Run : loop W unit := plain_loop (mret tt) device_turn.

End boot.

(** ** Addresses *)

(** What the event of an address spec is about. *)
Class AddressKind (W : Type) `{!Watched W, !SpecWriter W AddressSpecSpec, !AddressPhases W} : Prop := {
  address_kind : AddressSpecType ∈ kinds;
  address_same w w' : same AddressSpecType w w' ->
    forall id, spec_of AddressSpecSpec w id = spec_of AddressSpecSpec w' id /\ phase_of w id = phase_of w' id
}.

Section address.
Context {W : Type} `{!SpecStore W AddressSpecSpec} `{!AddressNetlink W}.

(** A new address is refused when its key is taken. *)
Class KernelExcl : Prop := {
  law_new_excl m w w' : Address_New m w = (w', Ok tt) -> forall a, a ∈ addrs w -> key a <> key m
}.

Context `{!Watched W} `{!SpecWriter W AddressSpecSpec} `{!AddressPhases W}
  `{!AddressLaws W} `{!AddressStore W} `{!AddressKind W} `{!KernelExcl}.

(** The links are left alone, and keys stay unique. *)
Definition kernel_kept (w w' : W) : Prop := links w' = links w /\ (table_ok (addrs w) -> table_ok (addrs w')).

#[local] Instance kernel_kept_preorder : PreOrder kernel_kept.
Proof. split; [done|]. intros w1 w2 w3 [L1 T1] [L2 T2]. split; [congruence|auto]. Qed.

Lemma kept_same w w' : links w' = links w -> addrs w' = addrs w -> kernel_kept w w'.
Proof. intros L A. split; [done|by rewrite A]. Qed.

Lemma kept_delete e : leaves kernel_kept (delete_address e).
Proof.
  apply leaves_wrap. intros w w' r0 HD. apply law_delete in HD as [L HD]. split; [done|]. intros [H1 H2].
  destruct r0 as [[]| |]; [|by rewrite HD..]. destruct HD as (D1 & D2 & D3). split; [by apply D3|].
  intros a Ha. destruct (decide (network a = network e)) as [En|En]; [|by apply H2, D1].
  destruct (D2 a Ha En) as (_ & b & Hb & Hk). injection Hk as <- _ _. by apply H2.
Qed.

Lemma kept_new m : am_Index m <> 0 -> leaves kernel_kept (Address_New m).
Proof.
  intros Hi w w' r E. pose proof (law_new _ _ _ _ E) as [L HN]. destruct r as [[]|e|p]; [|by apply kept_same, HN..].
  split; [done|]. intros [H1 H2]. destruct HN as (a & Hk & _ & _ & HN). pose proof (law_new_excl _ _ _ E) as HX. split.
  - intros x y [Hx| ->]%HN [Hy| ->]%HN Hxy; [by apply H1|..|done]; rewrite Hk in Hxy; [by destruct (HX x Hx)|by destruct (HX y Hy)].
  - intros x [Hx| ->]%HN; [by apply H2|]. unfold key in Hk. by injection Hk as -> _ _.
Qed.

Lemma kept_remove id : leaves kernel_kept (RemoveFinalizer AddressSpecSpec id AddressSpec.Name).
Proof. intros w w' r (L & A & _)%law_remove_finalizer. by apply kept_same. Qed.

#[local] Hint Resolve kept_delete kept_new kept_remove : leaves.

Lemma kept_add idx spec : idx <> 0 -> leaves kernel_kept (add_address idx spec).
Proof.
  intros Hi. unfold add_address. apply (leaves_bind _); [by auto with leaves|]. intros [[]|e]; [auto with leaves|].
  destruct (errors_Is e os_ErrExist); [auto with leaves|by intros w w' r [= <- _]].
Qed.

Lemma kept_sync ls snap x : leaves kernel_kept (syncAddress ls snap x).
Proof.
  unfold syncAddress. destruct (res_Phase x).
  - destruct (Z.eqb_spec (resolveLinkName ls (as_LinkName (TypedSpec x))) 0) as [|Hi]; [auto with leaves|].
    destruct (findAddress _ _ _) as [e|]; [destruct (up_to_date _ e)|]; auto using kept_add with leaves.
  - destruct (_ =? 0); [|auto with leaves]. destruct (findAddress _ _ _); auto with leaves.
Qed.

Lemma kept_reconcile : leaves kernel_kept reconcile.
Proof.
  intros w w' r [(L & A & _)|(wl & l & w1 & _ & L & A & HS)]%reconcile_split; [by apply kept_same|].
  etrans; [by apply (kept_same w w1)|]. by eapply (leaves_for_range _ _ _ (kept_sync _ _)).
Qed.

(** What is in effect after a turn, by the contents of the store. *)
Lemma reconcile_in_effect w w1 id spec :
  reconcile w = (w1, Ok tt) -> table_ok (addrs w) ->
  (forall id spec, spec_of AddressSpecSpec w id = Some spec -> spec_ok spec) ->
  networks_apart (links w) (live_spec w) ->
  live_spec w id spec -> resolveLinkName (links w) (as_LinkName spec) <> 0 ->
  links w1 = links w /\ in_effect (links w1) (addrs w1) spec.
Proof.
  intros HR Ht Hok HU [HS HP] Hl. apply reconcile_split in HR as [(_ & _ & ?)|(wl & l & w2 & HL & L2 & A2 & HR)]; [done|].
  destruct (sync_loop (links w) (addrs w) l w2 w1) as (L & _ & _ & HE); [| |done| |exact HR|].
  - apply Forall_forall. intros r Hr. apply (proj2 (store_list _ _ _ HL)) in Hr as [Hr _]. by eapply Hok.
  - by apply (NoDup_live_networks _ _ _ HL).
  - intros a _. by rewrite A2.
  - rewrite L, L2. split; [done|]. apply (HE (mkResource id PhaseRunning spec)); [|done|done]. by apply (store_list _ _ _ HL).
Qed.

Context (rtnetlink_Dial : M W unit) (disturb : W -> W -> Prop).
Context (others : forall w w', disturb w w' -> links w' = links w /\ addrs w' = addrs w)
  (dial : forall w w' r, rtnetlink_Dial w = (w', r) -> addrs w' = addrs w).

Lemma address_laws :
  LoopLaws (AddressSpec_Run rtnetlink_Dial) disturb (only {[AddressSpecType]}) (eq {[AddressSpecType]})
    (fun w => table_ok (addrs w)).
Proof.
  apply plain_laws.
  - intros k ->%elem_of_singleton. apply address_kind.
  - intros w w' [_ ->]%others. done.
  - intros w w' x (r & HD & _)%wrap_err_ok. by rewrite (dial _ _ _ HD).
  - intros w w' x [y HR]%again_world. by apply kept_reconcile in HR as [_ HR].
Qed.

Lemma rtc_others w w' : rtc disturb w w' -> links w' = links w /\ addrs w' = addrs w.
Proof. induction 1 as [|w1 w2 w3 [L A]%others _ [L' A']]; [done|]. split; congruence. Qed.

(** Every live spec whose link exists is in effect, if the specs are as the DHCP
    controller writes them and no two live ones are of the same network of a
    link. *)
Definition all_in_effect (w : W) : Prop :=
  (forall id spec, spec_of AddressSpecSpec w id = Some spec -> spec_ok spec) ->
  networks_apart (links w) (live_spec w) ->
  forall id spec, live_spec w id spec -> resolveLinkName (links w) (as_LinkName spec) <> 0 ->
    in_effect (links w) (addrs w) spec.

Lemma rest_in_effect w0 s :
  reachable (AddressSpec_Run rtnetlink_Dial) disturb {[AddressSpecType]} w0 s -> table_ok (addrs w0) ->
  at_rest (only {[AddressSpecType]}) s tt -> all_in_effect (s_world s).
Proof.
  intros HR Ht Hrest. set (w := s_world s). intros Hok HU id spec Hl Hlink. pose proof address_laws as HL.
  destruct (plain_rest _ _ _ _ _ w0 s Ht HR Hrest) as (wa & w1 & b & Hta & [_ HB]%again_ok & Hsame & HD).
  destruct (Hsame AddressSpecType) as [S1 S2]; [by apply elem_of_singleton|]. fold w in S2, HD.
  assert (forall id, spec_of AddressSpecSpec wa id = spec_of AddressSpecSpec w id /\ phase_of wa id = phase_of w id) as HE.
  { intros i. destruct (address_same _ _ S1 i), (address_same _ _ S2 i). split; congruence. }
  assert (forall id spec, live_spec wa id spec <-> live_spec w id spec) as HV.
  { intros i sp. unfold live_spec. destruct (HE i) as [-> ->]. done. }
  destruct (rtc_others _ _ HD) as [L A]. rewrite L in Hlink, HU. rewrite L, A.
  pose proof (kept_reconcile _ _ _ HB) as [L1 _].
  destruct (reconcile_in_effect wa w1 id spec HB Hta) as [_ HX]; [| | | |exact HX].
  - intros i sp. destruct (HE i) as [-> _]. apply Hok.
  - intros i i' sp sp' H1 H2. rewrite <-L1. apply HU; by apply HV.
  - by apply HV.
  - by rewrite <-L1.
Qed.

(** *** Coming to rest *)

(** What a turn still has to write of a spec: the finalizer of a live one is to
    be added, that of a torn down one to be removed. *)
Definition unheld (w : W) (r : resource AddressSpecSpec) : Prop :=
  match res_Phase r with
  | PhaseRunning => AddressSpec.Name ∉ finalizers AddressSpecSpec w (res_ID r)
  | PhaseTearingDown => AddressSpec.Name ∈ finalizers AddressSpecSpec w (res_ID r)
  end.

#[export] Instance unheld_dec w r : Decision (unheld w r).
Proof. unfold unheld. destruct (res_Phase r); apply _. Defined.

(** The resources of two worlds are the same. *)
Definition unchanged (w w' : W) : Prop := forall k, k ∈ kinds -> same k w w'.

(** The store: what is listed changes only by writes of specs; a finalizer
    concerns one resource, and adding it again or removing it again writes
    nothing; the kernel is no resource. *)
Class AddressEvents (specs : W -> list (resource AddressSpecSpec)) : Prop := {
  ev_list w w' r : ReaderList AddressSpecSpec w = (w', r) ->
    unchanged w w' /\ specs w' = specs w /\ finalizers AddressSpecSpec w' = finalizers AddressSpecSpec w /\
    (forall l, r = Ok l -> l = specs w);
  ev_add id w w' r : AddFinalizer AddressSpecSpec id AddressSpec.Name w = (w', r) ->
    specs w' = specs w /\ (AddressSpec.Name ∈ finalizers AddressSpecSpec w id -> unchanged w w') /\
    (forall id', id' <> id -> finalizers AddressSpecSpec w' id' = finalizers AddressSpecSpec w id') /\
    (r = Ok tt -> AddressSpec.Name ∈ finalizers AddressSpecSpec w' id);
  ev_remove id w w' r : RemoveFinalizer AddressSpecSpec id AddressSpec.Name w = (w', r) ->
    specs w' = specs w /\ (AddressSpec.Name ∉ finalizers AddressSpecSpec w id -> unchanged w w') /\
    (forall id', id' <> id -> finalizers AddressSpecSpec w' id' = finalizers AddressSpecSpec w id') /\
    (r = Ok tt -> AddressSpec.Name ∉ finalizers AddressSpecSpec w' id);
  ev_kernel w w' : (exists r, Link_List w = (w', r)) \/ (exists r, Address_List w = (w', r)) \/
      (exists m r, Address_New m w = (w', r)) \/ (exists m r, Address_Delete m w = (w', r)) ->
    unchanged w w' /\ specs w' = specs w /\ finalizers AddressSpecSpec w' = finalizers AddressSpecSpec w;
  ev_ids w : NoDup (res_ID <$> specs w)
}.

Context (specs : W -> list (resource AddressSpecSpec)) `{!AddressEvents specs}.

(** From [w] to [w'] nothing was left to write that was not before, and if
    nothing was, nothing was written. *)
Definition quiet (w w' : W) : Prop :=
  specs w' = specs w /\ (forall r, r ∈ specs w -> ~ unheld w r -> ~ unheld w' r) /\
  ((forall r, r ∈ specs w -> ~ unheld w r) -> unchanged w w').

#[local] Instance quiet_preorder : PreOrder quiet.
Proof.
  split; [intros w; split_and!; [done..|]; by intros _ k _|].
  intros w1 w2 w3 (S1 & H1 & C1) (S2 & H2 & C2). rewrite S1 in H2, C2.
  split_and!; [congruence|auto|]. intros Hall k Hk. etrans; [by apply C1|]. apply C2; auto.
Qed.

Lemma quiet_kernel w w' :
  unchanged w w' -> specs w' = specs w -> finalizers AddressSpecSpec w' = finalizers AddressSpecSpec w -> quiet w w'.
Proof. intros HU HS HF. split_and!; [done| |done]. intros r _. unfold unheld. by rewrite HF. Qed.

(** A finalizer that is written for the resource [x] of the store. *)
Lemma quiet_finalizer x w w' :
  x ∈ specs w -> specs w' = specs w -> (~ unheld w x -> unchanged w w') ->
  (forall id, id <> res_ID x -> finalizers AddressSpecSpec w' id = finalizers AddressSpecSpec w id) ->
  ~ unheld w' x -> quiet w w'.
Proof.
  intros Hx HS HU HF Hn. split_and!; [done| |auto]. intros r Hr Hur. destruct (decide (res_ID r = res_ID x)) as [He|He].
  - apply list_elem_of_lookup in Hr as [i Hi], Hx as [j Hj].
    assert (i = j) as ->; [|congruence]. apply (NoDup_lookup _ i j (res_ID x) (ev_ids w)); rewrite list_lookup_fmap.
    + by rewrite Hi, <-He.
    + by rewrite Hj.
  - unfold unheld in *. by rewrite HF.
Qed.

Lemma quiet_hold x w w' : x ∈ specs w -> hold x w = (w', Ok tt) -> quiet w w' /\ (res_Phase x = PhaseRunning -> ~ unheld w' x).
Proof.
  intros Hx. unfold hold. destruct (res_Phase x) eqn:HP; [|intros [= <-]; by split].
  intros (r0 & HA & HO)%wrap_err_ok. rewrite (HO tt eq_refl) in HA. apply ev_add in HA as (HS & HU & HF & HN). specialize (HN eq_refl).
  assert (~ unheld w' x) by (unfold unheld; rewrite HP; tauto). split; [|done].
  apply (quiet_finalizer x); try done. unfold unheld. rewrite HP. intros Hd. apply HU. by apply dec_stable.
Qed.

Lemma quiet_remove x w w' :
  x ∈ specs w -> res_Phase x = PhaseTearingDown ->
  wrap_err "error removing finalizer: " (RemoveFinalizer AddressSpecSpec (res_ID x) AddressSpec.Name) w = (w', Ok tt) ->
  quiet w w' /\ ~ unheld w' x.
Proof.
  intros Hx HP (r0 & HA & HO)%wrap_err_ok. rewrite (HO tt eq_refl) in HA. apply ev_remove in HA as (HS & HU & HF & HN).
  specialize (HN eq_refl). assert (~ unheld w' x) by (unfold unheld; by rewrite HP). split; [|done].
  apply (quiet_finalizer x); try done. unfold unheld. by rewrite HP.
Qed.

Lemma quiet_delete e w w' : delete_address e w = (w', Ok tt) -> quiet w w'.
Proof. intros (r0 & HD & _)%wrap_err_ok. destruct (ev_kernel w w') as (? & ? & ?); [eauto 10|by apply quiet_kernel]. Qed.

Lemma quiet_add idx spec w w' : add_address idx spec w = (w', Ok tt) -> quiet w w'.
Proof.
  unfold add_address, mbind, M_bind, attempt. destruct (Address_New _ w) as [w1 [[]|e|p]] eqn:E; [intros [= <-]| |done].
  - destruct (ev_kernel w w1) as (? & ? & ?); [eauto 10|]. by apply quiet_kernel.
  - destruct (errors_Is e os_ErrExist); [intros [= <-]|done]. destruct (ev_kernel w w1) as (? & ? & ?); [eauto 10|]. by apply quiet_kernel.
Qed.

Lemma quiet_sync ls snap x w w' :
  x ∈ specs w -> syncAddress ls snap x w = (w', Ok tt) -> quiet w w' /\ (res_Phase x = PhaseTearingDown -> ~ unheld w' x).
Proof.
  intros Hx. unfold syncAddress. destruct (res_Phase x) eqn:HP.
  - intros HR. split; [|done]. destruct (_ =? 0); [by injection HR as <-|].
    destruct (findAddress _ _ _) as [e|]; [destruct (up_to_date _ e); [by injection HR as <-|]|by eapply quiet_add].
    apply M_bind_ok in HR as (w1 & [] & HD & HR). etrans; [by eapply quiet_delete|by eapply quiet_add].
  - destruct (_ =? 0); [|intros HR; by apply (quiet_remove x w w' Hx HP) in HR as [? ?]].
    intros (w1 & [] & HD & HR)%M_bind_ok. apply (quiet_remove x w w1 Hx HP) in HD as [Hq Hu].
    assert (quiet w1 w') as Hq' by (destruct (findAddress _ _ _); [by eapply quiet_delete|by injection HR as <-]).
    split; [by etrans|]. intros _. apply Hq'; [|done]. by rewrite (proj1 Hq).
Qed.

(** A loop over the specs whose turns are quiet, and each deal with some of
    them. *)
Lemma quiet_loop (P : resource AddressSpecSpec -> Prop) (f : resource AddressSpecSpec -> M W unit) l w w' :
  (forall x w1 w2, x ∈ specs w1 -> f x w1 = (w2, Ok tt) -> quiet w1 w2 /\ (P x -> ~ unheld w2 x)) ->
  l ⊆ specs w -> for_range f l w = (w', Ok tt) -> quiet w w' /\ (forall x, x ∈ l -> P x -> ~ unheld w' x).
Proof.
  intros Hf. revert w. induction l as [|x l IH]; intros w Hl.
  { intros [= <-]. split; [done|]. by intros x ?%elem_of_nil. }
  intros (w1 & H1 & HR)%for_range_cons_ok. destruct (Hf x w w1) as [Hq Hu]; [apply Hl; left|done|].
  destruct (IH w1) as [Hq' Hu']; [rewrite (proj1 Hq); intros y Hy; apply Hl; by right|done|].
  split; [by etrans|]. intros y [->|Hy]%elem_of_cons; [|by apply Hu']. intros HP. apply Hq'; [|by apply Hu].
  rewrite (proj1 Hq). apply Hl. left.
Qed.

(** A turn writes nothing if nothing is left to write, and leaves nothing. *)
Lemma quiet_reconcile w w' : reconcile w = (w', Ok tt) -> quiet w w' /\ forall x, x ∈ specs w -> ~ unheld w' x.
Proof.
  unfold reconcile. intros (w1 & l & HL & HR)%M_bind_ok. apply wrap_err_ok in HL as (r0 & HL & HO).
  rewrite (HO l eq_refl) in HL. apply ev_list in HL as (U1 & S1 & F1 & ->%(fun H => H l eq_refl)).
  pose proof (quiet_kernel _ _ U1 S1 F1) as Q1. apply M_bind_ok in HR as (w2 & [] & HF & HR).
  apply (quiet_loop (fun x => res_Phase x = PhaseRunning)) in HF as [Q2 H2]; [|by intros; apply quiet_hold|by rewrite S1].
  apply M_bind_ok in HR as (w3 & ls & H3 & HR). apply wrap_err_ok in H3 as (r3 & H3 & _).
  apply M_bind_ok in HR as (w4 & la & H4 & HR). apply wrap_err_ok in H4 as (r4 & H4 & _).
  destruct (ev_kernel w2 w3) as (U3 & S3 & F3); [eauto|]. destruct (ev_kernel w3 w4) as (U4 & S4 & F4); [eauto|].
  pose proof (quiet_kernel _ _ U3 S3 F3) as Q3. pose proof (quiet_kernel _ _ U4 S4 F4) as Q4.
  assert (quiet w w4) as Q14 by (etrans; [exact Q1|]; etrans; [exact Q2|]; by etrans).
  apply (quiet_loop (fun x => res_Phase x = PhaseTearingDown)) in HR as [Q5 H5]; [|by intros; eapply quiet_sync|by rewrite (proj1 Q14)].
  split; [by etrans|]. intros x Hx. destruct (res_Phase x) eqn:HP; [|by apply H5].
  apply Q5; [by rewrite (proj1 Q14)|]. assert (x ∈ specs w2) by (rewrite (proj1 Q2); by rewrite S1).
  apply Q4; [by rewrite (proj1 Q3)|]. apply Q3; [done|]. by apply H2.
Qed.

(** The specs with something left to write. *)
Definition pending (w : W) : nat := length (filter (unheld w) (specs w)).

Lemma pending_0 w : pending w = 0%nat <-> forall r, r ∈ specs w -> ~ unheld w r.
Proof.
  unfold pending. rewrite length_zero_iff_nil. split.
  - intros HE r Hr Hu. apply (elem_of_nil r). rewrite <-HE. by apply list_elem_of_filter.
  - intros Hn. destruct (filter _ _) as [|r l] eqn:E; [done|].
    assert (r ∈ filter (unheld w) (specs w)) as [Hu Hr]%list_elem_of_filter by (rewrite E; left). by destruct (Hn r Hr).
Qed.

Lemma pending_turn w w' :
  reconcile w = (w', Ok tt) -> (pending w' < pending w)%nat \/ (pending w' <= pending w)%nat /\ changes w w' = ∅.
Proof.
  intros ((HS & _ & HC) & Hn)%quiet_reconcile. assert (pending w' = 0%nat) as E by (apply pending_0; by rewrite HS).
  destruct (decide (pending w = 0%nat)) as [E0|]; [right|left; lia]. split; [lia|].
  apply set_eq. intros k. rewrite changes_elem, elem_of_empty. split; [|done]. intros [Hk Hs]. destruct Hs. apply HC; [|done]. by apply pending_0.
Qed.

(** ** Properties *)

(** C6: no address spec is forgotten.  However writes of specs, deliveries of
    their events, failures and restarts of the controller interleave: when no
    event is left for the address controller, every live spec whose link
    exists is in effect in the kernel, if the specs are then as the DHCP
    controller writes them and no two live ones are of the same network of a
    link (the kernel takes the second away when it replaces the first,
    [AddressSpec.Demo.secondary_lost]).  Others may write any resource at any
    time, but leave the links and addresses of the kernel to the controller;
    the kernel had no address twice to begin with. *)
Theorem address_at_rest w0 s :
  reachable (AddressSpec_Run rtnetlink_Dial) disturb {[AddressSpecType]} w0 s -> table_ok (addrs w0) ->
  at_rest (only {[AddressSpecType]}) s tt ->
  let w := s_world s in
  (forall id spec, spec_of AddressSpecSpec w id = Some spec -> spec_ok spec) ->
  networks_apart (links w) (live_spec w) ->
  forall id spec, live_spec w id spec -> resolveLinkName (links w) (as_LinkName spec) <> 0 ->
    in_effect (links w) (addrs w) spec.
Proof. intros HR Ht Hrest w. by eapply rest_in_effect. Qed.

(** C7: the address controller comes to rest.  When no call fails any more (in
    the worlds [J], which the controller does not leave), the controller and the
    deliveries of its events, left to themselves, cannot go on forever, in whatever order they act and wherever the controller is; a
    run that has not been stopped ends at rest, with every live spec whose link
    exists in effect, under the conditions of C6 on the specs and on what others
    do. *)
Theorem address_settles (J : W -> Prop) w0 s :
  reachable (AddressSpec_Run rtnetlink_Dial) disturb {[AddressSpecType]} w0 s -> table_ok (addrs w0) ->
  J (s_world s) -> (forall w, J w -> exists w', rtnetlink_Dial w = (w', Ok tt) /\ J w' /\ pending w' = pending w) ->
  (forall w, J w -> exists w', reconcile w = (w', Ok tt) /\ J w') -> ~ over (s_place s) ->
  Acc (fun s2 s1 => own (AddressSpec_Run rtnetlink_Dial) s1 s2) s /\
  exists s', rtc (own (AddressSpec_Run rtnetlink_Dial)) s s' /\ at_rest (only {[AddressSpecType]}) s' tt /\
    all_in_effect (s_world s').
Proof.
  intros HR Ht HJ Hdial Hrec Hover. pose proof address_laws as HL.
  destruct (plain_settles _ _ _ _ _ J pending w0 s) as [HA (s' & HO & Hi & Halive & HR')]; [| |exact Ht|exact HR|done|].
  - intros w w' x HD _ Hw. destruct (Hdial w Hw) as (w1 & HE & HJ' & HP). unfold wrap_err in HD. rewrite HE in HD.
    injection HD as <- <-. split_and!; [done..|lia].
  - intros w w' x HT _ Hw. destruct (Hrec w Hw) as (w1 & E & HJ').
    unfold again, mbind, M_bind in HT. rewrite E in HT. injection HT as <- <-. exists (Loop tt), true. split_and!; [done..|].
    destruct (pending_turn _ _ E) as [?|[? ?]]; auto.
  - split; [exact HA|]. exists s'. split; [done|].
    assert (at_rest (only {[AddressSpecType]}) s' tt) as Hrest.
    { pose proof Hi as [_ [([] & HP & _)|[HP|HP]]]; [by eapply (idle_rest _ _ _ _ _ s' tt Hi HP)| |destruct Hover; apply Halive; by destruct HP; [left|right]].
      destruct (plain_finished _ _ _ _ _ w0 s' Ht HR' HP) as (wa & wb & b & _ & [[=] _]%again_ok & _). }
    split; [done|]. by eapply rest_in_effect.
Qed.

End address.

(** ** Links *)

Section links.
Context {W : Type} `{!Watched W} `{!LinkNetlink W} `{!SpecWriter W LinkStatusSpec}.
Context (watch : gset string -> M W unit) (devices : M W (option bool)) (rtnetlink_Dial ethtool_New : M W unit).
Context (disturb : W -> W -> Prop) (devices_kind : DevicesStatusType ∈ kinds).

Abbreviation run := (LinkStatus_Run watch devices rtnetlink_Dial ethtool_New).

Lemma links_keeps m : op_keeps (turn run m).
Proof. destruct m; cbn [turn LinkStatus_Run]; [|unfold part]; keeping. Qed.

(** How the wait ends. *)
Lemma waiting_turn r w r' w' m :
  turn run WaitingForDevices (r, w) = ((r', w'), Ok (Loop m)) ->
  (m = WaitingForDevices /\ r' = r) \/ (exists eth, m = Serving eth /\ r' = triggerReconcile (mkRuntime ∅ (rt_ch r) (rt_interval r))).
Proof.
  cbn [turn LinkStatus_Run]. unfold mbind, M_bind, outside. destruct (devices w) as [w1 [[[]|]|e|p]]; try done;
    try (intros [= -> _ <-]; by left).
  unfold UpdateInputs, mbind, M_bind, outside. destruct (watch ∅ w1) as [w2 [[]|e|p]]; [|done..]. cbn [set_inputs QueueReconcile].
  destruct (wrap_err _ rtnetlink_Dial w2) as [w3 [[]|e|p]]; [|done..].
  destruct (attempt ethtool_New w3) as [w4 [eth|e|p]]; [|done..]. intros [= <- _ <-]. right. eauto.
Qed.

Lemma link_laws : LoopLaws run disturb LinkStatus_inputs (fun _ => True) (fun _ => True).
Proof.
  split; [| |done|].
  - intros r w r' w' x HE _ _. split_and!; [|done..|].
    + revert HE. cbn [enter LinkStatus_Run]. apply keeps_bind; [apply keeps_inputs|intros ?; apply keeps_ret].
    + intros m ->. cbn [enter LinkStatus_Run] in HE. unfold UpdateInputs, mbind, M_bind, outside in HE.
      destruct (watch _ w) as [w1 [[]|e|p]]; [|done..]. by injection HE as <- _ <-.
  - intros m r w r' w' x HE Hr _ _. split_and!; [by eapply links_keeps|done..|]. intros m' ->. destruct m as [|eth].
    + destruct (waiting_turn _ _ _ _ _ HE) as [[-> ->]|(eth & -> & ->)]; [done|]. split; [done|].
      intros _ [? ? ?]. by apply trigger_queued.
    + cbn [turn LinkStatus_Run] in HE. destruct (part_spec _ _ _ _ _ _ HE) as (_ & Hi & _ & b & HB).
      apply again_ok in HB as [[= ->] _]. split; [by rewrite Hi|done].
  - intros [|eth] k; cbn; [by intros ->%elem_of_singleton|by intros ?%elem_of_empty].
Qed.

(** Without an event and without inputs nothing starts a turn any more. *)
Lemma deaf_step s s' eth :
  s_place s = Selecting (Serving eth) -> ~ queued (s_rt s) -> rt_inputs (s_rt s) = ∅ -> lstep run disturb s s' ->
  (s_place s' = Selecting (Serving eth) /\ s_rt s' = s_rt s \/ s_place s' = Stopped) /\
  (s_world s' = s_world s \/ disturb (s_world s) (s_world s')).
Proof.
  intros HP Hq Hi HS. destruct HS as [s1 s2 HS|r w p fl w' HD|r w p fl _ _]; cbn in *; [|by auto..].
  destruct HS as [r w p fl k _|r w fl r' w' m _|r w fl r' w' res r2 p _ _ _|r w m fl c r' w' m' HT _|
    r w m fl c r' w' HT _|r w m fl c r' w' HT _|r w m fl c r' w' res r2 p HT _ _ _|r w d fl]; cbn in *; try done;
    try (unfold queued, try_recv in *; destruct (chan_buf (rt_ch r)); [done|by destruct Hq]).
  split; [left|by left]. split; [done|]. unfold WatchTrigger. by rewrite decide_False by (rewrite Hi; set_solver).
Qed.

Lemma deaf_steps s s' eth :
  rtc (lstep run disturb) s s' ->
  s_place s = Selecting (Serving eth) /\ ~ queued (s_rt s) /\ rt_inputs (s_rt s) = ∅ \/ s_place s = Stopped ->
  (s_place s' = Selecting (Serving eth) \/ s_place s' = Stopped) /\ rtc disturb (s_world s) (s_world s').
Proof.
  induction 1 as [s|s s1 s' HS HR IH]; intros HC; [split; [tauto|done]|].
  assert ((s_place s1 = Selecting (Serving eth) /\ ~ queued (s_rt s1) /\ rt_inputs (s_rt s1) = ∅ \/ s_place s1 = Stopped) /\
    (s_world s1 = s_world s \/ disturb (s_world s) (s_world s1))) as [HC1 HW].
  { destruct HC as [(HP & Hq & Hi)|HP].
    - destruct (deaf_step s s1 eth HP Hq Hi HS) as [[[? HE]|?] ?]; (split; [|done]); [left|by right]. by rewrite HE.
    - clear HR IH. destruct HS as [s1 s2 HS|r w p fl w' HD|r w p fl H1 _]; cbn in *; [|by auto..].
      destruct HS; cbn in *; subst; try done. auto. }
  destruct (IH HC1) as [HP HR']. split; [done|]. destruct HW as [<-|HD]; [done|]. by eapply rtc_l.
Qed.

(** ** Properties *)

(** C36: the links are looked at once.  When the link status controller has come
    to its second loop and taken its event, it has made one pass over the links
    without an error; from then on it never acts again, whatever happens to
    the links: it has no inputs, and nothing else starts a pass. *)
Theorem links_looked_at_once w0 s eth :
  reachable (LinkStatus_Run watch devices rtnetlink_Dial ethtool_New) disturb ∅ w0 s -> s_place s = Selecting (Serving eth) -> ~ queued (s_rt s) ->
  (exists w1 w2, link_reconcile eth w1 = (w2, Ok tt) /\ rtc disturb w2 (s_world s)) /\
  (forall s', rtc (lstep (LinkStatus_Run watch devices rtnetlink_Dial ethtool_New) disturb) s s' ->
     (s_place s' = Selecting (Serving eth) \/ s_place s' = Stopped) /\ rtc disturb (s_world s) (s_world s')).
Proof.
  intros HR HP Hq. pose proof link_laws as HL.
  assert (sys_ok run disturb LinkStatus_inputs (fun _ => True) (fun _ => True) s) as Hok by (by eapply sys_reachable_ok).
  pose proof Hok as [_ _ _ Hp]. unfold place_ok in Hp. rewrite HP in Hp. destruct Hp as [Hi _]. split.
  - assert (settled run disturb LinkStatus_inputs (fun _ => True) (Serving eth) (s_world s)) as
      (r0 & w1 & r1 & w2 & _ & _ & HT & _ & HD) by (apply (rest_settled _ _ _ (fun _ => True) (fun _ => True)); [exact Hok|split_and!; [done..|cbn; set_solver]]).
    cbn [turn LinkStatus_Run] in HT. destruct (part_spec _ _ _ _ _ _ HT) as (_ & _ & _ & b & HB).
    apply again_ok in HB as [_ HB]. eauto.
  - intros s' HS. apply (deaf_steps s s' eth HS). left. by split_and!.
Qed.

End links.

(** ** The DHCP controller *)

Section dhcp.
Context {W : Type} `{!Watched W}.
Context (LinkStatus_ReaderList : M W (list (string * LinkStatusSpec))) (ends : W -> string -> bool).
Context (range : gset string -> list string) (disturb : W -> W -> Prop).

(** The link statuses of the store, which are what a list that succeeds gives. *)
Class LinkView (links_of : W -> list (string * LinkStatusSpec)) : Prop := {
  link_kind : LinkStatusType ∈ kinds;
  link_same w w' : same LinkStatusType w w' -> links_of w = links_of w';
  link_list w w' l : LinkStatus_ReaderList w = (w', Ok l) -> l = links_of w
}.

Definition times (id : string) (l : list string) : nat := length (filter (.= id) l).

Lemma times_snoc id id' l : times id (l ++ [id']) = (times id l + if decide (id' = id) then 1 else 0)%nat.
Proof. unfold times. rewrite filter_app, length_app, filter_cons, filter_nil. by case_decide. Qed.

(** A link has at most one client that has not been cancelled, and none without
    an entry. *)
Definition one_client (ctrl : DHCP4.DHCP4Controller) : Prop := forall id,
  (times id (d_started ctrl) <= times id (d_cancelled ctrl) + if decide (id ∈ d_state ctrl) then 1 else 0)%nat.

Lemma one_client_start id ctrl :
  id ∉ d_state ctrl -> one_client ctrl ->
  one_client (mkDHCP4Controller ({[id]} ∪ d_state ctrl) (d_started ctrl ++ [id]) (d_cancelled ctrl)).
Proof.
  intros Hid H i. specialize (H i). cbn [d_state d_started d_cancelled]. rewrite times_snoc.
  case_decide as E1; case_decide as E2; case_decide as E3; subst; first [lia|set_solver].
Qed.

Lemma one_client_cancel id ctrl S :
  d_state ctrl ∖ {[id]} ⊆ S -> one_client ctrl -> one_client (mkDHCP4Controller S (d_started ctrl) (d_cancelled ctrl ++ [id])).
Proof.
  intros HS H i. specialize (H i). cbn [d_state d_started d_cancelled]. rewrite times_snoc.
  case_decide as E1; case_decide as E2; case_decide as E3; subst; first [lia|set_solver].
Qed.

Lemma start_clients_one l ctrl : one_client ctrl -> one_client (start_clients l ctrl).
Proof.
  revert ctrl. induction l as [|[id ls] l IH]; intros ctrl H; cbn [start_clients]; [done|]. apply IH.
  case_decide; [done|]. destruct (wantsDHCP ls); [by apply one_client_start|done].
Qed.

Lemma stop_clients_one f desired order ctrl : one_client ctrl -> one_client (fst (stop_clients f desired order ctrl)).
Proof.
  revert ctrl. induction order as [|id order IH]; intros ctrl H; cbn [stop_clients]; [done|].
  case_decide; [by apply IH|]. destruct (f id); [apply IH|]; cbn [d_state d_started d_cancelled]; apply one_client_cancel; set_solver.
Qed.

Lemma dhcp_turn_one p p' x : DHCP4_turn LinkStatus_ReaderList ends range p = (p', x) -> one_client (fst p) -> one_client (fst p').
Proof.
  destruct p as [ctrl w]. unfold DHCP4_turn. destruct (LinkStatus_ReaderList w) as [w1 [l|e|q]]; [|by intros [= <- _]..].
  unfold dhcp_reconcile. intros HT H.
  pose proof (stop_clients_one (ends w1) (list_to_set l.*1) (range (d_state (start_clients l ctrl))) _ (start_clients_one l ctrl H)) as HS.
  destruct (stop_clients _ _ _ _) as [c b]. by injection HT as <- _.
Qed.

(** The clients, in terms of the links of the store. *)
Definition clients_match (links_of : W -> list (string * LinkStatusSpec)) (p : DHCP4.DHCP4Controller * W) : Prop :=
  (forall id, id ∈ d_state (fst p) -> id ∈ (links_of (snd p)).*1) /\
  (forall id ls, (id, ls) ∈ links_of (snd p) -> LinkStatus.Physical ls = true -> id ∈ d_state (fst p)).

Lemma dhcp_turn_loop links_of p p' b `{!LinkView links_of} :
  (forall X, range X ≡ₚ elements X) -> DHCP4_turn LinkStatus_ReaderList ends range p = (p', Ok (Loop tt, b)) ->
  clients_match links_of (fst p', snd p).
Proof.
  intros Hrange. destruct p as [ctrl w]. unfold DHCP4_turn. destruct (LinkStatus_ReaderList w) as [w1 [l|e|q]] eqn:El; [|done..].
  apply link_list in El. subst l. pose proof (dhcp_reconcile_exact (ends w1) range (links_of w) ctrl Hrange) as H. cbn zeta in H.
  destruct (dhcp_reconcile _ _ _ _) as [c []]; [|done]. destruct H as [_ H]. destruct (H eq_refl) as [HS _].
  intros [= <- _]. unfold clients_match. cbn [fst snd]. rewrite HS. split; [set_solver|].
  intros id ls Hin HP. apply elem_of_intersection. split; [apply elem_of_union_r|]; apply elem_of_list_to_set, list_elem_of_fmap.
  - exists (id, ls). split; [done|]. by apply list_elem_of_filter.
  - by exists (id, ls).
Qed.

(** C35: whatever happened before, when the DHCP controller has come to rest the
    entries of its map fit the links of the store: only links that are there
    have one, and each physical link has one; of the clients that were ever
    started for a link no more than one has not been cancelled, and none
    without an entry.  An entry is not a client at work: the client
    whose request failed has ended, and keeps its entry. *)
Theorem dhcp_at_rest links_of c0 w0 s `{!LinkView links_of} :
  (forall X, range X ≡ₚ elements X) -> one_client c0 ->
  reachable (DHCP4_Run LinkStatus_ReaderList ends range) (others_only disturb) {[LinkStatusType]} (c0, w0) s ->
  at_rest (only {[LinkStatusType]}) s tt ->
  clients_match links_of (s_world s) /\ one_client (fst (s_world s)).
Proof.
  intros Hrange H0 HR Hrest.
  assert (LoopLaws (DHCP4_Run LinkStatus_ReaderList ends range) (others_only disturb) (only {[LinkStatusType]})
    (eq {[LinkStatusType]}) (fun p => one_client (fst p))) as HL.
  { apply plain_laws.
    - intros k ->%elem_of_singleton. apply link_kind.
    - by intros p p' [-> _].
    - by intros p p' x [= <- _].
    - intros p p' x. apply dhcp_turn_one. }
  destruct (plain_rest _ _ _ _ _ _ s H0 HR Hrest) as (p0 & p1 & b & Hp & HT & Hs & HD).
  destruct (Hs LinkStatusType) as [S1 S2]; [by apply elem_of_singleton|]. cbn in S1, S2.
  destruct (rtc_others_only _ _ _ HD) as [E _]. pose proof (dhcp_turn_loop links_of p0 p1 b Hrange HT) as HM.
  split; [|rewrite E; by eapply dhcp_turn_one].
  unfold clients_match in *. cbn [fst snd] in HM. by rewrite E, <-(link_same _ _ S2), <-(link_same _ _ S1).
Qed.

End dhcp.

(** ** The boot *)

(** The resources the boot is about, as they are in the store; a read that
    succeeds gives them. *)
Class BootView (W : Type) := {
  udevd_of : W -> option ServiceSpec;
  devices_of : W -> option bool
}.

Class BootLaws (W : Type) `{!Watched W, !BootWorld W, !BootView W} : Prop := {
  service_kind : ServiceType ∈ kinds;
  devices_kind : DevicesStatusType ∈ kinds;
  service_same w w' : same ServiceType w w' -> udevd_of w = udevd_of w';
  devices_same w w' : same DevicesStatusType w w' -> devices_of w = devices_of w';
  service_get w w' v : Service_Get w = (w', inl v) -> v = udevd_of w;
  devices_get w w' v : DevicesStatus_Get w = (w', inl v) -> v = devices_of w;
  devices_put w w' : DevicesStatus_Ready w = (w', None) -> devices_of w' = Some true
}.

Definition udevd_is_up (v : option ServiceSpec) : Prop := exists s, v = Some s /\ Running s = true /\ svc_Healthy s = true.

Lemma ensureStarted_done id name ans ctrl ctrl' u :
  ensureStarted id name ans ctrl = (ctrl', Ok u) -> started ctrl' = true.
Proof.
  unfold ensureStarted. destruct (started ctrl) eqn:E; [by intros [= <- _]|].
  destruct (ans_IsRunning ans) as [[]|]; [| |done]; [|destruct (ans_Start ans); [done|]];
    destruct (ans_Wait ans); try done; by intros [= <- _].
Qed.

Section boot_rest.
Context {W : Type} `{!Watched W} `{!BootWorld W} `{!BootView W} `{!BootLaws W}.
Context (disturb_udev disturb_devices disturb_apid : W -> W -> Prop).
(** Only the device status controller writes the status of the devices. *)
Context (ready_stays : forall w w', disturb_devices w w' -> devices_of w = Some true -> devices_of w' = Some true).

Lemma udev_turn_loop p p' b : udev_turn (W := W) p = (p', Ok (Loop tt, b)) -> started (fst p') = true.
Proof.
  destruct p as [ctrl w]. unfold udev_turn. destruct (if started ctrl then _ else _) as [w1 ans]. unfold udev_iteration.
  destruct (udev_ensureStarted ans ctrl) as [c1 r] eqn:E. destruct r as [[]|e|q]; intros [= <- _]. by eapply ensureStarted_done.
Qed.

Lemma apid_turn_loop p p' b :
  apid_turn p = (p', Ok (Loop tt, b)) -> devices_of (snd p) = Some true -> started (fst p') = true.
Proof.
  destruct p as [ctrl w]. unfold apid_turn. destruct (DevicesStatus_Get w) as [w1 [v|e]] eqn:E1.
  - apply devices_get in E1. cbn [snd]. intros HT HD. rewrite HD in E1. subst v.
    destruct (if started ctrl then _ else _) as [w2 ans]. cbn [apid_iteration] in HT.
    destruct (apid_ensureStarted ans ctrl) as [c1 r] eqn:E. destruct r as [[]|e|q]; [|done..].
    injection HT as <- _. by eapply ensureStarted_done.
  - done.
Qed.

Lemma device_turn_loop w w' b : device_turn w = (w', Ok (Loop tt, b)) -> ~ udevd_is_up (udevd_of w).
Proof.
  unfold device_turn. destruct (Service_Get w) as [w1 [v|e]] eqn:E1; [|done]. apply service_get in E1. subst v.
  intros HT (s & Hs & H1 & H2). rewrite Hs, H1, H2 in HT. cbn in HT. destruct (DevicesStatus_Ready w1) as [w2 [e|]].
  - unfold device_iteration in HT. by rewrite H1, H2 in HT.
  - unfold device_iteration in HT. by rewrite H1, H2 in HT.
Qed.

Lemma device_turn_finish w w' b : device_turn w = (w', Ok (Finish, b)) -> devices_of w' = Some true.
Proof.
  unfold device_turn. destruct (Service_Get w) as [w1 [[s|]|e]] eqn:E1; [| done..].
  destruct (Running s && svc_Healthy s) eqn:Eu.
  - destruct (DevicesStatus_Ready w1) as [w2 [e|]] eqn:E2; unfold device_iteration; rewrite Eu; [done|].
    intros [= <- _]. by eapply devices_put.
  - unfold device_iteration. by rewrite Eu.
Qed.

Lemma boot_plain_laws {X} `{!Watched X} (f : M X (verdict unit * bool)) disturb inputs :
  inputs ⊆ kinds -> LoopLaws (plain_loop (mret tt) f) disturb (only inputs) (eq inputs) (fun _ => True).
Proof. intros Hk. by apply plain_laws. Qed.

(** At rest, udevd was started. *)
Lemma udev_rest cu wu su :
  reachable Udev_Run (others_only disturb_udev) ∅ (cu, wu) su -> at_rest (only ∅) su tt -> started (fst (s_world su)) = true.
Proof.
  intros HR Hu. pose proof (boot_plain_laws udev_turn (others_only disturb_udev) ∅ ltac:(set_solver)) as HL.
  destruct (plain_rest _ _ _ _ _ _ su Logic.I HR Hu) as (p0 & p1 & b & _ & HT & _ & HD).
  apply udev_turn_loop in HT. by destruct (rtc_others_only _ _ _ HD) as [-> _].
Qed.

(** At rest or done, the device status controller has marked the devices ready if
    udevd is up. *)
Lemma devices_rest w0 sd :
  reachable DeviceStatus_Run disturb_devices {[ServiceType]} w0 sd ->
  at_rest (only {[ServiceType]}) sd tt \/ s_place sd = Finished ->
  udevd_is_up (udevd_of (s_world sd)) -> devices_of (s_world sd) = Some true.
Proof.
  intros HR Hd. assert ({[ServiceType]} ⊆ (kinds : gset string)) as Hk by (intros k ->%elem_of_singleton; apply service_kind).
  pose proof (boot_plain_laws device_turn disturb_devices {[ServiceType]} Hk) as HL. destruct Hd as [Hd|Hd].
  - destruct (plain_rest _ _ _ _ _ _ sd Logic.I HR Hd) as (p0 & p1 & b & _ & HT & Hs & _).
    destruct (Hs ServiceType) as [S1 S2]; [by apply elem_of_singleton|].
    apply device_turn_loop in HT. intros Hup. destruct HT. by rewrite (service_same _ _ S1), (service_same _ _ S2).
  - intros _. destruct (plain_finished _ _ _ _ _ _ sd Logic.I HR Hd) as (p0 & p1 & b & _ & HT & HD).
    apply device_turn_finish in HT. clear -HT HD ready_stays. induction HD as [|w1 w2 w3 H12 _ IH]; [done|].
    apply IH. by eapply ready_stays.
Qed.

(** At rest, apid was started if the devices are ready. *)
Lemma apid_rest ca wa sa :
  reachable Apid_Run (others_only disturb_apid) {[DevicesStatusType]} (ca, wa) sa -> at_rest (only {[DevicesStatusType]}) sa tt ->
  devices_of (snd (s_world sa)) = Some true -> started (fst (s_world sa)) = true.
Proof.
  intros HR Ha. assert ({[DevicesStatusType]} ⊆ (kinds : gset string)) as Hk by (intros k ->%elem_of_singleton; apply devices_kind).
  pose proof (boot_plain_laws apid_turn (others_only disturb_apid) {[DevicesStatusType]} Hk) as HL.
  destruct (plain_rest _ _ _ _ _ _ sa Logic.I HR Ha) as (p0 & p1 & b & _ & HT & Hs & HD).
  destruct (Hs DevicesStatusType) as [S1 S2]; [by apply elem_of_singleton|]. cbn in S1, S2.
  rewrite <-(devices_same _ _ S2), <-(devices_same _ _ S1). intros Hr.
  destruct (rtc_others_only _ _ _ HD) as [-> _]. by eapply apid_turn_loop.
Qed.

(** ** Properties *)

(** C26: the boot does not stall by itself.  When the three controllers of the
    boot have come to rest, or the device status controller is done: udevd was
    started; the devices are marked ready if udevd is running and healthy; and
    apid was started if they are.  This holds whatever others do to the
    resources meanwhile, and whatever failed and was tried again before. *)
Theorem boot_at_rest cu wu w0 ca wa su sd sa :
  reachable Udev_Run (others_only disturb_udev) ∅ (cu, wu) su ->
  reachable DeviceStatus_Run disturb_devices {[ServiceType]} w0 sd ->
  reachable Apid_Run (others_only disturb_apid) {[DevicesStatusType]} (ca, wa) sa ->
  at_rest (only ∅) su tt -> at_rest (only {[ServiceType]}) sd tt \/ s_place sd = Finished ->
  at_rest (only {[DevicesStatusType]}) sa tt -> s_world sd = snd (s_world sa) ->
  let w := s_world sd in
  started (fst (s_world su)) = true /\
  (udevd_is_up (udevd_of w) -> devices_of w = Some true) /\
  (devices_of w = Some true -> started (fst (s_world sa)) = true).
Proof.
  intros HRu HRd HRa Hu Hd Ha Hw w. split_and!; [by eapply udev_rest|by eapply devices_rest|].
  unfold w. rewrite Hw. by eapply apid_rest.
Qed.

End boot_rest.

(** ** Examples *)

(** The machine of [NetworkDemo]: the address specs are its resources. *)
Module RunDemo.
Import NetworkDemo.

(** The finalizers that are set. *)
Definition held (f : gmap string (gset string)) : gmap string (gset string) :=
  omap (fun s => if decide (s = ∅) then None else Some s) f.

Lemma held_insert f id s : default ∅ (f !! id) = s -> held (<[id := s]> f) = held f.
Proof.
  intros <-. apply map_eq. intros id'. unfold held. rewrite !lookup_omap. destruct (decide (id' = id)) as [->|]; [|by rewrite lookup_insert_ne].
  rewrite lookup_insert_eq. cbn. by destruct (f !! id).
Qed.

Definition same_specs (w w' : world) : Prop := d_specs w = d_specs w' /\ held (d_fins w) = held (d_fins w').

#[export] Instance same_specs_equiv : Equivalence same_specs.
Proof.
  split; [by intros w|by intros w w' [? ?]|]. intros w1 w2 w3 [H1 H2] [H3 H4]. split; [by rewrite H1|by rewrite H2].
Qed.

#[export] Instance demo_watched : Watched world := {|
  kinds := {[AddressSpecType]};
  same _ := same_specs;
  same_dec _ w w' := and_dec _ _
|}.

#[export] Instance demo_excl : KernelExcl (W := world).
Proof.
  split. intros m w w'. cbn. case_decide as Hx; [done|]. intros _ a Ha Hk. apply Hx, Exists_exists. eauto.
Qed.

#[export] Instance demo_kind : AddressKind world.
Proof. split; [set_solver|]. intros w w' [HS _] id. cbn. by rewrite HS. Qed.

Definition demo_specs (w : world) : list (resource AddressSpecSpec) :=
  (fun '(id, spec) => mkResource id PhaseRunning spec) <$> map_to_list (d_specs w).

Lemma unchanged_kernel w w' : d_specs w = d_specs w' -> held (d_fins w) = held (d_fins w') -> unchanged w w'.
Proof. intros HS HF k _. by split. Qed.

#[export] Instance demo_events : AddressEvents demo_specs.
Proof.
  split.
  - intros w w' r [= <- <-]. split_and!; [by apply unchanged_kernel|done..|]. by intros l [= <-].
  - intros id w w' r [= <- <-]. split_and!; [done| | |]; cbn.
    + intros Hin. apply unchanged_kernel; [done|]. cbn. symmetry. apply held_insert. set_solver.
    + intros id' Hne. by rewrite lookup_insert_ne.
    + intros _. rewrite lookup_insert_eq. cbn. set_solver.
  - intros id w w' r [= <- <-]. split_and!; [done| | |]; cbn.
    + intros Hin. apply unchanged_kernel; [done|]. cbn. symmetry. apply held_insert. set_solver.
    + intros id' Hne. by rewrite lookup_insert_ne.
    + intros _. rewrite lookup_insert_eq. cbn. set_solver.
  - intros w w' HK. assert (d_specs w' = d_specs w /\ d_fins w' = d_fins w) as [HS HF].
    { destruct HK as [[r [= <- _]]|[[r [= <- _]]|[(m & r & E)|(m & r & E)]]]; [done..| |];
        cbn in E; case_decide; by injection E as <- _. }
    split_and!; [apply unchanged_kernel; by rewrite ?HS, ?HF|by unfold demo_specs; rewrite HS|]. cbn. by rewrite HF.
  - intros w. unfold demo_specs. rewrite <-list_fmap_compose. rewrite (list_fmap_ext _ fst); [apply NoDup_fst_map_to_list|]. by intros i [].
Qed.

(** Others leave the kernel alone. *)
Definition writers (w w' : world) : Prop := links w' = links w /\ addrs w' = addrs w.

Definition dial : M world unit := mret tt.

(** A spec that is written while the controller starts. *)
Definition spec := lease_address "eth0" DHCPDemo.ack.
Definition written : world := set_specs {[ "eth0" := spec ]} booted.

Definition starting : system world unit := disturbed (NewAdapter {[AddressSpecType]} booted) written.
Definition resting : system world unit := run_for (AddressSpec_Run dial) 6 starting.

Lemma starts : reachable (AddressSpec_Run dial) writers {[AddressSpecType]} booted starting.
Proof. eapply rtc_l; [|done]. by apply disturbed_step. Qed.

Lemma rested : reachable (AddressSpec_Run dial) writers {[AddressSpecType]} booted resting.
Proof. unfold reachable. etrans; [exact starts|]. by apply (run_for_steps _ _ 6). Qed.

Lemma booted_ok : table_ok (addrs booted).
Proof. split; [|by intros a ->%list_elem_of_singleton]. by intros a b ->%list_elem_of_singleton ->%list_elem_of_singleton. Qed.

(** The specs of a world with this one alone. *)
Lemma one_spec w : d_specs w = d_specs written -> 
  (forall id s, spec_of AddressSpecSpec w id = Some s -> spec_ok s) /\
  networks_apart (links w) (live_spec w).
Proof.
  intros HS. split; [intros id s|intros id id' s s' [H1 _] [H2 _] _; revert H1 H2]; cbn; rewrite HS; cbn.
  - intros [_ <-]%lookup_singleton_Some. by vm_compute.
  - by intros [<- _]%lookup_singleton_Some [<- _]%lookup_singleton_Some.
Qed.

Lemma address_at_rest_witness :
  length (addrs booted) = 1%nat /\ length (addrs (s_world resting)) = 2%nat /\
  in_effect (links (s_world resting)) (addrs (s_world resting)) spec.
Proof.
  split; [by vm_compute|]. split; [by vm_compute|].
  refine (address_at_rest dial writers (fun w w' H => H) _ booted resting rested booted_ok _ _ _ "eth0" spec _ _).
  - by intros w w' r [= <- _].
  - split; [by vm_compute|]. split; [vm_compute; tauto|]. by vm_compute.
  - apply one_spec. by vm_compute.
  - apply one_spec. by vm_compute.
  - by vm_compute.
  - by vm_compute.
Defined.

(** The worlds that a turn leads to, without a failure. *)
Definition settled_world : world := fst (reconcile written).
Definition fine (w : world) : Prop := w = written \/ w = settled_world.

Lemma fine_turn w : fine w -> exists w', reconcile w = (w', Ok tt) /\ fine w'.
Proof. intros [-> | ->]; exists settled_world; (split; [by vm_compute|by right]). Qed.

Lemma address_settles_witness :
  pending demo_specs (s_world starting) = 1%nat /\
  Acc (fun s2 s1 => own (AddressSpec_Run dial) s1 s2) starting /\
  exists s', rtc (own (AddressSpec_Run dial)) starting s' /\ at_rest (only {[AddressSpecType]}) s' tt /\ all_in_effect (s_world s').
Proof.
  split; [by vm_compute|].
  refine (address_settles dial writers (fun w w' H => H) _ demo_specs fine booted starting starts booted_ok _ _ fine_turn _).
  - by intros w w' r [= <- _].
  - by left.
  - intros w Hw. by exists w.
  - by intros [|].
Defined.

End RunDemo.


(** The link controller on the machine of [LinkDemo]. *)
Module LinkRunDemo.
Import LinkDemo.

#[export] Program Instance demo_watched : Watched world := {|
  kinds := {[DevicesStatusType]};
  same _ _ _ := True;
  same_dec _ _ _ := True_dec
|}.
Next Obligation. done. Qed.

Definition fine : M world unit := mret tt.
Definition ready : M world (option bool) := mret (Some true).
Abbreviation demo_run := (LinkStatus_Run (fun _ => fine) ready fine fine).

(** The links may change, and their statuses are the controller's. *)
Definition plugged (w w' : world) : Prop := w'.2 = w.2.

Definition served : system world link_part := run_for demo_run 3 (NewAdapter ∅ start).

Lemma serves : reachable demo_run plugged ∅ start served.
Proof. by apply (run_for_steps _ _ 3). Qed.

(** A link that comes later has no status, and will not get one. *)
Definition later : world := (start.1 ++ [link 1 4 "eth2"], (s_world served).2).

Lemma plugged_rtc w w' : rtc plugged w w' -> w'.2 = w.2.
Proof. induction 1 as [|w1 w2 w3 H _ IH]; [done|]. by rewrite IH. Qed.

Lemma links_looked_at_once_witness :
  lstep demo_run plugged served (disturbed served later) /\ "eth2" ∈ (lm_Name <$> later.1) /\
  forall s', rtc (lstep demo_run plugged) (disturbed served later) s' -> (s_world s').2 !! "eth2" = None.
Proof.
  split; [by apply disturbed_step|]. split; [vm_compute; set_solver|].
  intros s' HS. destruct (links_looked_at_once (fun _ => fine) ready fine fine plugged ltac:(set_solver) start served true serves) as [_ HN].
  - by vm_compute.
  - vm_compute. tauto.
  - destruct (HN s') as [_ HP]; [apply (rtc_l _ _ (disturbed served later)); [by apply disturbed_step|exact HS]|].
    apply plugged_rtc in HP. rewrite HP. by vm_compute.
Defined.

End LinkRunDemo.

(** A boot. *)
Module BootDemo.

(** The service resource of udevd, the status of the devices, and whether the
    health checks pass. *)
Record world := mkWorld { d_udevd : option ServiceSpec; d_ready : option bool }.

(** The services subsystem starts what it is asked for, and its waits succeed. *)
Definition all_well : answers := mkAnswers (inl false) None None.

#[export] Instance demo_boot : BootWorld world := {|
  consult id w := (w, all_well);
  Service_Get w := (w, inl (d_udevd w));
  DevicesStatus_Get w := (w, inl (d_ready w));
  DevicesStatus_Ready w := (mkWorld (d_udevd w) (Some true), None)
|}.

#[export] Instance demo_view : BootView world := {| udevd_of := d_udevd; devices_of := d_ready |}.

Definition same_of (k : string) (w w' : world) : Prop :=
  (k = ServiceType -> d_udevd w = d_udevd w') /\ (k = DevicesStatusType -> d_ready w = d_ready w').

#[export] Program Instance demo_watched : Watched world := {|
  kinds := {[ServiceType; DevicesStatusType]};
  same := same_of;
  same_dec k w w' := and_dec _ _
|}.
Next Obligation.
  intros k. split; [done|intros w w' [H1 H2]; split; auto using eq_sym|].
  intros w1 w2 w3 [H1 H2] [H3 H4]. split; intros E; [by rewrite H1, H3|by rewrite H2, H4].
Qed.

#[export] Instance demo_laws : BootLaws world.
Proof.
  split; [set_solver|set_solver|by intros w w' [H _]; apply H|by intros w w' [_ H]; apply H|..].
  - by intros w w' v [= _ <-].
  - by intros w w' v [= _ <-].
  - by intros w w' [= <-].
Qed.

(** udevd comes up when its controller has started it; its resource is written
    by another controller. *)
Definition off : world := mkWorld None None.
Definition up : world := mkWorld (Some (mkServiceSpec true true false)) None.
Definition booted : world := mkWorld (d_udevd up) (Some true).
Definition fresh : ServiceStarter := mkServiceStarter false [].

Definition udev_before (w w' : world) : Prop := d_ready w' = d_ready w.

Lemma only_udev w w' : udev_before w w' -> devices_of w = Some true -> devices_of w' = Some true.
Proof. cbn. by intros ->. Qed.

Definition su : system (ServiceStarter * world) unit := run_for Udev_Run 3 (NewAdapter ∅ (fresh, off)).
Definition sd : system world unit :=
  run_for DeviceStatus_Run 4 (disturbed (run_for DeviceStatus_Run 2 (NewAdapter {[ServiceType]} off)) up).
Definition sa : system (ServiceStarter * world) unit :=
  run_for Apid_Run 4 (disturbed (run_for Apid_Run 2 (NewAdapter {[DevicesStatusType]} (fresh, off))) (fresh, booted)).

Lemma su_reached : reachable Udev_Run (others_only (fun _ _ => True)) ∅ (fresh, off) su.
Proof. by apply (run_for_steps _ _ 3). Qed.

Lemma sd_reached : reachable DeviceStatus_Run udev_before {[ServiceType]} off sd.
Proof.
  unfold reachable. etrans; [by apply (run_for_steps _ _ 2)|]. eapply rtc_l; [|by apply (run_for_steps _ _ 4)].
  by apply disturbed_step; vm_compute.
Qed.

Lemma sa_reached : reachable Apid_Run (others_only (fun _ _ => True)) {[DevicesStatusType]} (fresh, off) sa.
Proof.
  unfold reachable. etrans; [by apply (run_for_steps _ _ 2)|]. eapply rtc_l; [|by apply (run_for_steps _ _ 4)].
  by apply disturbed_step; vm_compute.
Qed.

Lemma sd_up : udevd_is_up (udevd_of (s_world sd)).
Proof. exists (mkServiceSpec true true false). split_and!; by vm_compute. Qed.

Lemma boot_at_rest_witness :
  s_place sd = Finished /\ started (fst (s_world su)) = true /\ devices_of (s_world sd) = Some true /\
  started (fst (s_world sa)) = true.
Proof.
  assert (s_place sd = Finished) as Hd by (by vm_compute).
  destruct (boot_at_rest (fun _ _ => True) udev_before (fun _ _ => True) only_udev fresh off off fresh off su sd sa) as (Hu & Hr & Ha).
  - exact su_reached.
  - exact sd_reached.
  - exact sa_reached.
  - split; [by vm_compute|]. split; [vm_compute; tauto|]. by vm_compute.
  - by right.
  - split; [by vm_compute|]. split; [vm_compute; tauto|]. by vm_compute.
  - by vm_compute.
  - split; [exact Hd|]. split; [exact Hu|]. split; [|apply Ha]; apply Hr, sd_up.
Defined.

End BootDemo.

(** The link of "wlan0" is unplugged while the controller looks for work. *)
Module DHCPRunDemo.

(** The names of the links that are there. *)
Definition world : Type := list string.
Definition links_of (w : world) : list (string * LinkStatusSpec) := (fun name => (name, DHCPDemo.ether)) <$> w.

#[export] Program Instance demo_watched : Watched world := {|
  kinds := {[LinkStatusType]};
  same k w w' := k = LinkStatusType -> w = w'
|}.
Next Obligation. intros k. split; [done|intros ? ? H E; by rewrite H|intros ? ? ? H1 H2 E; by rewrite H1, H2]. Qed.

Definition list_links : M world (list (string * LinkStatusSpec)) := fun w => (w, Ok (links_of w)).

#[export] Instance demo_view : LinkView list_links links_of.
Proof. split; [set_solver|intros w w' H; by rewrite (H eq_refl)|by intros w w' l [= _ <-]]. Qed.

Definition run : loop (DHCP4.DHCP4Controller * world) unit := DHCP4_Run list_links (fun _ _ => true) elements.
Definition none : DHCP4.DHCP4Controller := mkDHCP4Controller ∅ [] [].
Definition both : world := ["eth0"; "wlan0"].

Definition served : system (DHCP4.DHCP4Controller * world) unit := run_for run 3 (NewAdapter {[LinkStatusType]} (none, both)).
Definition unplugged : world := ["eth0"].
Definition resting : system (DHCP4.DHCP4Controller * world) unit :=
  run_for run 4 (disturbed served (fst (s_world served), unplugged)).

Lemma clients_rest : reachable run (others_only (fun _ _ => True)) {[LinkStatusType]} (none, both) resting.
Proof.
  unfold reachable. etrans; [by apply (run_for_steps _ _ 3)|]. eapply rtc_l; [|by apply (run_for_steps _ _ 4)].
  by apply disturbed_step; vm_compute.
Qed.

Lemma dhcp_at_rest_witness :
  clients_match links_of (s_world resting) /\ d_cancelled (fst (s_world resting)) = ["wlan0"].
Proof.
  split; [|by vm_compute].
  destruct (dhcp_at_rest list_links (fun _ _ => true) elements (fun _ _ => True) links_of none both resting) as [H _].
  - done.
  - intros id. cbn. lia.
  - exact clients_rest.
  - split; [by vm_compute|]. split; [vm_compute; tauto|]. by vm_compute.
  - exact H.
Defined.

End DHCPRunDemo.
