(* ===== verification/RouteRuns.v ===== *)
(** * The routes of a controller at rest

    What [ControllerRuns] shows of addresses, for routes: the route controller
    ([route_spec.go]) over the loop of [ControllerLoop].  The kernel adds and
    removes routes by itself, those of connected networks for instance; what
    others must leave alone are the routes that the specs are about. *)

From stdpp Require Import relations.
From S2P Require Import Prelude NetAddr AddressSpec RouteSpec Resources DHCP4 LeaseRoutes.
From S2P Require Import Registration ControllerLoop ControllerRuns.

(** What the event of a route spec is about. *)
Class RouteKind (W : Type) `{!Watched W, !SpecWriter W RouteSpecSpec, !RoutePhases W} : Prop := {
  route_kind : RouteSpecType ∈ kinds;
  route_same w w' : same RouteSpecType w w' ->
    forall id, spec_of RouteSpecSpec w id = spec_of RouteSpecSpec w' id /\ route_phase w id = route_phase w' id
}.

(** The links are nothing that the calls of the route controller change. *)
Definition links_kept {W} `{!RouteNetlink W} : relation W := fun w w' => route_links w' = route_links w.

#[export] Instance links_kept_preorder {W} `{!RouteNetlink W} : PreOrder (links_kept (W := W)).
Proof. split; [done|]. intros w1 w2 w3. unfold links_kept. congruence. Qed.

Class RouteBesideLinks (W : Type) `{!SpecStore W RouteSpecSpec, !RouteNetlink W} : Prop := {
  beside_specs : leaves (W := W) links_kept (ReaderList RouteSpecSpec);
  beside_hold id name : leaves (W := W) links_kept (AddFinalizer RouteSpecSpec id name);
  beside_release id name : leaves (W := W) links_kept (RemoveFinalizer RouteSpecSpec id name);
  beside_links : leaves (W := W) links_kept route_Link_List;
  beside_routes : leaves (W := W) links_kept Route_List;
  beside_delete m : leaves (W := W) links_kept (Route_Delete m);
  beside_add m : leaves (W := W) links_kept (Route_Add m)
}.
#[export] Hint Extern 1 (leaves links_kept _) =>
  first [apply beside_specs|apply beside_hold|apply beside_release|apply beside_links|apply beside_routes
        |apply beside_delete|apply beside_add] : leaves.

Section routes.
Context {W : Type} `{!SpecStore W RouteSpecSpec} `{!RouteNetlink W} `{!Watched W} `{!SpecWriter W RouteSpecSpec} `{!RoutePhases W}
  `{!RouteLaws W} `{!RouteReads W} `{!RouteStore W} `{!RouteBesideLinks W} `{!RouteKind W}.
Context (show : RouteMessage -> string) (rtnetlink_Dial : M W unit) (disturb : W -> W -> Prop).

(** ** The links during a pass *)

Lemma links_replace idx spec l b : leaves (W := W) links_kept (replace_routes idx spec l b).
Proof.
  revert b. induction l as [|e l IH]; intros b; cbn [replace_routes]; [auto with leaves|].
  destruct (route_up_to_date idx spec e); [done|]. apply (leaves_bind _); [|done]. unfold delete_route. auto with leaves.
Qed.

Lemma links_add idx spec : leaves (W := W) links_kept (add_route show idx spec).
Proof.
  intros w w' r. unfold add_route. destruct (Route_Add _ w) as [w1 x] eqn:E. apply beside_add in E. by destruct x; intros [= <- _].
Qed.

Lemma links_sync ls rts x : leaves (W := W) links_kept (syncRoute show ls rts x).
Proof.
  unfold syncRoute. destruct (res_Phase x).
  - destruct (_ && _); [auto with leaves|]. apply (leaves_bind _); [apply links_replace|]. intros []; auto using links_add with leaves.
  - unfold delete_route. auto with leaves.
Qed.

Lemma links_pass : leaves (W := W) links_kept (route_reconcile show).
Proof.
  unfold route_reconcile. apply (leaves_bind _); [auto with leaves|]. intros l. apply (leaves_bind _); [|auto 6 using links_sync with leaves].
  apply (leaves_for_range _). intros x. unfold hold_route. destruct (res_Phase x); auto with leaves.
Qed.

(** ** At rest *)

(** The routes that others leave alone. *)
Context (owned : RouteMessage -> Prop).
Context (others : forall w w', disturb w w' -> route_links w' = route_links w /\ forall x, owned x -> x ∈ routes w' <-> x ∈ routes w).

Lemma route_rtc_others w w' :
  rtc disturb w w' -> route_links w' = route_links w /\ forall x, owned x -> x ∈ routes w' <-> x ∈ routes w.
Proof.
  induction 1 as [|w1 w2 w3 [L R]%others _ [L' R']]; [done|]. split; [congruence|]. intros x Hx. by rewrite R', R.
Qed.

Lemma route_loop_laws : LoopLaws (RouteSpec_Run show rtnetlink_Dial) disturb (only {[RouteSpecType]}) (eq {[RouteSpecType]}) (fun _ => True).
Proof. apply plain_laws; [|done..]. intros k ->%elem_of_singleton. apply route_kind. Qed.

Definition live_route (w : W) (id : string) (spec : RouteSpecSpec) : Prop :=
  spec_of RouteSpecSpec w id = Some spec /\ route_phase w id = PhaseRunning.

(** The specs fit the header of a message, and no two are about the same route. *)
Record specs_fit (w : W) : Prop := {
  fit_live id spec : live_route w id spec -> route_ok spec;
  fit_apart id id' spec spec' x :
    spec_of RouteSpecSpec w id = Some spec -> spec_of RouteSpecSpec w id' = Some spec' -> id <> id' ->
    route_matches spec x = true -> route_matches spec' x = false
}.

Lemma in_place_owned ls l l' spec :
  (forall x, route_matches spec x = true -> x ∈ l' <-> x ∈ l) -> in_place ls l spec -> in_place ls l' spec.
Proof.
  intros HE [(x & Hx & Hm & Hu) Hall]. split; [exists x; split; [by apply HE|done]|].
  intros y Hy Hmy. apply Hall; [by apply HE|done].
Qed.

(** A pass that succeeds, by the contents of the store. *)
Lemma pass_in_place w w1 id spec :
  route_reconcile show w = (w1, Ok tt) -> specs_fit w -> live_route w id spec -> link_known (route_links w) spec ->
  in_place (route_links w) (routes w1) spec.
Proof.
  intros HR [Hok Hap] Hl Hk. pose proof HR as (w2 & l & HL & _)%M_bind_ok. apply wrap_err_ok in HL as (r0 & HL & E0).
  rewrite (E0 l eq_refl) in HL. destruct (route_list _ _ _ HL) as [HN Hin].
  destruct (route_reconcile_spec show w w1 w2 l HL HR) as [HI _].
  - intros r [H1 H2]%Hin HP. apply (Hok (res_ID r)). split; [done|congruence].
  - intros i j r r' x Hi Hj Hne. pose proof (list_elem_of_lookup_2 _ _ _ Hi) as [H1 _]%Hin.
    pose proof (list_elem_of_lookup_2 _ _ _ Hj) as [H2 _]%Hin. apply (Hap (res_ID r) (res_ID r')); [done..|].
    intros HE. apply Hne. apply (NoDup_lookup (res_ID <$> l) i j (res_ID r)); [done|by rewrite list_lookup_fmap, Hi|].
    by rewrite list_lookup_fmap, Hj, HE.
  - apply (HI (mkResource id PhaseRunning spec)); [|done|done]. by apply Hin.
Qed.

(** The specs of a lease that was applied fit, if the others do. *)
Lemma lease_fits linkName ack u w :
  octets ack -> others_apart linkName ack u ->
  (forall id, spec_of RouteSpecSpec w id = written_route id (lease_routes linkName ack) (spec_of RouteSpecSpec u id)) -> specs_fit w.
Proof.
  intros HO Hot HS. split.
  - intros id spec [Hs _]. rewrite HS in Hs.
    apply stored_cases in Hs as [(r & Hr & _ & ->)|Ho]; [by eapply lease_route_ok|by eapply (other_ok _ _ _ Hot)].
  - intros id id' spec spec' x. rewrite !HS. by apply (stored_apart linkName ack u).
Qed.

Lemma written_of_lease linkName ack r old :
  octets ack -> r ∈ lease_routes linkName ack -> written_route (route_id (normal r)) (lease_routes linkName ack) old = Some (normal r).
Proof.
  intros HO Hr. destruct (written_route_cases (route_id (normal r)) (lease_routes linkName ack) old) as [(r' & Hr' & Hi & ->)|[HN _]].
  - f_equal. by apply (lease_routes_id linkName ack).
  - by destruct (HN r).
Qed.

(** ** Properties *)

(** C8: no route spec is forgotten.  Others write and remove specs at any time
    and calls of the controller fail at any point, but others leave the links
    of the kernel as they are (the controller has no input for links, so that
    one that appears later does not wake it) and the routes of the kernel that
    the spec matches.  When the route controller has come to rest, every live
    route whose link exists (or that names none) is in place as the spec is
    now, provided the specs fit the kernel: each can be expressed in a route
    header, without host bits in its destination, and no two match a same
    route. *)
Theorem routes_at_rest w0 s id spec :
  reachable (RouteSpec_Run show rtnetlink_Dial) disturb {[RouteSpecType]} w0 s -> at_rest (only {[RouteSpecType]}) s tt ->
  let w := s_world s in
  specs_fit w -> live_route w id spec -> link_known (route_links w) spec -> (forall x, route_matches spec x = true -> owned x) ->
  in_place (route_links w) (routes w) spec.
Proof.
  intros HR Hrest w [Hok Hap] Hl Hk Hown. pose proof route_loop_laws as HL.
  destruct (plain_rest _ _ _ _ _ w0 s Logic.I HR Hrest) as (wa & w1 & b & _ & [_ HB]%again_ok & Hsame & HD).
  destruct (Hsame RouteSpecType) as [S1 S2]; [by apply elem_of_singleton|]. fold w in S2, HD.
  assert (forall id, spec_of RouteSpecSpec wa id = spec_of RouteSpecSpec w id /\ route_phase wa id = route_phase w id) as HE.
  { intros i. destruct (route_same _ _ S1 i), (route_same _ _ S2 i). split; congruence. }
  assert (forall i sp, live_route wa i sp <-> live_route w i sp) as HV.
  { intros i sp. unfold live_route. destruct (HE i) as [-> ->]. done. }
  destruct (route_rtc_others _ _ HD) as [L R]. pose proof (links_pass _ _ _ HB) as L1. unfold links_kept in L1.
  rewrite L, L1 in Hk |- *. apply (in_place_owned _ (routes w1)); [intros x Hx; apply R; auto|].
  apply (pass_in_place wa w1 id); [done| |by apply HV|done]. split.
  - intros i sp ?%HV. by eapply Hok.
  - intros i i' sp sp' x. destruct (HE i) as [-> _], (HE i') as [-> _]. apply Hap.
Qed.

End routes.

(** ** A lease that arrives while the controller starts *)

Module RouteRunDemo.
Import LeaseRoutesDemo.

Definition same_routes (w w' : world) : Prop := d_specs w = d_specs w' /\ RunDemo.held (d_fins w) = RunDemo.held (d_fins w').

#[export] Instance same_routes_equiv : Equivalence same_routes.
Proof.
  split; [by intros w|by intros w w' [? ?]|]. intros w1 w2 w3 [H1 H2] [H3 H4]. split; [by rewrite H1|by rewrite H2].
Qed.

#[export] Instance demo_watched : Watched world := {|
  kinds := {[RouteSpecType]};
  same _ := same_routes;
  same_dec _ w w' := and_dec _ _
|}.

#[export] Instance demo_kind : RouteKind world.
Proof. split; [set_solver|]. intros w w' [HS _] id. cbn. by rewrite HS. Qed.

#[export] Instance demo_beside : RouteBesideLinks world.
Proof. by split. Qed.

(** What the lease is about. *)
Definition of_the_lease (x : RouteMessage) : Prop := exists r, r ∈ lease_routes "eth0" one_router /\ route_matches (normal r) x = true.

Definition others (w w' : world) : Prop := forall x, of_the_lease x -> x ∈ routes w' <-> x ∈ routes w.

Lemma others_leave w w' : others w w' -> route_links w' = route_links w /\ forall x, of_the_lease x -> x ∈ routes w' <-> x ∈ routes w.
Proof. done. Qed.

(** The lease is written, and then the other daemon removes its route. *)
Definition written : world := fst (applyLease "eth0" one_router booted).
Definition starting : system world unit := disturbed (NewAdapter {[RouteSpecType]} booted) written.
Definition dial : M world unit := mret tt.
Definition run : loop world unit := RouteSpec_Run RouteDemo.show dial.
Definition halfway : system world unit := run_for run 2 starting.
Definition cleared (w : world) : world := set_kernel (filter (.≠ foreign) (routes w)) w.
Definition resting : system world unit := run_for run 6 (disturbed halfway (cleared (s_world halfway))).

Lemma foreign_apart x : of_the_lease x -> x <> foreign.
Proof.
  intros (r & Hr & Hm) ->. assert (forallb (fun r => negb (route_matches (normal r) foreign)) (lease_routes "eth0" one_router) = true) as HF
    by (by vm_compute).
  rewrite forallb_forall in HF. apply list_elem_of_In, HF in Hr. by rewrite Hm in Hr.
Qed.

Lemma clearing w : others w (cleared w).
Proof. intros x Hx%foreign_apart. cbn. rewrite list_elem_of_filter. tauto. Qed.

Lemma routes_rested : reachable run others {[RouteSpecType]} booted resting.
Proof.
  unfold reachable. eapply rtc_l; [by apply (disturbed_step run others _ written)|].
  etrans; [by apply (run_for_steps _ _ 2)|]. eapply rtc_l; [|by apply (run_for_steps _ _ 6)].
  apply (disturbed_step run others), clearing.
Qed.

Lemma routes_at_rest_witness :
  length (routes (s_world resting)) = 2%nat /\
  forall r, r ∈ lease_routes "eth0" one_router -> in_place [RouteDemo.demo_link] (routes (s_world resting)) (normal r).
Proof.
  split; [by vm_compute|]. intros r Hr.
  assert (d_specs (s_world resting) = d_specs written) as HS by (vm_compute; reflexivity).
  assert (forall id, spec_of RouteSpecSpec (s_world resting) id = written_route id (lease_routes "eth0" one_router) None) as HW.
  { intros id. change (d_specs (s_world resting) !! id = written_route id (lease_routes "eth0" one_router) None). rewrite HS.
    assert (applyLease "eth0" one_router booted = (written, Ok tt)) as HA by (by vm_compute).
    destruct (applyLease_routes _ _ _ _ HA) as (_ & _ & H & _). exact (H id). }
  assert (octets one_router) as HO by (apply octets_check; by vm_compute).
  apply (routes_at_rest RouteDemo.show dial others of_the_lease others_leave booted resting (route_id (normal r)) (normal r)).
  - exact routes_rested.
  - split; [by vm_compute|]. split; [vm_compute; tauto|]. by vm_compute.
  - apply (lease_fits "eth0" one_router booted); [exact HO|apply no_others|exact HW].
  - split; [|done]. rewrite HW. by apply written_of_lease.
  - left. by rewrite (lease_route_link "eth0" one_router).
  - intros x Hx. exact (ex_intro _ r (conj Hr Hx)).
Defined.

End RouteRunDemo.
