(* ===== verification/BootMirror.v ===== *)
(** * From udevd's runner to apid

    [ServiceMirror] carries what a service runner says to the resource of the
    service, and [ControllerRuns] has the controllers of the boot act on
    resources.  This file puts them together: the two meet in the resource of
    udevd, which the service controller writes and the device status controller
    reads. *)

From stdpp Require Import relations.
From S2P Require Import Prelude EventStream Health ServiceEvents ServiceRunner Resources ServiceController RuntimeControllers.
From S2P Require Import ServiceMirror Registration ControllerLoop ControllerRuns.

(** The last that was said of a service. *)
Definition last_word (id : string) (msgs : list ServiceStateEvent) : option ServiceStateEvent :=
  last (filter (fun msg => sse_Service msg = id) msgs).

(** What a message says, as the service controller reads it. *)
Definition says_up (msg : ServiceStateEvent) : Prop :=
  sse_Action msg = ServiceState_value StateRunning /\ exists h, sse_Health msg = Some h /\ sh_Healthy h = true.

Lemma says_up_resource msg : says_up msg -> udevd_is_up (resource_of msg).
Proof.
  intros (HA & h & HH & Hh). unfold resource_of. rewrite HA, HH, decide_True by done.
  by exists (mkServiceSpec true (sh_Healthy h) (sh_Unknown h)).
Qed.

Section boot.
Context {W B : Type} `{!SpecWriter W ServiceSpec} `{!JSON} `{!SpecWriterLaws W ServiceSpec} `{!ReliableWriter W ServiceSpec} `{!JSONLaws}
  `{!Watched B} `{!BootWorld B} `{!BootView B} `{!BootLaws B}.
Context (capacity g : Z) (e : Events) (store : W).
Context (disturb_devices disturb_apid : B -> B -> Prop)
  (ready_stays : forall b b', disturb_devices b b' -> devices_of b = Some true -> devices_of b' = Some true).

(** ** Properties *)

(** C27: udevd's word reaches apid.  Let udevd's runner have said last that it
    runs and is healthy, and let every event of a service have been published
    before its next was built ([mstep_alone]; without this the word may be
    overtaken).  When the service controller has caught up, and the device status
    and apid controllers, which work on the resource it wrote, have come to rest
    or are done, then the devices are marked ready and apid was started. *)
Theorem boot_follows_udevd w i c w0 ca wa sd sa msg :
  NewEvents capacity g = Ok e -> capacity < 2 ^ 31 -> 0 <= g ->
  rtc mstep_alone (beginning e store) w -> Z.of_nat (length (w_log (stream w))) < 2 ^ 63 -> mirrored i c w ->
  c_start c = 0 -> (forall id, spec_of ServiceSpec store id = None) ->
  last_word "udevd" (built w) = Some msg -> says_up msg ->
  reachable DeviceStatus_Run disturb_devices {[ServiceType]} w0 sd ->
  reachable Apid_Run (others_only disturb_apid) {[DevicesStatusType]} (ca, wa) sa ->
  at_rest (only {[ServiceType]}) sd tt \/ s_place sd = Finished -> at_rest (only {[DevicesStatusType]}) sa tt ->
  s_world sd = snd (s_world sa) -> udevd_of (s_world sd) = spec_of ServiceSpec (services w) "udevd" ->
  devices_of (s_world sd) = Some true /\ started (fst (s_world sa)) = true.
Proof.
  intros Hnew Hcap Hgap HR Hlen Hm Hs Hstore Hlast Hup HRd HRa Hd Ha Hw Hu.
  unfold last_word in Hlast. rewrite (mirrored_resource capacity g e store Hcap Hgap Hnew w i c "udevd" HR Hlen Hm Hs Hstore), Hlast in Hu.
  assert (devices_of (s_world sd) = Some true) as HD.
  { eapply devices_rest; [done..|]. rewrite Hu. by apply says_up_resource. }
  split; [done|]. eapply apid_rest; [done..|]. by rewrite <-Hw.
Qed.

End boot.

(** ** A boot *)

Module BootMirrorDemo.
Import ServiceDemo BootDemo MirrorDemo.

Lemma boot_follows_udevd_witness :
  devices_of (s_world BootDemo.sd) = Some true /\ RuntimeControllers.started (fst (s_world BootDemo.sa)) = true.
Proof.
  destruct (last_word "udevd" (built in_turn)) as [msg|] eqn:Hmsg; [|by vm_compute in Hmsg].
  apply (boot_follows_udevd (W := Resources.store ServiceSpec) 1000 10 events ∅ BootDemo.udev_before (fun _ _ => True) BootDemo.only_udev in_turn 0
    (controller in_turn) BootDemo.off BootDemo.fresh BootDemo.off BootDemo.sd BootDemo.sa msg).
  - exact MirrorDemo.started.
  - lia.
  - lia.
  - exact in_turn_reached.
  - by vm_compute.
  - split; [by vm_compute|]. split; [by vm_compute|]. split; by vm_compute.
  - by vm_compute.
  - done.
  - exact Hmsg.
  - vm_compute in Hmsg. injection Hmsg as <-. split; [by vm_compute|]. eexists. split; by vm_compute.
  - exact BootDemo.sd_reached.
  - exact BootDemo.sa_reached.
  - right. by vm_compute.
  - split; [by vm_compute|]. split; [vm_compute; tauto|]. by vm_compute.
  - by vm_compute.
  - by vm_compute.
Defined.

End BootMirrorDemo.
