(* ===== verification/DeepCopy.v ===== *)
(** * Deep copies of the resource specs

    Models the generated [DeepCopy] methods ([deep_copy.generated.go] of
    [pkg/machinery/resources/network], [runtime] and [v1alpha1]) and the
    [DeepCopy] of a typed resource, with which the state hands resources out.
    Slices are references into a heap of arrays, so that what is shared shows. *)

From S2P Require Import Prelude NetAddr LinkStatus ServiceController.

(** ** Arrays and slices *)

(** The elements of the slices that the specs hold. *)
Inductive element :=
| EString (s : string)
| EByte (b : Z)
| EAddr (a : Addr)
| ENameServer (ns : NameServerSpec).

Abbreviation heap := (gmap nat (list element)).

(** A slice that is not nil: its array, where it starts, and its length. *)
Record slice := mkSlice { arr : nat; off : nat; len : nat }.

Definition read (h : heap) (s : slice) : list element := take (len s) (drop (off s) (default [] (h !! arr s))).

(** [make([]T, n)]: a new array of zero values. *)
Definition make (zero : element) (n : nat) (h : heap) : heap * slice :=
  let a := fresh (dom h) in (<[a := replicate n zero]> h, mkSlice a 0 n).

(** [s[i] = v]; [None] is the panic of an index out of range. *)
Definition assign (s : slice) (i : nat) (v : element) (h : heap) : option heap :=
  if decide (i < len s)%nat
  then Some (<[arr s := <[(off s + i)%nat := v]> (default [] (h !! arr s))]> h)
  else None.

(** [copy(dst, src)]: the shorter of the two lengths; what is read is what was
    there before. *)
Definition copy (dst src : slice) (h : heap) : heap :=
  let vs := take (len dst) (read h src) in
  let l := default [] (h !! arr dst) in
  <[arr dst := take (off dst) l ++ vs ++ drop (off dst + length vs) l]> h.

(** [if o.F != nil { cp.F = make([]T, len(o.F)); copy(cp.F, o.F) }]. *)
Definition copy_field (zero : element) (f : option slice) (h : heap) : heap * option slice :=
  match f with
  | None => (h, None)
  | Some s => let '(h, s') := make zero (len s) h in (copy s' s h, Some s')
  end.

(** ** The specs, as they are in memory *)

(** The fields that an assignment copies, and the slices. *)
Record LinkStatusCell := mkLinkStatusCell {
  lc_fields : LinkStatusSpec;
  lc_AltNames : option slice;
  lc_HardwareAddr : option slice;
  lc_PermanentAddr : option slice;
  lc_BroadcastAddr : option slice
}.

Record ResolverSpecCell := mkResolverSpecCell {
  rc_DNSServers : option slice;
  rc_NameServers : option slice;
  rc_SearchDomains : option slice
}.

(** The zero values. *)
Definition zero_string : element := EString "".
Definition zero_byte : element := EByte 0.
Definition zero_addr : element := EAddr AddrZero.
Definition zero_nameserver : element := ENameServer (mkNameServerSpec AddrZero 0 "").

Definition LinkStatusSpec_DeepCopy (o : LinkStatusCell) (h : heap) : heap * LinkStatusCell :=
  let '(h, AltNames) := copy_field zero_string (lc_AltNames o) h in
  let '(h, HardwareAddr) := copy_field zero_byte (lc_HardwareAddr o) h in
  let '(h, PermanentAddr) := copy_field zero_byte (lc_PermanentAddr o) h in
  let '(h, BroadcastAddr) := copy_field zero_byte (lc_BroadcastAddr o) h in
  (h, mkLinkStatusCell (lc_fields o) AltNames HardwareAddr PermanentAddr BroadcastAddr).

Definition ResolverSpecSpec_DeepCopy (o : ResolverSpecCell) (h : heap) : heap * ResolverSpecCell :=
  let '(h, DNSServers) := copy_field zero_addr (rc_DNSServers o) h in
  let '(h, NameServers) := copy_field zero_nameserver (rc_NameServers o) h in
  let '(h, SearchDomains) := copy_field zero_string (rc_SearchDomains o) h in
  (h, mkResolverSpecCell DNSServers NameServers SearchDomains).

(** The specs without slices: the assignment is the copy. *)
Definition AddressSpecSpec_DeepCopy (o : AddressSpecSpec) (h : heap) : heap * AddressSpecSpec := (h, o).
Definition RouteSpecSpec_DeepCopy (o : RouteSpecSpec) (h : heap) : heap * RouteSpecSpec := (h, o).
Definition ServiceSpec_DeepCopy (o : ServiceSpec) (h : heap) : heap * ServiceSpec := (h, o).

Record DevicesStatusSpec := mkDevicesStatusSpec { Ready : bool }.
Definition DevicesStatusSpec_DeepCopy (o : DevicesStatusSpec) (h : heap) : heap * DevicesStatusSpec := (h, o).

(** ** The resources *)

(** [DeepCopyable]. *)
Class DeepCopyable (T : Type) := DeepCopy : T -> heap -> heap * T.

#[export] Instance LinkStatus_copyable : DeepCopyable LinkStatusCell := LinkStatusSpec_DeepCopy.
#[export] Instance ResolverSpec_copyable : DeepCopyable ResolverSpecCell := ResolverSpecSpec_DeepCopy.
#[export] Instance AddressSpec_copyable : DeepCopyable AddressSpecSpec := AddressSpecSpec_DeepCopy.
#[export] Instance RouteSpec_copyable : DeepCopyable RouteSpecSpec := RouteSpecSpec_DeepCopy.
#[export] Instance ServiceSpec_copyable : DeepCopyable ServiceSpec := ServiceSpec_DeepCopy.
#[export] Instance DevicesStatus_copyable : DeepCopyable DevicesStatusSpec := DevicesStatusSpec_DeepCopy.

(** [typed.Resource] and its [DeepCopy]. *)
Record Resource (T MD : Type) := mkResource { spec : T; md : MD }.
Arguments mkResource {T MD} _ _.
Arguments spec {T MD} _.
Arguments md {T MD} _.

Definition Resource_DeepCopy {T MD} `{DeepCopyable T} (t : Resource T MD) (h : heap) : heap * Resource T MD :=
  let '(h, s) := DeepCopy (spec t) h in (h, mkResource s (md t)).

(** ** What a copy promises *)

(** The slices of a spec. *)
Definition link_slices (o : LinkStatusCell) : list (option slice) :=
  [lc_AltNames o; lc_HardwareAddr o; lc_PermanentAddr o; lc_BroadcastAddr o].

Definition resolver_slices (o : ResolverSpecCell) : list (option slice) :=
  [rc_DNSServers o; rc_NameServers o; rc_SearchDomains o].

(** A slice lies within its array. *)
Definition valid (h : heap) (s : slice) : Prop := exists l, h !! arr s = Some l /\ (off s + len s <= length l)%nat.

Definition all_valid (h : heap) (l : list (option slice)) : Prop := forall s, Some s ∈ l -> valid h s.

(** [l'] copies [l]: nil for nil, equal contents in new arrays, all different. *)
Record copies (h h' : heap) (l l' : list (option slice)) : Prop := {
  cp_same : Forall2 (fun s s' => match s, s' with
                                 | None, None => True
                                 | Some s, Some s' => read h' s' = read h s /\ len s' = len s /\ off s' = 0%nat
                                 | _, _ => False
                                 end) l l';
  cp_new s : Some s ∈ l' -> ~ (arr s ∈ dom h) /\ valid h' s;
  cp_distinct : NoDup (arr <$> omap id l');
  cp_old a : a ∈ dom h -> h' !! a = h !! a
}.

(** The slices [l'] of a copy made from [h], in [h'], and those of the original:
    nil for nil and the same contents otherwise; what was there is as it was;
    and an assignment through a slice of the copy shows in no slice that was
    there before and in no other slice of the copy, nor one through a slice that
    was there before in the copy. *)
Record independent (h h' : heap) (l l' : list (option slice)) : Prop := {
  in_same : Forall2 (fun s s' => read h' <$> s' = read h <$> s) l l';
  in_old s : valid h s -> read h' s = read h s;
  in_assign j s' i v h2 : l' !! j = Some (Some s') -> assign s' i v h' = Some h2 ->
    (forall s, valid h s -> read h2 s = read h s) /\
    (forall k s'', l' !! k = Some (Some s'') -> j <> k -> read h2 s'' = read h' s'');
  in_unseen s s' i v h2 : valid h s -> Some s' ∈ l' -> assign s i v h' = Some h2 -> read h2 s' = read h' s'
}.

(** ** Lemmas *)

Lemma read_insert_ne h a l s : a <> arr s -> read (<[a := l]> h) s = read h s.
Proof. intros Hn. unfold read. by rewrite lookup_insert_ne. Qed.

Lemma read_length h s : valid h s -> length (read h s) = len s.
Proof. intros (l & Hl & Hb). unfold read. rewrite Hl. cbn [default from_option id]. rewrite length_take, length_drop. unfold id. lia. Qed.

Lemma valid_in_dom h s : valid h s -> arr s ∈ dom h.
Proof. intros (l & Hl & _). by apply elem_of_dom_2 in Hl. Qed.

Lemma copies_nil h : copies h h [] [].
Proof. split; [constructor|by intros ? ?%elem_of_nil|constructor|done]. Qed.

(** A field is copied into one new array. *)
Lemma copy_field_some zero s h :
  valid h s ->
  copy_field zero (Some s) h = (<[fresh (dom h) := read h s]> (<[fresh (dom h) := replicate (len s) zero]> h), Some (mkSlice (fresh (dom h)) 0 (len s))).
Proof.
  intros Hv. pose proof (is_fresh (dom h)) as HF. pose proof (valid_in_dom _ _ Hv) as Hin.
  unfold copy_field, make, copy. cbn [arr off len].
  rewrite read_insert_ne by congruence. rewrite lookup_insert_eq. cbn [default from_option].
  rewrite (take_ge (read h s)) by (by rewrite read_length). rewrite take_0. cbn [app]. rewrite drop_ge; [by rewrite app_nil_r|].
  unfold id. rewrite length_replicate, read_length; [lia|done].
Qed.

Lemma Forall2_in_r {A B} (P : A -> B -> Prop) l l' : Forall2 P l l' -> Forall2 (fun x y => y ∈ l' /\ P x y) l l'.
Proof.
  intros HF. apply Forall2_same_length_lookup in HF as [HL HF]. apply Forall2_same_length_lookup. split; [done|].
  intros i x y Hx Hy. split; [by eapply list_elem_of_lookup_2|by eapply HF].
Qed.

(** One more field after those that have been copied. *)
Lemma copies_snoc zero f h h1 h2 l l' f' :
  copies h h1 l l' -> (forall s, f = Some s -> valid h s) -> copy_field zero f h1 = (h2, f') ->
  copies h h2 (l ++ [f]) (l' ++ [f']).
Proof.
  intros [H1 H2 H3 H4] Hv HC. destruct f as [s|].
  2:{ injection HC as <- <-. split; [apply Forall2_app; [done|by constructor]| |by rewrite omap_app, app_nil_r|done].
      intros s [Hs|Hs%list_elem_of_singleton]%elem_of_app; [by apply H2|done]. }
  specialize (Hv s eq_refl). pose proof (valid_in_dom _ _ Hv) as Hin.
  assert (valid h1 s) as Hv1 by (unfold valid; by rewrite H4).
  assert (read h1 s = read h s) as Hr by (unfold read; by rewrite H4).
  rewrite copy_field_some in HC by done. rewrite insert_insert_eq in HC. injection HC as <- <-.
  set (a := fresh (dom h1)). pose proof (is_fresh (dom h1)) as HF. fold a in HF.
  assert (forall x, x ∈ dom h -> x ∈ dom h1) as Hdom by (intros x; rewrite !elem_of_dom; intros Hx; by rewrite H4 by (by apply elem_of_dom)).
  split.
  - apply Forall2_app.
    + eapply Forall2_impl; [apply Forall2_in_r, H1|]. cbn beta. intros [x|] [y|] [Hy HP]; try done.
      rewrite read_insert_ne; [done|]. intros E. apply HF. rewrite E. by apply valid_in_dom, H2.
    + constructor; [|constructor]. split; [|done]. unfold read at 1. cbn [arr off len]. rewrite lookup_insert_eq.
      cbn [default from_option]. rewrite drop_0, Hr, take_ge; [done|]. unfold id. by rewrite read_length.
  - intros x [Hx|Hx%list_elem_of_singleton]%elem_of_app.
    + destruct (H2 x Hx) as [Hn (l0 & Hl & Hb)]. split; [done|]. exists l0. split; [|done].
      rewrite lookup_insert_ne; [done|]. intros E. apply HF. rewrite E. by apply elem_of_dom_2 in Hl.
    + injection Hx as ->. cbn [arr]. split; [auto|]. eexists. cbn [arr off len]. rewrite lookup_insert_eq. split; [done|].
      by rewrite read_length.
  - rewrite omap_app, fmap_app. apply NoDup_app. split; [done|]. split; [|apply NoDup_singleton].
    intros x Hx ->%list_elem_of_singleton. apply list_elem_of_fmap in Hx as (y & Ex & (z & Hz & Ez)%list_elem_of_omap).
    unfold id in Ez. subst z. cbn [arr] in Ex. apply HF. rewrite Ex. by apply valid_in_dom, H2.
  - intros x Hx. rewrite lookup_insert_ne; [by apply H4|]. intros <-. auto.
Qed.

Lemma LinkStatusSpec_copies o h h' o' :
  all_valid h (link_slices o) -> LinkStatusSpec_DeepCopy o h = (h', o') ->
  lc_fields o' = lc_fields o /\ copies h h' (link_slices o) (link_slices o').
Proof.
  intros HV HC. unfold LinkStatusSpec_DeepCopy in HC.
  destruct (copy_field zero_string _ _) as [h1 f1] eqn:E1. destruct (copy_field zero_byte _ h1) as [h2 f2] eqn:E2.
  destruct (copy_field zero_byte _ h2) as [h3 f3] eqn:E3. destruct (copy_field zero_byte _ h3) as [h4 f4] eqn:E4.
  injection HC as <- <-. split; [done|].
  assert (forall f, f ∈ link_slices o -> forall s, f = Some s -> valid h s) as Hv by (intros f Hf s ->; by apply HV).
  refine (copies_snoc _ _ h h3 h4 [_; _; _] [_; _; _] _ (copies_snoc _ _ h h2 h3 [_; _] [_; _] _
    (copies_snoc _ _ h h1 h2 [_] [_] _ (copies_snoc _ _ h h h1 [] [] _ (copies_nil h) _ E1) _ E2) _ E3) _ E4);
    apply Hv; simpl; set_solver.
Qed.

Lemma ResolverSpecSpec_copies o h h' o' :
  all_valid h (resolver_slices o) -> ResolverSpecSpec_DeepCopy o h = (h', o') ->
  copies h h' (resolver_slices o) (resolver_slices o').
Proof.
  intros HV HC. unfold ResolverSpecSpec_DeepCopy in HC.
  destruct (copy_field zero_addr _ _) as [h1 f1] eqn:E1. destruct (copy_field zero_nameserver _ h1) as [h2 f2] eqn:E2.
  destruct (copy_field zero_string _ h2) as [h3 f3] eqn:E3. injection HC as <- <-.
  assert (forall f, f ∈ resolver_slices o -> forall s, f = Some s -> valid h s) as Hv by (intros f Hf s ->; by apply HV).
  refine (copies_snoc _ _ h h2 h3 [_; _] [_; _] _
    (copies_snoc _ _ h h1 h2 [_] [_] _ (copies_snoc _ _ h h h1 [] [] _ (copies_nil h) _ E1) _ E2) _ E3);
    apply Hv; simpl; set_solver.
Qed.

(** An assignment shows in the slices of its array only. *)
Lemma assign_other s i v h h' s' : assign s i v h = Some h' -> arr s <> arr s' -> read h' s' = read h s'.
Proof. unfold assign. case_decide; [|done]. intros [= <-] Hn. by apply read_insert_ne. Qed.

Lemma omap_fmap_distinct (l : list (option slice)) j k s1 s2 :
  NoDup (arr <$> omap id l) -> l !! j = Some (Some s1) -> l !! k = Some (Some s2) -> j <> k -> arr s1 <> arr s2.
Proof.
  revert j k. induction l as [|f l IH]; intros j k HN Hj Hk Hne; [done|].
  assert (forall i s, l !! i = Some (Some s) -> arr s ∈ arr <$> omap id l) as HI.
  { intros i s Hi. apply list_elem_of_fmap_2, list_elem_of_omap. exists (Some s). split; [by eapply list_elem_of_lookup_2|done]. }
  destruct f as [s|]; cbn [omap list_omap id] in HN; [|destruct j, k; simpl in Hj, Hk; try done; eapply (IH j k); eauto].
  apply NoDup_cons in HN as [Hni HN]. destruct j as [|j], k as [|k]; simpl in Hj, Hk; [done| | |eapply (IH j k); eauto].
  - injection Hj as ->. intros E. apply Hni. rewrite E. by eapply HI.
  - injection Hk as ->. intros E. apply Hni. rewrite <-E. by eapply HI.
Qed.

Lemma copies_independent h h' l l' : copies h h' l l' -> independent h h' l l'.
Proof.
  intros [H1 H2 H3 H4].
  assert (forall s, valid h s -> read h' s = read h s) as HO by (intros s Hs; unfold read; by rewrite H4 by (by apply valid_in_dom)).
  split.
  - eapply Forall2_impl; [exact H1|]. intros [s|] [s'|] Hs; try done. destruct Hs as [Hs _]. simpl. by rewrite Hs.
  - exact HO.
  - intros j s' i v h2 Hj HA. destruct (H2 s' (list_elem_of_lookup_2 _ _ _ Hj)) as [Hn _]. split.
    + intros s Hs. rewrite (assign_other _ _ _ _ _ _ HA); [by apply HO|]. intros E. apply Hn. rewrite E. by apply valid_in_dom.
    + intros k s'' Hk Hne. apply (assign_other _ _ _ _ _ _ HA). by apply (omap_fmap_distinct l' j k).
  - intros s s' i v h2 Hs Hs' HA. destruct (H2 s' Hs') as [Hn _]. apply (assign_other _ _ _ _ _ _ HA).
    intros E. apply Hn. rewrite <-E. by apply valid_in_dom.
Qed.

(** ** Properties *)

(** C34: A deep copy is a copy.  Of the two specs of the program that hold
    slices, in any resource and in any heap in which the slices lie within
    their arrays (and may share them): the metadata and the plain fields are the
    same; a nil slice stays nil, another one, empty ones too, has the same
    contents; nothing that was there changes; and from then on an assignment
    through a slice of the copy shows in no slice that was there before and in
    no other of the copy, nor one through a slice that was there before in the
    copy.  The copy of a spec without slices is the assignment, and leaves the
    heap alone. *)
Theorem deep_copy_independent MD h h' :
  (forall (t t' : Resource LinkStatusCell MD), all_valid h (link_slices (spec t)) ->
     Resource_DeepCopy t h = (h', t') ->
     md t' = md t /\ lc_fields (spec t') = lc_fields (spec t) /\
     independent h h' (link_slices (spec t)) (link_slices (spec t'))) /\
  (forall (t t' : Resource ResolverSpecCell MD), all_valid h (resolver_slices (spec t)) ->
     Resource_DeepCopy t h = (h', t') ->
     md t' = md t /\ independent h h' (resolver_slices (spec t)) (resolver_slices (spec t'))) /\
  (forall t : Resource AddressSpecSpec MD, Resource_DeepCopy t h = (h, t)) /\
  (forall t : Resource RouteSpecSpec MD, Resource_DeepCopy t h = (h, t)) /\
  (forall t : Resource ServiceSpec MD, Resource_DeepCopy t h = (h, t)) /\
  (forall t : Resource DevicesStatusSpec MD, Resource_DeepCopy t h = (h, t)).
Proof.
  split_and!; try by intros [s m].
  - intros t t' HV HD. unfold Resource_DeepCopy, DeepCopy, LinkStatus_copyable in HD.
    destruct (LinkStatusSpec_DeepCopy (spec t) h) as [h1 o] eqn:E. injection HD as <- <-.
    destruct (LinkStatusSpec_copies _ _ _ _ HV E) as [HF HC%copies_independent]. done.
  - intros t t' HV HD. unfold Resource_DeepCopy, DeepCopy, ResolverSpec_copyable in HD.
    destruct (ResolverSpecSpec_DeepCopy (spec t) h) as [h1 o] eqn:E. injection HD as <- <-.
    by split; [|apply copies_independent, ResolverSpecSpec_copies].
Qed.

(** Two addresses that share their bytes; the other slices are nil, or empty. *)
Definition demo_heap : heap := {[0%nat := [EByte 2; EByte 66; EByte 10; EByte 0; EByte 0; EByte 1]; 1%nat := []]}.

Definition demo_link : Resource LinkStatusCell string :=
  mkResource (mkLinkStatusCell
    (mkLinkStatusSpec "" [] 2 1 0 0 [] [] [] 1500 "" 0 0 "" "" "" "" "" "" "" "" "" "" "" true 0 0 0)
    (Some (mkSlice 1 0 0)) (Some (mkSlice 0 0 6)) (Some (mkSlice 0 0 6)) None) "eth0".

Lemma deep_copy_independent_witness :
  exists h' t' s' h2, Resource_DeepCopy demo_link demo_heap = (h', t') /\
    lc_HardwareAddr (spec t') = Some s' /\ assign s' 0 (EByte 255) h' = Some h2 /\
    read h2 (mkSlice 0 0 6) = read demo_heap (mkSlice 0 0 6).
Proof.
  destruct (Resource_DeepCopy demo_link demo_heap) as [h' t'] eqn:E.
  assert (valid demo_heap (mkSlice 0 0 6)) as HV by (exists [EByte 2; EByte 66; EByte 10; EByte 0; EByte 0; EByte 1]; split; [reflexivity|simpl; lia]).
  assert (all_valid demo_heap (link_slices (spec demo_link))) as HA.
  { intros s Hs. simpl in Hs. apply elem_of_cons in Hs as [[= ->]|Hs]; [by exists []|].
    apply elem_of_cons in Hs as [[= ->]|Hs]; [exact HV|]. apply elem_of_cons in Hs as [[= ->]|Hs]; [exact HV|].
    by apply list_elem_of_singleton in Hs. }
  destruct (proj1 (deep_copy_independent string demo_heap h') demo_link t' HA E) as (_ & _ & HI).
  assert (exists h2, assign (mkSlice 3 0 6) 0 (EByte 255) h' = Some h2) as [h2 E2].
  { vm_compute in E. injection E as <- _. eexists. vm_compute. reflexivity. }
  assert (lc_HardwareAddr (spec t') = Some (mkSlice 3 0 6)) as E3 by (vm_compute in E; by injection E as _ <-).
  exists h', t', (mkSlice 3 0 6), h2. split; [reflexivity|]. split; [exact E3|]. split; [exact E2|].
  refine (proj1 (in_assign _ _ _ _ HI 1%nat (mkSlice 3 0 6) 0%nat (EByte 255) h2 _ E2) _ HV).
  unfold link_slices. cbn [lookup list_lookup]. by rewrite E3.
Defined.
