(* ===== verification/Machined.v ===== *)
(** * PID 1: boot, signals and the shutdown

    Models [mount.go], [main.go] and [controller.go] of
    [internal/app/machined]: the mounts, the setup that [main] does with the
    state, the loggers and the controllers, the channel of signals, the main
    loop and the shutdown.  The system calls are recorded in the order they are
    made; what the kernel answers to them is an argument. *)

From stdpp Require Import pretty.
From S2P Require Import Prelude Runners EventStream Logging Registration.

(** ** Mounts (mount.go) *)

(** [flags] is an uintptr. *)
Record mountSpec := mkMountSpec { source : string; target : string; fstype : string; flags : Z; data : string }.

#[export] Instance mountSpec_eq_dec : EqDecision mountSpec.
Proof. solve_decision. Defined.

Definition MS_NOSUID : Z := 2.
Definition MS_NODEV : Z := 4.
Definition MS_NOEXEC : Z := 8.

Definition essentialMounts : list mountSpec :=
  [ mkMountSpec "proc" "/proc" "proc" (Z.lor (Z.lor MS_NOSUID MS_NOEXEC) MS_NODEV) "";
    mkMountSpec "sysfs" "/sys" "sysfs" (Z.lor (Z.lor MS_NOSUID MS_NOEXEC) MS_NODEV) "";
    mkMountSpec "devtmpfs" "/dev" "devtmpfs" MS_NOSUID "mode=0755";
    mkMountSpec "devpts" "/dev/pts" "devpts" (Z.lor MS_NOSUID MS_NOEXEC) "mode=0620,gid=5,ptmxmode=0666";
    mkMountSpec "tmpfs" "/dev/shm" "tmpfs" (Z.lor MS_NOSUID MS_NODEV) "mode=1777";
    mkMountSpec "tmpfs" "/run" "tmpfs" (Z.lor MS_NOSUID MS_NODEV) "mode=0755";
    mkMountSpec "cgroup2" "/sys/fs/cgroup" "cgroup2" (Z.lor (Z.lor MS_NOSUID MS_NOEXEC) MS_NODEV) "" ].

(** The calls to the kernel. *)
Inductive action :=
| AMkdir (target : string)
| AMount (m : mountSpec)
| ANotify (signals : list Z)
| AController
| AShutdownServices
| ASync
| AUnmount (target : string)
| AReboot (cmd : Z).

#[export] Instance action_eq_dec : EqDecision action.
Proof. solve_decision. Defined.

Definition EBUSY : error := ESentinel "device or resource busy".

(** [mkdir] and [mount] are the kernel's answers; [None] is success. *)
Fixpoint mountAll (mkdir : string -> option error) (mount : mountSpec -> option error) (specs : list mountSpec)
    : list action * option error :=
  match specs with
  | [] => ([], None)
  | m :: specs =>
    match mkdir (target m) with
    | Some err => ([AMkdir (target m)], Some (EWrap ("mkdir " +:+ target m +:+ ": ") err ""))
    | None =>
      let rest := mountAll mkdir mount specs in
      match mount m with
      | None => (AMkdir (target m) :: AMount m :: fst rest, snd rest)
      | Some err =>
        if decide (err = EBUSY) then (AMkdir (target m) :: AMount m :: fst rest, snd rest)
        else ([AMkdir (target m); AMount m],
              Some (EWrap ("mount " +:+ source m +:+ " on " +:+ target m +:+ " (" +:+ fstype m +:+ "): ") err ""))
      end
    end
  end.

(** The index runs down from the last; errors are only logged. *)
Fixpoint unmount_from (i : nat) (specs : list mountSpec) : list action :=
  match i with
  | O => []
  | S i => match specs !! i with Some m => AUnmount (target m) :: unmount_from i specs | None => unmount_from i specs end
  end.

Definition syncAndUnmountAll (specs : list mountSpec) : list action := ASync :: unmount_from (length specs) specs.

(** ** The runtime (runtime.go, main.go) *)

(** [Runtime]: the logging manager, the events and the state. *)
Record Runtime := mkRuntime { rt_l : LoggingManager; rt_e : Events; rt_s : store }.

Definition NewRuntime (l : LoggingManager) (e : Events) (s : store) : Runtime := mkRuntime l e s.
Definition Runtime_Logging (r : Runtime) : LoggingManager := rt_l r.
Definition Runtime_State (r : Runtime) : store := rt_s r.
Definition Runtime_Events (r : Runtime) : Events := rt_e r.
Definition Runtime_ResetRestartBackoff (r : Runtime) : Runtime := r.

(** ** The root controller (controller.go) *)

(** [Controller]; its controller runtime is the dependency database, with the
    logger and the state that it got. *)
Record Controller := mkController {
  controllerRuntime : store * zap_logger * database;
  loggingManager : LoggingManager;
  consoleLogLevel : Level;
  logger : zap_logger;
  v1alpha1Runtime : Runtime
}.

(** [osruntime.NewRuntime], without options. *)
Definition osruntime_NewRuntime (st : store) (l : zap_logger) : store * zap_logger * database := (st, l, empty_database).

(** A result in the monad. *)
Definition lift_result {W A} (r : result A) : M W A := fun w => (w, r).

Definition MakeLogger (manager : LoggingManager) (consoleLevel : Level) (serviceName : string) : M files zap_logger :=
  logWriter ← Writer (ServiceLog manager serviceName);
  l ← lift_result (ZapLogger
         [NewLogDestination (ServiceWriter logWriter) DebugLevel [];
          NewLogDestination StdWriter consoleLevel [WithoutTimestamp; WithoutLogLevels]]);
  mret (With_ (Component serviceName) l).

Definition NewController (rt : Runtime) : M files Controller :=
  l ← MakeLogger (Runtime_Logging rt) DebugLevel "controller-runtime";
  mret (mkController (osruntime_NewRuntime (Runtime_State rt) l) (Runtime_Logging rt) DebugLevel l rt).

(** [Controller.Run], up to the run of the controller runtime. *)
Definition Run (ctrl : Controller) : database * result unit :=
  Registration.Controller_Run os_controllers (snd (controllerRuntime ctrl)).

(** ** What the standard logger prints (main.go) *)

(** The prefix and the flags that [main] sets: the date, the time with its
    microseconds, and a newline when the line has none at its end. *)
Definition log_prefix : string := "[machined] ".

Definition newline : Ascii.ascii := Ascii.ascii_of_nat 10.

Definition log_Print (now : time) (line : string) : string :=
  log_prefix +:+ stamped_line now line +:+ (if decide (last_char line = Some newline) then "" else String newline EmptyString).

(** The console and the files. *)
Record log_world := mkLogWorld { console : list string; log_files : files }.

Definition machined_writers (now : time) (dest : io_Writer) : writer log_world :=
  match dest with
  | LogWrapper log =>
    logWrapper_Write (fun _ line w => mkLogWorld (console w ++ [log_Print now line]) (log_files w)) log
  | ServiceWriter lw => fun p w =>
    let '(fs, r) := log_Write now lw p (log_files w) in (mkLogWorld (console w) fs, r)
  end.

(** ** Signals and shutdown (main.go) *)

Definition SIGINT : Z := 2.
Definition SIGUSR1 : Z := 10.
Definition SIGUSR2 : Z := 12.
Definition SIGTERM : Z := 15.
Definition SIGCHLD : Z := 17.

(** The signals of [signal.Notify]. *)
Definition notified : list Z := [SIGCHLD; SIGTERM; SIGINT; SIGUSR1; SIGUSR2].

Definition LINUX_REBOOT_CMD_RESTART : Z := 19088743.
Definition LINUX_REBOOT_CMD_POWER_OFF : Z := 1126301404.

(** Where [main] ends up: it waits for a signal, or for the services to be
    down; it returns, or exits. *)
Inductive ending := Waits | WaitsForServices | Returns | Exits (code : Z) (msg : string).

(** [svc.Shutdown(context.Background())]: the services that are loaded, and
    which of them come down, by then or later.  The call waits for all of them,
    and its context is never cancelled. *)
Record loaded_services := mkLoaded { loaded : list string; comes_down : string -> bool }.

Definition Shutdown_returns (svc : loaded_services) : bool := forallb (comes_down svc) (loaded svc).

(** [reboot] is the kernel's answer to [unix.Reboot]. *)
Definition shutdown (svc : loaded_services) (reboot : Z -> option error) (mounts : list mountSpec) (poweroff : bool)
    : list action * ending :=
  if Shutdown_returns svc then
    let cmd := if poweroff then LINUX_REBOOT_CMD_POWER_OFF else LINUX_REBOOT_CMD_RESTART in
    (AShutdownServices :: syncAndUnmountAll mounts ++ [AReboot cmd],
     match reboot cmd with Some err => Exits 1 ("reboot syscall failed: " +:+ Error err) | None => Returns end)
  else ([AShutdownServices], WaitsForServices).

(** The main loop on the signals it receives. *)
Fixpoint main_loop (svc : loaded_services) (reboot : Z -> option error) (mounts : list mountSpec) (signals : list Z)
    : list action * ending :=
  match signals with
  | [] => ([], Waits)
  | sig :: signals =>
    if decide (sig = SIGCHLD) then main_loop svc reboot mounts signals
    else if decide (sig = SIGTERM \/ sig = SIGINT) then shutdown svc reboot mounts false
    else if decide (sig = SIGUSR2) then shutdown svc reboot mounts true
    else main_loop svc reboot mounts signals
  end.

(** *** The channel of signals *)

Definition sigCh_cap : nat := 8.

(** The channel, and the signals that the loop has received. *)
Record signals := mkSignals { sigCh : list Z; received : list Z }.

Inductive signal_event := Arrive (sig : Z) | Receive.

(** [signal.Notify] does not block: what finds the channel full is dropped. *)
Definition signal_step (s : signals) (ev : signal_event) : signals :=
  match ev with
  | Arrive sig =>
    if decide (sig ∈ notified /\ (length (sigCh s) < sigCh_cap)%nat)
    then mkSignals (sigCh s ++ [sig]) (received s) else s
  | Receive =>
    match sigCh s with
    | [] => s
    | sig :: q => mkSignals q (received s ++ [sig])
    end
  end.

Definition no_signals : signals := mkSignals [] [].

(** ** The boot (main.go) *)

Record kernel := mkKernel {
  Getpid : Z;
  Mkdir : string -> option error;
  Mount : mountSpec -> option error;
  Reboot : Z -> option error
}.

(** The calls made, and the open files. *)
Record machine := mkMachine { acts : list action; open : files }.

Definition issue (l : list action) : M machine unit := fun m => (mkMachine (acts m ++ l) (open m), Ok tt).

Definition on_files {A} (f : M files A) : M machine A := fun m =>
  let '(fs, r) := f (open m) in (mkMachine (acts m) fs, r).

Definition mount_all (k : kernel) : M machine unit := fun m =>
  let '(l, err) := mountAll (Mkdir k) (Mount k) essentialMounts in
  (mkMachine (acts m ++ l) (open m), match err with Some e => Err e | None => Ok tt end).

(** [main], up to its loop; an error is the text of [log.Fatalf]. *)
Definition boot `{Pluralize} (k : kernel) : M machine Controller :=
  if decide (Getpid k = 1) then
    _ ← wrap_err "mount setup failed: " (mount_all k);
    _ ← issue [ANotify notified];
    e ← lift_result (NewEvents 1000 10);
    s ← wrap_err "state setup failed: " (lift_result (let '(s, r) := NewState empty_store in
           match r with Ok _ => Ok s | Err err => Err err | Panic msg => Panic msg end));
    ctrl ← wrap_err "could not create root controller: " (on_files (NewController (NewRuntime NullLoggingManager e s)));
    _ ← issue [AController];
    mret ctrl
  else fail (EMsg ("machined must run as PID 1, got pid " +:+ pretty (Getpid k))).

Definition main `{Pluralize} (k : kernel) (svc : loaded_services) (sigs : list Z) (m : machine) : machine * ending :=
  match boot k m with
  | (m, Err err) => (m, Exits 1 (Error err))
  | (m, Panic msg) => (m, Exits 2 msg)
  | (m, Ok _) =>
    let '(l, e) := main_loop svc (Reboot k) essentialMounts sigs in (mkMachine (acts m ++ l) (open m), e)
  end.

(** ** Lemmas *)

Lemma unmount_from_rev specs : unmount_from (length specs) specs = (fun m => AUnmount (target m)) <$> rev specs.
Proof.
  induction specs as [|m specs IH] using rev_ind; [done|].
  rewrite length_app, Nat.add_1_r. cbn [unmount_from]. rewrite lookup_app_r, Nat.sub_diag by lia. cbn [lookup list_lookup].
  rewrite rev_unit, fmap_cons. f_equal. rewrite <-IH.
  assert (forall k l, (k <= length l)%nat -> unmount_from k (l ++ [m]) = unmount_from k l) as HE; [|by apply HE].
  intros k l. induction k as [|k IHk]; intros Hk; [done|]. cbn [unmount_from].
  rewrite lookup_app_l by lia. rewrite IHk by lia. done.
Qed.

(** [a] is a directory above [b]. *)
Definition above (a b : string) : bool := String.prefix (a +:+ "/") b.

(** A directory is mounted before what is mounted below it. *)
Lemma essential_nested i j m m' :
  essentialMounts !! i = Some m -> essentialMounts !! j = Some m' -> above (target m) (target m') = true -> (i < j)%nat.
Proof.
  intros Hi Hj Ha.
  assert (forallb (fun p => implb (above (target p.1.2) (target p.2.2)) (bool_decide (p.1.1 < p.2.1)%nat))
    (list_prod (zip (seq 0 7) essentialMounts) (zip (seq 0 7) essentialMounts)) = true) as HF by (by vm_compute).
  rewrite forallb_forall in HF. specialize (HF ((i, m), (j, m'))). cbn [fst snd] in HF. rewrite Ha in HF.
  assert (forall k x, essentialMounts !! k = Some x -> In (k, x) (zip (seq 0 7) essentialMounts)) as HZ.
  { intros k x Hk. apply list_elem_of_In, list_elem_of_lookup. exists k.
    apply lookup_zip_with_Some. exists k, x. split_and!; [done|apply lookup_seq|done].
    split; [done|exact (lookup_lt_Some _ _ _ Hk)]. }
  eapply bool_decide_eq_true_1. apply HF, in_prod; by apply HZ.
Qed.

(** The signals that end the main loop. *)
Definition terminating (sig : Z) : Prop := sig = SIGTERM \/ sig = SIGINT \/ sig = SIGUSR2.

Lemma Shutdown_returns_iff svc : Shutdown_returns svc = true <-> forall id, id ∈ loaded svc -> comes_down svc id = true.
Proof.
  unfold Shutdown_returns. rewrite forallb_forall. split; intros H id Hid; apply H; by apply list_elem_of_In.
Qed.

Lemma main_loop_run svc reboot mounts before sig after :
  Forall (fun s => ~ terminating s) before -> terminating sig ->
  main_loop svc reboot mounts (before ++ sig :: after) = shutdown svc reboot mounts (bool_decide (sig = SIGUSR2)).
Proof.
  intros HB HT. induction HB as [|s before Hs HB IH]; simpl app; cbn [main_loop].
  - by destruct HT as [->|[->| ->]].
  - unfold terminating in Hs. destruct (decide (s = SIGCHLD)); [exact IH|].
    rewrite (decide_False (P := s = SIGTERM \/ s = SIGINT)), (decide_False (P := s = SIGUSR2)) by tauto. exact IH.
Qed.

(** The signals that arrive. *)
Definition arrivals (evs : list signal_event) : list Z :=
  omap (fun ev => match ev with Arrive sig => if decide (sig ∈ notified) then Some sig else None | Receive => None end) evs.

Definition run_signals (evs : list signal_event) (s : signals) : signals := foldl signal_step s evs.

Lemma run_signals_app a b s : run_signals (a ++ b) s = run_signals b (run_signals a s).
Proof. apply foldl_app. Qed.

(** What has been accepted is in the order of arrival, and no more than fits is
    pending. *)
Record signals_ok (arrived : list Z) (s : signals) : Prop := {
  so_order : (received s ++ sigCh s) `sublist_of` arrived;
  so_bound : (length (sigCh s) <= sigCh_cap)%nat;
  so_all : (length arrived <= sigCh_cap)%nat -> received s ++ sigCh s = arrived
}.

Lemma signals_step_ok evs ev s : signals_ok (arrivals evs) s -> signals_ok (arrivals (evs ++ [ev])) (signal_step s ev).
Proof.
  intros [H1 H2 H3]. unfold arrivals in *. rewrite omap_app. cbn [omap list_omap].
  destruct ev as [sig|]; cbn [signal_step].
  - destruct (decide (sig ∈ notified)) as [Hn|Hn].
    + destruct (decide _) as [[_ Hl]|Hf]; cbn [received sigCh].
      * split; cbn [received sigCh]; rewrite ?length_app; cbn [length].
        -- rewrite app_assoc. by apply sublist_app.
        -- lia.
        -- intros Hlen. rewrite app_assoc, H3 by lia. done.
      * split; [by apply sublist_inserts_r|done|]. rewrite length_app. cbn [length]. intros Hlen.
        exfalso. apply Hf. split; [done|]. rewrite <-H3, length_app in Hlen by lia. lia.
    + rewrite decide_False by tauto. by rewrite app_nil_r.
  - rewrite app_nil_r. destruct (sigCh s) as [|sig q] eqn:E; [split; rewrite ?E; done|].
    split; cbn [received sigCh]; [by rewrite <-app_assoc|simpl in H2; lia|]. intros Hlen. rewrite <-app_assoc. by apply H3.
Qed.

Lemma run_signals_ok evs : signals_ok (arrivals evs) (run_signals evs no_signals).
Proof.
  induction evs as [|ev evs IH] using rev_ind; [by split; cbn; [apply sublist_nil_l|lia|]|].
  rewrite run_signals_app. by apply signals_step_ok.
Qed.

Lemma receive_all s : run_signals (replicate (length (sigCh s)) Receive) s = mkSignals [] (received s ++ sigCh s).
Proof.
  destruct s as [q r]. cbn [sigCh received]. revert r. induction q as [|x q IH]; intros r; cbn; [by rewrite app_nil_r|].
  etrans; [exact (IH (r ++ [x]))|]. by rewrite <-app_assoc.
Qed.

(** *** The loggers of the controllers *)

Definition service_config : EncoderConfig := mkConfig (Some "ISO8601") (Some "Capital") " " "error".
Definition console_config : EncoderConfig := mkConfig None None " " "error".

Lemma MakeLogger_null consoleLevel name fs :
  MakeLogger NullLoggingManager consoleLevel name fs =
    match null_error fs with
    | Some err => (fs, Err err)
    | None =>
      (opened fs,
       Ok (mkLogger [mkCore DebugLevel service_config [Component name] (ServiceWriter (Plain (next_file fs)));
                     mkCore consoleLevel console_config [Component name] StdWriter] false))
    end.
Proof. unfold MakeLogger. cbn. unfold mbind, M_bind, open_null. by destruct (null_error fs). Qed.

Lemma received_grows evs s : exists l, received (run_signals evs s) = received s ++ l.
Proof.
  revert s. induction evs as [|ev evs IH]; intros s; [by exists []; rewrite app_nil_r|].
  destruct (IH (signal_step s ev)) as [l Hl]. cbn [run_signals foldl].
  change (foldl signal_step ?x ?k) with (run_signals k x). rewrite Hl. destruct ev as [sig|]; cbn [signal_step].
  - case_decide; by exists l.
  - destruct (sigCh s) as [|x q]; [by exists l|]. exists (x :: l). cbn [received]. by rewrite <-app_assoc.
Qed.

(** *** The boot *)

(** What the boot did before it made the root controller. *)
Definition prepared (m : machine) (mounts : list action) : list action := acts m ++ mounts ++ [ANotify notified].

Lemma boot_result `{HP : PluralizeLaws} k m mounts :
  Getpid k = 1 -> mountAll (Mkdir k) (Mount k) essentialMounts = (mounts, None) ->
  match null_error (open m) with
  | Some err =>
    boot k m = (mkMachine (prepared m mounts) (open m), Err (EWrap "could not create root controller: " err ""))
  | None =>
    exists ctrl, boot k m = (mkMachine (prepared m mounts ++ [AController]) (opened (open m)), Ok ctrl) /\
      snd (controllerRuntime ctrl) = empty_database /\ Runtime_State (v1alpha1Runtime ctrl) = the_state
  end.
Proof.
  intros Hp EM. unfold boot, prepared. rewrite decide_True by done. unfold mbind, M_bind, wrap_err, mount_all. rewrite EM.
  unfold issue, lift_result, on_files. cbn [acts open]. rewrite NewState_the_state.
  change (NewEvents 1000 10) with (Ok (mkEvents (replicate 1000 inhabitant) 0 1000 10)). cbv iota beta.
  unfold NewController, mbind, M_bind. cbn [Runtime_Logging NewRuntime rt_l]. rewrite MakeLogger_null. cbn [open].
  destruct (null_error (open m)) as [err|]; [by rewrite !app_assoc|].
  cbn [mret M_ret]. eexists. split; [by rewrite !app_assoc|done].
Qed.

(** ** Properties *)

(** C39: the main loop and the shutdown.  The loop runs until the first SIGTERM,
    SIGINT or SIGUSR2 and passes over every other signal; then the services
    are shut down first, the filesystems are synced, the mounts are undone in
    the reverse order, each below another before the one it is mounted on, and
    last the machine is powered off for SIGUSR2 and restarted for the others;
    [main] returns unless the kernel refuses.  All this only if every loaded
    service comes down: with one that does not, as one that was never started,
    the machine stays up for ever, nothing synced or unmounted. *)
Theorem main_loop_shutdown svc reboot before sig after :
  Forall (fun s => ~ terminating s) before -> terminating sig ->
  exists unmounts cmd,
    cmd = (if decide (sig = SIGUSR2) then LINUX_REBOOT_CMD_POWER_OFF else LINUX_REBOOT_CMD_RESTART) /\
    ((forall id, id ∈ loaded svc -> comes_down svc id = true) ->
     main_loop svc reboot essentialMounts (before ++ sig :: after) =
      (AShutdownServices :: ASync :: unmounts ++ [AReboot cmd],
       match reboot cmd with Some err => Exits 1 ("reboot syscall failed: " +:+ Error err) | None => Returns end)) /\
    (forall id, id ∈ loaded svc -> comes_down svc id = false ->
     main_loop svc reboot essentialMounts (before ++ sig :: after) = ([AShutdownServices], WaitsForServices)) /\
    unmounts = (fun m => AUnmount (target m)) <$> rev essentialMounts /\
    (forall i j m m', essentialMounts !! i = Some m -> essentialMounts !! j = Some m' -> above (target m) (target m') = true ->
       exists i' j', unmounts !! i' = Some (AUnmount (target m)) /\ unmounts !! j' = Some (AUnmount (target m')) /\ (j' < i')%nat).
Proof.
  intros HB HT. exists ((fun m => AUnmount (target m)) <$> rev essentialMounts). eexists. split; [reflexivity|].
  rewrite main_loop_run by done. unfold shutdown, syncAndUnmountAll. rewrite unmount_from_rev. split_and!; [| |done|].
  - intros HD. rewrite (proj2 (Shutdown_returns_iff svc) HD). destruct HT as [->|[->| ->]]; done.
  - intros id Hid Hd. destruct (Shutdown_returns svc) eqn:E; [|done].
    rewrite (proj1 (Shutdown_returns_iff svc) E id Hid) in Hd. done.
  - intros i j m m' Hi Hj Ha.
    assert (i < j)%nat as Hij by (by eapply essential_nested).
    assert (i < 7 /\ j < 7)%nat as [Li Lj] by (split; [exact (lookup_lt_Some _ _ _ Hi)|exact (lookup_lt_Some _ _ _ Hj)]).
    exists (6 - i)%nat, (6 - j)%nat. rewrite !list_lookup_fmap.
    rewrite !(rev_alt essentialMounts : rev essentialMounts = reverse essentialMounts).
    rewrite !reverse_lookup by (simpl; lia). change (length essentialMounts) with 7%nat.
    replace (7 - S (6 - i))%nat with i by lia. replace (7 - S (6 - j))%nat with j by lia.
    rewrite Hi, Hj. split_and!; [done|done|lia].
Qed.

(** Mounting.  Every filesystem is tried in order until the kernel refuses a
    directory, or a mount for another reason than that it is busy; the error
    then names the mount, and nothing is tried after it. *)
Theorem mount_all_exact mkdir mount specs :
  let ok m := mkdir (target m) = None /\ (mount m = None \/ mount m = Some EBUSY) in
  let '(acts, err) := mountAll mkdir mount specs in
  (err = None <-> Forall ok specs) /\
  exists done rest, specs = done ++ rest /\ Forall ok done /\
    match rest with
    | [] => err = None /\ acts = done ≫= (fun m => [AMkdir (target m); AMount m])
    | m :: _ => exists e, err = Some e /\ ~ ok m /\
                acts = (done ≫= (fun m => [AMkdir (target m); AMount m])) ++ AMkdir (target m) ::
                       (if decide (mkdir (target m) = None) then [AMount m] else [])
    end.
Proof.
  intros ok. induction specs as [|m specs IH]; cbn [mountAll].
  { split; [done|]. exists [], []. done. }
  destruct (mkdir (target m)) as [e|] eqn:E1.
  - split; [split; [done|intros [[? _] _]%Forall_cons; congruence]|].
    exists [], (m :: specs). split_and!; [done..|]. eexists. split_and!; [done|intros [? _]; congruence|].
    simpl. rewrite decide_False by congruence. done.
  - assert (forall a er, (a, er) = mountAll mkdir mount specs -> ok m ->
      (er = None <-> Forall ok (m :: specs)) /\
      exists done rest, m :: specs = done ++ rest /\ Forall ok done /\
        match rest with
        | [] => er = None /\ AMkdir (target m) :: AMount m :: a = done ≫= (fun m => [AMkdir (target m); AMount m])
        | m' :: _ => exists e, er = Some e /\ ~ ok m' /\
            AMkdir (target m) :: AMount m :: a = (done ≫= (fun m => [AMkdir (target m); AMount m])) ++ AMkdir (target m') ::
                       (if decide (mkdir (target m') = None) then [AMount m'] else [])
        end) as HOk.
    { intros a er Ea Hm. rewrite <-Ea in IH. destruct IH as [IH1 (dn & rest & -> & Hdn & IH2)].
      split; [rewrite IH1, Forall_cons; tauto|]. exists (m :: dn), rest. split_and!; [done|by constructor|].
      destruct rest as [|m' rest].
      - destruct IH2 as [-> ->]. done.
      - destruct IH2 as (e & -> & ? & ->). exists e. done. }
    destruct (mount m) as [e|] eqn:E2; [case_decide as Eb|].
    + destruct (mountAll mkdir mount specs) as [a er] eqn:Ea. apply HOk; [done|]. subst e. split; auto.
    + split; [split; [done|intros [[_ [?|?]] _]%Forall_cons; congruence]|].
      exists [], (m :: specs). split_and!; [done..|]. eexists. split_and!; [done|intros [_ [?|?]]; congruence|].
      simpl. rewrite decide_True by done. done.
    + destruct (mountAll mkdir mount specs) as [a er] eqn:Ea. apply HOk; [done|]. split; auto.
Qed.

Definition demo_services : loaded_services := mkLoaded ["udevd"; "apid"] (fun _ => true).

Lemma main_loop_shutdown_witness :
  exists unmounts,
    main_loop demo_services (fun _ => None) essentialMounts [SIGCHLD; SIGUSR1; SIGUSR2; SIGTERM] =
      (AShutdownServices :: ASync :: unmounts ++ [AReboot LINUX_REBOOT_CMD_POWER_OFF], Returns) /\ length unmounts = 7%nat.
Proof.
  destruct (main_loop_shutdown demo_services (fun _ => None) [SIGCHLD; SIGUSR1] SIGUSR2 [SIGTERM]) as (u & cmd & -> & H & _ & -> & _).
  - repeat constructor; unfold terminating, SIGCHLD, SIGUSR1, SIGTERM, SIGINT, SIGUSR2; lia.
  - right. right. done.
  - eexists. split; [apply H; by intros id _|done].
Defined.

(** C40: The channel of the signals.  The signals that the loop receives, with
    those it has yet to receive, are signals that arrived, in the order of
    their arrival, and never more than eight are pending; none is lost while
    eight or fewer have arrived.  A terminating signal that finds a place is
    acted on once the loop has received what was before it; one that finds the
    channel full is dropped. *)
Theorem signals_delivered evs svc reboot mounts sig s :
  s = run_signals evs no_signals ->
  terminating sig ->
  (received s ++ sigCh s) `sublist_of` arrivals evs /\
  (length (sigCh s) <= sigCh_cap)%nat /\
  ((length (arrivals evs) <= sigCh_cap)%nat -> received s ++ sigCh s = arrivals evs) /\
  ((length (sigCh s) < sigCh_cap)%nat -> Forall (fun x => ~ terminating x) (received s ++ sigCh s) ->
     forall more, exists n,
       let s' := run_signals (Arrive sig :: replicate n Receive ++ more) s in
       main_loop svc reboot mounts (received s') = shutdown svc reboot mounts (bool_decide (sig = SIGUSR2))) /\
  (length (sigCh s) = sigCh_cap -> signal_step s (Arrive sig) = s).
Proof.
  intros -> HT. destruct (run_signals_ok evs) as [H1 H2 H3]. set (s := run_signals evs no_signals) in *.
  split; [done|]. split; [done|]. split; [done|]. split.
  - intros Hl HF more. exists (S (length (sigCh s))). cbv zeta.
    assert (sig ∈ notified) as Hn by (destruct HT as [->|[->| ->]]; compute_done).
    cbn [run_signals foldl]. cbn [signal_step]. rewrite decide_True by done.
    change (foldl signal_step ?x ?l) with (run_signals l x). rewrite run_signals_app.
    replace (S (length (sigCh s))) with (length (sigCh (mkSignals (sigCh s ++ [sig]) (received s))))
      by (simpl; rewrite length_app; simpl; lia).
    rewrite receive_all. cbn [sigCh received].
    destruct (received_grows more (mkSignals [] (received s ++ sigCh s ++ [sig]))) as [l ->]. cbn [received].
    rewrite app_assoc, <-app_assoc. by apply main_loop_run.
  - intros Hl. cbn [signal_step]. rewrite decide_False; [done|]. lia.
Qed.

Lemma signals_delivered_witness :
  exists n, main_loop demo_services (fun _ => None) essentialMounts
    (received (run_signals (Arrive SIGTERM :: replicate n Receive ++ []) (run_signals [Arrive SIGCHLD; Arrive SIGUSR1; Receive] no_signals)))
    = shutdown demo_services (fun _ => None) essentialMounts false.
Proof.
  assert (terminating SIGTERM) as HT by by left.
  destruct (signals_delivered [Arrive SIGCHLD; Arrive SIGUSR1; Receive] demo_services (fun _ => None) essentialMounts SIGTERM _
      eq_refl HT)
    as (_ & _ & _ & HD & _).
  destruct (HD ltac:(vm_compute; lia) ltac:(vm_compute; repeat constructor; intros [?|[?|?]]; discriminate) []) as [n HE].
  exists n. exact HE.
Defined.

(** C18: The boot.  As another process than 1 the program does nothing but say
    so; a mount that fails ends it, and nothing is started; otherwise every
    filesystem is mounted first, then the signals are subscribed to; a null
    device that cannot be opened for the log ends it then, still with nothing
    started; otherwise the controllers start, all eight of which register.  The
    state never fails.  From then on only the main loop acts. *)
Theorem main_boots `{HP : PluralizeLaws} k svc sigs m mounts err loop e :
  mountAll (Mkdir k) (Mount k) essentialMounts = (mounts, err) ->
  main_loop svc (Reboot k) essentialMounts sigs = (loop, e) ->
  (Getpid k <> 1 -> main k svc sigs m = (m, Exits 1 ("machined must run as PID 1, got pid " +:+ pretty (Getpid k)))) /\
  (Getpid k = 1 -> forall x, err = Some x ->
     main k svc sigs m = (mkMachine (acts m ++ mounts) (open m), Exits 1 ("mount setup failed: " +:+ Error x))) /\
  (Getpid k = 1 -> err = None -> forall x, null_error (open m) = Some x ->
     main k svc sigs m = (mkMachine (acts m ++ mounts ++ [ANotify notified]) (open m),
                          Exits 1 ("could not create root controller: " +:+ Error x))) /\
  (Getpid k = 1 -> err = None -> null_error (open m) = None ->
     exists ctrl db m', boot k m = (m', Ok ctrl) /\
       acts m' = acts m ++ mounts ++ [ANotify notified; AController] /\
       Run ctrl = (db, Ok tt) /\ registered db = Name <$> os_controllers /\
       NewState empty_store = (Runtime_State (v1alpha1Runtime ctrl), Ok tt) /\
       main k svc sigs m = (mkMachine (acts m' ++ loop) (open m'), e)).
Proof.
  intros EM EL. split_and!.
  - intros Hp. unfold main, boot. by rewrite decide_False.
  - intros Hp x ->. unfold main, boot. rewrite decide_True by done. unfold mbind, M_bind, wrap_err, mount_all.
    rewrite EM. cbn [Error]. by rewrite str_app_nil.
  - intros Hp -> x Hx. pose proof (boot_result k m mounts Hp EM) as HB. rewrite Hx in HB. unfold main. rewrite HB.
    cbn [Error]. by rewrite str_app_nil.
  - intros Hp -> Hx. pose proof (boot_result k m mounts Hp EM) as HB. rewrite Hx in HB. destruct HB as (ctrl & HB & HD & HS).
    destruct (Controller_Run_ok [] os_controllers empty_database os_registrable empty_registered) as (db & HR & [_ HN _ _]).
    exists ctrl, db, (mkMachine (prepared m mounts ++ [AController]) (opened (open m))). split; [done|].
    split; [unfold prepared; by rewrite <-!app_assoc|]. split; [by unfold Run; rewrite HD|]. split; [exact HN|].
    split; [by rewrite HS; apply NewState_the_state|]. unfold main. by rewrite HB, EL.
Qed.

(** What the controllers log.  A record at a level below those that end
    the program goes to both destinations, with the name of the component: in
    full to the log of the service, and to the console once, on one line that
    starts with the program's prefix and the time, its own time and level left
    out. *)
Theorem controller_logs_exact EncodeEntry now rt fs ctrl fs' lvl msg full short :
  Runtime_Logging rt = NullLoggingManager ->
  NewController rt fs = (fs', Ok ctrl) ->
  Level_num lvl < Level_num DPanicLevel ->
  EncodeEntry service_config [Component "controller-runtime"] lvl msg = inr full ->
  EncodeEntry console_config [Component "controller-runtime"] lvl msg = inr short ->
  exists ce, Check_ (logger ctrl) lvl msg = Some ce /\
    forall con,
      CheckedEntry_Write (machined_writers now) EncodeEntry ce (mkLogWorld con fs') =
        (mkLogWorld (con ++ [log_prefix +:+ AppendFormat now +:+ " " +:+ short +:+
                             (if decide (last_char short = Some newline) then "" else String newline EmptyString)])
                    (fst (file_Write (next_file fs) full fs')), Returned tt) /\
      Logging.data (fst (file_Write (next_file fs) full fs')) = Logging.data fs ++ [(next_file fs, full)].
Proof.
  intros HL HC Hl HF HS. unfold NewController, mbind, M_bind in HC. rewrite HL, MakeLogger_null in HC.
  destruct (null_error fs); [done|]. injection HC as <- <-. cbn [logger mret]. set (fs1 := opened fs).
  assert (next_file fs ∈ open_files fs1) as Hin by (unfold fs1; simpl; set_solver).
  exists (mkChecked lvl msg [mkCore DebugLevel service_config [Component "controller-runtime"] (ServiceWriter (Plain (next_file fs)));
    mkCore DebugLevel console_config [Component "controller-runtime"] StdWriter] ANothing).
  split; [by destruct lvl; simpl in Hl; try lia|]. intros con.
  assert (forall p, file_Write (next_file fs) p fs1 = (mkFiles (next_file fs1) (open_files fs1) (Logging.data fs1 ++ [(next_file fs, p)]) (null_error fs1),
    (str_len p, None))) as HW by (intros p; unfold file_Write; by rewrite decide_True).
  split; [|by rewrite HW].
  unfold CheckedEntry_Write. cbn [ce_level ce_message ce_cores ce_after foldl]. unfold core_Write at 2.
  cbn [core_config core_context core_writer]. rewrite HF. cbn [machined_writers]. unfold log_Write. cbn [log_files].
  rewrite HW. cbn [fst console]. unfold core_Write. cbn [core_config core_context core_writer]. rewrite HS.
  cbn [machined_writers StdWriter]. unfold logWrapper_Write, log_Print, stamped_line. cbn [fst console log_files].
  by rewrite <-!str_app_assoc.
Qed.

Definition demo_encode (c : EncoderConfig) (context : list Field) (l : Level) (msg : string) : error + string :=
  inr ((match EncodeLevel c with Some _ => "INFO " | None => "" end) +:+ msg +:+ String.concat "" ((fun f => " " +:+ field_Key f +:+ "=" +:+ field_String f) <$> context)).

Lemma controller_logs_exact_witness :
  exists ce w, CheckedEntry_Write (machined_writers demo_time) demo_encode ce (mkLogWorld [] (opened demo_files)) = (w, Returned tt) /\
    console w = ["[machined] 2026/03/09 07:05:04.123456 controller starting component=controller-runtime" +:+ String newline EmptyString].
Proof.
  pose (rt := NewRuntime NullLoggingManager (mkEvents [] 0 0 0) empty_store).
  destruct (NewController rt demo_files) as [fs' [ctrl|e|p]] eqn:HC; [|vm_compute in HC; discriminate..].
  assert (fs' = opened demo_files) as -> by (vm_compute in HC; by injection HC as <- _).
  destruct (controller_logs_exact demo_encode demo_time rt demo_files ctrl _ InfoLevel "controller starting" _ _
    eq_refl HC ltac:(simpl; lia) eq_refl eq_refl) as (ce & _ & HW). destruct (HW []) as [HE _].
  eexists ce, _. split; [exact HE|]. by vm_compute.
Defined.

(** The device filesystem is already there, as under QEMU. *)
Definition demo_kernel : kernel :=
  mkKernel 1 (fun _ => None) (fun m => if decide (target m = "/dev") then Some EBUSY else None) (fun _ => None).

Lemma main_boots_witness :
  exists ctrl m', @boot table demo_kernel (mkMachine [] demo_files) = (m', Ok ctrl) /\ length (acts m') = 16%nat /\
    main (H := table) demo_kernel demo_services [SIGCHLD] (mkMachine [] demo_files) = (mkMachine (acts m' ++ []) (open m'), Waits).
Proof.
  destruct (mountAll (Mkdir demo_kernel) (Mount demo_kernel) essentialMounts) as [mounts err] eqn:EM.
  assert (err = None) as -> by (vm_compute in EM; by injection EM as _ <-).
  assert (length mounts = 14%nat) as HL by (vm_compute in EM; by injection EM as <-).
  destruct (main_boots (HP := table_laws) demo_kernel demo_services [SIGCHLD] (mkMachine [] demo_files) _ _ [] Waits EM eq_refl)
    as (_ & _ & _ & HM).
  destruct (HM eq_refl eq_refl eq_refl) as (ctrl & db & m' & HB & HA & _ & _ & _ & HE).
  exists ctrl, m'. split; [exact HB|]. split; [|exact HE]. rewrite HA. cbn [acts]. rewrite !length_app, HL. reflexivity.
Defined.
